(* ===== verification/_CoqProject ===== *)
-Q . S2P
Prelude.v
Slice.v
Bytes.v
Json.v
JsonSyntax.v
Config.v
Rollup.v
MockRollup.v
Streamer.v
StreamerProofs.v
StreamerRun.v
StreamerTheorems.v
FeedStart.v
Poller.v
StreamerChain.v
NitroTypes.v
GoBigInt.v
NitroVerify.v
Rlp.v
RlpInstance.v
Batch.v
FeedJson.v
WireText.v
NitroPayload.v
Nitro.v
NitroTheorems.v
FeedSignature.v
Keccak.v
Feed.v
FeedTheorems.v
FeedClient.v
FeedLifecycle.v
Relay.v
FeedWire.v
L1Monitor.v
System.v
SystemTheorems.v
Delivery.v
L1Provider.v
Submitter.v
DaError.v
EspressoClient.v
DevNode.v
WsProxy.v
Startup.v
ConfigJson.v
Stack.v
ConformStreamer.v
ConformConfig.v
ConformNitro.v
ConformFeed.v
ConformWire.v
Service.v
WritePath.v
KeyManager.v
Attestation.v
Certificate.v
DaServer.v
DaCodec.v
DaServerTheorems.v
Certification.v
DaReply.v
ConformDa.v
ConformLarge.v
Supervisor.v
Logging.v
Main.v
