(* ===== verification/Prelude.v ===== *)
(** * Chain Adjacent Service: a verification library

    The Chain Adjacent Service (CAS) runs beside an Arbitrum Nitro rollup.  It
    follows the sequencer's feed and submits its messages to Espresso's HotShot,
    reads them back from the namespace, keeps the unfinalized ones in a queue,
    serves them to subscribers as an Espresso-finalized feed, and stands between
    the batch poster and the DA layer: a batch is certified, with a key that lives
    in a TEE, only if it agrees with the queue.

    ** The parts and their files

    Sources are under [src/src/].
    - [Prelude] (this file): results and early returns, machine integers, shared
      tactics and list lemmas.  [Slice]: Rust's binary search, [partition_point]
      and sorted vectors.  [Bytes]: big-endian integers and byte strings.  [Json]:
      the value tree of [serde_json] and what a derived reader does with an object
      (order, aliases, defaults, duplicates).  [JsonSyntax]: the text of a document, an
      executable printer and parser.
    - [Config]: the configuration records and defaults.  [ConfigJson]: the reading of
      the configuration file and of the secret, field by field.
    - [Rollup]: the traits [Rollup], [RollupQueueEntry] and [EspressoReader] as
      classes and records, with the laws the streamer relies on; bounded channels.
      [MockRollup]: the test rollup, an instance.
    - [Streamer]: [streamer/streamer.rs], one definition per method, the event
      loop as [handle_event], reachability as [reachable]; the abstract
      specification is an unbounded first-seen index ([spec_event]).
      [StreamerProofs] and [StreamerRun] hold the lemmas, [StreamerTheorems] the
      theorems, with [MockRollup] for the witnesses.  [FeedStart]: when the feed
      sends its first message.  [StreamerChain]: the streamer against a chain of
      blocks, read once from a start height.
    - [Poller]: [poll_hotshot_blocks] and its composition with the streamer.
      [EspressoClient]: the query-service client and the two readers
      ([espresso_client/]) it polls.
    - [NitroTypes], [NitroVerify], [Rlp], [RlpInstance], [Batch], [NitroPayload],
      [Nitro], [NitroTheorems]: the Nitro stack ([rollups/nitro/]): data, batch
      verification, hand-written RLP, batch parsing, HotShot payloads, signatures,
      and [Nitro] as an instance of [Rollup].  [GoBigInt], [FeedJson]: the JSON of the
      base fee and of the feed messages; [WireText]: executable base64 and
      hexadecimal.  [FeedSignature]: what a feed signature covers.  [Keccak]: an
      executable Keccak-256, for the test vectors.  [Stack]: the rest of the traits
      [Rollup] and [L1Monitor] (payloads, start position, monitors) with the Nitro and
      the mock instance.
    - [Feed], [FeedTheorems]: the feed server ([feed/ws_server.rs],
      [feed/broadcaster.rs]) as interleaved steps on the shared backlog and
      broadcast channel.  [FeedLifecycle]: its keep-alive, client count, start, stop
      and accept loop.  [FeedClient]: the feed client ([feed/client.rs]) and the
      handshake.  [Relay]: the relay ([feed/relay.rs]), and the theorem that joins
      streamer, relay and feed server.  [FeedWire]: the frames between a feed server
      and the client of the next service, as JSON.  [WsProxy]: [ws_proxy_connect.rs], as
      sequences of network operations.
    - [L1Monitor]: the scan and the finality loop of [l1_monitor.rs];
      [L1Provider]: the monitor over an RPC provider.  [Submitter]:
      [submitter/submitter.rs].
    - [DaError], [KeyManager], [Certificate], [DaServer], [DaCodec],
      [DaServerTheorems], [DaReply]: the key manager and the DA provider API
      ([da_api/], [key_manager/]), with its JSON, error replies and routes.  [Attestation]: the
      attestation, prover and contract clients the key manager is built from.
    - [Startup], [Service], [Supervisor], [Logging]: [secrets.rs], [main.rs] and
      [lib.rs]: the configuration, the reader, the start position, the tasks and
      how the service ends, and the log filter.  [Main]: [main] from the files and
      the environment to the running tasks.
    - Compositions: [Service] (configuration, light client, poller, streamer),
      [WritePath] (submitter, payloads, chain, poller, streamer), [Certification]
      (streamer and DA server), [Relay] (streamer, relay and feed server),
      [Supervisor] (all tasks), and [System], [SystemTheorems], [Delivery]: poller,
      streamer, relay, feed server, L1 monitor and DA server running together, every
      interleaving of their steps, and what they can always get done.
    - [DevNode]: the Docker stack the tests share ([espresso_e2e/]), its permit and the
      wait for its first block.
    - [ConformStreamer], [ConformConfig], [ConformNitro], [ConformFeed],
      [ConformWire], [ConformDa], [ConformLarge]: the repository's tests as programs
      over these definitions, with the statements that they pass, by evaluation or, at
      the program's limits, by the lemmas on them.

    ** How the code is modelled

    A [u64] is a [Z] with the wrap-around of release builds written out; a
    [Result] is [result]; a [BTreeMap] is a [gmap] read in key order; a byte
    string is a list of bytes.  Asynchronous loops are step functions whose inputs
    are the events the loop selects on, the node's answers and the clock; tasks
    that share state (feed server, submitter) interleave as steps of a reachability
    relation.  Logging is left out.  Code of other crates is a class parameter or
    an input: keccak256 and secp256k1 recovery, brotli, [alloy_rlp], [serde_json],
    the HTTP stack, the EIP-712 signer, the Espresso node, the L1 provider and the
    TEE.  Where a theorem relies on their documented behaviour it says so in a
    class of laws, and a concrete instance of the class shows the laws can hold
    ([concrete_rlp], [base64_text], [decimal_u256], [json_text], [serde_codec],
    [table_json], [toy_signer] and others).

    ** What the theorems show

    - System: under every interleaving of the tasks the streamer has seen a stretch of
      the chain and nothing else, a verified batch is on the chain, a subscriber sees
      the chain's messages in order and agrees with the certificates, and from every
      state the service can catch up and deliver what it finds to a subscriber.
    - Streamer: the state invariant of every reachable state; refinement of the
      unbounded index under evictions, promotions and failing nodes, and what that
      index is in terms of the events (a message re-sent after its finalization is
      in it again until the next one); what a broadcast sends, exactly, and when it
      is retried; promotion from an honest node, lowest stubs first; what a stub in
      the next position does to the feed.
    - Read path: a verifying build indexes exactly the certified chain, signed by
      those the measured file trusts, on a network other than Decaf (below); over the
      query service the poller catches up.
      Write path: what the submitter took is in its transactions and, once on the
      chain, in the streamer.
    - Verification: what makes [verify_batch_messages] succeed; a certificate of the
      running service stands for a stretch of the queue.
    - Encodings: a batch parses exactly to its canonical replay; RLP, HotShot payloads,
      certificates and the JSON of the feed round-trip, the latter also between two
      services; a feed signature binds the message in the default build and does not in
      the others.
    - Certificates and the DA server: nothing forged is unwrapped, calldata is
      recovered as stored, where the downstream certificate comes from, and what a
      client reads of an error.
    - Feed: a subscriber receives what the streamer sent, strictly ordered, once,
      without loss; the feed client forwards exactly the verified messages and
      asks, each time it reconnects, for the one after the last it forwarded; client
      and server agree on the handshake; the keep-alive bounds a client's silence; a
      stopped server ends through its cancelled tokens; connections leave through the
      proxy only.
    - L1 monitor: the scan finds the latest checkpoint; what the monitor publishes is
      below a fresh start until finality passes the block it was read at.  Submitter: bounded, first-in first-out, lossless, free
      of deadlock, and tasks complete.  Key manager: the key is registered with an
      attestation of itself and confirmed by address.  Service: the smallest
      configuration file and its defaults, the configuration it starts with is sound
      and typed, the start stops at the first failure with nothing done after it and
      registers only the key of the configuration that was checked, and whichever task
      ends, the service ends with an error.
    - These theorems record behaviour that departs from the intent of the code:
      [verify_accepts_gap], [oversized_message_never_drained],
      [resubmission_blocks_promotion], [reconnect_never_backs_off],
      [feed_waits_for_finality], [big_fee_sinks_transaction], [stub_blocks_feed] and
      [feed_signature_malleable]; lemmas without a claim number record smaller ones
      ([min_block_ignores_stubs], [downstream_position],
      [retry_ignores_fatal], [small_limit_stalls], [wss_ignores_http_proxy],
      [cursor_may_tear], [calldata_name_panics], [null_error_forwards],
      [restart_leaks_loop], [own_results_as_declared]).

    ** Bounds and fuel

    [fetch_ranges] takes the number of heights as fuel and consumes at least one
    per round.  [scan_loop] takes one turn per block up to the head, and each turn
    moves below the last; [scan_finds_latest] proves the result is reached.
    [parse_messages] and [legacy_loop] take the length of their input, which every
    round shortens.  [decode_segments] takes [MAX_SEGMENTS], the code's own bound.
    [build_tx_fn] takes a fuel that [build_tx_fn_complete] shows to be enough with
    one round per message.  [print_digits] takes twenty digits, enough for a
    [u64].  [absorb_all] takes the length of the padded input, which every round
    shortens.  [parse_value] takes one more than the length of the text and its loops
    over elements and members the length of theirs; [json_text_laws] proves this enough
    for every printed document.  Loops that may run for ever ([poll_hotshot_blocks], [retry_connect],
    [monitor_run], the submitter) run over the list of their inputs.

    ** What the theorems assume

    The laws of the classes of other crates, each with a concrete instance.  Those of
    the light client ([LightClientLaws]) follow [docs/light-client-catchup.md]: a range
    it returns is certified under the genesis, except that on Decaf the server's
    stake-table events are trusted for older roots, so nothing is assumed there.  The
    theorems that follow messages through JSON (feed hop, payloads, write path) assume
    base fees below 2^64, since larger ones are written and not read back.  The
    configuration file is parsed once and read twice from that document, whereas
    [serde_json] reads its text twice; the two may differ in what they accept of parts
    that are ignored (numbers out of range, deep nesting).  A start is followed to the
    tasks, with the panics of the three channels that [run] creates; the capacities of
    the streamer's HotShot channel and of the feed server's broadcast channel are met
    inside the tasks, where zero panics as well.

    ** Not modelled

    Sockets, TLS and the wire formats of other crates, which are parameters;
    command-line parsing by [clap]; tracing output; of the tests, those against a live
    network or the batches of a data file, those of other crates' code (Brotli, the
    tracing filter, the light client and its genesis), and one whose input is a megabyte
    of JSON ([build_spec] is its limit). *)

From stdpp Require Export base gmap list sorting strings.
From Stdlib Require Export ZArith Lia.

#[global] Open Scope Z_scope.

(** ** Results

    Rust's [Result<A, E>].  The notation [let? x := e in k] is the [?]
    operator: an [Err] leaves the enclosing function with the same error. *)

Inductive result (A E : Type) : Type :=
| Ok (a : A)
| Err (e : E).

Arguments Ok {A E} a.
Arguments Err {A E} e.

Declare Scope cas_scope.
Delimit Scope cas_scope with cas.

Notation "'let?' x := e 'in' k" :=
  (match e with Ok x => k | Err err => Err err end)
  (at level 200, x name, e at level 100, k at level 200) : cas_scope.

Notation "'let?' ' p := e 'in' k" :=
  (match e with Ok p => k | Err err => Err err end)
  (at level 200, p strict pattern, e at level 100, k at level 200) : cas_scope.

(** Decided equality, as the assertions of the repository's tests write it. *)
Notation "a =! b" := (bool_decide (a = b)) (at level 70, no associativity) : cas_scope.

#[global] Open Scope cas_scope.

(** [Result::map_err], [Result::ok], [Result::is_ok]. *)
Lemma Ok_inj {A E} (a b : A) : @Ok A E a = Ok b → a = b.
Proof. by intros [= ->]. Qed.

Definition map_err {A E F} (f : E → F) (r : result A E) : result A F :=
  match r with Ok a => Ok a | Err e => Err (f e) end.

Definition ok {A E} (r : result A E) : option A :=
  match r with Ok a => Some a | Err _ => None end.

Definition is_ok {A E} (r : result A E) : bool :=
  match r with Ok _ => true | Err _ => false end.

(** [Option::ok_or]. *)
Definition ok_or {A E} (o : option A) (e : E) : result A E :=
  match o with Some a => Ok a | None => Err e end.

(** ** Machine integers

    A [u64] is a [Z] in [0, 2^64).  The release profile compiles [+] and [-]
    without overflow checks, so they wrap; the [saturating_*] and [checked_*]
    methods are written out. *)

Definition u64_modulus : Z := 2 ^ 64.

Definition is_u64 (z : Z) : Prop := 0 ≤ z < u64_modulus.

Definition wrap64 (z : Z) : Z := z `mod` u64_modulus.

Definition u64_add (a b : Z) : Z := wrap64 (a + b).

Definition u64_sub (a b : Z) : Z := wrap64 (a - b).

Definition saturating_sub (a b : Z) : Z := Z.max 0 (a - b).

Definition saturating_add (a b : Z) : Z := Z.min (u64_modulus - 1) (a + b).

Definition checked_add (a b : Z) : option Z :=
  if a + b <? u64_modulus then Some (a + b) else None.

(** [len() as u64] of a list. *)
Definition zlen {A} (l : list A) : Z := Z.of_nat (length l).

(** ** Automation *)

Create HintDb cas.

#[export] Instance is_u64_dec z : Decision (is_u64 z).
Proof. unfold is_u64. apply _. Defined.

(** [u64_arith] unfolds the machine arithmetic, removes the wrap-around where
    the operands fit and closes the linear goal that is left. *)
Ltac u64_arith :=
  unfold u64_add, u64_sub, wrap64, is_u64, saturating_add, saturating_sub, zlen, u64_modulus in *;
  repeat (rewrite Z.mod_small by lia);
  try lia.

(** [case_bool] splits the boolean comparisons of the goal and the context into
    propositions. *)
Ltac case_bool :=
  repeat match goal with
  | |- context [if ?b then _ else _] => destruct b eqn:?
  | H : context [if ?b then _ else _] |- _ => destruct b eqn:?
  end;
  repeat match goal with
  | H : (_ <? _) = true |- _ => apply Z.ltb_lt in H
  | H : (_ <? _) = false |- _ => apply Z.ltb_ge in H
  | H : (_ <=? _) = true |- _ => apply Z.leb_le in H
  | H : (_ <=? _) = false |- _ => apply Z.leb_gt in H
  | H : (_ =? _) = true |- _ => apply Z.eqb_eq in H
  | H : (_ =? _) = false |- _ => apply Z.eqb_neq in H
  | H : (_ <? _)%nat = true |- _ => apply Nat.ltb_lt in H
  | H : (_ <? _)%nat = false |- _ => apply Nat.ltb_ge in H
  | H : (_ <=? _)%nat = true |- _ => apply Nat.leb_le in H
  | H : (_ <=? _)%nat = false |- _ => apply Nat.leb_gt in H
  | H : (_ =? _)%nat = true |- _ => apply Nat.eqb_eq in H
  | H : (_ =? _)%nat = false |- _ => apply Nat.eqb_neq in H
  end.

(** [inv_ok] turns an equation between results or options into equations
    between what they carry. *)
Ltac inv_ok :=
  repeat match goal with
  | H : Ok _ = Ok _ |- _ => injection H as H
  | H : Err _ = Err _ |- _ => injection H as H
  | H : Ok _ = Err _ |- _ => discriminate H
  | H : Err _ = Ok _ |- _ => discriminate H
  end; simplify_eq/=.

(** [split_ok] destructs the scrutinee of a [let?] (or of any match on a
    result) in the hypotheses and drops the impossible branches. *)
Ltac split_ok :=
  repeat (inv_ok; match goal with
  | H : match ?e with Ok _ => _ | Err _ => _ end = _ |- _ =>
      let E := fresh "E" in destruct e eqn:E
  end); inv_ok.

(** ** Generic list lemmas *)

Lemma take_drop_lookup {A} (l : list A) n x :
  l !! n = Some x → l = take n l ++ x :: drop (S n) l.
Proof. intros H. by rewrite (take_drop_middle l n x H). Qed.

Lemma Forall_take_drop {A} (P : A → Prop) n (l : list A) :
  Forall P l ↔ Forall P (take n l) ∧ Forall P (drop n l).
Proof. rewrite <- Forall_app, take_drop. done. Qed.

Lemma last_Some_elem {A} (l : list A) x : last l = Some x → x ∈ l.
Proof. intros (l' & ->)%last_Some. set_solver. Qed.
