(* ===== verification/Slice.v ===== *)
(** * Rust slices and ordered queues

    The binary search of Rust's standard library ([slice::binary_search_by],
    on which [partition_point] and [binary_search_by_key] are built), the vector
    updates the service uses ([Vec::insert], [Vec::drain(0..k)]) and the theory
    of queues strictly sorted by a key: on such a queue the search finds the
    boundary, and insertion at the boundary keeps the queue sorted. *)

From S2P Require Import Prelude.

(** The halving loop of [binary_search_by]: [size] shrinks by its half in each
    round, so [fuel = size] rounds are more than enough. *)
Fixpoint bs_loop {A} (cmp : A → comparison) (l : list A) (fuel base size : nat) : nat :=
  match fuel with
  | O => base
  | S fuel' =>
      if (size <=? 1)%nat then base
      else
        let half := Nat.div2 size in
        let mid := (base + half)%nat in
        let base' :=
          match l !! mid with
          | Some x => match cmp x with Gt => base | _ => mid end
          | None => base
          end in
        bs_loop cmp l fuel' base' (size - half)
  end.

(** [Ok i]: found at [i]; [Err i]: absent, [i] is where it would be inserted. *)
Definition binary_search_by {A} (cmp : A → comparison) (l : list A) : result nat nat :=
  match l with
  | [] => Err O
  | _ =>
      let base := bs_loop cmp l (length l) 0 (length l) in
      match l !! base with
      | Some x =>
          match cmp x with
          | Eq => Ok base
          | Lt => Err (S base)
          | Gt => Err base
          end
      | None => Err base
      end
  end.

Definition binary_search_by_key {A} (k : Z) (key : A → Z) (l : list A) : result nat nat :=
  binary_search_by (λ x, key x ?= k) l.

Definition partition_point {A} (pred : A → bool) (l : list A) : nat :=
  match binary_search_by (λ x, if pred x then Lt else Gt) l with
  | Ok i => i
  | Err i => i
  end.

(** [Vec::insert]. *)
Definition vec_insert {A} (pos : nat) (x : A) (l : list A) : list A :=
  take pos l ++ x :: drop pos l.

(** [Iterator::min] over a mapped slice, with [unwrap_or(0)]. *)
Definition min_or_zero (l : list Z) : Z :=
  match l with [] => 0 | x :: r => foldr Z.min x r end.

(** A queue strictly sorted by [key]. *)
Definition ssorted {A} (key : A → Z) (l : list A) : Prop :=
  StronglySorted (λ a b, key a < key b) l.

#[export] Instance ssorted_dec {A} (key : A → Z) (l : list A) : Decision (ssorted key l).
Proof. unfold ssorted. apply _. Defined.

(** ** The search loop *)

Section search.
Context {A : Type} (cmp : A → comparison).

(** [l1] is the part of the slice not above the target. *)
Lemma bs_loop_spec (l1 l2 : list A) fuel base size :
  Forall (λ x, cmp x ≠ Gt) l1 →
  Forall (λ x, cmp x = Gt) l2 →
  (size ≤ fuel)%nat → (1 ≤ size)%nat → (base + size ≤ length (l1 ++ l2))%nat →
  (base = 0 ∨ base < length l1)%nat → (length l1 ≤ base + size)%nat →
  bs_loop cmp (l1 ++ l2) fuel base size = Nat.pred (length l1).
Proof.
  intros H1 H2. revert base size.
  induction fuel as [|fuel IH]; intros base size Hf Hs Hb Hlo Hhi; [lia|].
  simpl. destruct (Nat.leb_spec size 1); [lia|].
  pose proof (Nat.div2_odd size) as Hd.
  assert (Nat.b2n (Nat.odd size) ≤ 1)%nat by (destruct (Nat.odd size); simpl; lia).
  set (half := Nat.div2 size) in *.
  destruct (lookup_lt_is_Some_2 (l1 ++ l2) (base + half)) as [x Hx]; [lia|].
  rewrite Hx.
  assert (Hcase : (cmp x = Gt ∧ length l1 ≤ base + half)%nat ∨
                  (cmp x ≠ Gt ∧ base + half < length l1)%nat).
  { destruct (decide (base + half < length l1)%nat) as [Hlt|Hge].
    - rewrite lookup_app_l in Hx by lia.
      right. split; [|lia]. by eapply Forall_lookup_1 in H1.
    - rewrite lookup_app_r in Hx by lia.
      left. split; [|lia]. by eapply Forall_lookup_1 in H2. }
  destruct Hcase as [[E ?]|[E ?]].
  - rewrite E. apply IH; lia.
  - destruct (cmp x); try done; apply IH; lia.
Qed.

Lemma bs_search_base (l1 l2 : list A) :
  Forall (λ x, cmp x ≠ Gt) l1 → Forall (λ x, cmp x = Gt) l2 → l1 ++ l2 ≠ [] →
  bs_loop cmp (l1 ++ l2) (length (l1 ++ l2)) 0 (length (l1 ++ l2)) = Nat.pred (length l1).
Proof.
  intros H1 H2 Hne. apply bs_loop_spec; try done; try lia.
  - destruct (l1 ++ l2); simpl; [done|lia].
  - rewrite length_app. lia.
Qed.

Lemma binary_search_by_unfold (l1 l2 : list A) :
  Forall (λ x, cmp x ≠ Gt) l1 → Forall (λ x, cmp x = Gt) l2 →
  binary_search_by cmp (l1 ++ l2) =
    match last l1 with
    | None => Err O
    | Some x => match cmp x with Eq => Ok (Nat.pred (length l1)) | _ => Err (length l1) end
    end.
Proof.
  intros H1 H2. unfold binary_search_by.
  destruct (l1 ++ l2) as [|y l] eqn:E.
  { apply app_eq_nil in E as [-> ->]. done. }
  rewrite <- E, bs_search_base by (done || by rewrite E).
  destruct l1 as [|z l1'] using rev_ind.
  - simpl in *. rewrite E. simpl. inversion H2; subst; try congruence.
    simplify_eq. by match goal with H : cmp _ = Gt |- _ => rewrite H end.
  - rewrite last_snoc, length_app. simpl.
    replace (Nat.pred (length l1' + 1)) with (length l1') by lia.
    rewrite <- app_assoc, lookup_app_r, Nat.sub_diag by lia. simpl.
    apply Forall_app in H1 as [_ Hz]. inversion Hz; subst.
    destruct (cmp z); try done. f_equal. lia.
Qed.
End search.

(** On a slice split by a predicate, [partition_point] is the split. *)
Lemma partition_point_app {A} (p : A → bool) (l1 l2 : list A) :
  Forall (λ x, p x = true) l1 → Forall (λ x, p x = false) l2 →
  partition_point p (l1 ++ l2) = length l1.
Proof.
  intros H1 H2. unfold partition_point.
  rewrite binary_search_by_unfold.
  - destruct (last l1) as [x|] eqn:E.
    + rewrite Forall_forall in H1. by rewrite (H1 x (last_Some_elem _ _ E)).
    + apply last_None in E. by subst.
  - eapply Forall_impl; [exact H1|]. intros x Hx. by rewrite Hx.
  - eapply Forall_impl; [exact H2|]. intros x Hx. by rewrite Hx.
Qed.

Lemma bs_loop_bound {A} (cmp : A → comparison) l fuel base size :
  (1 ≤ size)%nat → (base + size ≤ length l)%nat →
  (bs_loop cmp l fuel base size < length l)%nat.
Proof.
  revert base size. induction fuel as [|fuel IH]; intros base size Hs Hb; simpl; [lia|].
  destruct (Nat.leb_spec size 1); [lia|].
  pose proof (Nat.div2_odd size) as Hd.
  assert (Nat.b2n (Nat.odd size) ≤ 1)%nat by (destruct (Nat.odd size); simpl; lia).
  apply IH; [lia|].
  destruct (l !! _) as [x|]; [destruct (cmp x)|]; lia.
Qed.

(** Whatever the slice, the position [partition_point] returns is one
    [Vec::insert] and slicing accept. *)
Lemma partition_point_bound {A} (p : A → bool) (l : list A) :
  (partition_point p l ≤ length l)%nat.
Proof.
  unfold partition_point, binary_search_by. destruct l as [|y l]; [simpl; lia|].
  set (q := y :: l). assert (1 ≤ length q)%nat by (simpl; lia).
  pose proof (bs_loop_bound (λ x, if p x then Lt else Gt) q (length q) 0 (length q)
                ltac:(lia) ltac:(lia)).
  destruct (q !! _) as [x|]; [destruct (p x)|]; lia.
Qed.

(** ** Sorted queues *)

Section sorted.
Context {A : Type} (key : A → Z).

Lemma ssorted_app l1 l2 :
  ssorted key (l1 ++ l2) ↔
  ssorted key l1 ∧ ssorted key l2 ∧ (∀ x y, x ∈ l1 → y ∈ l2 → key x < key y).
Proof.
  unfold ssorted. induction l1 as [|a l1 IH]; simpl.
  - split; [|naive_solver]. intros H; split_and!; [constructor|done|].
    intros x y Hx. by apply elem_of_nil in Hx.
  - split.
    + intros H. apply StronglySorted_inv in H as [H Ha].
      apply IH in H as (H1 & H2 & H3). apply Forall_app in Ha as [Ha1 Ha2].
      rewrite Forall_forall in Ha2. split_and!; [by constructor|done|].
      intros x y [->|Hx]%elem_of_cons Hy; auto.
    + intros (H1 & H2 & H3). apply StronglySorted_inv in H1 as [H1 Ha].
      constructor.
      * apply IH. split_and!; try done. intros; apply H3; set_solver.
      * apply Forall_app. split; [done|]. rewrite Forall_forall.
        intros; apply H3; set_solver.
Qed.

Lemma ssorted_cons x l :
  ssorted key (x :: l) ↔ ssorted key l ∧ (∀ y, y ∈ l → key x < key y).
Proof.
  change (x :: l) with ([x] ++ l). rewrite ssorted_app. split.
  - intros (_ & H & H'). split; [done|]. intros; apply H'; set_solver.
  - intros [H H']. split_and!; [repeat constructor|done|]. set_solver.
Qed.

Lemma ssorted_nil : ssorted key [].
Proof. constructor. Qed.

Lemma ssorted_take n l : ssorted key l → ssorted key (take n l).
Proof. rewrite <- (take_drop n l) at 1. intros H%ssorted_app. tauto. Qed.

Lemma ssorted_drop n l : ssorted key l → ssorted key (drop n l).
Proof. rewrite <- (take_drop n l) at 1. intros H%ssorted_app. tauto. Qed.

(** Sorting by a threshold splits the queue. *)
Lemma ssorted_split (l : list A) (k : Z) :
  ssorted key l →
  ∃ l1 l2, l = l1 ++ l2 ∧ Forall (λ x, key x < k) l1 ∧ Forall (λ x, k ≤ key x) l2.
Proof.
  induction l as [|x l IH]; intros Hs.
  { exists [], []. split_and!; auto. }
  apply ssorted_cons in Hs as [Hs Hx].
  destruct (decide (key x < k)).
  - destruct (IH Hs) as (l1 & l2 & -> & H1 & H2). exists (x :: l1), l2. split_and!; auto.
  - exists [], (x :: l). split_and!; auto. constructor; [lia|].
    rewrite Forall_forall. intros y Hy. specialize (Hx y Hy). lia.
Qed.

(** The two searches the service performs on its queue, as splits. *)
Lemma partition_point_lt l k :
  ssorted key l →
  ∃ l1 l2, l = l1 ++ l2 ∧ partition_point (λ x, key x <? k) l = length l1 ∧
           Forall (λ x, key x < k) l1 ∧ Forall (λ x, k ≤ key x) l2.
Proof.
  intros Hs. destruct (ssorted_split l k Hs) as (l1 & l2 & -> & H1 & H2).
  exists l1, l2. split_and!; try done. apply partition_point_app.
  - eapply Forall_impl; [exact H1|]. intros x Hx. by apply Z.ltb_lt.
  - eapply Forall_impl; [exact H2|]. intros x Hx. by apply Z.ltb_ge.
Qed.

Lemma partition_point_le l k :
  ssorted key l →
  ∃ l1 l2, l = l1 ++ l2 ∧ partition_point (λ x, key x <=? k) l = length l1 ∧
           Forall (λ x, key x ≤ k) l1 ∧ Forall (λ x, k < key x) l2.
Proof.
  intros Hs. destruct (ssorted_split l (k + 1) Hs) as (l1 & l2 & -> & H1 & H2).
  exists l1, l2. split_and!; try done.
  - apply partition_point_app.
    + eapply Forall_impl; [exact H1|]. intros x Hx. apply Z.leb_le. simpl in Hx. lia.
    + eapply Forall_impl; [exact H2|]. intros x Hx. apply Z.leb_gt. simpl in Hx. lia.
  - eapply Forall_impl; [exact H1|]. simpl. intros; lia.
  - eapply Forall_impl; [exact H2|]. simpl. intros; lia.
Qed.

(** Insertion at the [partition_point] of a fresh key. *)
Lemma vec_insert_ssorted l x :
  ssorted key l → (∀ y, y ∈ l → key y ≠ key x) →
  ssorted key (vec_insert (partition_point (λ y, key y <? key x) l) x l).
Proof.
  intros Hs Hf. destruct (partition_point_lt l (key x) Hs) as (l1 & l2 & -> & -> & H1 & H2).
  unfold vec_insert. rewrite take_app_length, drop_app_length.
  apply ssorted_app in Hs as (S1 & S2 & S3). rewrite Forall_forall in H1, H2.
  apply ssorted_app. split_and!; try done.
  - apply ssorted_cons. split; [done|]. intros y Hy.
    specialize (H2 y Hy). specialize (Hf y ltac:(set_solver)). lia.
  - intros a b Ha [->|Hb]%elem_of_cons; auto.
Qed.

Lemma ssorted_key_inj l x y :
  ssorted key l → x ∈ l → y ∈ l → key x = key y → x = y.
Proof.
  induction l as [|a l IH]; intros Hs Hx Hy E; [set_solver|].
  apply ssorted_cons in Hs as [Hs Ha].
  apply elem_of_cons in Hx as [->|Hx], Hy as [->|Hy]; auto.
  - specialize (Ha _ Hy). lia.
  - specialize (Ha _ Hx). lia.
Qed.

Lemma ssorted_lookup_inj l i j x y :
  ssorted key l → l !! i = Some x → l !! j = Some y → key x = key y → i = j.
Proof.
  revert i j. induction l as [|a l IH]; intros i j Hs Hi Hj E; [done|].
  apply ssorted_cons in Hs as [Hs Ha].
  destruct i, j; simplify_eq/=; auto.
  - apply list_elem_of_lookup_2 in Hj. specialize (Ha _ Hj). lia.
  - apply list_elem_of_lookup_2 in Hi. specialize (Ha _ Hi). lia.
Qed.

(** In a sorted list that starts at [k0] and has every key up to [k0 + n], the
    positions are the keys. *)
Lemma ssorted_dense n l x k0 :
  ssorted key (x :: l) → key x = k0 →
  (∀ k, k0 ≤ k < k0 + Z.of_nat n → ∃ y, y ∈ x :: l ∧ key y = k) →
  ∀ i, (i < n)%nat → ∃ y, (x :: l) !! i = Some y ∧ key y = k0 + Z.of_nat i.
Proof.
  revert l x k0. induction n as [|n IH]; intros l x k0 Hs Hx Hall i Hi; [lia|].
  destruct i as [|i]; [exists x; split; [done|lia]|].
  destruct (Hall (k0 + 1)) as (y & Hy & Ey); [lia|].
  apply elem_of_cons in Hy as [->|Hy]; [lia|].
  destruct l as [|x' l]; [by apply elem_of_nil in Hy|].
  apply ssorted_cons in Hs as [Hs' Hlt]. pose proof Hs' as [_ Hlt']%ssorted_cons.
  assert (key x' = k0 + 1) as Hx'.
  { specialize (Hlt x' ltac:(set_solver)). apply elem_of_cons in Hy as [->|Hy]; [done|].
    specialize (Hlt' y Hy). lia. }
  destruct (IH l x' (k0 + 1) Hs' Hx') with (i := i) as (z & Hz & Ez); [|lia|].
  - intros k Hk. destruct (Hall k) as (z & Hz & Ez); [lia|]. exists z. split; [|done].
    apply elem_of_cons in Hz as [->|Hz]; [lia|done].
  - exists z. split; [done|lia].
Qed.

(** [binary_search_by_key] decides membership on a sorted queue. *)
Lemma binary_search_split l k :
  ssorted key l →
  (∃ l1 x l2, l = l1 ++ x :: l2 ∧ key x = k ∧ binary_search_by_key k key l = Ok (length l1)) ∨
  ((∀ x, x ∈ l → key x ≠ k) ∧ ∃ i, binary_search_by_key k key l = Err i).
Proof.
  intros Hs. destruct (partition_point_le l k Hs) as (l1 & l2 & -> & _ & H1 & H2).
  unfold binary_search_by_key. rewrite binary_search_by_unfold.
  2: { eapply Forall_impl; [exact H1|]. simpl. intros x Hx. exact Hx. }
  2: { eapply Forall_impl; [exact H2|]. simpl. intros x Hx. apply Z.compare_gt_iff. exact Hx. }
  rewrite Forall_forall in H1, H2.
  destruct (last l1) as [z|] eqn:E.
  - apply last_Some in E as (l1' & ->). destruct (Z.compare_spec (key z) k) as [Hz|Hz|Hz].
    + left. exists l1', z, l2. rewrite <- app_assoc. split_and!; try done.
      rewrite length_app. simpl. f_equal. lia.
    + right. split; [|eauto]. intros x [Hx|Hx]%elem_of_app; [|specialize (H2 _ Hx); lia].
      apply ssorted_app in Hs as (S1 & _ & _). apply ssorted_app in S1 as (_ & _ & S1).
      apply elem_of_app in Hx as [Hx|Hx].
      * specialize (S1 x z Hx ltac:(set_solver)). lia.
      * apply list_elem_of_singleton in Hx. subst. lia.
    + specialize (H1 z ltac:(set_solver)). lia.
  - apply last_None in E. subst. right. split; [|eauto].
    intros x Hx. specialize (H2 x Hx). lia.
Qed.
End sorted.

#[export] Hint Resolve ssorted_nil ssorted_take ssorted_drop vec_insert_ssorted : cas.

(** ** Membership and length of the vector updates *)

Lemma elem_of_vec_insert {A} pos (x y : A) l :
  y ∈ vec_insert pos x l ↔ y = x ∨ y ∈ l.
Proof.
  unfold vec_insert. rewrite <- (take_drop pos l) at 3. set_solver.
Qed.

Lemma length_vec_insert {A} pos (x : A) l : length (vec_insert pos x l) = S (length l).
Proof. unfold vec_insert. rewrite length_app, length_take. simpl. rewrite length_drop. lia. Qed.

(** ** Minima *)

Lemma min_or_zero_spec l :
  l ≠ [] → min_or_zero l ∈ l ∧ ∀ x, x ∈ l → min_or_zero l ≤ x.
Proof.
  destruct l as [|x l]; [done|]. intros _. simpl.
  induction l as [|y l IH]; simpl.
  - split; [set_solver|]. intros z ->%list_elem_of_singleton. lia.
  - destruct IH as [IH1 IH2]. split.
    + destruct (Z.min_spec y (foldr Z.min x l)) as [[_ ->]|[_ ->]]; set_solver.
    + intros z Hz. assert (z = y ∨ z ∈ x :: l) as [->|Hz'] by set_solver; [lia|].
      specialize (IH2 z Hz'). lia.
Qed.
