(* ===== verification/Bytes.v ===== *)
(** * Byte strings

    [Vec<u8>], [Bytes] and [&[u8]] are lists of [Byte.byte].  The big-endian
    conversions [u64::to_be_bytes] and [u64::from_be_bytes] reverse coqutil's
    little-endian ones; here are their round trips, and Rust's [slice] ranges. *)

From coqutil Require Import Byte Word.LittleEndianList.
From S2P Require Import Prelude.
From Stdlib Require Import Strings.Byte.
#[global] Open Scope Z_scope.

#[export] Instance byte_eq_decision : EqDecision Init.Byte.byte := Byte.byte_eq_dec.

Abbreviation u8 := Init.Byte.byte.

Abbreviation bytes := (list Init.Byte.byte).

(** [u8 as u64] and back. *)
Definition u8_to_Z (b : Init.Byte.byte) : Z := byte.unsigned b.

Definition u8_of_Z (z : Z) : Init.Byte.byte := byte.of_Z z.

Definition to_be_bytes (n : nat) (z : Z) : bytes := reverse (le_split n z).

Definition from_be_bytes (l : bytes) : Z := le_combine (reverse l).

#[global] Arguments to_be_bytes : simpl never.
#[global] Arguments from_be_bytes : simpl never.

(** [to_be_bytes_trimmed_vec]: the big-endian bytes without leading zeros. *)
Fixpoint trim_leading_zeros (l : bytes) : bytes :=
  match l with
  | [] => []
  | b :: r => if decide (b = x00) then trim_leading_zeros r else l
  end.

(** [&l[from..to]] for a range that is in bounds. *)
Definition slice {A} (l : list A) (from to : nat) : list A := take (to - from) (drop from l).

(** [slice::contains] on byte lists, [slice == slice]. *)
Definition bytes_eqb (a b : bytes) : bool := bool_decide (a = b).

Lemma length_to_be_bytes n z : length (to_be_bytes n z) = n.
Proof. unfold to_be_bytes. rewrite length_reverse. apply length_le_split. Qed.

Lemma from_to_be_bytes_mod n z : from_be_bytes (to_be_bytes n z) = z `mod` 2 ^ (Z.of_nat n * 8).
Proof. unfold from_be_bytes, to_be_bytes. rewrite reverse_involutive. apply le_combine_split. Qed.

Lemma from_to_be_bytes_u64 z : is_u64 z → from_be_bytes (to_be_bytes 8 z) = z.
Proof.
  intros Hz. rewrite from_to_be_bytes_mod. apply Z.mod_small.
  change (2 ^ (Z.of_nat 8 * 8)) with u64_modulus. exact Hz.
Qed.

Lemma to_from_be_bytes l : to_be_bytes (length l) (from_be_bytes l) = l.
Proof.
  unfold from_be_bytes, to_be_bytes. rewrite <- (length_reverse l), split_le_combine.
  apply reverse_involutive.
Qed.

Lemma from_be_bytes_u64 l : length l = 8%nat → is_u64 (from_be_bytes l).
Proof.
  intros Hl. unfold from_be_bytes, is_u64.
  pose proof (le_combine_bound (reverse l)) as H.
  rewrite length_reverse, Hl in H. exact H.
Qed.

Lemma to_be_bytes_inj n a b :
  0 ≤ a < 2 ^ (Z.of_nat n * 8) → 0 ≤ b < 2 ^ (Z.of_nat n * 8) →
  to_be_bytes n a = to_be_bytes n b → a = b.
Proof.
  intros Ha Hb E. apply (f_equal from_be_bytes) in E.
  rewrite !from_to_be_bytes_mod, !Z.mod_small in E; done.
Qed.

Lemma to_be_bytes_u64_inj a b :
  is_u64 a → is_u64 b → to_be_bytes 8 a = to_be_bytes 8 b → a = b.
Proof.
  intros Ha Hb. change (is_u64 a) with (0 ≤ a < 2 ^ (Z.of_nat 8 * 8)) in Ha.
  change (is_u64 b) with (0 ≤ b < 2 ^ (Z.of_nat 8 * 8)) in Hb. by apply to_be_bytes_inj.
Qed.

Lemma u8_range b : 0 ≤ u8_to_Z b < 256.
Proof. apply byte.unsigned_range. Qed.

Lemma slice_app_mid {A} (l1 l2 l3 : list A) :
  slice (l1 ++ l2 ++ l3) (length l1) (length l1 + length l2) = l2.
Proof.
  unfold slice. rewrite drop_app_length.
  replace (length l1 + length l2 - length l1)%nat with (length l2) by lia.
  apply take_app_length.
Qed.

Lemma length_slice {A} (l : list A) a b :
  (a ≤ b ≤ length l)%nat → length (slice l a b) = (b - a)%nat.
Proof. intros ?. unfold slice. rewrite length_take, length_drop. lia. Qed.

(** ** Leading zeros *)

Lemma trim_nil l : trim_leading_zeros l = [] ↔ Forall (λ b, b = x00) l.
Proof.
  induction l as [|b l IH]; simpl; [done|]. rewrite Forall_cons.
  case_decide; [rewrite IH; tauto|]. split; [done|tauto].
Qed.

Lemma le_combine_zero l : Forall (λ b, b = x00) l → le_combine l = 0.
Proof. induction 1 as [|b l -> _ IH]; [done|]. change (Z.lor (byte.unsigned x00) (Z.shiftl (le_combine l) 8) = 0). by rewrite IH. Qed.

Lemma from_be_bytes_zero l : Forall (λ b, b = x00) l → from_be_bytes l = 0.
Proof. intros H. apply le_combine_zero. by apply Forall_reverse. Qed.

Lemma to_be_bytes_zero n : Forall (λ b, b = x00) (to_be_bytes n 0).
Proof. unfold to_be_bytes. apply Forall_reverse. induction n; simpl; by constructor. Qed.

#[export] Hint Resolve from_to_be_bytes_u64 from_be_bytes_u64 : cas.
#[export] Hint Rewrite length_to_be_bytes : cas.
