(* ===== verification/Json.v ===== *)
(** * JSON documents

    [serde_json::Value] and the accessors the service uses, and what the derived
    implementations of serde's [Deserialize] do with a document: the fields of an
    object in the order they come, unknown ones skipped, a repeated one refused, a
    missing one refused or defaulted; or the elements of an array by position. *)

From S2P Require Import Prelude Bytes.

(** A number is an integer literal, or anything else in its text. *)
Inductive Value :=
| JNull
| JBool (b : bool)
| JNumber (z : Z)
| JFloat (text : string)
| JString (s : string)
| JArray (l : list Value)
| JObject (fields : list (string * Value)).

(** [Value::get]. *)
Fixpoint lookup_field (fields : list (string * Value)) (k : string) : option Value :=
  match fields with
  | [] => None
  | (k', v) :: rest => if decide (k' = k) then Some v else lookup_field rest k
  end.

Definition get (v : Value) (k : string) : option Value :=
  match v with JObject fields => lookup_field fields k | _ => None end.

(** [v[k]]: null when there is no such field. *)
Definition index (v : Value) (k : string) : Value := default JNull (get v k).

Definition as_str (v : Value) : option string := match v with JString s => Some s | _ => None end.

Definition as_array (v : Value) : option (list Value) := match v with JArray l => Some l | _ => None end.

(** ** Scalars *)

(** An unsigned integer below [bound], and an [i32]. *)
Definition de_uint (bound : Z) (v : Value) : result Z string :=
  match v with
  | JNumber z => if (0 <=? z) && (z <? bound) then Ok z else Err "invalid value"%string
  | _ => Err "invalid type"%string
  end.

Definition de_i32 (v : Value) : result Z string :=
  match v with
  | JNumber z => if (- 2 ^ 31 <=? z) && (z <? 2 ^ 31) then Ok z else Err "invalid value"%string
  | _ => Err "invalid type"%string
  end.

Definition de_bool (v : Value) : result bool string :=
  match v with JBool b => Ok b | _ => Err "invalid type"%string end.

Definition de_string (v : Value) : result string string :=
  match v with JString s => Ok s | _ => Err "invalid type"%string end.

Definition de_u64 : Value → result Z string := de_uint (2 ^ 64).

(** [Option<T>]: null is [None]. *)
Definition ser_option {A} (ser : A → Value) (o : option A) : Value :=
  match o with Some x => ser x | None => JNull end.

Definition de_option {A} (de : Value → result A string) (v : Value) : result (option A) string :=
  match v with
  | JNull => Ok None
  | _ => let? x := de v in Ok (Some x)
  end.

(** A sequence, element by element. *)
Fixpoint de_all {A} (de : Value → result A string) (l : list Value) : result (list A) string :=
  match l with
  | [] => Ok []
  | v :: l' => let? x := de v in let? xs := de_all de l' in Ok (x :: xs)
  end.

Definition de_vec {A} (de : Value → result A string) (v : Value) : result (list A) string :=
  match v with JArray l => de_all de l | _ => Err "invalid type"%string end.

(** [skip_serializing_if] *)
Definition field_unless {A} (skip : A → bool) (name : string) (x : A) (v : Value) : list (string * Value) :=
  if skip x then [] else [(name, v)].

Definition is_none {A} (o : option A) : bool := match o with None => true | Some _ => false end.
Definition is_empty {A} (l : list A) : bool := match l with [] => true | _ => false end.

(** ** Structs

    [B] is the state of the visitor, an option per field.  [sd_names] are the names
    of the fields with their aliases, in the order of the declaration; [sd_set]
    reads a field; [sd_finish] puts the value together, from an array or not. *)
Record struct_de (B T : Type) := {
  sd_names : list (list string);
  sd_empty : B;
  sd_set : nat → Value → B → result B string;
  sd_finish : bool → B → result T string;
}.

Arguments sd_names {B T}.
Arguments sd_empty {B T}.
Arguments sd_set {B T}.
Arguments sd_finish {B T}.

(** A field not seen yet is read; a field seen before is an error. *)
Definition put {A B} (name : string) (cur : option A) (de : Value → result A string) (v : Value) (k : A → B)
    : result B string :=
  match cur with
  | Some _ => Err ("duplicate field `" +:+ name +:+ "`")%string
  | None => let? x := de v in Ok (k x)
  end.

(** What is missing at the end is an error, or [None] for an option unless the value
    came by position. *)
Definition required {A} (by_position : bool) (name : string) (o : option A) : result A string :=
  ok_or o (if by_position then "invalid length" else "missing field `" +:+ name +:+ "`")%string.

Definition optional {A} (by_position : bool) (o : option (option A)) : result (option A) string :=
  match o with
  | Some x => Ok x
  | None => if by_position then Err "invalid length"%string else Ok None
  end.

Fixpoint field_index (names : list (list string)) (k : string) : option nat :=
  match names with
  | [] => None
  | ns :: names' => if bool_decide (k ∈ ns) then Some 0%nat else S <$> field_index names' k
  end.

Section structs.
Context {B T : Type} (sd : struct_de B T).

Fixpoint visit_map (b : B) (fields : list (string * Value)) : result B string :=
  match fields with
  | [] => Ok b
  | (k, v) :: fields' =>
      match field_index (sd_names sd) k with
      | None => visit_map b fields'
      | Some i => let? b' := sd_set sd i v b in visit_map b' fields'
      end
  end.

Fixpoint visit_seq (i : nat) (b : B) (l : list Value) : result B string :=
  match l with
  | [] => Ok b
  | v :: l' =>
      if (length (sd_names sd) <=? i)%nat then Err "trailing characters"%string
      else let? b' := sd_set sd i v b in visit_seq (S i) b' l'
  end.

Definition de_struct (v : Value) : result T string :=
  match v with
  | JObject fields => let? b := visit_map (sd_empty sd) fields in sd_finish sd false b
  | JArray l => let? b := visit_seq 0 (sd_empty sd) l in sd_finish sd true b
  | _ => Err "invalid type"%string
  end.
End structs.

(** ** Structs field by field

    The values of the fields a struct names, by position of the declaration. *)

Definition raw_fields (names : list string) : struct_de (list (option Value)) (list (option Value)) := {|
  sd_names := (λ n, [n]) <$> names;
  sd_empty := replicate (length names) None;
  sd_set i v r :=
    match r !! i with
    | Some None => Ok (<[i := Some v]> r)
    | _ => Err "duplicate field"%string
    end;
  sd_finish _ r := Ok r |}.

Definition collect (names : list string) (v : Value) : result (list (option Value)) string := de_struct (raw_fields names) v.

Definition field {A} (de : Value → result A string) (r : list (option Value)) (i : nat) : result A string :=
  match r !! i with
  | Some (Some v) => de v
  | _ => Err "missing field"%string
  end.

Definition field_or {A} (d : A) (de : Value → result A string) (r : list (option Value)) (i : nat) : result A string :=
  match r !! i with
  | Some (Some v) => de v
  | _ => Ok d
  end.

(** ** Lemmas *)

Lemma de_uint_ok bound z : 0 ≤ z < bound → de_uint bound (JNumber z) = Ok z.
Proof. intros [H0 H1]. simpl. destruct (Z.leb_spec 0 z); [|lia]. destruct (Z.ltb_spec z bound); [done|lia]. Qed.

Lemma de_uint_range bound v z : de_uint bound v = Ok z → 0 ≤ z < bound.
Proof.
  destruct v; try done. simpl. destruct (Z.leb_spec 0 z0); [|done]. destruct (Z.ltb_spec z0 bound); [|done].
  intros [= <-]. lia.
Qed.

Lemma de_i32_ok z : - 2 ^ 31 ≤ z < 2 ^ 31 → de_i32 (JNumber z) = Ok z.
Proof. intros H. simpl. destruct (Z.leb_spec (- 2 ^ 31) z); [|lia]. destruct (Z.ltb_spec z (2 ^ 31)); [done|lia]. Qed.

(** An optional value that is written as something else than null. *)
Lemma de_ser_option {A} (ser : A → Value) de o :
  (∀ x, o = Some x → ser x ≠ JNull ∧ de (ser x) = Ok x) → de_option de (ser_option ser o) = Ok o.
Proof.
  intros H. destruct o as [x|]; [|done]. destruct (H x eq_refl) as [Hn Hd]. unfold de_option, ser_option. rewrite Hd.
  by destruct (ser x).
Qed.

Lemma de_option_some {A} (de : Value → result A string) v x : v ≠ JNull → de v = Ok x → de_option de v = Ok (Some x).
Proof. intros Hn Hd. unfold de_option. rewrite Hd. by destruct v. Qed.

Lemma de_option_Ok {A} (de : Value → result A string) v x : de_option de v = Ok (Some x) → de v = Ok x.
Proof. unfold de_option. destruct v, (de _) eqn:E; intros [=]; by subst. Qed.

(** What holds of a value that was read: an invariant of the visitor. *)
Lemma de_struct_inv {B T} (sd : struct_de B T) (P : B → Prop) (Q : T → Prop) v t :
  P (sd_empty sd) → (∀ i v b b', P b → sd_set sd i v b = Ok b' → P b') →
  (∀ p b t, P b → sd_finish sd p b = Ok t → Q t) → de_struct sd v = Ok t → Q t.
Proof.
  intros H0 Hset Hfin.
  assert (Hmap : ∀ fields b b', P b → visit_map sd b fields = Ok b' → P b').
  { induction fields as [|[k w] fields IH]; intros b b' Hb; simpl; [by intros [= <-]|].
    destruct (field_index _ k) as [i|]; [|by apply IH].
    destruct (sd_set sd i w b) as [b1|] eqn:E; [|done]. apply IH. by eapply Hset. }
  assert (Hseq : ∀ l i b b', P b → visit_seq sd i b l = Ok b' → P b').
  { induction l as [|w l IH]; intros i b b' Hb; simpl; [by intros [= <-]|]. destruct (_ <=? _)%nat; [done|].
    destruct (sd_set sd i w b) as [b1|] eqn:E; [|done]. apply IH. by eapply Hset. }
  unfold de_struct. destruct v as [| | | | |l|fields]; try done.
  - destruct (visit_seq sd 0 (sd_empty sd) l) as [b|] eqn:E; [|done]. apply Hfin. by eapply Hseq.
  - destruct (visit_map sd (sd_empty sd) fields) as [b|] eqn:E; [|done]. apply Hfin. by eapply Hmap.
Qed.

Lemma put_Ok {A B} name (cur : option A) de v (k : A → B) b :
  put name cur de v k = Ok b → cur = None ∧ ∃ x, de v = Ok x ∧ b = k x.
Proof. unfold put. destruct cur; [done|]. destruct (de v) as [x|]; [|done]. intros [= <-]. eauto. Qed.

(** Evaluates the lookup of the field names of a document. *)
Ltac fields :=
  repeat match goal with
  | |- context [field_index ?ns ?k] =>
      let r := eval vm_compute in (field_index ns k) in change (field_index ns k) with r; cbn iota beta
  end.

Lemma field_P {A} (P : A → Prop) de r i x :
  field de r i = Ok x → (∀ v y, de v = Ok y → P y) → P x.
Proof. unfold field. intros H Hde. destruct (r !! i) as [ [v|]|]; [|done..]. by eapply Hde. Qed.

Lemma field_or_P {A} (P : A → Prop) d de r i x :
  field_or d de r i = Ok x → P d → (∀ v y, de v = Ok y → P y) → P x.
Proof. unfold field_or. intros H Hd Hde. destruct (r !! i) as [ [v|]|]; [by eapply Hde|by simplify_eq..]. Qed.

(** ** The fields of an object come in any order *)

Definition raw_set (names : list string) (r : list (option Value)) (f : string * Value) : result (list (option Value)) string :=
  match field_index (sd_names (raw_fields names)) f.1 with
  | None => Ok r
  | Some i => sd_set (raw_fields names) i f.2 r
  end.

Lemma visit_map_cons names r f fields :
  visit_map (raw_fields names) r (f :: fields) = let? r' := raw_set names r f in visit_map (raw_fields names) r' fields.
Proof. destruct f as [k v]. unfold raw_set. cbn [visit_map fst snd]. by destruct (field_index _ k). Qed.

Lemma raw_set_comm names r f g :
  (let? r' := raw_set names r f in raw_set names r' g) = (let? r' := raw_set names r g in raw_set names r' f).
Proof.
  unfold raw_set. destruct (field_index _ f.1) as [i|], (field_index _ g.1) as [j|]; simpl; try done.
  - destruct (decide (i = j)) as [->|Hij].
    + destruct (r !! j) as [ [x|]|] eqn:E; try done.
      by rewrite !list_lookup_insert_eq by (by eapply lookup_lt_Some).
    + destruct (r !! i) as [ [x|]|] eqn:Ei, (r !! j) as [ [y|]|] eqn:Ej; simpl; try done.
      all: rewrite ?list_lookup_insert_ne by done; rewrite ?Ei, ?Ej; try done.
      by rewrite list_insert_insert_ne.
  - by destruct (r !! i) as [ [x|]|].
  - by destruct (r !! j) as [ [x|]|].
Qed.

Lemma raw_set_error names r f e : raw_set names r f = Err e → e = "duplicate field"%string.
Proof. unfold raw_set. simpl. destruct (field_index _ _) as [i|]; [|done]. by destruct (r !! i) as [ [x|]|]; intros [= <-]. Qed.

Lemma visit_permutation names fs gs r :
  fs ≡ₚ gs → visit_map (raw_fields names) r fs = visit_map (raw_fields names) r gs.
Proof.
  intros H. revert r. induction H as [|f fs gs _ IH|f g fs|fs gs hs _ IH1 _ IH2]; intros r; [done|..].
  - rewrite !visit_map_cons. destruct (raw_set names r f); [apply IH|done].
  - rewrite !visit_map_cons. pose proof (raw_set_comm names r f g) as Hc.
    destruct (raw_set names r f) as [r1|e1] eqn:Ef, (raw_set names r g) as [r2|e2] eqn:Eg; rewrite ?visit_map_cons.
    + by rewrite Hc.
    + by rewrite Hc.
    + by rewrite <- Hc.
    + by apply raw_set_error in Ef as ->, Eg as ->.
  - by rewrite IH1.
Qed.

#[export] Instance collect_permutation names : Proper ((≡ₚ) ==> (=)) (λ fields, collect names (JObject fields)).
Proof. intros fs gs H. unfold collect, de_struct. by rewrite (visit_permutation names fs gs _ H). Qed.

Lemma field_index_single names k i : field_index ((λ n : string, [n]) <$> names) k = Some i → names !! i = Some k.
Proof.
  revert i. induction names as [|n names IH]; intros i; simpl; [done|]. case_bool_decide as Hk.
  - intros [= <-]. apply list_elem_of_singleton in Hk as ->. done.
  - intros (j & Hj & ->)%fmap_Some. by apply IH.
Qed.

(** A field the document does not have stays unset. *)
Lemma absent_field names fields k i r :
  names !! i = Some k → lookup_field fields k = None → collect names (JObject fields) = Ok r → r !! i = Some None.
Proof.
  intros Hi Hk. assert (H0 : sd_empty (raw_fields names) !! i = Some None).
  { apply lookup_replicate. split; [done|]. by eapply lookup_lt_Some. }
  unfold collect, de_struct. revert H0. generalize (sd_empty (raw_fields names)) as r0.
  induction fields as [|f fields IH]; intros r0 H0; [by intros [= <-]|]. rewrite visit_map_cons.
  destruct f as [k' v]. simpl in Hk. destruct (decide (k' = k)) as [|Hne]; [done|].
  destruct (raw_set names r0 (k', v)) as [r1|] eqn:E; [|done]. apply (IH Hk). unfold raw_set in E. simpl in E.
  destruct (field_index _ k') as [j|] eqn:Ej; [|congruence]. apply field_index_single in Ej.
  destruct (r0 !! j) as [ [x|]|]; try done. injection E as <-. rewrite list_lookup_insert_ne; [done|]. intros ->. congruence.
Qed.

(** Evaluates the fields of a concrete document. *)
Ltac reads :=
  repeat match goal with
  | |- context [collect ?ns ?v] => let r := eval vm_compute in (collect ns v) in change (collect ns v) with r; cbn iota beta
  | |- context [field ?de (?x :: ?r) ?i] =>
      let w := eval vm_compute in ((x :: r) !! i) in
      match w with Some (Some ?v) => change (field de (x :: r) i) with (de v); cbn iota beta end
  | |- context [field_or ?d ?de (?x :: ?r) ?i] =>
      let w := eval vm_compute in ((x :: r) !! i) in
      match w with
      | Some (Some ?v) => change (field_or d de (x :: r) i) with (de v)
      | Some None => change (field_or d de (x :: r) i) with (Ok (E:=string) d)
      end; cbn iota beta
  end.

(** ** Text

    [serde_json]'s printer and parser on documents. *)
Class JsonText := {
  json_print : Value → result bytes string;
  json_parse : bytes → result Value string;
}.

Class JsonTextLaws (J : JsonText) : Prop := {
  print_parse v b : json_print v = Ok b → json_parse b = Ok v;
}.

(** ** Equality of documents *)

Fixpoint value_eqb (v w : Value) {struct v} : bool :=
  match v, w with
  | JNull, JNull => true
  | JBool a, JBool b => bool_decide (a = b)
  | JNumber a, JNumber b => a =? b
  | JFloat a, JFloat b => bool_decide (a = b)
  | JString a, JString b => bool_decide (a = b)
  | JArray l, JArray l' =>
      (fix go l l' := match l, l' with
                      | [], [] => true
                      | x :: r, y :: r' => value_eqb x y && go r r'
                      | _, _ => false
                      end) l l'
  | JObject f, JObject f' =>
      (fix go f f' := match f, f' with
                      | [], [] => true
                      | (k, x) :: r, (k', y) :: r' => bool_decide (k = k') && value_eqb x y && go r r'
                      | _, _ => false
                      end) f f'
  | _, _ => false
  end.

Lemma value_eqb_sound : ∀ v w, value_eqb v w = true → v = w.
Proof.
  fix IH 1. intros v w. destruct v as [|a|a|a|a|l|f], w as [|b|b|b|b|l'|f']; simpl; try done.
  - intros H. apply bool_decide_eq_true in H. congruence.
  - intros H. apply Z.eqb_eq in H. congruence.
  - intros H. apply bool_decide_eq_true in H. congruence.
  - intros H. apply bool_decide_eq_true in H. congruence.
  - intros H. f_equal. revert l' H. induction l as [|x l IHl]; intros [|y l'] H; try done.
    apply andb_true_iff in H as [H1 H2]. f_equal; [by apply IH|by apply IHl].
  - intros H. f_equal. revert f' H. induction f as [|[k x] f IHf]; intros [|[k' y] f'] H; try done.
    apply andb_true_iff in H as [H1 H2]. apply andb_true_iff in H1 as [H0 H1].
    apply bool_decide_eq_true in H0. f_equal; [f_equal; [done|by apply IH]|by apply IHf].
Qed.
