(* ===== verification/JsonSyntax.v ===== *)
(** * JSON text

    The text of a document: a printer and a recursive-descent parser for the grammar
    of RFC 8259, with the compact layout and the escapes [serde_json] writes.  The
    parser reads back what the printer wrote, whatever follows it; [json_text] is the
    instance of [JsonText] the concrete runs of the development use.  (The limit of
    128 nested containers [serde_json] reads is left out; the documents of the service
    are not nested that deep.) *)

From S2P Require Import Prelude Bytes Json.
From Stdlib Require Import Strings.Byte.
From Stdlib Require DecimalFacts DecimalN.
Import Corelib.Init.Decimal(uint(..), unorm, nzhead, nb_digits).
#[local] Open Scope Z_scope.

(** ** Induction over documents *)

Section value_induction.
Context (P : Value → Prop).
Hypothesis (Hnull : P JNull) (Hbool : ∀ b, P (JBool b)) (Hnumber : ∀ z, P (JNumber z)) (Hfloat : ∀ t, P (JFloat t))
           (Hstring : ∀ s, P (JString s)) (Harray : ∀ l, Forall P l → P (JArray l))
           (Hobject : ∀ fields, Forall (λ f, P f.2) fields → P (JObject fields)).

Fixpoint Value_nested_ind (v : Value) : P v :=
  match v with
  | JNull => Hnull
  | JBool b => Hbool b
  | JNumber z => Hnumber z
  | JFloat t => Hfloat t
  | JString s => Hstring s
  | JArray l =>
      Harray l ((fix go l : Forall P l :=
                   match l with
                   | [] => @List.Forall_nil _ _
                   | x :: r => @List.Forall_cons _ _ x r (Value_nested_ind x) (go r)
                   end) l)
  | JObject fields =>
      Hobject fields ((fix go l : Forall (λ f, P f.2) l :=
                         match l with
                         | [] => @List.Forall_nil _ _
                         | f :: r => @List.Forall_cons _ _ f r (Value_nested_ind f.2) (go r)
                         end) fields)
  end.
End value_induction.

(** ** Digits *)

Fixpoint uint_bytes (d : uint) : bytes :=
  match d with
  | Nil => []
  | D0 d => x30 :: uint_bytes d | D1 d => x31 :: uint_bytes d | D2 d => x32 :: uint_bytes d
  | D3 d => x33 :: uint_bytes d | D4 d => x34 :: uint_bytes d | D5 d => x35 :: uint_bytes d
  | D6 d => x36 :: uint_bytes d | D7 d => x37 :: uint_bytes d | D8 d => x38 :: uint_bytes d
  | D9 d => x39 :: uint_bytes d
  end.

(** The longest prefix of digits, and what follows. *)
Fixpoint bytes_uint (b : bytes) : uint * bytes :=
  match b with
  | x30 :: r => let '(d, t) := bytes_uint r in (D0 d, t) | x31 :: r => let '(d, t) := bytes_uint r in (D1 d, t)
  | x32 :: r => let '(d, t) := bytes_uint r in (D2 d, t) | x33 :: r => let '(d, t) := bytes_uint r in (D3 d, t)
  | x34 :: r => let '(d, t) := bytes_uint r in (D4 d, t) | x35 :: r => let '(d, t) := bytes_uint r in (D5 d, t)
  | x36 :: r => let '(d, t) := bytes_uint r in (D6 d, t) | x37 :: r => let '(d, t) := bytes_uint r in (D7 d, t)
  | x38 :: r => let '(d, t) := bytes_uint r in (D8 d, t) | x39 :: r => let '(d, t) := bytes_uint r in (D9 d, t)
  | _ => (Nil, b)
  end.

Definition number_bytes (z : Z) : bytes :=
  if z <? 0 then x2d :: uint_bytes (N.to_uint (Z.to_N (- z))) else uint_bytes (N.to_uint (Z.to_N z)).

(** ** Numbers

    A number is the longest run of the characters a number can have; the run is then
    read as a whole. *)

Definition number_char (b : byte) : bool :=
  match b with
  | x30 | x31 | x32 | x33 | x34 | x35 | x36 | x37 | x38 | x39 | x2b | x2d | x2e | x45 | x65 => true
  | _ => false
  end.

Fixpoint span_number (b : bytes) : bytes * bytes :=
  match b with
  | c :: r => if number_char c then let '(t, rest) := span_number r in (c :: t, rest) else ([], b)
  | [] => ([], [])
  end.

(** An exponent, with at least one digit, up to the end. *)
Definition exponent (b : bytes) : bool :=
  let digits r := match bytes_uint r with (Nil, _) => false | (_, []) => true | _ => false end in
  match b with
  | (x65 | x45) :: (x2b | x2d) :: r => digits r
  | (x65 | x45) :: r => digits r
  | _ => false
  end.

(** What may follow the integer part of a number that is not an integer. *)
Definition fraction (b : bytes) : bool :=
  match b with
  | x2e :: r => match bytes_uint r with (Nil, _) => false | (_, []) => true | (_, rest) => exponent rest end
  | _ => exponent b
  end.

(** The integer part [d] and what follows it; [float] is the number if it is not an
    integer, and so is minus zero. *)
Definition number_of_uint (neg : bool) (float : Value) (u : uint * bytes) : option Value :=
  match u with
  | (Nil, _) => None
  | (D0 Nil, []) => Some (if neg then float else JNumber 0)
  | (D0 Nil, r) => if fraction r then Some float else None
  | (D0 _, _) => None
  | (d, []) => let z := Z.of_N (N.of_uint d) in Some (JNumber (if neg then - z else z))
  | (_, r) => if fraction r then Some float else None
  end.

Definition number_of_token (t : bytes) : option Value :=
  let float := JFloat (String.string_of_list_byte t) in
  match t with
  | x2d :: u => number_of_uint true float (bytes_uint u)
  | _ => number_of_uint false float (bytes_uint t)
  end.

(** ** Strings *)

Definition hex_nibble (n : Z) : byte := u8_of_Z (if n <? 10 then n + 48 else n + 87).

Definition nibble (b : byte) : option Z :=
  let z := u8_to_Z b in
  if (48 <=? z) && (z <=? 57) then Some (z - 48)
  else if (97 <=? z) && (z <=? 102) then Some (z - 87)
  else if (65 <=? z) && (z <=? 70) then Some (z - 55) else None.

(** [serde_json]'s table of escapes. *)
Definition escape (b : byte) : bytes :=
  match b with
  | x22 => [x5c; x22] | x5c => [x5c; x5c] | x08 => [x5c; x62] | x0c => [x5c; x66]
  | x0a => [x5c; x6e] | x0d => [x5c; x72] | x09 => [x5c; x74]
  | _ => if u8_to_Z b <? 32
         then [x5c; x75; x30; x30; hex_nibble (u8_to_Z b / 16); hex_nibble (u8_to_Z b mod 16)] else [b]
  end.

Definition string_bytes (s : string) : bytes :=
  x22 :: mjoin (escape <$> String.list_byte_of_string s) ++ [x22].

Definition hex4 (a b c d : byte) : option Z :=
  a ← nibble a; b ← nibble b; c ← nibble c; d ← nibble d; Some (((a * 16 + b) * 16 + c) * 16 + d).

(** A code point in UTF-8. *)
Definition utf8 (n : Z) : bytes :=
  if n <? 128 then [u8_of_Z n]
  else if n <? 2048 then [u8_of_Z (192 + n / 64); u8_of_Z (128 + n mod 64)]
  else if n <? 65536 then [u8_of_Z (224 + n / 4096); u8_of_Z (128 + n / 64 mod 64); u8_of_Z (128 + n mod 64)]
  else [u8_of_Z (240 + n / 262144); u8_of_Z (128 + n / 4096 mod 64); u8_of_Z (128 + n / 64 mod 64); u8_of_Z (128 + n mod 64)].

Definition simple_escape (b : byte) : option byte :=
  match b with
  | x22 => Some x22 | x5c => Some x5c | x2f => Some x2f | x62 => Some x08 | x66 => Some x0c
  | x6e => Some x0a | x72 => Some x0d | x74 => Some x09
  | _ => None
  end.

(** The contents of a string after its opening quote. *)
Fixpoint string_body (b : bytes) : option (bytes * bytes) :=
  match b with
  | [] => None
  | x22 :: r => Some ([], r)
  | x5c :: x75 :: a :: b :: c :: d :: r =>
      n ← hex4 a b c d;
      if (55296 <=? n) && (n <? 56320) then
        match r with
        | x5c :: x75 :: a' :: b' :: c' :: d' :: r' =>
            m ← hex4 a' b' c' d';
            if (56320 <=? m) && (m <? 57344) then
              '(s, t) ← string_body r'; Some (utf8 (65536 + (n - 55296) * 1024 + (m - 56320)) ++ s, t)
            else None
        | _ => None
        end
      else if (56320 <=? n) && (n <? 57344) then None
      else '(s, t) ← string_body r; Some (utf8 n ++ s, t)
  | x5c :: e :: r => c ← simple_escape e; '(s, t) ← string_body r; Some (c :: s, t)
  | c :: r => if u8_to_Z c <? 32 then None else '(s, t) ← string_body r; Some (c :: s, t)
  end.

(** ** Printing

    What follows the first element of an array, or the first member of an object, is
    printed with the separators and the closing bracket. *)

Section print_list.
Context (print : Value → option bytes).

Fixpoint print_elements (l : list Value) : option bytes :=
  match l with
  | [] => Some [x5d]
  | v :: l' => b ← print v; t ← print_elements l'; Some (x2c :: b ++ t)
  end.

Fixpoint print_members (l : list (string * Value)) : option bytes :=
  match l with
  | [] => Some [x7d]
  | (k, v) :: l' => b ← print v; t ← print_members l'; Some (x2c :: string_bytes k ++ x3a :: b ++ t)
  end.
End print_list.

Definition null_bytes : bytes := [x6e; x75; x6c; x6c].
Definition true_bytes : bytes := [x74; x72; x75; x65].
Definition false_bytes : bytes := [x66; x61; x6c; x73; x65].

Fixpoint print_value (v : Value) : option bytes :=
  match v with
  | JNull => Some null_bytes
  | JBool b => Some (if b then true_bytes else false_bytes)
  | JNumber z => Some (number_bytes z)
  | JFloat t =>
      let b := String.list_byte_of_string t in
      match number_of_token b, span_number b with
      | Some (JFloat _), (_, []) => Some b
      | _, _ => None
      end
  | JString s => Some (string_bytes s)
  | JArray [] => Some [x5b; x5d]
  | JArray (v :: l) => b ← print_value v; t ← print_elements print_value l; Some (x5b :: b ++ t)
  | JObject [] => Some [x7b; x7d]
  | JObject ((k, v) :: l) =>
      b ← print_value v; t ← print_members print_value l; Some (x7b :: string_bytes k ++ x3a :: b ++ t)
  end.

(** ** Parsing *)

Fixpoint skip_ws (b : bytes) : bytes :=
  match b with
  | (x20 | x09 | x0a | x0d) :: r => skip_ws r
  | _ => b
  end.

Section parse_list.
Context (parse : bytes → result (Value * bytes) string).
Open Scope cas_scope.

(** The elements of an array that is not empty; [n] bounds their number. *)
Fixpoint parse_elements (n : nat) (b : bytes) : result (list Value * bytes) string :=
  match n with
  | O => Err "EOF while parsing a list"
  | S n' =>
      let? '(v, r) := parse b in
      match skip_ws r with
      | x2c :: r' => let? '(l, t) := parse_elements n' r' in Ok (v :: l, t)
      | x5d :: r' => Ok ([v], r')
      | _ => Err "expected `,` or `]`"
      end
  end.

Fixpoint parse_members (n : nat) (b : bytes) : result (list (string * Value) * bytes) string :=
  match n with
  | O => Err "EOF while parsing an object"
  | S n' =>
      match skip_ws b with
      | x22 :: r =>
          let? '(k, r) := ok_or (string_body r) "invalid string" in
          match skip_ws r with
          | x3a :: r =>
              let? '(v, r) := parse r in
              let f := (String.string_of_list_byte k, v) in
              match skip_ws r with
              | x2c :: r' => let? '(l, t) := parse_members n' r' in Ok (f :: l, t)
              | x7d :: r' => Ok ([f], r')
              | _ => Err "expected `,` or `}`"
              end
          | _ => Err "expected `:`"
          end
      | _ => Err "key must be a string"
      end
  end.
End parse_list.

(** [literal l v b]: [b] starts with [l]. *)
Definition literal (l : bytes) (v : Value) (b : bytes) : result (Value * bytes) string :=
  if decide (take (length l) b = l) then Ok (v, drop (length l) b) else Err "expected ident".

Fixpoint parse_value (fuel : nat) (b : bytes) : result (Value * bytes) string :=
  match fuel with
  | O => Err "recursion limit exceeded"
  | S fuel' =>
      match skip_ws b with
      | [] => Err "EOF while parsing a value"
      | x22 :: r => let? '(s, t) := ok_or (string_body r) "invalid string" in Ok (JString (String.string_of_list_byte s), t)
      | x5b :: r =>
          match skip_ws r with
          | x5d :: r' => Ok (JArray [], r')
          | _ => let? '(l, t) := parse_elements (parse_value fuel') (length r) r in Ok (JArray l, t)
          end
      | x7b :: r =>
          match skip_ws r with
          | x7d :: r' => Ok (JObject [], r')
          | _ => let? '(l, t) := parse_members (parse_value fuel') (length r) r in Ok (JObject l, t)
          end
      | x6e :: _ => literal null_bytes JNull (skip_ws b)
      | x74 :: _ => literal true_bytes (JBool true) (skip_ws b)
      | x66 :: _ => literal false_bytes (JBool false) (skip_ws b)
      | _ =>
          let '(t, r) := span_number (skip_ws b) in
          let? v := ok_or (number_of_token t) "invalid number" in Ok (v, r)
      end
  end.

(** A whole text: one document, and white space around it. *)
Definition parse_document (b : bytes) : result Value string :=
  let? '(v, r) := parse_value (S (length b)) b in
  match skip_ws r with [] => Ok v | _ => Err "trailing characters" end.

Definition json_text : JsonText := {|
  json_parse := parse_document;
  json_print v := ok_or (print_value v) "not a number"%string;
|}.

(** ** The parser reads back what the printer wrote *)

(** What may follow a number. *)
Definition delim (r : bytes) : Prop := match r with [] => True | c :: _ => number_char c = false end.

(** The first character of a number, and of a document. *)
Definition number_start (c : byte) : bool :=
  match c with x30 | x31 | x32 | x33 | x34 | x35 | x36 | x37 | x38 | x39 | x2d => true | _ => false end.

Definition value_start (c : byte) : bool :=
  number_start c || match c with x22 | x5b | x7b | x6e | x74 | x66 => true | _ => false end.

Lemma bytes_uint_bytes d : bytes_uint (uint_bytes d) = (d, []).
Proof. induction d as [|d IH|d IH|d IH|d IH|d IH|d IH|d IH|d IH|d IH|d IH]; [done|..]; cbn [uint_bytes bytes_uint]; by rewrite IH. Qed.

Lemma uint_bytes_chars d : Forall (λ c, number_start c = true ∧ number_char c = true) (uint_bytes d).
Proof. induction d; constructor; done. Qed.

(** A canonical numeral is not empty and has a leading zero only for zero. *)
Lemma to_uint_canonical n : unorm (N.to_uint n) = N.to_uint n.
Proof. rewrite <- DecimalN.Unsigned.to_of. by rewrite DecimalN.Unsigned.of_to. Qed.

Lemma to_uint_cases n : N.to_uint n = D0 Nil ∧ n = 0%N ∨ N.to_uint n ≠ Nil ∧ ∀ d, N.to_uint n ≠ D0 d.
Proof.
  pose proof (to_uint_canonical n) as H. destruct n as [|p]; [by left|]. right.
  assert (Hnz : nzhead (N.to_uint (N.pos p)) = N.to_uint (N.pos p)).
  { unfold unorm in H. destruct (nzhead _) eqn:E; [|done..]. exfalso.
    pose proof (DecimalN.Unsigned.of_to (N.pos p)) as Ho. by rewrite <- H in Ho. }
  split.
  - intros E. rewrite E in H. done.
  - intros d E. rewrite E in Hnz. apply (f_equal nb_digits) in Hnz. simpl in Hnz.
    pose proof (DecimalFacts.nb_digits_nzhead d). lia.
Qed.

Lemma number_of_to_uint neg float n :
  (neg = true → n ≠ 0%N) →
  number_of_uint neg float (bytes_uint (uint_bytes (N.to_uint n))) = Some (JNumber (if neg then - Z.of_N n else Z.of_N n)).
Proof.
  intros Hn. rewrite bytes_uint_bytes. pose proof (DecimalN.Unsigned.of_to n) as Ho.
  destruct (to_uint_cases n) as [ [E ->]|[H1 H2] ].
  - rewrite E. destruct neg; [by destruct Hn|done].
  - destruct (N.to_uint n) as [|d|d|d|d|d|d|d|d|d|d]; [done|by destruct (H2 d)|..]; cbn [number_of_uint]; by rewrite Ho.
Qed.

(** The characters of a printed number, and its first. *)
Lemma number_bytes_chars z :
  Forall (λ c, number_char c = true) (number_bytes z) ∧
  ∃ c r, number_bytes z = c :: r ∧ number_start c = true.
Proof.
  assert (H : ∀ n, Forall (λ c, number_char c = true) (uint_bytes (N.to_uint n)) ∧
            ∃ c r, uint_bytes (N.to_uint n) = c :: r ∧ number_start c = true).
  { intros n. pose proof (uint_bytes_chars (N.to_uint n)) as Hc. split; [by eapply Forall_impl; [exact Hc|]; intros c [_ ?]|].
    destruct (uint_bytes (N.to_uint n)) as [|c r] eqn:E.
    - destruct (to_uint_cases n) as [ [E' _]|[H1 _] ]; [by rewrite E' in E|]. by destruct (N.to_uint n).
    - apply Forall_cons in Hc as [ [? _] _]. eauto. }
  unfold number_bytes. destruct (z <? 0); [|apply H].
  destruct (H (Z.to_N (- z))) as [Hc _]. split; [by apply Forall_cons|eauto].
Qed.

Lemma number_token z : number_of_token (number_bytes z) = Some (JNumber z).
Proof.
  unfold number_bytes. destruct (Z.ltb_spec z 0) as [Hz|Hz].
  - unfold number_of_token. rewrite number_of_to_uint by lia. do 2 f_equal. lia.
  - assert (H : ∀ float, number_of_uint false float (bytes_uint (uint_bytes (N.to_uint (Z.to_N z)))) = Some (JNumber z)).
    { intros float. rewrite number_of_to_uint by done. do 2 f_equal. lia. }
    unfold number_of_token. destruct (uint_bytes (N.to_uint (Z.to_N z))) as [|c r] eqn:E; [by apply H|].
    assert (Hm : c ≠ x2d) by (intros ->; by destruct (N.to_uint (Z.to_N z))).
    destruct c; done || by apply H.
Qed.

Lemma span_number_all t r : Forall (λ c, number_char c = true) t → delim r → span_number (t ++ r) = (t, r).
Proof.
  intros Ht Hr. induction Ht as [|c t Hc Ht IH]; simpl.
  - destruct r as [|c r]; [done|]. simpl in *. by rewrite Hr.
  - by rewrite Hc, IH.
Qed.

Lemma span_number_full b t : span_number b = (t, []) → t = b ∧ Forall (λ c, number_char c = true) b.
Proof.
  revert t. induction b as [|c b IH]; intros t; simpl; [by intros [= <-]|].
  destruct (number_char c) eqn:E; [|done]. destruct (span_number b) as [t' rest].
  intros [= <- ->]. destruct (IH t' eq_refl) as [-> ?]. split; [done|by apply Forall_cons].
Qed.

Lemma number_of_token_start t v : number_of_token t = Some v → ∃ c r, t = c :: r ∧ number_start c = true.
Proof. destruct t as [|c t]; [done|]. intros H. exists c, t. split; [done|]. by destruct c. Qed.

Lemma number_of_uint_float neg f u t : number_of_uint neg f u = Some (JFloat t) → f = JFloat t.
Proof.
  destruct u as [d r]. unfold number_of_uint.
  destruct d as [|[]| | | | | | | | |], r as [|c r]; try (destruct (fraction (c :: r))); destruct neg; by intros [= <-].
Qed.

Lemma number_of_token_float b t : number_of_token b = Some (JFloat t) → String.string_of_list_byte b = t.
Proof.
  unfold number_of_token. intros H. assert (JFloat (String.string_of_list_byte b) = JFloat t) as E; [|by injection E].
  destruct b as [|c b]; [done|]. destruct c; by apply number_of_uint_float in H.
Qed.

(** A number is read as a whole. *)
Lemma parse_number fuel t v r :
  number_of_token t = Some v → Forall (λ c, number_char c = true) t → delim r →
  parse_value (S fuel) (t ++ r) = Ok (v, r).
Proof.
  intros Hv Ht Hr. destruct (number_of_token_start _ _ Hv) as (c & t' & -> & Hc).
  pose proof (span_number_all _ r Ht Hr) as Hs.
  assert (E : parse_value (S fuel) ((c :: t') ++ r) =
    (let '(t, r) := span_number ((c :: t') ++ r) in let? v := ok_or (number_of_token t) "invalid number" in Ok (v, r))%cas).
  { clear Hs Hv Ht. by destruct c. }
  rewrite E, Hs, Hv. done.
Qed.

Lemma escape_body c b : string_body (escape c ++ b) = ('(s, t) ← string_body b; Some (c :: s, t)).
Proof. by destruct c. Qed.

Lemma string_body_bytes s r : string_body (mjoin (escape <$> s) ++ x22 :: r) = Some (s, r).
Proof.
  induction s as [|c s IH]; [done|]. change (mjoin (escape <$> (c :: s))) with (escape c ++ mjoin (escape <$> s)). by rewrite <- app_assoc, escape_body, IH.
Qed.

(** The contents of a printed key or string, and what follows. *)
Lemma string_bytes_body s r :
  ∃ t, string_bytes s ++ r = x22 :: t ∧ string_body t = Some (String.list_byte_of_string s, r).
Proof.
  exists (mjoin (escape <$> String.list_byte_of_string s) ++ x22 :: r). split; [|apply string_body_bytes].
  unfold string_bytes. cbn [app]. by rewrite <- app_assoc.
Qed.

Lemma skip_ws_start c r : value_start c = true → skip_ws (c :: r) = c :: r.
Proof. by destruct c. Qed.

Lemma print_value_start v b : print_value v = Some b → ∃ c r, b = c :: r ∧ value_start c = true.
Proof.
  destruct v as [|[]|z|t|s|[|v l]|[|[k v] l] ]; simpl; try (by intros [= <-]; eauto).
  - intros [= <-]. destruct (number_bytes_chars z) as (_ & c & r & -> & Hc).
    exists c, r. split; [done|]. unfold value_start. by rewrite Hc.
  - destruct (number_of_token _) as [ [] |] eqn:E; try done. destruct (span_number _) as [? []]; [|done].
    intros [= <-]. apply number_of_token_start in E as (c & r & -> & Hc).
    exists c, r. split; [done|]. unfold value_start. by rewrite Hc.
  - destruct (print_value v); [|done]. simpl. destruct (print_elements _ l); [|done]. intros [= <-]. eauto.
  - destruct (print_value v); [|done]. simpl. destruct (print_members _ l); [|done]. intros [= <-]. eauto.
Qed.

(** What is printed is read back, whatever number-free text follows. *)
Definition reads_back (v : Value) : Prop := ∀ b r fuel,
  print_value v = Some b → delim r → (length b ≤ fuel)%nat → parse_value fuel (b ++ r) = Ok (v, r).

Lemma parse_elements_printed fuel v l b t r n :
  reads_back v → Forall reads_back l → print_value v = Some b → print_elements print_value l = Some t →
  (length (b ++ t) ≤ fuel)%nat → (length l < n)%nat →
  parse_elements (parse_value fuel) n (b ++ t ++ r) = Ok (v :: l, r).
Proof.
  revert v b t n. induction l as [|v' l IH]; intros v b t n Hv Hl Hb Ht Hf Hn; (destruct n as [|n]; [lia|]);
    rewrite length_app in Hf; cbn [print_elements parse_elements] in *.
  - injection Ht as <-. rewrite (Hv b); [done|done|done|lia].
  - apply Forall_cons in Hl as [Hv' Hl].
    destruct (print_value v') as [b'|] eqn:Hb'; [|done]. simpl in Ht.
    destruct (print_elements _ l) as [t'|] eqn:Ht'; [|done]. injection Ht as <-. simpl in Hf.
    rewrite (Hv b); [|done|done|lia]. cbn [skip_ws app]. rewrite <- app_assoc, (IH v' b' t');
      [done|done|done|done|done|rewrite length_app in *; lia|simpl in Hn; lia].
Qed.

#[local] Opaque string_bytes.

Lemma parse_members_printed fuel k v l b t r n :
  reads_back v → Forall (λ f, reads_back f.2) l → print_value v = Some b → print_members print_value l = Some t →
  (length (b ++ t) ≤ fuel)%nat → (length l < n)%nat →
  parse_members (parse_value fuel) n (string_bytes k ++ x3a :: b ++ t ++ r) = Ok ((k, v) :: l, r).
Proof.
  revert k v b t n. induction l as [|[k' v'] l IH]; intros k v b t n Hv Hl Hb Ht Hf Hn; (destruct n as [|n]; [lia|]);
    rewrite length_app in Hf; cbn [print_members parse_members] in *;
    destruct (string_bytes_body k (x3a :: b ++ t ++ r)) as (body & -> & Hk); cbn [skip_ws]; rewrite Hk;
    cbn [ok_or skip_ws]; rewrite String.string_of_list_byte_of_string.
  - injection Ht as <-. rewrite (Hv b); [done|done|done|lia].
  - apply Forall_cons in Hl as [Hv' Hl].
    destruct (print_value v') as [b'|] eqn:Hb'; [|done]. simpl in Ht.
    destruct (print_members _ l) as [t'|] eqn:Ht'; [|done]. injection Ht as <-. simpl in Hf.
    rewrite (Hv b); [|done|done|lia]. cbn [skip_ws app]. rewrite <- !app_assoc. cbn [app]. rewrite <- app_assoc, (IH k' v' b' t');
      [done|done|done|done|done|rewrite length_app in *; simpl in Hf; rewrite length_app in Hf; lia|simpl in Hn; lia].
Qed.

Lemma print_elements_length l t : print_elements print_value l = Some t → (length l < length t)%nat.
Proof.
  revert t. induction l as [|v l IH]; intros t; simpl; [intros [= <-]; simpl; lia|].
  destruct (print_value v); [|done]. simpl. destruct (print_elements _ l) as [t'|]; [|done]. intros [= <-].
  specialize (IH t' eq_refl). simpl. rewrite length_app. lia.
Qed.

Lemma print_members_length l t : print_members print_value l = Some t → (length l < length t)%nat.
Proof.
  revert t. induction l as [|[k v] l IH]; intros t; simpl; [intros [= <-]; simpl; lia|].
  destruct (print_value v); [|done]. simpl. destruct (print_members _ l) as [t'|]; [|done]. intros [= <-].
  specialize (IH t' eq_refl). simpl. rewrite !length_app. simpl. rewrite length_app. lia.
Qed.

Lemma print_reads_back v : reads_back v.
Proof.
  induction v as [|b|z|t|s|l Hl|l Hl] using Value_nested_ind; intros b0 r fuel Hb Hr Hf;
    (destruct fuel as [|fuel]; [destruct (print_value_start _ _ Hb) as (c & r' & -> & _); simpl in Hf; lia|]).
  - injection Hb as <-. done.
  - injection Hb as <-. by destruct b.
  - injection Hb as <-. apply parse_number; [apply number_token|apply number_bytes_chars|done].
  - simpl in Hb. destruct (number_of_token _) as [ [| | |t'| | |] |] eqn:E; try done.
    destruct (span_number _) as [? []] eqn:Es; [|done]. injection Hb as <-.
    apply span_number_full in Es as [_ Hc]. rewrite (parse_number _ _ _ _ E Hc Hr).
    apply number_of_token_float in E as <-. by rewrite String.string_of_list_byte_of_string.
  - injection Hb as <-. destruct (string_bytes_body s r) as (body & -> & Hs). cbn [parse_value skip_ws]. rewrite Hs.
    cbn [ok_or]. by rewrite String.string_of_list_byte_of_string.
  - destruct l as [|v l]; [by injection Hb as <-|]. apply Forall_cons in Hl as [Hv Hl]. cbn [print_value] in Hb.
    destruct (print_value v) as [b|] eqn:Eb; [|done]. cbn [mbind option_bind] in Hb.
    destruct (print_elements _ l) as [t|] eqn:Et; [|done]. injection Hb as <-.
    simpl in Hf. cbn [app parse_value skip_ws]. rewrite <- app_assoc.
    rewrite (parse_elements_printed fuel v l b t r); try done; [|simpl in Hf; lia|].
    + destruct (print_value_start _ _ Eb) as (c & b' & -> & Hc). cbn [app]. rewrite skip_ws_start by done.
      clear -Hc. by destruct c.
    + apply print_elements_length in Et. rewrite !length_app. lia.
  - destruct l as [|[k v] l]; [by injection Hb as <-|]. apply Forall_cons in Hl as [Hv Hl]. cbn [print_value] in Hb.
    destruct (print_value v) as [b|] eqn:Eb; [|done]. cbn [mbind option_bind] in Hb.
    destruct (print_members _ l) as [t|] eqn:Et; [|done]. injection Hb as <-.
    simpl in Hf. cbn [app parse_value skip_ws]. rewrite <- app_assoc. cbn [app]. rewrite <- app_assoc.
    rewrite (parse_members_printed fuel k v l b t r); try done.
    + rewrite length_app in Hf. simpl in Hf. lia.
    + apply print_members_length in Et. rewrite length_app. simpl. rewrite !length_app. lia.
Qed.

(** ** The instance *)

#[export] Instance json_text_laws : JsonTextLaws json_text.
Proof.
  split. intros v b. cbn [json_print json_parse json_text]. destruct (print_value v) as [b'|] eqn:E; [|done].
  intros [= <-]. unfold parse_document. pose proof (print_reads_back v b' [] (S (length b')) E I ltac:(lia)) as H.
  rewrite app_nil_r in H. by rewrite H.
Qed.
