(* ===== verification/Config.v ===== *)
(** * Configuration

    The configuration records of [src/src/config.rs], [da_api/config.rs],
    [rollups/nitro/config.rs], [rollups/nitro/feed/*.rs] and
    [submitter/submitter.rs], with their [Default] values.  A [Duration]
    field is in nanoseconds, a [_ms] or [_secs] field in its unit.  A [url::Url] is kept as the string it serialises to; the
    light client's [Genesis] and alloy's [Address] are types of other crates and
    stay parameters. *)

From S2P Require Import Prelude.

(** ** Streamer and channels *)

Record StreamerConfig := {
  initial_backoff_ms : Z;
  max_backoff_ms : Z;
  retry_broadcast_delay_ms : Z;
  starting_pos : Z;
  starting_hotshot_height : Z;
  max_full_queue_entries : nat;
  hotshot_stall_warn_ms : Z;
  progress_log_interval_ms : Z;
}.

Definition default_StreamerConfig : StreamerConfig := {|
  initial_backoff_ms := 1000;
  max_backoff_ms := 30000;
  retry_broadcast_delay_ms := 300;
  starting_pos := 0;
  starting_hotshot_height := 0;
  max_full_queue_entries := 1000;
  hotshot_stall_warn_ms := 30000;
  progress_log_interval_ms := 15000;
|}.

Record AdvancedConfig := {
  espresso_finalized_message_channel_capacity : nat;
  verification_channel_capacity : nat;
  hotshot_transaction_channel_capacity : nat;
  submitter_input_channel_capacity : nat;
}.

Definition default_AdvancedConfig : AdvancedConfig := {|
  espresso_finalized_message_channel_capacity := 100;
  verification_channel_capacity := 100;
  hotshot_transaction_channel_capacity := 300;
  submitter_input_channel_capacity := 100;
|}.

Record SubmitterConfig := {
  max_in_flight : nat;
  finalization_wait_ms : Z;
  sub_initial_backoff_ms : Z;
  sub_max_backoff_ms : Z;
  max_finalization_poll_retries : Z;
}.

Definition default_SubmitterConfig : SubmitterConfig := {|
  max_in_flight := 4;
  finalization_wait_ms := 5000;
  sub_initial_backoff_ms := 100;
  sub_max_backoff_ms := 10000;
  max_finalization_poll_retries := 5;
|}.

(** ** Rollup and TEE types *)

Inductive RollupType := RollupNitro.

Inductive TeeType := TeeNitro | TeeTest.

#[export] Instance TeeType_eq_dec : EqDecision TeeType.
Proof. solve_decision. Defined.

Record RollupConfig (C : Type) := {
  ty : RollupType;
  namespace_id : Z;
  stack : C;
}.

Arguments ty {C}.
Arguments namespace_id {C}.
Arguments stack {C}.

(** ** DA API *)

Record DaProviderConfig := {
  name : string;
  endpoint_url : string;
  is_anytrust : bool;
  anytrust_fallback_url : option string;
}.

Definition calldata_provider : DaProviderConfig := {|
  name := "calldata";
  endpoint_url := "";
  is_anytrust := false;
  anytrust_fallback_url := None;
|}.

Record DaApiConfig := {
  listen_addr : string;
  da_providers : list DaProviderConfig;
  calldata_max_size : option Z;
}.

Definition default_DaApiConfig : DaApiConfig := {|
  listen_addr := "";
  da_providers := [];
  calldata_max_size := None;
|}.

Definition DEFAULT_CALLDATA_MAX_SIZE : Z := 1000000.

Definition resolve_calldata_max_size (explicit : option Z) : Z :=
  default DEFAULT_CALLDATA_MAX_SIZE explicit.

(** ** Feed and Nitro stack *)

Record WsBroadcastServerConfig := {
  addr : string;
  port : Z;
  ping : Z;
  client_timeout : Z;
  write_timeout : Z;
  require_version : bool;
  ws_enable_compression : bool;
  require_compression : bool;
}.

Definition default_WsBroadcastServerConfig : WsBroadcastServerConfig := {|
  addr := "0.0.0.0";
  port := 9642;
  ping := 5 * 10 ^ 9;
  client_timeout := 15 * 10 ^ 9;
  write_timeout := 2 * 10 ^ 9;
  require_version := false;
  ws_enable_compression := true;
  require_compression := false;
|}.

Record BroadcasterConfig := {
  broadcast_channel_capacity : nat;
  ws_server : WsBroadcastServerConfig;
}.

Definition default_BroadcasterConfig : BroadcasterConfig := {|
  broadcast_channel_capacity := 512;
  ws_server := default_WsBroadcastServerConfig;
|}.

Section addressed.
Context {Address : Type}.

Record BroadcasterClientConfig := {
  reconnect_initial_backoff : Z;
  reconnect_maximum_backoff : Z;
  timeout : Z;
  retry_connect_max_backoff : Z;
  retry_connect_backoff_step : Z;
  enable_compression : bool;
  require_feed_server_version : bool;
  require_chain_id : bool;
  trusted_sequencer_addresses : list Address;
}.

Definition default_BroadcasterClientConfig : BroadcasterClientConfig := {|
  reconnect_initial_backoff := 10 ^ 9;
  reconnect_maximum_backoff := 64 * 10 ^ 9;
  timeout := 20 * 10 ^ 9;
  retry_connect_max_backoff := 15 * 10 ^ 9;
  retry_connect_backoff_step := 500 * 10 ^ 6;
  enable_compression := true;
  require_feed_server_version := false;
  require_chain_id := false;
  trusted_sequencer_addresses := [];
|}.

Record FeedConfig := {
  client : BroadcasterClientConfig;
  server : BroadcasterConfig;
  web_socket_url : string;
  current_message_count : Z;
}.

Record NitroConfig := {
  legacy_signer_addresses : list Address;
  chain_id : Z;
  feed : FeedConfig;
  l1_http_url : string;
  l1_ws_url : string;
  sequencer_inbox_address : Address;
  log_scan_step : Z;
  max_l1_blocks_to_scan_on_startup : Z;
  l1_finalized_poll_interval_ms : Z;
}.

Record KeyManagerConfig := {
  tee_verifier_address_cfg : Address;
  attestation_verifier_url : string;
  max_register_attempts_cfg : Z;
  attestation_client_timeout_secs : Z;
  tee_type_cfg : TeeType;
}.
End addressed.

Arguments BroadcasterClientConfig : clear implicits.
Arguments FeedConfig : clear implicits.
Arguments NitroConfig : clear implicits.
Arguments KeyManagerConfig : clear implicits.

Definition default_log_scan_step : Z := 10000.

Definition default_l1_finalized_poll_interval_ms : Z := 12000.

Definition default_max_register_attempts : Z := 3.

Definition default_attestation_client_timeout_secs : Z := 5 * 60.

(** ** Espresso client and the whole service *)

Record EspressoClientConfig := {
  base_url : string;
  client_timeout_secs : Z;
}.

Definition default_client_timeout_secs : Z := 30.

Record LightClientConfig (Genesis : Type) := {
  genesis : Genesis;
  fallback_query_urls : list string;
  db_path : option string;
  num_stake_tables_in_memory : nat;
  fallback_delay_ms : Z;
}.

Arguments genesis {Genesis}.
Arguments fallback_query_urls {Genesis}.
Arguments db_path {Genesis}.
Arguments num_stake_tables_in_memory {Genesis}.
Arguments fallback_delay_ms {Genesis}.

Definition default_num_stake_tables_in_memory : nat := 100.

Definition default_fallback_delay_ms : Z := 300.

Record EspressoConfig (Genesis : Type) := {
  ec_client : EspressoClientConfig;
  light_client : LightClientConfig Genesis;
}.

Arguments ec_client {Genesis}.
Arguments light_client {Genesis}.

Record ServiceConfig (Genesis Address C : Type) := {
  espresso_client : EspressoConfig Genesis;
  streamer : StreamerConfig;
  rollup : RollupConfig C;
  da_server : DaApiConfig;
  submitter : SubmitterConfig;
  advanced : AdvancedConfig;
  key_manager : KeyManagerConfig Address;
  is_fresh_deployment : bool;
}.

Arguments espresso_client {Genesis Address C}.
Arguments streamer {Genesis Address C}.
Arguments rollup {Genesis Address C}.
Arguments da_server {Genesis Address C}.
Arguments submitter {Genesis Address C}.
Arguments advanced {Genesis Address C}.
Arguments key_manager {Genesis Address C}.
Arguments is_fresh_deployment {Genesis Address C}.
