(* ===== verification/Rollup.v ===== *)
(** * The rollup interface

    [src/src/rollups/rollup.rs] and the parts of [src/src/lib.rs] it speaks of:
    the trait [Rollup] as a type class, what the streamer relies on as a class
    of laws, the bounded sender the streamer broadcasts into, and the Espresso
    reader it fetches blocks from. *)

From S2P Require Import Prelude Bytes Slice Config.

(** ** Verification results ([lib.rs]) *)

Record VerificationResult := {
  success : bool;
  start_message_position : Z;
  end_message_position : Z;
  start_espresso_block : Z;
  after_delayed_messages_read : Z;
  min_espresso_block_still_in_queue : Z;
}.

Definition VerificationResult_success
    (start_pos end_pos start_block delayed_read min_block : Z) : VerificationResult := {|
  success := true;
  start_message_position := start_pos;
  end_message_position := end_pos;
  start_espresso_block := start_block;
  after_delayed_messages_read := delayed_read;
  min_espresso_block_still_in_queue := min_block;
|}.

Definition VerificationResult_failure : VerificationResult := {|
  success := false;
  start_message_position := 0;
  end_message_position := 0;
  start_espresso_block := 0;
  after_delayed_messages_read := 0;
  min_espresso_block_still_in_queue := 0;
|}.

(** ** Espresso transactions and readers

    [espresso_types::Transaction] carries a namespace and a payload. *)

Record Transaction := {
  tx_namespace : Z;
  payload : bytes;
}.

(** [LightClientError]; [Verification] keeps whether its cause is a 404. *)
Inductive LightClientError :=
| LcStorage (msg : string)
| LcClient (msg : string)
| LcHeightOverflow (h : Z)
| LcVerification (not_found : bool) (msg : string).

(** The trait [EspressoReader]: the answers the node gives while one handler
    runs.  A handler asks for each range at most once, so a function of the
    range is the most general behaviour. *)
Record EspressoReader := {
  block_height : result Z LightClientError;
  namespace_transactions_in_range :
    Z → Z → Z → result (list (list Transaction)) LightClientError;
}.

(** ** The trait [Rollup] *)

Class RollupQueueEntry (E : Type) := {
  sequence_number : E → Z;
  hotshot_height : E → Z;
}.

Record CasCheckpoint (C : Type) := {
  batch_cursor : C;
  checkpoint_hotshot_height : Z;
}.

Arguments batch_cursor {C}.
Arguments checkpoint_hotshot_height {C}.

Class Rollup := {
  StackConfig : Type;
  Entry : Type;
  BatchMessageT : Type;
  FeedMessage : Type;
  BatchCursorT : Type;
  default_cursor : BatchCursorT;
  entry_ops :: RollupQueueEntry Entry;
  parse_batch_data : bytes → result (list BatchMessageT) string;
  convert_entry_to_feed_message : Entry → FeedMessage;
  parse_hotshot_transactions : StackConfig → list (list Transaction) → Z → list Entry;
  verify_batch_messages :
    list BatchMessageT → list Entry → BatchCursorT → VerificationResult;
}.

(** What the streamer relies on: sequence numbers and heights are [u64]s, the
    blocks of a range are parsed independently and positionally (the height of
    an entry is the height of its block), and the conversion to a feed message
    keeps the sequence number. *)
Class RollupLaws (R : Rollup) := {
  feed_sequence_number : FeedMessage → Z;
  convert_keeps_seq (e : Entry) :
    feed_sequence_number (convert_entry_to_feed_message e) = sequence_number e;
  parse_u64 cfg blocks h (e : Entry) :
    e ∈ parse_hotshot_transactions cfg blocks h → is_u64 (sequence_number e);
  parse_nil cfg h : parse_hotshot_transactions cfg [] h = [];
  parse_cons cfg b blocks h :
    parse_hotshot_transactions cfg (b :: blocks) h =
      parse_hotshot_transactions cfg [b] h ++
      parse_hotshot_transactions cfg blocks (u64_add h 1);
  parse_height cfg b h (e : Entry) :
    e ∈ parse_hotshot_transactions cfg [b] h → hotshot_height e = h;
}.

(** ** Bounded senders

    [tokio::sync::mpsc::Sender::try_send]: the message is accepted, refused
    because the channel is full, or refused because the receiver is gone. *)

Inductive try_send_result := SendOk | SendFull | SendClosed.

Class Sender (C M : Type) := {
  try_send : C → M → C * try_send_result;
  delivered : C → list M;
}.

(** [delivered] is the history of accepted messages, oldest first: a send that
    is accepted appends its message, one that is refused changes nothing. *)
Class SenderLaws {C M} (S : Sender C M) : Prop := {
  try_send_ok c m c' : try_send c m = (c', SendOk) → delivered c' = delivered c ++ [m];
  try_send_full c m c' : try_send c m = (c', SendFull) → delivered c' = delivered c;
  try_send_closed c m c' : try_send c m = (c', SendClosed) → delivered c' = delivered c;
}.

(** A bounded channel, with its history. *)
Record bounded_chan (M : Type) := {
  chan_capacity : nat;
  chan_pending : list M;
  chan_history : list M;
  chan_closed : bool;
}.

Arguments chan_capacity {M}.
Arguments chan_pending {M}.
Arguments chan_history {M}.
Arguments chan_closed {M}.

Definition bounded_try_send {M} (c : bounded_chan M) (m : M) : bounded_chan M * try_send_result :=
  if chan_closed c then (c, SendClosed)
  else if (chan_capacity c <=? length (chan_pending c))%nat then (c, SendFull)
  else ({| chan_capacity := chan_capacity c;
           chan_pending := chan_pending c ++ [m];
           chan_history := chan_history c ++ [m];
           chan_closed := false |}, SendOk).

#[export] Instance bounded_sender {M} : Sender (bounded_chan M) M := {|
  try_send := bounded_try_send;
  delivered := chan_history;
|}.

#[export] Instance bounded_sender_laws {M} : SenderLaws (@bounded_sender M).
Proof.
  split; intros c m c'; simpl; unfold bounded_try_send; intros H; case_bool; by simplify_eq/=.
Qed.

(** ** Consequences of the laws *)

Section laws.
Context {R : Rollup} {L : RollupLaws R}.

(** Every entry parsed from a range sits at the height of one of its blocks. *)
Lemma parse_in_range cfg blocks h (e : Entry) :
  is_u64 h → h + zlen blocks ≤ u64_modulus →
  e ∈ parse_hotshot_transactions cfg blocks h →
  ∃ i b, blocks !! i = Some b ∧ hotshot_height e = h + Z.of_nat i ∧
         e ∈ parse_hotshot_transactions cfg [b] (h + Z.of_nat i).
Proof.
  revert h. induction blocks as [|b blocks IH]; intros h Hh Hlen Hin.
  { rewrite parse_nil in Hin. by apply elem_of_nil in Hin. }
  rewrite parse_cons in Hin. apply elem_of_app in Hin as [Hin|Hin].
  - exists 0%nat, b. rewrite Z.add_0_r. split_and!; try done. by eapply parse_height.
  - destruct blocks as [|b' blocks'] eqn:Eb; [rewrite parse_nil in Hin; set_solver|].
    rewrite <- Eb in *. assert (Hz : 1 ≤ zlen blocks) by (rewrite Eb; unfold zlen; simpl; lia).
    assert (Hlen' : h + 1 + zlen blocks ≤ u64_modulus) by (unfold zlen in *; simpl in *; lia).
    assert (u64_add h 1 = h + 1) as E.
    { unfold u64_add, wrap64. apply Z.mod_small. unfold is_u64 in *. lia. }
    rewrite E in Hin. destruct (IH (h + 1)) as (i & b0 & H1 & H2 & H3); try done.
    { unfold is_u64 in *. lia. }
    exists (S i), b0. replace (h + Z.of_nat (S i)) with (h + 1 + Z.of_nat i) by lia.
    split_and!; try done.
Qed.
End laws.
