(* ===== verification/MockRollup.v ===== *)
(** * A rollup instance for concrete runs

    The entries of [src/src/espresso_e2e/mock_rollup.rs]: the last eight bytes of
    a payload are the sequence number.  The witnesses of the streamer's theorems
    run on it.  (The mock's [verify_batch_messages] is [todo!()] in the source;
    the instance answers with a failure.) *)

From coqutil Require Import Byte Word.LittleEndianList.
From S2P Require Import Prelude Bytes Slice Config Rollup.
#[global] Open Scope Z_scope.

Record MockEntry := {
  seq_num : Z;
  mock_hotshot_height : Z;
}.

#[export] Instance MockEntry_eq_dec : EqDecision MockEntry.
Proof. solve_decision. Defined.

#[export] Instance mock_entry_ops : RollupQueueEntry MockEntry := {|
  sequence_number := seq_num;
  hotshot_height := mock_hotshot_height;
|}.

Definition mock_entry_of_tx (h : Z) (tx : Transaction) : MockEntry :=
  {| seq_num := from_be_bytes (drop (length (payload tx) - 8) (payload tx));
     mock_hotshot_height := h |}.

Fixpoint mock_parse_hotshot_transactions (blocks : list (list Transaction)) (h : Z)
    : list MockEntry :=
  match blocks with
  | [] => []
  | b :: blocks' =>
      (mock_entry_of_tx h <$> b) ++ mock_parse_hotshot_transactions blocks' (u64_add h 1)
  end.

Definition make_mock_espresso_transaction (seq : Z) : Transaction :=
  {| tx_namespace := 1918988905; payload := to_be_bytes 8 seq |}.

#[export] Instance MockRollup : Rollup := {|
  StackConfig := unit;
  Entry := MockEntry;
  BatchMessageT := unit;
  FeedMessage := MockEntry;
  BatchCursorT := unit;
  default_cursor := tt;
  entry_ops := mock_entry_ops;
  parse_batch_data _ := Ok [];
  convert_entry_to_feed_message e := e;
  parse_hotshot_transactions _ := mock_parse_hotshot_transactions;
  verify_batch_messages _ _ _ := VerificationResult_failure;
|}.

Lemma mock_entry_u64 h tx : is_u64 (seq_num (mock_entry_of_tx h tx)).
Proof.
  simpl. unfold from_be_bytes, is_u64.
  pose proof (le_combine_bound (reverse (drop (length (payload tx) - 8) (payload tx)))) as H.
  rewrite length_reverse, length_drop in H.
  assert (2 ^ (8 * Z.of_nat (length (payload tx) - (length (payload tx) - 8))) ≤ u64_modulus).
  { unfold u64_modulus. apply Z.pow_le_mono_r; lia. }
  lia.
Qed.

#[export] Instance MockRollupLaws : RollupLaws MockRollup.
Proof.
  refine {| feed_sequence_number := (seq_num : @FeedMessage MockRollup → Z) |}; simpl; try done.
  - intros _ blocks. induction blocks as [|b blocks IH]; intros h e; simpl; [set_solver|].
    intros [(tx & -> & _)%list_elem_of_fmap|He]%elem_of_app; [apply mock_entry_u64|by eapply IH].
  - intros _ b blocks h. by rewrite app_nil_r.
  - intros _ b h e. rewrite app_nil_r. by intros (tx & -> & _)%list_elem_of_fmap.
Defined.

(** A configuration with room for two full entries. *)
Definition mock_config : StreamerConfig := {|
  initial_backoff_ms := 1000; max_backoff_ms := 30000; retry_broadcast_delay_ms := 300;
  starting_pos := 1; starting_hotshot_height := 0; max_full_queue_entries := 2;
  hotshot_stall_warn_ms := 30000; progress_log_interval_ms := 15000;
|}.

Definition mock_rollup_config : RollupConfig unit :=
  {| ty := RollupNitro; namespace_id := 1918988905; stack := tt |}.

(** A node that serves the given chain, block [h] at position [h]. *)
Definition chain_reader (chain : Z → list Transaction) (height : Z) : EspressoReader := {|
  block_height := Ok height;
  namespace_transactions_in_range _ a b :=
    Ok ((λ i, chain (a + Z.of_nat i)) <$> seq 0 (Z.to_nat (b - a)));
|}.

(** A node that is down. *)
Definition failing_reader : EspressoReader := {|
  block_height := Err (LcVerification false "down");
  namespace_transactions_in_range _ _ _ := Err (LcVerification false "down");
|}.

Definition empty_chan : bounded_chan MockEntry :=
  {| chan_capacity := 100; chan_pending := []; chan_history := []; chan_closed := false |}.
