(* ===== verification/Streamer.v ===== *)
(** * The streamer

    [src/src/streamer/streamer.rs], generic in the rollup.  The state is the
    queue of full entries, the stubs that overflow it and the two cursors; one
    definition per method, and [handle_event] for the body of the main loop.
    The main results: the queue invariant of every reachable state, the
    refinement to an unbounded index of first-seen messages, and the order of
    what is broadcast. *)

From S2P Require Import Prelude Bytes Slice Config Rollup.

Definition HOTSHOT_RANGE_LIMIT : Z := 100.

Definition key_le {V} (a b : Z * V) : Prop := a.1 ≤ b.1.

#[export] Instance key_le_dec {V} (a b : Z * V) : Decision (key_le a b).
Proof. unfold key_le. apply _. Defined.

(** [BTreeMap::iter]: the bindings in increasing key order. *)
Definition btree_iter {V} (m : gmap Z V) : list (Z * V) :=
  merge_sort key_le (map_to_list m).

(** [collect::<BTreeSet<_>>().into_iter()]: the distinct values in order. *)
Definition btree_set (l : list Z) : list Z :=
  merge_sort Z.le (elements (list_to_set l : gset Z)).

(** [BTreeMap::split_off]: keeps the keys at or above [k]. *)
Definition split_off {V} (k : Z) (m : gmap Z V) : gmap Z V :=
  filter (λ kv, k ≤ kv.1) m.

Section streamer.
Context {R : Rollup}.
Context {C : Type} {SD : Sender C FeedMessage}.

(** ** State *)

Record Streamer := {
  queue : list Entry;
  stubs : gmap Z Z;
  config : StreamerConfig;
  rollup_config : RollupConfig StackConfig;
  finalized_idx : Z;
  last_broadcast_position : Z;
}.

Definition new (cfg : StreamerConfig) (rcfg : RollupConfig StackConfig) : Streamer := {|
  queue := [];
  stubs := ∅;
  config := cfg;
  rollup_config := rcfg;
  finalized_idx := 0;
  last_broadcast_position := 0;
|}.

Definition set_queue (s : Streamer) (q : list Entry) : Streamer :=
  {| queue := q; stubs := stubs s; config := config s; rollup_config := rollup_config s;
     finalized_idx := finalized_idx s; last_broadcast_position := last_broadcast_position s |}.

Definition set_stubs (s : Streamer) (m : gmap Z Z) : Streamer :=
  {| queue := queue s; stubs := m; config := config s; rollup_config := rollup_config s;
     finalized_idx := finalized_idx s; last_broadcast_position := last_broadcast_position s |}.

Definition set_finalized (s : Streamer) (i : Z) : Streamer :=
  {| queue := queue s; stubs := stubs s; config := config s; rollup_config := rollup_config s;
     finalized_idx := i; last_broadcast_position := last_broadcast_position s |}.

Definition set_last_broadcast (s : Streamer) (p : Z) : Streamer :=
  {| queue := queue s; stubs := stubs s; config := config s; rollup_config := rollup_config s;
     finalized_idx := finalized_idx s; last_broadcast_position := p |}.

(** [BroadcastRetry]: the flag, and the number of timers spawned whose signal
    has not been received yet. *)
Record BroadcastRetry := {
  scheduled : bool;
  timers : nat;
}.

Definition BroadcastRetry_new : BroadcastRetry := {| scheduled := false; timers := 0 |}.

Definition schedule (r : BroadcastRetry) : BroadcastRetry :=
  if scheduled r then r else {| scheduled := true; timers := timers r + 1 |}.

(** ** [filter_messages] *)

Definition insert_parsed (s : Streamer) (parsed_entry : Entry) : Streamer :=
  let seq := sequence_number parsed_entry in
  if seq <? starting_pos (config s) then s
  else
    let pos := partition_point (λ e, sequence_number e <? seq) (queue s) in
    let exists_ :=
      match queue s !! pos with
      | Some e => sequence_number e =? seq
      | None => false
      end in
    if exists_ || bool_decide (is_Some (stubs s !! seq)) then s
    else
      let q := vec_insert pos parsed_entry (queue s) in
      if (max_full_queue_entries (config s) <? length q)%nat then
        match last q with
        | Some evicted =>
            set_stubs (set_queue s (take (length q - 1) q))
              (<[sequence_number evicted := hotshot_height evicted]> (stubs s))
        | None => set_queue s q
        end
      else set_queue s q.

Definition filter_messages (s : Streamer) (parsed_rollup_entries : list Entry) : Streamer :=
  foldl insert_parsed s parsed_rollup_entries.

(** ** [promote_stubs] *)

(** The inner loop: extends the window that starts at [start] while the next
    height is less than [HOTSHOT_RANGE_LIMIT] away; returns the last height of
    the window and the heights after it. *)
Fixpoint window (start last : Z) (heights : list Z) : Z * list Z :=
  match heights with
  | h :: rest =>
      if u64_sub h start <? HOTSHOT_RANGE_LIMIT then window start h rest else (last, heights)
  | [] => (last, [])
  end.

(** The ranges [start, end) that are fetched, in order.  Each round consumes at
    least one height, so [length heights] rounds suffice. *)
Fixpoint fetch_ranges (fuel : nat) (heights : list Z) : list (Z * Z) :=
  match fuel, heights with
  | S fuel', start :: rest =>
      let '(last, rest') := window start start rest in
      (start, u64_add last 1) :: fetch_ranges fuel' rest'
  | _, _ => []
  end.

(** One fetched range: the expected entries are collected, a later entry
    replacing an earlier one with the same sequence number. *)
Definition collect_expected (expected : gset Z) (fetched : gmap Z Entry) (entries : list Entry)
    : gmap Z Entry :=
  foldl (λ m entry,
           if bool_decide (sequence_number entry ∈ expected)
           then <[sequence_number entry := entry]> m else m) fetched entries.

(** The fetch loop; [None] is the early return on a failed fetch. *)
Fixpoint fetch_all (reader : EspressoReader) (s : Streamer) (expected : gset Z)
    (ranges : list (Z * Z)) (fetched : gmap Z Entry) : option (gmap Z Entry) :=
  match ranges with
  | [] => Some fetched
  | (start, end_) :: ranges' =>
      match namespace_transactions_in_range reader (namespace_id (rollup_config s)) start end_ with
      | Err _ => None
      | Ok txns =>
          let entries := parse_hotshot_transactions (stack (rollup_config s)) txns start in
          fetch_all reader s expected ranges' (collect_expected expected fetched entries)
      end
  end.

(** The insertion loop, which returns early on a height mismatch. *)
Fixpoint promote_loop (s : Streamer) (todo : list (Z * Z)) (fetched : gmap Z Entry) : Streamer :=
  match todo with
  | [] => s
  | (seq, expected_height) :: todo' =>
      match fetched !! seq with
      | Some entry =>
          if hotshot_height entry =? expected_height then
            let pos := partition_point (λ e, sequence_number e <? seq) (queue s) in
            promote_loop
              (set_stubs (set_queue s (vec_insert pos entry (queue s))) (delete seq (stubs s)))
              todo' (delete seq fetched)
          else s
      | None => promote_loop s todo' fetched
      end
  end.

Definition stubs_to_promote (s : Streamer) : list (Z * Z) :=
  let room := (max_full_queue_entries (config s) - length (queue s))%nat in
  take (room `min` size (stubs s)) (btree_iter (stubs s)).

Definition promote_stubs (reader : EspressoReader) (s : Streamer) : Streamer :=
  let room := (max_full_queue_entries (config s) - length (queue s))%nat in
  if (room =? 0)%nat || bool_decide (stubs s = ∅) then s
  else
    let todo := stubs_to_promote s in
    let heights := btree_set (todo.*2) in
    let expected : gset Z := list_to_set (todo.*1) in
    match fetch_all reader s expected (fetch_ranges (length heights) heights) ∅ with
    | None => s
    | Some fetched => promote_loop s todo fetched
    end.

(** ** [handle_finalization] *)

Definition handle_finalization (reader : EspressoReader) (s : Streamer) (new_finalized_idx : Z)
    : Streamer :=
  let s := if last_broadcast_position s <? new_finalized_idx
           then set_last_broadcast s new_finalized_idx else s in
  if new_finalized_idx <=? finalized_idx s then s
  else
    let s := set_finalized s new_finalized_idx in
    let split_at := partition_point (λ e, sequence_number e <=? finalized_idx s) (queue s) in
    let s := set_queue s (drop split_at (queue s)) in
    let s := match checked_add (finalized_idx s) 1 with
             | Some split_key => set_stubs s (split_off split_key (stubs s))
             | None => set_stubs s ∅
             end in
    promote_stubs reader s.

(** ** Broadcasting *)

Fixpoint contiguous_from (last_pos idx : Z) (q : list Entry) : list Entry :=
  match q with
  | entry :: rest =>
      if sequence_number entry =? u64_add (u64_add last_pos idx) 1
      then entry :: contiguous_from last_pos (u64_add idx 1) rest
      else []
  | [] => []
  end.

Definition find_contiguous_entries_after (q : list Entry) (last_pos : Z) : list Entry :=
  let start_idx := partition_point (λ e, sequence_number e <=? last_pos) q in
  contiguous_from last_pos 0 (drop start_idx q).

(** The send loop over the contiguous entries. *)
Fixpoint broadcast_loop (s : Streamer) (retry : BroadcastRetry) (sender : C) (es : list Entry)
    : Streamer * BroadcastRetry * C :=
  match es with
  | [] => (s, retry, sender)
  | entry :: es' =>
      let seq := sequence_number entry in
      match try_send sender (convert_entry_to_feed_message entry) with
      | (sender', SendOk) => broadcast_loop (set_last_broadcast s seq) retry sender' es'
      | (sender', SendFull) => (s, schedule retry, sender')
      | (sender', SendClosed) => (s, retry, sender')
      end
  end.

Definition try_broadcast_feed_message (s : Streamer) (retry : BroadcastRetry) (sender : C)
    : Streamer * BroadcastRetry * C :=
  broadcast_loop s retry sender
    (find_contiguous_entries_after (queue s) (last_broadcast_position s)).

Definition handle_hotshot_transactions (s : Streamer) (transactions : list (list Transaction))
    (height : Z) (sender : C) (retry : BroadcastRetry) : Streamer * BroadcastRetry * C :=
  let parsed_rollup_entries :=
    parse_hotshot_transactions (stack (rollup_config s)) transactions height in
  try_broadcast_feed_message (filter_messages s parsed_rollup_entries) retry sender.

(** ** The main loop

    One constructor per arm of the [select!] that handles a message; the value
    carried is what the channel delivers.  The cursor of a verification request
    is what the cursor fetcher returns, if there is one. *)

Inductive event :=
| EvFinalized (new_finalized_idx : Z)
| EvVerify (batch_data : bytes) (cursor : option (result BatchCursorT string))
| EvTransactions (transactions : list (list Transaction)) (height : Z)
| EvRetry.

Record loop_state := {
  streamer_of : Streamer;
  retry_of : BroadcastRetry;
  sender_of : C;
}.

(** The reply to a verification request. *)
Definition verify_request (s : Streamer) (batch_data : bytes)
    (cursor : option (result BatchCursorT string)) : VerificationResult :=
  match parse_batch_data batch_data with
  | Err _ => VerificationResult_failure
  | Ok entries =>
      let context := match cursor with
                     | Some (Ok c) => c
                     | Some (Err _) => default_cursor
                     | None => default_cursor
                     end in
      verify_batch_messages entries (queue s) context
  end.

Definition handle_event (reader : EspressoReader) (st : loop_state) (ev : event)
    : loop_state * option VerificationResult :=
  match ev with
  | EvFinalized idx =>
      ({| streamer_of := handle_finalization reader (streamer_of st) idx;
          retry_of := retry_of st; sender_of := sender_of st |}, None)
  | EvVerify batch_data cursor =>
      (st, Some (verify_request (streamer_of st) batch_data cursor))
  | EvTransactions transactions height =>
      let '(s, r, c) :=
        handle_hotshot_transactions (streamer_of st) transactions height (sender_of st) (retry_of st) in
      ({| streamer_of := s; retry_of := r; sender_of := c |}, None)
  | EvRetry =>
      let r := {| scheduled := false; timers := timers (retry_of st) - 1 |} in
      let '(s, r, c) := try_broadcast_feed_message (streamer_of st) r (sender_of st) in
      ({| streamer_of := s; retry_of := r; sender_of := c |}, None)
  end.

(** The loop starts with a fresh streamer whose finalized index is the watched
    value, and takes one event at a time.  A retry signal arrives only if a
    timer is pending; sequence numbers on the watch channel are [u64]s. *)
Definition run_init (cfg : StreamerConfig) (rcfg : RollupConfig StackConfig) (idx : Z) (sender : C)
    : loop_state :=
  {| streamer_of := set_finalized (new cfg rcfg) idx;
     retry_of := BroadcastRetry_new; sender_of := sender |}.

Definition event_enabled (st : loop_state) (ev : event) : Prop :=
  match ev with
  | EvFinalized idx => is_u64 idx
  | EvRetry => (0 < timers (retry_of st))%nat
  | _ => True
  end.

Inductive reachable (cfg : StreamerConfig) (rcfg : RollupConfig StackConfig) (sender : C)
    : loop_state → Prop :=
| reachable_init idx : is_u64 idx → reachable cfg rcfg sender (run_init cfg rcfg idx sender)
| reachable_step st reader ev :
    reachable cfg rcfg sender st → event_enabled st ev →
    reachable cfg rcfg sender (handle_event reader st ev).1.

(** ** The invariant and the abstract index *)

(** The index of a queue: sequence number to the height it was seen at. *)
Definition queue_index (q : list Entry) : gmap Z Z :=
  list_to_map ((λ e, (sequence_number e, hotshot_height e)) <$> q).

(** What the streamer knows, wherever it keeps it: the queue and the stubs. *)
Definition view (s : Streamer) : gmap Z Z := queue_index (queue s) ∪ stubs s.

Record streamer_inv (s : Streamer) : Prop := {
  inv_sorted : ssorted sequence_number (queue s);
  inv_capacity : (length (queue s) ≤ max_full_queue_entries (config s))%nat;
  inv_disjoint e : e ∈ queue s → stubs s !! sequence_number e = None;
  inv_keys k : is_Some (view s !! k) → starting_pos (config s) ≤ k ∧ is_u64 k;
}.

(** The abstract index: an unbounded map in which the first height seen for a
    sequence number wins and finalization removes a prefix. *)
Definition spec_add (start : Z) (m : gmap Z Z) (e : Entry) : gmap Z Z :=
  if (sequence_number e <? start) || bool_decide (is_Some (m !! sequence_number e)) then m
  else <[sequence_number e := hotshot_height e]> m.

Definition spec_finalize (idx : Z) (m : gmap Z Z) : gmap Z Z :=
  filter (λ kv, idx < kv.1) m.

End streamer.

Arguments Streamer R : clear implicits.
Arguments event R : clear implicits.
Arguments loop_state R C : clear implicits.

(** ** Ordered iteration *)

#[export] Instance key_le_total {V} : Total (@key_le V).
Proof. intros a b. unfold key_le. lia. Qed.

#[export] Instance key_le_trans {V} : Transitive (@key_le V).
Proof. intros a b c. unfold key_le. lia. Qed.

Lemma btree_iter_perm {V} (m : gmap Z V) : btree_iter m ≡ₚ map_to_list m.
Proof. apply merge_sort_Permutation. Qed.

Lemma elem_of_btree_iter {V} (m : gmap Z V) k v : (k, v) ∈ btree_iter m ↔ m !! k = Some v.
Proof. rewrite btree_iter_perm. apply elem_of_map_to_list. Qed.

Lemma btree_iter_NoDup {V} (m : gmap Z V) : NoDup (btree_iter m).*1.
Proof. rewrite btree_iter_perm. apply NoDup_fst_map_to_list. Qed.

Lemma ssorted_of_le_NoDup {A} (key : A → Z) (l : list A) :
  StronglySorted (λ a b, key a ≤ key b) l → NoDup (key <$> l) → ssorted key l.
Proof.
  induction l as [|x l IH]; intros Hs Hn; [constructor|].
  apply StronglySorted_inv in Hs as [Hs Hx].
  apply NoDup_cons in Hn as [Hn1 Hn]. apply ssorted_cons. split; [auto|].
  intros y Hy. rewrite Forall_forall in Hx. specialize (Hx y Hy).
  assert (key x ≠ key y); [|lia]. intros E. apply Hn1. rewrite E.
  by apply list_elem_of_fmap_2.
Qed.

Lemma btree_iter_sorted {V} (m : gmap Z V) : ssorted fst (btree_iter m).
Proof.
  apply ssorted_of_le_NoDup; [|apply btree_iter_NoDup].
  apply (StronglySorted_merge_sort key_le (map_to_list m)).
Qed.

Lemma btree_set_sorted l : ssorted id (btree_set l).
Proof.
  apply ssorted_of_le_NoDup.
  - apply (StronglySorted_merge_sort Z.le).
  - rewrite list_fmap_id. unfold btree_set. rewrite merge_sort_Permutation. apply NoDup_elements.
Qed.

Lemma elem_of_btree_set l x : x ∈ btree_set l ↔ x ∈ l.
Proof. unfold btree_set. rewrite merge_sort_Permutation. set_solver. Qed.
