(* ===== verification/StreamerProofs.v ===== *)
(** * Correctness of the streamer

    The invariant of the streamer's queue and stubs is kept by every handler,
    the handlers refine the unbounded index of [Streamer.spec_add] and
    [Streamer.spec_finalize], and what is broadcast is contiguous. *)

From S2P Require Import Prelude Bytes Slice Config Rollup Streamer.

Section index.
Context {R : Rollup}.
Implicit Types (q : list Entry) (e : Entry) (m : gmap Z Z).

Lemma queue_index_None q k :
  queue_index q !! k = None ↔ ∀ e, e ∈ q → sequence_number e ≠ k.
Proof.
  unfold queue_index. rewrite <- not_elem_of_list_to_map, <- list_fmap_compose. split.
  - intros H e He E. apply H. rewrite list_elem_of_fmap. exists e. by rewrite <- E.
  - intros H (e & -> & He)%list_elem_of_fmap. by eapply H.
Qed.

Lemma queue_index_app q1 q2 : queue_index (q1 ++ q2) = queue_index q1 ∪ queue_index q2.
Proof. unfold queue_index. by rewrite fmap_app, list_to_map_app. Qed.

Lemma queue_index_middle q1 q2 e :
  queue_index q1 !! sequence_number e = None →
  queue_index (q1 ++ e :: q2) =
    <[sequence_number e := hotshot_height e]> (queue_index (q1 ++ q2)).
Proof.
  intros H. rewrite !queue_index_app, insert_union_r by done. done.
Qed.

Lemma queue_index_Some q k h :
  queue_index q !! k = Some h → ∃ e, e ∈ q ∧ sequence_number e = k ∧ hotshot_height e = h.
Proof.
  intros H%elem_of_list_to_map_2. apply list_elem_of_fmap in H as (e & E & He).
  simplify_eq. eauto.
Qed.

Lemma queue_index_elem q e :
  ssorted sequence_number q → e ∈ q →
  queue_index q !! sequence_number e = Some (hotshot_height e).
Proof.
  intros Hs He. destruct (queue_index q !! sequence_number e) as [h|] eqn:E.
  - apply queue_index_Some in E as (e' & He' & Eseq & <-).
    by rewrite (ssorted_key_inj _ _ _ _ Hs He' He Eseq).
  - rewrite queue_index_None in E. by specialize (E e He).
Qed.

(** Evicting the tail into the stubs and promoting a stub back leave the view
    of the streamer unchanged. *)
Lemma view_evict q e m :
  queue_index q !! sequence_number e = None →
  queue_index (q ++ [e]) ∪ m =
    queue_index q ∪ <[sequence_number e := hotshot_height e]> m.
Proof.
  intros H. rewrite queue_index_middle, app_nil_r, <- insert_union_l, insert_union_r by done.
  done.
Qed.

Lemma view_promote q1 q2 e m :
  queue_index (q1 ++ q2) !! sequence_number e = None →
  m !! sequence_number e = Some (hotshot_height e) →
  queue_index (q1 ++ e :: q2) ∪ delete (sequence_number e) m = queue_index (q1 ++ q2) ∪ m.
Proof.
  intros Hq Hm. rewrite queue_index_middle.
  - rewrite <- insert_union_l, insert_union_r by done. by rewrite insert_delete_eq, insert_id.
  - rewrite queue_index_app, lookup_union_None in Hq. tauto.
Qed.
End index.

(** ** [filter_messages] *)

Section filter.
Context {R : Rollup}.
Implicit Types (s : Streamer R) (e : Entry).

(** The position test of [filter_messages] decides membership. *)
Lemma exists_spec (q : list Entry) seq :
  ssorted sequence_number q →
  ∃ q1 q2,
    q = q1 ++ q2 ∧
    partition_point (λ e, sequence_number e <? seq) q = length q1 ∧
    (match q !! length q1 with Some e => sequence_number e =? seq | None => false end =
       bool_decide (is_Some (queue_index q !! seq))).
Proof.
  intros Hs. destruct (partition_point_lt sequence_number q seq Hs) as (q1 & q2 & -> & Hp & H1 & H2).
  exists q1, q2. split_and!; [done|done|].
  rewrite lookup_app_r, Nat.sub_diag by lia.
  rewrite Forall_forall in H1, H2.
  destruct q2 as [|e q2]; simpl.
  - symmetry. apply bool_decide_eq_false_2. rewrite <- eq_None_not_Some, queue_index_None.
    intros e He. rewrite app_nil_r in He. specialize (H1 e He). lia.
  - destruct (Z.eqb_spec (sequence_number e) seq) as [E|E].
    + symmetry. apply bool_decide_eq_true_2. rewrite <- E, queue_index_elem; [eauto|done|set_solver].
    + symmetry. apply bool_decide_eq_false_2. rewrite <- eq_None_not_Some, queue_index_None.
      apply ssorted_app in Hs as (_ & Hs & _). apply ssorted_cons in Hs as [_ Hs].
      intros e' [He'|[->|He']%elem_of_cons]%elem_of_app; [specialize (H1 _ He'); lia|done|].
      specialize (H2 e ltac:(set_solver)). specialize (Hs _ He'). lia.
Qed.

(** Evicting the tail of an overfull queue to the stubs. *)
Lemma evict_spec s q ev :
  last q = Some ev → ssorted sequence_number q →
  (length q ≤ S (max_full_queue_entries (config s)))%nat →
  (∀ e, e ∈ q → stubs s !! sequence_number e = None) →
  (∀ k, is_Some ((queue_index q ∪ stubs s) !! k) → starting_pos (config s) ≤ k ∧ is_u64 k) →
  let s' := set_stubs (set_queue s (take (length q - 1) q))
              (<[sequence_number ev := hotshot_height ev]> (stubs s)) in
  streamer_inv s' ∧ view s' = queue_index q ∪ stubs s.
Proof.
  intros El Hqs Hlen Hqd Hkeys s'. apply last_Some in El as (q' & El).
  assert (Hev : queue_index q' !! sequence_number ev = None).
  { apply queue_index_None. intros e' He'. rewrite El in Hqs.
    apply ssorted_app in Hqs as (_ & _ & Hqs). specialize (Hqs e' ev He' ltac:(set_solver)). lia. }
  assert (Etake : take (length q - 1) q = q').
  { rewrite El, length_app. simpl. replace (length q' + 1 - 1)%nat with (length q') by lia.
    apply take_app_length. }
  assert (Hv : view s' = queue_index q ∪ stubs s).
  { unfold s', view. simpl. rewrite Etake, <- view_evict, <- El by done. done. }
  split; [|done]. unfold s'. split; simpl; rewrite ?Etake.
  - rewrite El in Hqs. apply ssorted_app in Hqs. tauto.
  - apply (f_equal length) in El. rewrite length_app in El. simpl in El. lia.
  - intros e' He'. rewrite lookup_insert_ne; [apply Hqd; rewrite El; set_solver|].
    rewrite queue_index_None in Hev. intros E. by apply (Hev e' He').
  - intros k Hk. apply Hkeys. rewrite <- Hv. unfold s'. by rewrite Etake.
Qed.

(** One parsed entry: the invariant is kept and the view takes one abstract
    step, whether or not the queue overflows. *)
Lemma insert_parsed_spec s e :
  streamer_inv s → is_u64 (sequence_number e) →
  streamer_inv (insert_parsed s e) ∧
  view (insert_parsed s e) = spec_add (starting_pos (config s)) (view s) e ∧
  config (insert_parsed s e) = config s.
Proof.
  intros [Hs Hc Hd Hk] Hu. unfold insert_parsed, spec_add.
  destruct (sequence_number e <? starting_pos (config s)) eqn:Est; [by split_and!|].
  apply Z.ltb_ge in Est.
  destruct (exists_spec (queue s) (sequence_number e) Hs) as (q1 & q2 & Eq & Ep & Eex).
  assert (Hex : bool_decide (is_Some (queue_index (queue s) !! sequence_number e)) ||
                bool_decide (is_Some (stubs s !! sequence_number e)) =
                bool_decide (is_Some (view s !! sequence_number e))).
  { rewrite <- bool_decide_or. apply bool_decide_ext. unfold view. by rewrite lookup_union_is_Some. }
  rewrite Ep, Eex, Hex. clear Eex Hex. simpl.
  case_bool_decide as Hin; [by split_and!|].
  assert (Hnq : queue_index (queue s) !! sequence_number e = None).
  { apply eq_None_not_Some. unfold view in Hin. rewrite lookup_union_is_Some in Hin. tauto. }
  assert (Hns : stubs s !! sequence_number e = None).
  { apply eq_None_not_Some. unfold view in Hin. rewrite lookup_union_is_Some in Hin. tauto. }
  set (q := vec_insert (length q1) e (queue s)).
  assert (Eqi : q = q1 ++ e :: q2).
  { unfold q, vec_insert. by rewrite Eq, take_app_length, drop_app_length. }
  assert (Hqs : ssorted sequence_number q).
  { unfold q. rewrite <- Ep. apply vec_insert_ssorted; [done|]. by apply queue_index_None. }
  assert (Hview : queue_index q ∪ stubs s =
                  <[sequence_number e := hotshot_height e]> (view s)).
  { rewrite Eqi, queue_index_middle, <- insert_union_l, <- Eq; [done|].
    rewrite Eq, queue_index_app, lookup_union_None in Hnq. tauto. }
  assert (Hqd : ∀ e', e' ∈ q → stubs s !! sequence_number e' = None).
  { intros e' [->|He']%elem_of_vec_insert; [done|]. by apply Hd. }
  assert (Hkeys : ∀ k, is_Some ((<[sequence_number e := hotshot_height e]> (view s)) !! k) →
                  starting_pos (config s) ≤ k ∧ is_u64 k).
  { intros k. rewrite lookup_insert_is_Some. intros [<-|[_ H]]; auto. }
  assert (Hlen : length q = S (length (queue s))) by apply length_vec_insert.
  destruct (Nat.ltb_spec (max_full_queue_entries (config s)) (length q)).
  - destruct (last q) as [ev|] eqn:El; [|apply last_None in El; by rewrite El in Hlen].
    destruct (evict_spec s q ev) as [? Hv]; try done; [lia|by rewrite Hview|].
    by rewrite Hv, Hview.
  - split_and!; [|done|done]. split; simpl; try done; try lia.
    intros k Hkk. apply Hkeys. by rewrite <- Hview.
Qed.

Lemma filter_messages_spec s es :
  streamer_inv s → Forall (λ e, is_u64 (sequence_number e)) es →
  streamer_inv (filter_messages s es) ∧
  view (filter_messages s es) = foldl (spec_add (starting_pos (config s))) (view s) es ∧
  config (filter_messages s es) = config s.
Proof.
  unfold filter_messages. revert s. induction es as [|e es IH]; intros s Hi Hu; simpl; [done|].
  apply Forall_cons in Hu as [Hu Hus].
  destruct (insert_parsed_spec s e) as (Hi' & Hv & Hc); [done..|].
  destruct (IH (insert_parsed s e)) as (Ha & Hb & Hd); [done..|].
  rewrite Hb, Hd, Hv, Hc. done.
Qed.

Lemma filter_messages_rest s es :
  finalized_idx (filter_messages s es) = finalized_idx s ∧
  last_broadcast_position (filter_messages s es) = last_broadcast_position s ∧
  rollup_config (filter_messages s es) = rollup_config s.
Proof.
  unfold filter_messages. revert s. induction es as [|e es IH]; intros s; simpl; [done|].
  destruct (IH (insert_parsed s e)) as (-> & -> & ->).
  unfold insert_parsed. simpl. repeat case_match; by split_and!.
Qed.
End filter.

(** ** [promote_stubs] *)

Section promote.
Context {R : Rollup}.
Implicit Types (s : Streamer R) (e : Entry).

(** The fetched map is keyed by the entries' own sequence numbers. *)
Definition keyed (m : gmap Z Entry) : Prop := ∀ k e, m !! k = Some e → sequence_number e = k.

Lemma collect_expected_keyed expected m es : keyed m → keyed (collect_expected expected m es).
Proof.
  unfold collect_expected. revert m. induction es as [|e es IH]; intros m Hm; simpl; [done|].
  apply IH. case_bool_decide; [|done].
  intros k e' [[<- <-]|[_ H']]%lookup_insert_Some; auto.
Qed.

Lemma fetch_all_keyed reader s expected ranges m m' :
  keyed m → fetch_all reader s expected ranges m = Some m' → keyed m'.
Proof.
  revert m. induction ranges as [|[a b] ranges IH]; intros m Hm; simpl; [naive_solver|].
  case_match; [|done]. intros H'. eapply IH; [|exact H']. by apply collect_expected_keyed.
Qed.

(** Inserting a matching entry for a stub keeps the invariant and the view. *)
Lemma promote_one_spec s e :
  streamer_inv s → stubs s !! sequence_number e = Some (hotshot_height e) →
  (length (queue s) < max_full_queue_entries (config s))%nat →
  let s' := set_stubs
              (set_queue s (vec_insert (partition_point (λ e', sequence_number e' <? sequence_number e)
                                          (queue s)) e (queue s)))
              (delete (sequence_number e) (stubs s)) in
  streamer_inv s' ∧ view s' = view s.
Proof.
  intros [Hs Hc Hd Hk] Hst Hroom s'.
  assert (Hf : ∀ e', e' ∈ queue s → sequence_number e' ≠ sequence_number e).
  { intros e' He' E. specialize (Hd e' He'). rewrite E in Hd. congruence. }
  assert (Hv : view s' = view s).
  { unfold s', view. simpl.
    destruct (exists_spec (queue s) (sequence_number e) Hs) as (q1 & q2 & Eq & -> & _).
    unfold vec_insert. rewrite Eq, take_app_length, drop_app_length, view_promote; [done| |done].
    rewrite <- Eq. by apply queue_index_None. }
  split; [|done]. split.
  - simpl. apply vec_insert_ssorted; [exact Hs|exact Hf].
  - simpl. rewrite length_vec_insert. lia.
  - simpl. intros e' [->|He']%elem_of_vec_insert; [by rewrite lookup_delete_eq|].
    rewrite lookup_delete_ne; [auto|]. intros E. by apply (Hf e' He').
  - intros k. rewrite Hv. apply Hk.
Qed.

Lemma promote_loop_spec todo s fetched :
  streamer_inv s → keyed fetched → NoDup todo.*1 →
  (∀ k h, (k, h) ∈ todo → stubs s !! k = Some h) →
  (length (queue s) + length todo ≤ max_full_queue_entries (config s))%nat →
  streamer_inv (promote_loop s todo fetched) ∧ view (promote_loop s todo fetched) = view s.
Proof.
  revert s fetched. induction todo as [|[k h] todo IH]; intros s fetched Hi Hkd Hnd Hst Hroom; [done|].
  simpl in *. apply NoDup_cons in Hnd as [Hk Hnd].
  assert (Hst' : ∀ k' h', (k', h') ∈ todo → k' ≠ k ∧ stubs s !! k' = Some h').
  { intros k' h' Hin. split; [|apply Hst; set_solver].
    intros ->. apply Hk. apply list_elem_of_fmap. by exists (k, h'). }
  destruct (fetched !! k) as [e|] eqn:Ef.
  - destruct (Z.eqb_spec (hotshot_height e) h) as [Eh|]; [|done].
    pose proof (Hkd _ _ Ef) as Ek.
    assert (Hse : stubs s !! sequence_number e = Some (hotshot_height e)).
    { rewrite Ek, Eh. apply Hst. set_solver. }
    destruct (promote_one_spec s e Hi Hse) as [Hi' Hv']; [lia|]. rewrite Ek in Hi', Hv'.
    match goal with |- context [promote_loop ?s' _ _] => set (s1 := s') in * end.
    destruct (IH s1 (delete k fetched)) as [H1 H2]; try done.
    + intros k' e' [_ H']%lookup_delete_Some. auto.
    + intros k' h' Hin. destruct (Hst' k' h' Hin). simpl. by rewrite lookup_delete_ne.
    + simpl. rewrite length_vec_insert. lia.
    + by rewrite H2.
  - apply IH; try done; [intros k' h' Hin; by apply Hst'|lia].
Qed.

Lemma stubs_to_promote_elem s k h : (k, h) ∈ stubs_to_promote s → stubs s !! k = Some h.
Proof.
  unfold stubs_to_promote. intros Hin.
  apply elem_of_btree_iter. by eapply elem_of_take in Hin as (? & ?%list_elem_of_lookup_2 & _).
Qed.

Lemma stubs_to_promote_NoDup s : NoDup (stubs_to_promote s).*1.
Proof.
  unfold stubs_to_promote. rewrite fmap_take.
  eapply sublist_NoDup; [apply (btree_iter_NoDup (stubs s))|apply sublist_take].
Qed.

(** What is promoted is below what is left. *)
Lemma stubs_to_promote_lowest s k h k' :
  (k, h) ∈ stubs_to_promote s → is_Some (stubs s !! k') → k' ∉ (stubs_to_promote s).*1 → k < k'.
Proof.
  unfold stubs_to_promote. set (n := Nat.min _ _). intros Hin [h' Hk'] Hn.
  pose proof (btree_iter_sorted (stubs s)) as Hs. rewrite <- (take_drop n (btree_iter (stubs s))) in Hs.
  apply ssorted_app in Hs as (_ & _ & Hlt). apply (Hlt (k, h) (k', h') Hin).
  apply elem_of_btree_iter in Hk'. rewrite <- (take_drop n (btree_iter (stubs s))) in Hk'.
  apply elem_of_app in Hk' as [Hk'|Hk']; [|done]. destruct Hn. apply list_elem_of_fmap. by exists (k', h').
Qed.

(** Promotion moves entries from the stubs into the queue and changes nothing
    else, whatever the node answers. *)
Lemma promote_stubs_spec reader s :
  streamer_inv s →
  streamer_inv (promote_stubs reader s) ∧ view (promote_stubs reader s) = view s.
Proof.
  intros Hi. unfold promote_stubs. case_match; [done|].
  case_match eqn:Ef; [|done].
  apply promote_loop_spec; try done.
  - eapply fetch_all_keyed; [|exact Ef]. by intros k e.
  - apply stubs_to_promote_NoDup.
  - apply stubs_to_promote_elem.
  - unfold stubs_to_promote. rewrite length_take. destruct Hi. lia.
Qed.

Lemma promote_loop_rest todo s fetched :
  config (promote_loop s todo fetched) = config s ∧
  rollup_config (promote_loop s todo fetched) = rollup_config s ∧
  finalized_idx (promote_loop s todo fetched) = finalized_idx s ∧
  last_broadcast_position (promote_loop s todo fetched) = last_broadcast_position s.
Proof.
  revert s fetched. induction todo as [|[k h] todo IH]; intros s fetched; simpl; [done|].
  case_match; [|apply IH]. case_match; [|done].
  match goal with |- context [promote_loop ?s' _ _] => destruct (IH s' (delete k fetched)) as (->&->&->&->) end.
  done.
Qed.

Lemma promote_stubs_rest reader s :
  config (promote_stubs reader s) = config s ∧
  rollup_config (promote_stubs reader s) = rollup_config s ∧
  finalized_idx (promote_stubs reader s) = finalized_idx s ∧
  last_broadcast_position (promote_stubs reader s) = last_broadcast_position s.
Proof.
  unfold promote_stubs. case_match; [done|]. case_match; [|done]. apply promote_loop_rest.
Qed.
End promote.

(** ** [handle_finalization] *)

Section finalization.
Context {R : Rollup}.
Implicit Types (s : Streamer R) (e : Entry).

Lemma spec_finalize_lookup idx (m : gmap Z Z) k :
  spec_finalize idx m !! k = if decide (idx < k) then m !! k else None.
Proof.
  unfold spec_finalize. rewrite map_lookup_filter. simpl.
  destruct (m !! k); simpl; repeat case_guard; repeat case_decide; done.
Qed.

Lemma split_off_lookup (k0 k : Z) (m : gmap Z Z) :
  split_off k0 m !! k = if decide (k0 ≤ k) then m !! k else None.
Proof.
  unfold split_off. rewrite map_lookup_filter. simpl.
  destruct (m !! k); simpl; repeat case_guard; repeat case_decide; done.
Qed.

(** The pruned state of [handle_finalization], before promotion. *)
Definition pruned s (idx : Z) : Streamer R :=
  let s := set_finalized s idx in
  let s := set_queue s (drop (partition_point (λ e, sequence_number e <=? idx) (queue s)) (queue s)) in
  match checked_add idx 1 with
  | Some split_key => set_stubs s (split_off split_key (stubs s))
  | None => set_stubs s ∅
  end.

Lemma pruned_rest s idx :
  config (pruned s idx) = config s ∧ rollup_config (pruned s idx) = rollup_config s ∧
  finalized_idx (pruned s idx) = idx ∧
  last_broadcast_position (pruned s idx) = last_broadcast_position s ∧
  queue (pruned s idx) = drop (partition_point (λ e, sequence_number e <=? idx) (queue s)) (queue s).
Proof. unfold pruned. by case_match. Qed.

Lemma pruned_stubs_lookup s idx k :
  streamer_inv s → stubs (pruned s idx) !! k = if decide (idx < k) then stubs s !! k else None.
Proof.
  intros Hi. unfold pruned, checked_add. destruct (Z.ltb_spec (idx + 1) u64_modulus); simpl.
  - rewrite split_off_lookup. repeat case_decide; done || lia.
  - rewrite lookup_empty. case_decide as Hd; [|done].
    destruct (stubs s !! k) eqn:E; [|done].
    assert (is_Some (view s !! k)) as Hv.
    { unfold view. rewrite lookup_union_is_Some, E. eauto. }
    apply (inv_keys _ Hi) in Hv as [_ Hv]. unfold is_u64 in Hv. lia.
Qed.

Lemma pruned_spec s idx :
  streamer_inv s →
  streamer_inv (pruned s idx) ∧ view (pruned s idx) = spec_finalize idx (view s).
Proof.
  intros Hi. pose proof Hi as [Hs Hc Hd Hk].
  destruct (pruned_rest s idx) as (Ec & _ & _ & _ & Eq).
  destruct (partition_point_le sequence_number (queue s) idx Hs) as (q1 & q2 & E & Ep & H1 & H2).
  rewrite Ep, E, drop_app_length in Eq. rewrite Forall_forall in H1, H2.
  assert (Hv : view (pruned s idx) = spec_finalize idx (view s)).
  { apply map_eq. intros k. rewrite spec_finalize_lookup. unfold view.
    rewrite !lookup_union, pruned_stubs_lookup, Eq, E, queue_index_app, lookup_union by done.
    case_decide as Hlt.
    - assert (queue_index q1 !! k = None) as ->; [|by destruct (queue_index q2 !! k)].
      apply queue_index_None. intros e He. specialize (H1 e He). lia.
    - assert (queue_index q2 !! k = None) as ->; [|done].
      apply queue_index_None. intros e He. specialize (H2 e He). lia. }
  split; [|done]. split.
  - rewrite Eq. rewrite E in Hs. apply ssorted_app in Hs. tauto.
  - rewrite Eq, Ec. rewrite E, length_app in Hc. lia.
  - rewrite Eq. intros e He. rewrite pruned_stubs_lookup by done. case_decide; [|done].
    apply Hd. rewrite E. set_solver.
  - intros k. rewrite Hv, spec_finalize_lookup, Ec. case_decide; [apply Hk|].
    intros [? ?]. done.
Qed.

(** Moving [last_broadcast_position] touches neither queue nor stubs. *)
Lemma streamer_inv_last_broadcast s p :
  streamer_inv s ↔ streamer_inv (set_last_broadcast s p).
Proof. split; intros [? ? ? ?]; by split. Qed.

Lemma handle_finalization_unfold reader s idx :
  handle_finalization reader s idx =
    let s1 := set_last_broadcast s (Z.max (last_broadcast_position s) idx) in
    if idx <=? finalized_idx s then s1 else promote_stubs reader (pruned s1 idx).
Proof.
  unfold handle_finalization, pruned. simpl.
  assert ((if last_broadcast_position s <? idx then set_last_broadcast s idx else s) =
          set_last_broadcast s (Z.max (last_broadcast_position s) idx)) as ->.
  { destruct (Z.ltb_spec (last_broadcast_position s) idx).
    - by rewrite Z.max_r by lia.
    - rewrite Z.max_l by lia. by destruct s. }
  done.
Qed.

Lemma handle_finalization_spec reader s idx :
  streamer_inv s →
  streamer_inv (handle_finalization reader s idx) ∧
  view (handle_finalization reader s idx) =
    (if idx <=? finalized_idx s then view s else spec_finalize idx (view s)).
Proof.
  intros Hi. rewrite handle_finalization_unfold. simpl.
  apply (streamer_inv_last_broadcast _ (Z.max (last_broadcast_position s) idx)) in Hi.
  destruct (idx <=? finalized_idx s); [done|].
  destruct (pruned_spec _ idx Hi) as [Hp Hv].
  destruct (promote_stubs_spec reader _ Hp) as [Hq Hw]. by rewrite Hw, Hv.
Qed.

Lemma handle_finalization_rest reader s idx :
  config (handle_finalization reader s idx) = config s ∧
  rollup_config (handle_finalization reader s idx) = rollup_config s ∧
  finalized_idx (handle_finalization reader s idx) = Z.max (finalized_idx s) idx ∧
  last_broadcast_position (handle_finalization reader s idx) =
    Z.max (last_broadcast_position s) idx.
Proof.
  rewrite handle_finalization_unfold. simpl.
  destruct (Z.leb_spec idx (finalized_idx s)); simpl; [split_and!; (done || lia)|].
  match goal with |- context [promote_stubs reader ?s'] =>
    destruct (promote_stubs_rest reader s') as (-> & -> & -> & ->) end.
  match goal with |- context [pruned ?s' idx] =>
    destruct (pruned_rest s' idx) as (-> & -> & -> & -> & _) end.
  simpl. split_and!; (done || lia).
Qed.
End finalization.

(** ** Broadcasting *)

Section broadcast.
Context {R : Rollup} {L : RollupLaws R}.
Context {C : Type} {SD : Sender C FeedMessage} {SL : SenderLaws SD}.
Implicit Types (s : Streamer R) (e : Entry) (c : C).

(** A run of entries numbered consecutively from [p + 1]. *)
Definition numbered (p : Z) (es : list Entry) : Prop :=
  ∀ i e, es !! i = Some e → sequence_number e = p + 1 + Z.of_nat i.

Lemma contiguous_from_spec q p idx :
  ssorted sequence_number q →
  Forall (λ e, is_u64 (sequence_number e) ∧ p + idx < sequence_number e) q →
  0 ≤ p → 0 ≤ idx → p + idx < u64_modulus →
  let es := contiguous_from p idx q in
  numbered (p + idx) es ∧ es `prefix_of` q ∧
  (∀ e, e ∈ q → sequence_number e ≠ p + idx + 1 + zlen es).
Proof.
  revert idx. induction q as [|e q IH]; intros idx Hs Hf Hp Hi Hb; simpl.
  { split_and!; [by intros i e|done|set_solver]. }
  apply ssorted_cons in Hs as [Hs He]. apply Forall_cons in Hf as [[Hu Hlt] Hf].
  assert (Hw : u64_add p idx = p + idx) by (u64_arith).
  destruct (Z.eqb_spec (sequence_number e) (u64_add (u64_add p idx) 1)) as [E|E].
  - assert (Hseq : sequence_number e = p + idx + 1).
    { rewrite Hw in E. unfold u64_add, wrap64 in E.
      destruct (decide (p + idx + 1 < u64_modulus)).
      - rewrite Z.mod_small in E by lia. lia.
      - replace (p + idx + 1) with u64_modulus in E by lia. rewrite Z.mod_same in E; [lia|done]. }
    assert (Hw' : u64_add idx 1 = idx + 1) by (unfold is_u64 in Hu; u64_arith).
    rewrite Hw'. destruct (IH (idx + 1)) as (H1 & H2 & H3); try done; try lia.
    { rewrite Forall_forall in Hf |- *. intros x Hx. specialize (He x Hx).
      specialize (Hf x Hx). destruct Hf. split; [done|lia]. }
    { unfold is_u64 in Hu. lia. }
    split_and!.
    + intros [|i] e' Hl; simplify_eq/=; [lia|]. rewrite (H1 i e' Hl). lia.
    + by apply prefix_cons.
    + unfold zlen in *. simpl. intros e' [->|He']%elem_of_cons; [lia|].
      specialize (H3 e' He'). lia.
  - split_and!; [by intros i e'|apply prefix_nil|]. unfold zlen; simpl.
    intros e' [->|He']%elem_of_cons.
    + intros E'. apply E. rewrite E', Hw. unfold u64_add, wrap64. rewrite Z.mod_small; [lia|].
      unfold is_u64 in Hu. lia.
    + specialize (He e' He'). intros E'. rewrite Hw in E. lia.
Qed.

(** [find_contiguous_entries_after]: the longest run of consecutive sequence
    numbers after [p] in the queue. *)
Lemma find_contiguous_spec q p :
  ssorted sequence_number q → (∀ e, e ∈ q → is_u64 (sequence_number e)) → is_u64 p →
  let es := find_contiguous_entries_after q p in
  numbered p es ∧ (∀ e, e ∈ es → e ∈ q) ∧
  (∀ e, e ∈ q → sequence_number e ≠ p + 1 + zlen es).
Proof.
  intros Hs Hu Hp. unfold find_contiguous_entries_after.
  destruct (partition_point_le sequence_number q p Hs) as (q1 & q2 & -> & -> & H1 & H2).
  rewrite drop_app_length. rewrite Forall_forall in H1, H2.
  apply ssorted_app in Hs as (_ & Hs & _).
  destruct (contiguous_from_spec q2 p 0) as (Hn & Hpre & Hmax); try done; try (unfold is_u64 in Hp; lia).
  { rewrite Forall_forall. intros e He. split; [apply Hu; set_solver|]. specialize (H2 e He). lia. }
  rewrite Z.add_0_r in Hn, Hmax. split_and!; [done| |].
  - intros e He. destruct Hpre as [r Hpre]. rewrite Hpre. set_solver.
  - intros e [He|He]%elem_of_app; [|by apply Hmax].
    specialize (H1 e He). unfold zlen. lia.
Qed.

(** What the send loop does: a prefix of the entries is delivered, in order,
    and the cursor stands at the last delivered one.  If the prefix is not
    everything, the channel was full (and a retry is scheduled) or closed. *)
Lemma broadcast_loop_spec es s r c s' r' c' p :
  broadcast_loop s r c es = (s', r', c') → numbered p es → last_broadcast_position s = p →
  ∃ sent rest,
    es = sent ++ rest ∧
    delivered c' = delivered c ++ (convert_entry_to_feed_message <$> sent) ∧
    s' = set_last_broadcast s (p + zlen sent) ∧
    ((rest = [] ∧ r' = r) ∨
     (∃ e c0, e ∈ rest ∧ try_send c0 (convert_entry_to_feed_message e) = (c', SendFull) ∧
              r' = schedule r) ∨
     (∃ e c0, e ∈ rest ∧ try_send c0 (convert_entry_to_feed_message e) = (c', SendClosed) ∧
              r' = r)).
Proof.
  revert s c p. induction es as [|e es IH]; intros s c p H Hn Hp; simpl in H.
  { simplify_eq. exists [], []. split_and!; [done|by rewrite app_nil_r| |eauto].
    unfold zlen. rewrite Z.add_0_r. by destruct s'. }
  assert (Hseq : sequence_number e = p + 1) by (rewrite (Hn 0%nat e); [lia|done]).
  assert (Hstay : s = set_last_broadcast s (p + zlen ([] : list Entry))).
  { unfold zlen. simpl. rewrite Z.add_0_r, <- Hp. by destruct s. }
  destruct (try_send c _) as [c1 []] eqn:Es.
  - destruct (IH (set_last_broadcast s (sequence_number e)) c1 (p + 1)) as (sent & rest & E & Hdel & Hs' & Hr);
      [done| |by simpl|].
    { intros i e' Hl. rewrite (Hn (S i) e'); [lia|done]. }
    exists (e :: sent), rest. rewrite E. split_and!; [done| | |done].
    + rewrite Hdel, (try_send_ok _ _ _ Es), <- app_assoc. done.
    + rewrite Hs'. unfold set_last_broadcast, zlen. simpl. f_equal. lia.
  - simplify_eq. exists [], (e :: es). split_and!; [done| |done|].
    + by rewrite app_nil_r, (try_send_full _ _ _ Es).
    + right; left. exists e, c. split_and!; [set_solver|done|done].
  - simplify_eq. exists [], (e :: es). split_and!; [done| |done|].
    + by rewrite app_nil_r, (try_send_closed _ _ _ Es).
    + right; right. exists e, c. split_and!; [set_solver|done|done].
Qed.

(** The channel [c] accepts the messages [ms], one after the other, and is [c1]
    afterwards. *)
Fixpoint accepts (c : C) (ms : list FeedMessage) (c1 : C) : Prop :=
  match ms with
  | [] => c1 = c
  | m :: ms' => ∃ c', try_send c m = (c', SendOk) ∧ accepts c' ms' c1
  end.

(** The send loop exactly: it stops at the first message the channel refuses. *)
Lemma broadcast_loop_exact es s r c s' r' c' p :
  broadcast_loop s r c es = (s', r', c') → numbered p es → last_broadcast_position s = p →
  ∃ sent rest c1,
    es = sent ++ rest ∧ accepts c (convert_entry_to_feed_message <$> sent) c1 ∧
    s' = set_last_broadcast s (p + zlen sent) ∧
    match rest with
    | [] => c' = c1 ∧ r' = r
    | e :: _ => (try_send c1 (convert_entry_to_feed_message e) = (c', SendFull) ∧ r' = schedule r) ∨
                (try_send c1 (convert_entry_to_feed_message e) = (c', SendClosed) ∧ r' = r)
    end.
Proof.
  revert s c p. induction es as [|e es IH]; intros s c p H Hn Hp; simpl in H.
  { simplify_eq. exists [], [], c'. split_and!; [done|done| |done|done].
    unfold zlen. rewrite Z.add_0_r. by destruct s'. }
  assert (Hseq : sequence_number e = p + 1) by (rewrite (Hn 0%nat e); [lia|done]).
  assert (Hstay : s = set_last_broadcast s (p + zlen ([] : list Entry))).
  { unfold zlen. simpl. rewrite Z.add_0_r, <- Hp. by destruct s. }
  destruct (try_send c _) as [c1 []] eqn:Es; [|injection H as <- <- <-; exists [], (e :: es), c; split_and!; [done|done|done|by auto]..].
  destruct (IH (set_last_broadcast s (sequence_number e)) c1 (p + 1)) as (sent & rest & c2 & E & Hacc & Hs' & Hr);
    [done| |by simpl|].
  { intros i e' Hl. rewrite (Hn (S i) e'); [lia|done]. }
  exists (e :: sent), rest, c2. rewrite E. split_and!; [done|by exists c1| |done].
  rewrite Hs'. unfold set_last_broadcast, zlen. simpl. f_equal. lia.
Qed.
End broadcast.
