(* ===== verification/StreamerRun.v ===== *)
(** * Runs of the streamer

    The invariant of every reachable state of the streamer's main loop, the
    order of what it broadcasts, and the promotion of stubs. *)

From S2P Require Import Prelude Bytes Slice Config Rollup MockRollup Streamer StreamerProofs.

Section run.
Context {R : Rollup} {L : RollupLaws R}.
Context {C : Type} {SD : Sender C FeedMessage} {SL : SenderLaws SD}.
Implicit Types (s : Streamer R) (e : Entry) (c : C) (st : loop_state R C).

(** The pending timers and the flag agree: at most one retry is outstanding. *)
Definition retry_inv (r : BroadcastRetry) : Prop := timers r = if scheduled r then 1%nat else 0%nat.

(** Everything delivered since [c0] is strictly increasing and not above the
    broadcast cursor. *)
Definition delivered_inv (c0 c : C) (p : Z) : Prop :=
  ∃ hist, delivered c = delivered c0 ++ hist ∧ ssorted feed_sequence_number hist ∧
          ∀ m, m ∈ hist → 0 < feed_sequence_number m ≤ p.

Record loop_inv (cfg : StreamerConfig) (rcfg : RollupConfig StackConfig) (c0 : C) st : Prop := {
  li_streamer : streamer_inv (streamer_of st);
  li_config : config (streamer_of st) = cfg;
  li_rollup : rollup_config (streamer_of st) = rcfg;
  li_finalized : is_u64 (finalized_idx (streamer_of st));
  li_position : is_u64 (last_broadcast_position (streamer_of st));
  li_retry : retry_inv (retry_of st);
  li_delivered : delivered_inv c0 (sender_of st) (last_broadcast_position (streamer_of st));
}.

Lemma schedule_inv r : retry_inv r → retry_inv (schedule r).
Proof. unfold retry_inv, schedule. intros H. destruct (scheduled r) eqn:E; simpl; [by rewrite E|]. lia. Qed.

Lemma delivered_inv_mono c0 c p p' : delivered_inv c0 c p → p ≤ p' → delivered_inv c0 c p'.
Proof. intros (h & ? & ? & H) ?. exists h. split_and!; try done. intros m Hm. specialize (H m Hm). lia. Qed.

Lemma numbered_ssorted p es :
  numbered p es → ssorted sequence_number es ∧
  ∀ e, e ∈ es → p < sequence_number e ≤ p + zlen es.
Proof.
  revert p. induction es as [|e es IH]; intros p Hn; [split; [constructor|set_solver]|].
  assert (He : sequence_number e = p + 1) by (rewrite (Hn 0%nat e); [lia|done]).
  destruct (IH (p + 1)) as [Hs Hb].
  { intros i e' Hl. rewrite (Hn (S i) e'); [lia|done]. }
  unfold zlen in *. simpl. split.
  - apply ssorted_cons. split; [done|]. intros y Hy. specialize (Hb y Hy). lia.
  - intros e' [->|Hin]%elem_of_cons; [lia|]. specialize (Hb e' Hin). lia.
Qed.

Lemma ssorted_convert es :
  ssorted sequence_number es →
  ssorted feed_sequence_number (convert_entry_to_feed_message <$> es).
Proof.
  induction es as [|e es IH]; intros Hs; [constructor|]. simpl.
  apply ssorted_cons in Hs as [Hs He]. apply ssorted_cons. split; [auto|].
  intros y (e' & -> & Hin)%list_elem_of_fmap. rewrite !convert_keeps_seq. auto.
Qed.

(** A broadcast keeps the loop invariant's three cursors. *)
Lemma try_broadcast_inv s r c s' r' c' c0 :
  try_broadcast_feed_message s r c = (s', r', c') →
  streamer_inv s → is_u64 (last_broadcast_position s) → retry_inv r →
  delivered_inv c0 c (last_broadcast_position s) →
  streamer_inv s' ∧ queue s' = queue s ∧ stubs s' = stubs s ∧ config s' = config s ∧
  rollup_config s' = rollup_config s ∧ finalized_idx s' = finalized_idx s ∧
  is_u64 (last_broadcast_position s') ∧ last_broadcast_position s ≤ last_broadcast_position s' ∧
  retry_inv r' ∧ delivered_inv c0 c' (last_broadcast_position s').
Proof.
  unfold try_broadcast_feed_message. intros H Hi Hp Hr (hist & Hd & Hs & Hle).
  assert (Hu : ∀ e, e ∈ queue s → is_u64 (sequence_number e)).
  { intros e He. apply (inv_keys s Hi). unfold view. rewrite lookup_union_is_Some. left.
    rewrite queue_index_elem; [eauto|by apply inv_sorted|done]. }
  destruct (find_contiguous_spec (queue s) _ (inv_sorted _ Hi) Hu Hp) as (Hn & Hin & _).
  destruct (broadcast_loop_spec _ _ _ _ _ _ _ _ H Hn eq_refl) as (sent & rest & E & Hdel & -> & Hcase).
  assert (Hns : numbered (last_broadcast_position s) sent).
  { intros i e Hl. apply Hn. rewrite E. by apply lookup_app_l_Some. }
  destruct (numbered_ssorted _ _ Hns) as [Hss Hsb].
  assert (Hup : is_u64 (last_broadcast_position s + zlen sent)).
  { destruct sent as [|e sent] using rev_ind; [unfold zlen; simpl; by rewrite Z.add_0_r|].
    assert (sequence_number e = last_broadcast_position s + zlen (sent ++ [e])) as <-.
    { rewrite (Hns (length sent) e); [unfold zlen; rewrite length_app; simpl; lia|].
      by rewrite lookup_app_r, Nat.sub_diag. }
    apply Hu, Hin. rewrite E. set_solver. }
  split_and!; try done; simpl.
  - by apply streamer_inv_last_broadcast.
  - unfold zlen. lia.
  - destruct Hcase as [[_ ->]|[(e & c1 & _ & _ & ->)|(e & c1 & _ & _ & ->)]]; [done| |done].
    by apply schedule_inv.
  - exists (hist ++ (convert_entry_to_feed_message <$> sent)).
    rewrite Hdel, Hd, app_assoc. split_and!; [done| |].
    + apply ssorted_app. split_and!; [done|by apply ssorted_convert|].
      intros x y Hx (e & -> & He)%list_elem_of_fmap. rewrite convert_keeps_seq.
      specialize (Hle x Hx). specialize (Hsb e He). lia.
    + intros m [Hm|(e & -> & He)%list_elem_of_fmap]%elem_of_app.
      * specialize (Hle m Hm). unfold zlen. lia.
      * rewrite convert_keeps_seq. specialize (Hsb e He). unfold is_u64 in Hp. lia.
Qed.

Lemma run_init_inv cfg rcfg c0 idx : is_u64 idx → loop_inv cfg rcfg c0 (run_init cfg rcfg idx c0).
Proof.
  intros Hi. split; simpl; try done.
  - split; simpl; [constructor|lia|set_solver|].
    intros k. unfold view. rewrite lookup_union_is_Some. simpl. by intros [[? ?]|[? ?]].
  - exists []. rewrite app_nil_r. split_and!; [done|constructor|set_solver].
Qed.

Lemma handle_event_inv cfg rcfg c0 reader st ev :
  loop_inv cfg rcfg c0 st → event_enabled st ev →
  loop_inv cfg rcfg c0 (handle_event reader st ev).1.
Proof.
  intros [Hs Hc Hrc Hf Hp Hr Hd] Hen. destruct ev as [idx|bd cur|txs h|]; simpl in Hen |- *.
  - destruct (handle_finalization_spec reader _ idx Hs) as [Hs' _].
    destruct (handle_finalization_rest reader (streamer_of st) idx) as (E1 & E2 & E3 & E4).
    split; simpl; rewrite ?E1, ?E2, ?E3, ?E4; try done; unfold is_u64 in *; try lia.
    eapply delivered_inv_mono; [done|lia].
  - done.
  - unfold handle_hotshot_transactions.
    set (es := parse_hotshot_transactions _ _ _).
    destruct (filter_messages_spec (streamer_of st) es Hs) as (Hs' & _ & Hc').
    { apply Forall_forall. intros e He. by eapply parse_u64. }
    destruct (filter_messages_rest (streamer_of st) es) as (Ef & Ep & Erc).
    destruct (try_broadcast_feed_message _ _ _) as [[s' r'] c'] eqn:E.
    destruct (try_broadcast_inv _ _ _ _ _ _ c0 E) as (? & ? & ? & ? & ? & ? & ? & ? & ? & ?);
      rewrite ?Ep; try done.
    split; simpl; try done; congruence.
  - destruct (try_broadcast_feed_message _ _ _) as [[s' r'] c'] eqn:E.
    destruct (try_broadcast_inv _ _ _ _ _ _ c0 E) as (? & ? & ? & ? & ? & ? & ? & ? & ? & ?); try done.
    { unfold retry_inv in *. simpl. destruct (scheduled (retry_of st)); lia. }
    split; simpl; try done; congruence.
Qed.

Lemma reachable_inv cfg rcfg c0 st : reachable cfg rcfg c0 st → loop_inv cfg rcfg c0 st.
Proof. induction 1; [by apply run_init_inv|by apply handle_event_inv]. Qed.
End run.

(** ** The ranges fetched for promotion *)

Section ranges.
Implicit Types (h : Z) (hs : list Z).

(** The window loop takes exactly the heights less than the limit away from
    the start, on increasing heights. *)
Lemma window_spec start last hs :
  ssorted id hs → (∀ h, h ∈ hs → last < h ∧ is_u64 h) → 0 ≤ start → start ≤ last →
  last < start + HOTSHOT_RANGE_LIMIT →
  ∃ taken, hs = taken ++ (window start last hs).2 ∧
    last ≤ (window start last hs).1 < start + HOTSHOT_RANGE_LIMIT ∧
    (window start last hs).1 ∈ last :: taken ∧
    ∀ h, h ∈ taken → last < h ≤ (window start last hs).1.
Proof.
  revert last. induction hs as [|h hs IH]; intros last Hs Hb H0 Hsl Hlim; simpl.
  { exists []. split_and!; simpl; try done; try lia; set_solver. }
  apply ssorted_cons in Hs as [Hs Hh]. simpl in Hh.
  destruct (Hb h ltac:(set_solver)) as [Hlh Hu].
  assert (Hsub : u64_sub h start = h - start) by (u64_arith). rewrite Hsub.
  destruct (Z.ltb_spec (h - start) HOTSHOT_RANGE_LIMIT).
  - destruct (IH h) as (taken & E & Hr & Hin & Ht); try done; try lia.
    { intros h' Hh'. split; [by apply Hh|]. apply Hb. set_solver. }
    exists (h :: taken). simpl. rewrite <- E. split_and!; try done; try lia.
    + set_solver.
    + intros h' [->|Hin']%elem_of_cons; [lia|]. specialize (Ht h' Hin'). lia.
  - exists []. split_and!; simpl; try done; try lia; set_solver.
Qed.

(** Every range is non-empty and within the limit, starts at a wanted height,
    and every wanted height is in some range. *)
Lemma fetch_ranges_spec fuel hs :
  (length hs ≤ fuel)%nat → ssorted id hs →
  (∀ h, h ∈ hs → 0 ≤ h < u64_modulus - 1) →
  (∀ a b, (a, b) ∈ fetch_ranges fuel hs →
     a < b ≤ a + HOTSHOT_RANGE_LIMIT ∧ is_u64 a ∧ is_u64 b ∧ a ∈ hs) ∧
  (∀ h, h ∈ hs → ∃ a b, (a, b) ∈ fetch_ranges fuel hs ∧ a ≤ h < b).
Proof.
  revert hs. induction fuel as [|fuel IH]; intros hs Hf Hs Hb.
  { destruct hs; [|simpl in Hf; lia]. simpl. split; set_solver. }
  destruct hs as [|start hs]; simpl; [split; set_solver|].
  apply ssorted_cons in Hs as [Hs Hst]. simpl in Hst.
  pose proof (Hb start ltac:(set_solver)) as Hb0.
  destruct (window_spec start start hs) as (taken & E & Hr & Hin & Ht); try done; try lia;
    [|unfold HOTSHOT_RANGE_LIMIT; lia|].
  { intros h Hh. split; [by apply Hst|]. specialize (Hb h ltac:(set_solver)). unfold is_u64. lia. }
  destruct (window start start hs) as [last rest] eqn:Ew; simpl in *.
  assert (Hlb : 0 ≤ last < u64_modulus - 1) by (apply Hb; set_solver).
  assert (Hadd : u64_add last 1 = last + 1) by (u64_arith).
  rewrite Hadd. unfold HOTSHOT_RANGE_LIMIT in *.
  destruct (IH rest) as [IH1 IH2].
  - rewrite E, length_app in Hf. lia.
  - rewrite E in Hs. apply ssorted_app in Hs. tauto.
  - intros h Hh. apply Hb. rewrite E. set_solver.
  - split.
    + intros a b [[= -> ->]|Hab]%elem_of_cons.
      * unfold is_u64. split_and!; try lia. set_solver.
      * destruct (IH1 a b Hab) as (? & ? & ? & ?). split_and!; try done; [lia|lia|].
        rewrite E. set_solver.
    + intros h [->|Hh]%elem_of_cons; [exists start, (last + 1); split; [set_solver|lia]|].
      rewrite E in Hh. apply elem_of_app in Hh as [Hh|Hh].
      * exists start, (last + 1). split; [set_solver|]. specialize (Ht h Hh). lia.
      * destruct (IH2 h Hh) as (a & b & Hab & Hr'). exists a, b. split; [set_solver|lia].
Qed.
End ranges.

(** ** Promotion from a faithful node *)

(** The blocks [a, b) of a chain. *)
Definition chain_blocks (chain : Z → list Transaction) (a b : Z) : list (list Transaction) :=
  (λ i, chain (a + Z.of_nat i)) <$> seq 0 (Z.to_nat (b - a)).

(** The reader serves the namespace of a chain: one vector per height, in
    order, as the trait [EspressoReader] documents. *)
Definition serves (reader : EspressoReader) (ns : Z) (chain : Z → list Transaction) : Prop :=
  ∀ a b, 0 ≤ a < b →
    namespace_transactions_in_range reader ns a b = Ok (chain_blocks chain a b).

Section promotion.
Context {R : Rollup} {L : RollupLaws R}.
Context (chain : Z → list Transaction).
Implicit Types (s : Streamer R) (e : Entry) (m : gmap Z Entry).

(** [e] is a message of the chain, at its own height. *)
Definition on_chain (cfg : StackConfig) e : Prop :=
  is_u64 (hotshot_height e) ∧
  e ∈ parse_hotshot_transactions cfg [chain (hotshot_height e)] (hotshot_height e).

Lemma parse_elem cfg blocks h i b e :
  is_u64 h → h + zlen blocks ≤ u64_modulus → blocks !! i = Some b →
  e ∈ parse_hotshot_transactions cfg [b] (h + Z.of_nat i) →
  e ∈ parse_hotshot_transactions cfg blocks h.
Proof.
  revert h i. induction blocks as [|b0 blocks IH]; intros h i Hh Hlen Hl He; [done|].
  rewrite parse_cons. apply elem_of_app. destruct i as [|i]; simplify_eq/=.
  - left. by rewrite Z.add_0_r in He.
  - right. unfold zlen in Hlen. simpl in Hlen.
    pose proof (lookup_lt_Some _ _ _ Hl).
    assert (u64_add h 1 = h + 1) as -> by (unfold is_u64 in Hh; u64_arith).
    apply (IH (h + 1) i); try done; unfold is_u64, zlen in *; try lia.
    by replace (h + 1 + Z.of_nat i) with (h + Z.of_nat (S i)) by lia.
Qed.

Lemma elem_of_chain_range cfg a b e :
  is_u64 a → a < b → is_u64 b →
  e ∈ parse_hotshot_transactions cfg (chain_blocks chain a b) a ↔
  a ≤ hotshot_height e < b ∧ on_chain cfg e.
Proof.
  intros Ha Hab Hb. unfold is_u64 in *.
  assert (Hlen : a + zlen (chain_blocks chain a b) ≤ u64_modulus).
  { unfold zlen, chain_blocks. rewrite length_fmap, length_seq. lia. }
  split.
  - intros He. apply parse_in_range in He as (i & bl & Hl & Hh & He); [|done|done].
    unfold chain_blocks in Hl. rewrite list_lookup_fmap in Hl.
    destruct (seq 0 _ !! i) eqn:Es; simplify_eq/=. apply lookup_seq in Es as [-> Hi]. simpl in *.
    rewrite <- Hh in He. unfold on_chain, is_u64. split; [lia|]. split; [lia|done].
  - intros [Hr [_ He]]. set (i := Z.to_nat (hotshot_height e - a)).
    apply (parse_elem cfg _ a i (chain (hotshot_height e))); [done|done| |].
    + unfold chain_blocks. rewrite list_lookup_fmap, lookup_seq_lt by (unfold i; lia).
      simpl. do 2 f_equal. unfold i. lia.
    + replace (a + Z.of_nat i) with (hotshot_height e) by (unfold i; lia). done.
Qed.

(** [k] has been fetched: its entry is a message of the chain. *)
Definition got cfg m (k : Z) : Prop :=
  ∃ e, m !! k = Some e ∧ sequence_number e = k ∧ on_chain cfg e.

Lemma collect_got cfg expected m es k :
  Forall (on_chain cfg) es → k ∈ expected →
  (got cfg m k ∨ ∃ e, e ∈ es ∧ sequence_number e = k) →
  got cfg (collect_expected expected m es) k.
Proof.
  unfold collect_expected. revert m.
  induction es as [|e es IH]; intros m Hf Hk Hor; simpl.
  { destruct Hor as [?|(e & He & _)]; [done|by apply elem_of_nil in He]. }
  apply Forall_cons in Hf as [He Hf]. apply IH; [done|done|].
  destruct (decide (sequence_number e = k)) as [E|E].
  - left. rewrite bool_decide_eq_true_2 by congruence. exists e. rewrite <- E, lookup_insert_eq. done.
  - destruct Hor as [(e' & H1 & H2)|(e' & [->|Hin]%elem_of_cons & Hs)]; [|done|eauto].
    left. exists e'. case_bool_decide; [|done]. by rewrite lookup_insert_ne.
Qed.

Lemma fetch_all_got reader s expected ranges m k :
  serves reader (namespace_id (rollup_config s)) chain →
  (∀ a b, (a, b) ∈ ranges → is_u64 a ∧ a < b ∧ is_u64 b) → k ∈ expected →
  (got (stack (rollup_config s)) m k ∨
   ∃ a b e, (a, b) ∈ ranges ∧ a ≤ hotshot_height e < b ∧
            on_chain (stack (rollup_config s)) e ∧ sequence_number e = k) →
  ∃ m', fetch_all reader s expected ranges m = Some m' ∧ got (stack (rollup_config s)) m' k.
Proof.
  intros Hserve. revert m. induction ranges as [|[a b] ranges IH]; intros m Hr Hk Hor; simpl.
  { exists m. split; [done|]. destruct Hor as [?|(a & b & e & He & _)]; [done|by apply elem_of_nil in He]. }
  destruct (Hr a b ltac:(set_solver)) as (Ha & Hab & Hb).
  rewrite Hserve by (unfold is_u64 in *; lia). apply IH; [intros a1 b1 H1; apply Hr; apply elem_of_cons; by right|done|].
  assert (Hall : Forall (on_chain (stack (rollup_config s)))
            (parse_hotshot_transactions (stack (rollup_config s)) (chain_blocks chain a b) a)).
  { apply Forall_forall. intros e He. by apply elem_of_chain_range in He as [_ ?]. }
  destruct Hor as [Hg|(a' & b' & e & [[= -> ->]|Hin]%elem_of_cons & Hh & Hoc & Hs)].
  - left. apply collect_got; auto.
  - left. apply collect_got; try done. right. exists e. split; [|done].
    by apply elem_of_chain_range.
  - right. eauto 10.
Qed.

(** The promotion loop, when every wanted entry has been fetched. *)
Lemma promote_loop_complete todo s fetched :
  NoDup todo.*1 →
  (∀ k h, (k, h) ∈ todo → ∃ e, fetched !! k = Some e ∧ hotshot_height e = h) →
  let s' := promote_loop s todo fetched in
  length (queue s') = (length (queue s) + length todo)%nat ∧
  (∀ e, e ∈ queue s → e ∈ queue s') ∧
  (∀ e, e ∈ queue s' → e ∈ queue s ∨ ∃ k h, (k, h) ∈ todo ∧ fetched !! k = Some e) ∧
  (∀ k, k ∉ todo.*1 → stubs s' !! k = stubs s !! k) ∧
  (∀ k, stubs s !! k = None → stubs s' !! k = None) ∧
  ∀ k h, (k, h) ∈ todo →
    stubs s' !! k = None ∧ ∃ e, e ∈ queue s' ∧ fetched !! k = Some e.
Proof.
  revert s fetched. induction todo as [|[k h] todo IH]; intros s fetched Hnd Hf; simpl.
  { split_and!; [lia|done|intros; by left|done|done|]. intros k h Hin. by apply elem_of_nil in Hin. }
  simpl in Hnd. apply NoDup_cons in Hnd as [Hk Hnd].
  destruct (Hf k h ltac:(set_solver)) as (e & Ef & Eh).
  rewrite Ef, (proj2 (Z.eqb_eq _ _) Eh).
  assert (Hne : ∀ k' h', (k', h') ∈ todo → k' ≠ k).
  { intros k' h' Hin ->. apply Hk. apply list_elem_of_fmap. by exists (k, h'). }
  match goal with |- context [promote_loop ?s' _ _] => set (s1 := s') end.
  destruct (IH s1 (delete k fetched)) as (H1 & H2 & H5 & H6 & H3 & H4); [done| |].
  { intros k' h' Hin. rewrite lookup_delete_ne by (by apply not_eq_sym, (Hne k' h')).
    apply Hf. set_solver. }
  assert (He1 : e ∈ queue s1) by (simpl; rewrite elem_of_vec_insert; auto).
  split_and!.
  - rewrite H1. simpl. rewrite length_vec_insert. lia.
  - intros e' He'. apply H2. simpl. rewrite elem_of_vec_insert. auto.
  - intros e' [He'|(k' & h' & Hin & Hl)]%H5.
    + simpl in He'. rewrite elem_of_vec_insert in He'. destruct He' as [->|He']; [|by left].
      right. exists k, h. split; [set_solver|done].
    + right. exists k', h'. split; [set_solver|].
      by rewrite lookup_delete_ne in Hl by (by apply not_eq_sym, (Hne k' h')).
  - intros k' [Hk1 Hk2]%not_elem_of_cons. rewrite (H6 k' Hk2). simpl. by rewrite lookup_delete_ne.
  - intros k' Hk'. apply H3. simpl. apply lookup_delete_None. auto.
  - intros k' h' [[= -> ->]|Hin]%elem_of_cons.
    + split; [apply H3; simpl; apply lookup_delete_eq|]. exists e. auto.
    + destruct (H4 k' h' Hin) as (? & e' & ? & Hl). split; [done|]. exists e'. split; [done|].
      rewrite lookup_delete_ne in Hl by (by apply not_eq_sym, (Hne k' h')). done.
Qed.

(** The stubs of [s] point at messages of the chain. *)
Definition stubs_on_chain s : Prop :=
  ∀ k h, stubs s !! k = Some h →
    h < u64_modulus - 1 ∧
    ∃ e, on_chain (stack (rollup_config s)) e ∧ sequence_number e = k ∧ hotshot_height e = h.

(** No sequence number occurs twice on the chain. *)
Definition unique_on_chain (cfg : StackConfig) : Prop :=
  ∀ e e', on_chain cfg e → on_chain cfg e' → sequence_number e = sequence_number e' → e = e'.

Lemma promote_stubs_complete reader s :
  serves reader (namespace_id (rollup_config s)) chain →
  stubs_on_chain s → unique_on_chain (stack (rollup_config s)) →
  let s' := promote_stubs reader s in
  length (queue s') =
    (length (queue s) + length (stubs_to_promote s))%nat ∧
  (∀ e, e ∈ queue s → e ∈ queue s') ∧
  (∀ e, e ∈ queue s' → e ∈ queue s ∨
     ((sequence_number e, hotshot_height e) ∈ stubs_to_promote s ∧
      on_chain (stack (rollup_config s)) e)) ∧
  (∀ k, k ∉ (stubs_to_promote s).*1 → stubs s' !! k = stubs s !! k) ∧
  (∀ k h, (k, h) ∈ stubs_to_promote s →
     stubs s' !! k = None ∧
     ∃ e, e ∈ queue s' ∧ sequence_number e = k ∧ hotshot_height e = h).
Proof.
  intros Hserve Hst Huniq. simpl. unfold promote_stubs.
  destruct ((_ =? 0)%nat || _) eqn:Eg.
  { assert (stubs_to_promote s = []) as ->; [|simpl; split_and!; [lia|done|by left|done|set_solver] ].
    unfold stubs_to_promote. apply orb_true_iff in Eg as [Eg|Eg].
    - apply Nat.eqb_eq in Eg. rewrite Eg. done.
    - apply bool_decide_eq_true in Eg. rewrite Eg, map_size_empty, Nat.min_0_r. done. }
  set (hs := btree_set (stubs_to_promote s).*2).
  assert (Hb : ∀ h, h ∈ hs → 0 ≤ h < u64_modulus - 1).
  { intros h Hh. unfold hs in Hh. rewrite elem_of_btree_set in Hh.
    apply list_elem_of_fmap in Hh as ([k h'] & -> & Hin%stubs_to_promote_elem).
    apply Hst in Hin as (? & e & [Hu _] & _ & <-). unfold is_u64 in Hu. simpl. lia. }
  destruct (fetch_ranges_spec (length hs) hs) as [Hr1 Hr2]; [done|apply btree_set_sorted|done|].
  set (expected := list_to_set (stubs_to_promote s).*1 : gset Z).
  assert (Hgot : ∀ k h, (k, h) ∈ stubs_to_promote s →
     ∃ m', fetch_all reader s expected (fetch_ranges (length hs) hs) ∅ = Some m' ∧
           got (stack (rollup_config s)) m' k).
  { intros k h Hin. apply fetch_all_got; [done| | |].
    - intros a b Hab. by destruct (Hr1 a b Hab) as ([? ?] & ? & ? & _).
    - unfold expected. apply elem_of_list_to_set, list_elem_of_fmap. by exists (k, h).
    - right. destruct (Hst k h) as (_ & e & Hoc & Hs & Hh); [by apply stubs_to_promote_elem|].
      destruct (Hr2 h) as (a & b & Hab & Hrange).
      { unfold hs. rewrite elem_of_btree_set. apply list_elem_of_fmap. by exists (k, h). }
      exists a, b, e. rewrite Hh. done. }
  destruct (fetch_all _ _ _ _ _) as [m'|] eqn:Ef.
  2: { destruct (stubs_to_promote s) as [|[k h] l]; [simpl; split_and!; [lia|done|by left|done|set_solver]|].
       destruct (Hgot k h ltac:(set_solver)) as (m' & ? & _). done. }
  assert (Hm : ∀ k h, (k, h) ∈ stubs_to_promote s →
     ∃ e, m' !! k = Some e ∧ hotshot_height e = h ∧ sequence_number e = k ∧
          on_chain (stack (rollup_config s)) e).
  { intros k h Hin. destruct (Hgot k h Hin) as (? & [= <-] & e & He & Hs & Hoc).
    exists e. split_and!; try done.
    destruct (Hst k h) as (_ & e' & Hoc' & Hs' & <-); [by apply stubs_to_promote_elem|].
    by rewrite (Huniq e e' Hoc Hoc') by congruence. }
  destruct (promote_loop_complete (stubs_to_promote s) s m') as (Hl & H1 & H2 & H3 & _ & H4).
  { apply stubs_to_promote_NoDup. }
  { intros k h Hin. destruct (Hm k h Hin) as (e & ? & ? & _). eauto. }
  split_and!; [exact Hl|exact H1| |exact H3|].
  - intros e [He|(k & h & Hin & He)]%H2; [by left|right].
    destruct (Hm k h Hin) as (e' & He' & <- & <- & ?). simplify_eq. done.
  - intros k h Hin. destruct (H4 k h Hin) as (? & e & Hq & He).
    split; [done|]. destruct (Hm k h Hin) as (e' & He' & ? & ? & ?). simplify_eq. eauto.
Qed.
End promotion.
