(* ===== verification/StreamerTheorems.v ===== *)
(** * Theorems of the streamer

    The properties of [src/src/streamer/streamer.rs], each followed by a run on
    the mock rollup at which its hypotheses hold. *)

From S2P Require Import Prelude Bytes Slice Config Rollup MockRollup Streamer StreamerProofs StreamerRun.

(** ** The abstract streamer

    An unbounded index with its finalized cursor: no queue, no capacity, no
    node to fetch from, no channel. *)

Section abstract.
Context {R : Rollup} {C : Type} {SD : Sender C FeedMessage}.

Definition spec_event (start : Z) (cfg : StackConfig) (a : gmap Z Z * Z) (ev : event R)
    : gmap Z Z * Z :=
  match ev with
  | EvFinalized idx => if idx <=? a.2 then a else (spec_finalize idx a.1, idx)
  | EvTransactions txs h => (foldl (spec_add start) a.1 (parse_hotshot_transactions cfg txs h), a.2)
  | EvVerify _ _ | EvRetry => a
  end.

(** The abstraction of a concrete streamer. *)
Definition abstraction (s : Streamer R) : gmap Z Z * Z := (view s, finalized_idx s).

(** The cursor after a list of events, and the entries their blocks carry, in
    the order in which they are parsed. *)
Definition cursor_after (idx : Z) (evs : list (event R)) : Z :=
  foldl (λ f ev, match ev with EvFinalized i => Z.max f i | _ => f end) idx evs.

Definition all_parsed (cfg : StackConfig) (evs : list (event R)) : list Entry :=
  evs ≫= λ ev, match ev with
               | EvTransactions txs h => parse_hotshot_transactions cfg txs h
               | _ => []
               end.

(** The height at which [k] is first seen among the entries [es]. *)
Definition first_seen (start : Z) (es : list Entry) (k : Z) : option Z :=
  if k <? start then None
  else hotshot_height <$> head (filter (λ e, sequence_number e = k) es).

(** [before] ends with the last event that moves the cursor: it is the shortest
    beginning of [evs] with the same cursor. *)
Definition last_advance (idx : Z) (evs before : list (event R)) : Prop :=
  before `prefix_of` evs ∧ cursor_after idx before = cursor_after idx evs ∧
  ∀ b, b `prefix_of` evs → cursor_after idx b = cursor_after idx evs → before `prefix_of` b.

(** The main loop over a list of events, each with the node it meets. *)
Definition run_events (st : loop_state R C) (evs : list (EspressoReader * event R)) : loop_state R C :=
  foldl (λ st re, (handle_event re.1 st re.2).1) st evs.

End abstract.

Section theorems.
Context {R : Rollup} {L : RollupLaws R}.
Context {C : Type} {SD : Sender C FeedMessage} {SL : SenderLaws SD}.
Implicit Types (s : Streamer R) (e : Entry) (c : C) (st : loop_state R C) (ev : event R).

Lemma try_broadcast_view s r c :
  let '(s', _, _) := try_broadcast_feed_message s r c in
  queue s' = queue s ∧ stubs s' = stubs s ∧ config s' = config s ∧
  rollup_config s' = rollup_config s ∧ finalized_idx s' = finalized_idx s.
Proof.
  unfold try_broadcast_feed_message. generalize (find_contiguous_entries_after (queue s) (last_broadcast_position s)).
  intros es. revert s c. induction es as [|e es IH]; intros s c; simpl; [done|].
  destruct (try_send _ _) as [c' []]; try done.
  specialize (IH (set_last_broadcast s (sequence_number e)) c').
  by destruct (broadcast_loop _ _ _ _) as [[? ?] ?].
Qed.

(** One event of the loop is one event of the abstract streamer. *)
Lemma handle_event_simulates reader st ev :
  streamer_inv (streamer_of st) →
  let st' := (handle_event reader st ev).1 in
  streamer_inv (streamer_of st') ∧
  config (streamer_of st') = config (streamer_of st) ∧
  rollup_config (streamer_of st') = rollup_config (streamer_of st) ∧
  abstraction (streamer_of st') =
    spec_event (starting_pos (config (streamer_of st)))
      (stack (rollup_config (streamer_of st))) (abstraction (streamer_of st)) ev.
Proof.
  intros Hi. destruct ev as [idx|bd cur|txs h|]; simpl.
  - destruct (handle_finalization_spec reader _ idx Hi) as [Hi' Hv].
    destruct (handle_finalization_rest reader (streamer_of st) idx) as (? & ? & Hf & _).
    split_and!; try done. unfold abstraction. rewrite Hv, Hf. simpl.
    destruct (Z.leb_spec idx (finalized_idx (streamer_of st))); f_equal; lia.
  - done.
  - unfold handle_hotshot_transactions.
    set (es := parse_hotshot_transactions _ _ _).
    destruct (filter_messages_spec (streamer_of st) es Hi) as (Hi' & Hv & Hc).
    { apply Forall_forall. intros e He. by eapply parse_u64. }
    destruct (filter_messages_rest (streamer_of st) es) as (Hf & _ & Hrc).
    pose proof (try_broadcast_view (filter_messages (streamer_of st) es) (retry_of st) (sender_of st)) as Hb.
    destruct (try_broadcast_feed_message _ _ _) as [[s' r'] c']. simpl.
    destruct Hb as (Eq & Es & Ec & Er & Ef). split_and!; try congruence.
    + destruct Hi'. split; unfold view in *; rewrite ?Eq, ?Es, ?Ec; done.
    + unfold abstraction, view. rewrite Eq, Es, Ef, Hf. unfold view in Hv. by rewrite Hv.
  - pose proof (try_broadcast_view (streamer_of st)
      {| scheduled := false; timers := timers (retry_of st) - 1 |} (sender_of st)) as Hb.
    destruct (try_broadcast_feed_message _ _ _) as [[s' r'] c']. simpl.
    destruct Hb as (Eq & Es & Ec & Er & Ef). split_and!; try congruence.
    + destruct Hi. split; unfold view in *; rewrite ?Eq, ?Es, ?Ec; done.
    + unfold abstraction, view. by rewrite Eq, Es, Ef.
Qed.

Lemma run_events_simulates evs st :
  streamer_inv (streamer_of st) →
  streamer_inv (streamer_of (run_events st evs)) ∧
  abstraction (streamer_of (run_events st evs)) =
    foldl (spec_event (starting_pos (config (streamer_of st)))
             (stack (rollup_config (streamer_of st))))
      (abstraction (streamer_of st)) (evs.*2).
Proof.
  revert st. induction evs as [|[reader ev] evs IH]; intros st Hi; [done|]. simpl.
  destruct (handle_event_simulates reader st ev Hi) as (Hi' & Hc & Hr & Ha).
  destruct (IH _ Hi') as [H1 H2]. split; [exact H1|]. rewrite <- Ha, <- Hc, <- Hr. exact H2.
Qed.

(** ** What the abstract index holds *)

Lemma first_seen_app start es1 es2 k :
  first_seen start (es1 ++ es2) k = first_seen start es1 k ∪ first_seen start es2 k.
Proof.
  unfold first_seen. destruct (k <? start); [done|]. rewrite filter_app.
  destruct (filter _ es1); simpl; [|by destruct (head _)]. by destruct (head _).
Qed.

Lemma spec_add_lookup start es m k :
  foldl (spec_add start) m es !! k = m !! k ∪ first_seen start es k.
Proof.
  revert m. induction es as [|e es IH]; intros m; simpl.
  { unfold first_seen. destruct (k <? start); by destruct (m !! k). }
  rewrite IH. rewrite (first_seen_app start [e] es). 
  transitivity ((m !! k ∪ first_seen start [e] k) ∪ first_seen start es k);
    [|by destruct (m !! k), (first_seen start [e] k), (first_seen start es k)]. f_equal.
  unfold spec_add, first_seen. rewrite filter_cons, filter_nil.
  destruct (decide (sequence_number e = k)) as [->|Hne].
  - destruct (k <? start) eqn:E; simpl; [by destruct (m !! k)|].
    destruct (m !! k) eqn:Em; simpl; [by rewrite Em|]. by rewrite lookup_insert_eq.
  - destruct (_ || _); [|rewrite lookup_insert_ne by done]; destruct (k <? start); by destruct (m !! k).
Qed.

Lemma cursor_after_snoc idx evs ev :
  cursor_after idx (evs ++ [ev]) =
    match ev with EvFinalized i => Z.max (cursor_after idx evs) i | _ => cursor_after idx evs end.
Proof. unfold cursor_after. by rewrite foldl_app. Qed.

Lemma cursor_after_mono idx (b evs : list (event R)) :
  b `prefix_of` evs → cursor_after idx b ≤ cursor_after idx evs.
Proof.
  intros [a ->]. induction a as [|ev a IH] using rev_ind; [by rewrite app_nil_r|].
  rewrite app_assoc, cursor_after_snoc. destruct ev; lia.
Qed.

Lemma prefix_of_snoc {A} (b l : list A) x :
  b `prefix_of` l ++ [x] → b = l ++ [x] ∨ b `prefix_of` l.
Proof.
  intros [a E]. destruct a as [|y a _] using rev_ind; [left; by rewrite app_nil_r in E|right].
  rewrite app_assoc in E. apply app_inj_tail in E as [-> _]. by exists a.
Qed.

(** An event that does not move the cursor leaves the last advance where it is. *)
Lemma last_advance_stays idx evs ev before :
  last_advance idx evs before → cursor_after idx (evs ++ [ev]) = cursor_after idx evs →
  last_advance idx (evs ++ [ev]) before.
Proof.
  intros (H1 & H2 & H3) E. split_and!; [by apply prefix_app_r|congruence|].
  intros b [->|Hb]%prefix_of_snoc Hc; [by apply prefix_app_r|]. apply H3; [done|congruence].
Qed.

Lemma last_advance_moves idx evs ev :
  cursor_after idx evs < cursor_after idx (evs ++ [ev]) → last_advance idx (evs ++ [ev]) (evs ++ [ev]).
Proof.
  intros Hlt. split_and!; [done|done|]. intros b [->|Hb]%prefix_of_snoc Hc; [done|].
  apply (cursor_after_mono idx) in Hb. lia.
Qed.

Lemma all_parsed_snoc cfg evs ev :
  all_parsed cfg (evs ++ [ev]) = all_parsed cfg evs ++ all_parsed cfg [ev].
Proof. apply bind_app. Qed.

(** The index the events determine. *)
Lemma spec_events_index start cfg idx (evs : list (event R)) :
  let a := foldl (spec_event start cfg) (∅, idx) evs in
  ∃ before after, evs = before ++ after ∧ last_advance idx evs before ∧
    a.2 = cursor_after idx evs ∧
    ∀ k, a.1 !! k =
      first_seen start (all_parsed cfg (if k <=? cursor_after idx evs then after else evs)) k.
Proof.
  induction evs as [|ev evs IH] using rev_ind; simpl.
  { exists [], []. split_and!; try done; [split_and!; [done|done|by intros b _ _; apply prefix_nil]|].
    intros k. rewrite lookup_empty. unfold first_seen. by destruct (k <=? idx), (k <? start). }
  destruct IH as (before & after & E & Hl & Hf & Hk). rewrite foldl_app. simpl.
  destruct (foldl _ _ evs) as [m f]. simpl in *.
  assert (Hstay : cursor_after idx (evs ++ [ev]) = cursor_after idx evs →
    (∀ k, (spec_event start cfg (m, f) ev).1 !! k = m !! k ∪ first_seen start (all_parsed cfg [ev]) k) →
    (spec_event start cfg (m, f) ev).2 = f →
    ∃ before after, evs ++ [ev] = before ++ after ∧ last_advance idx (evs ++ [ev]) before ∧
      (spec_event start cfg (m, f) ev).2 = cursor_after idx (evs ++ [ev]) ∧
      ∀ k, (spec_event start cfg (m, f) ev).1 !! k =
        first_seen start (all_parsed cfg (if k <=? cursor_after idx (evs ++ [ev])
                                          then after else evs ++ [ev])) k).
  { intros Hc Hm H2. exists before, (after ++ [ev]).
    split_and!; [rewrite E; by rewrite app_assoc|by apply last_advance_stays|congruence|].
    intros k. rewrite Hm, Hk, Hc. destruct (_ <=? _); by rewrite all_parsed_snoc, first_seen_app. }
  assert (Hnone : ∀ k, first_seen start ([] : list (@Entry R)) k = None).
  { intros k. unfold first_seen. by destruct (k <? start). }
  pose proof (cursor_after_snoc idx evs ev) as Hc. destruct ev as [i|bd cur|txs h|].
  - destruct (Z.leb_spec i f) as [Hle|Hgt].
    + apply Hstay; simpl; rewrite ?(proj2 (Z.leb_le i f) Hle); [lia| |done].
      intros k. unfold all_parsed. simpl. rewrite Hnone. by destruct (m !! k).
    + simpl. rewrite (proj2 (Z.leb_gt i f) Hgt). simpl. exists (evs ++ [EvFinalized i]), [].
      split_and!; [by rewrite app_nil_r|apply last_advance_moves; rewrite Hc; lia|rewrite Hc; lia|].
      intros k. unfold spec_finalize. rewrite map_lookup_filter, Hk, Hc.
      destruct (Z.leb_spec k (cursor_after idx evs `max` i)) as [Hki|Hki].
      * unfold all_parsed at 2. simpl. rewrite Hnone. destruct (first_seen _ _ _); simpl; [|done].
        rewrite option_guard_False; [done|]. simpl. lia.
      * rewrite (proj2 (Z.leb_gt k (cursor_after idx evs))) by lia.
        rewrite all_parsed_snoc. unfold all_parsed at 3. simpl. rewrite app_nil_r.
        destruct (first_seen _ _ _); simpl; [|done]. rewrite option_guard_True; [done|]. simpl. lia.
  - apply Hstay; [done| |done]. intros k. unfold all_parsed. simpl. rewrite Hnone. by destruct (m !! k).
  - apply Hstay; [done| |done]. intros k. unfold all_parsed. simpl. rewrite app_nil_r. apply spec_add_lookup.
  - apply Hstay; [done| |done]. intros k. unfold all_parsed. simpl. rewrite Hnone. by destruct (m !! k).
Qed.

(** ** Stubs between finalizations *)

(** Adding an entry never removes or changes a stub. *)
Lemma insert_parsed_keeps_stub s e k h :
  streamer_inv s → stubs s !! k = Some h → stubs (insert_parsed s e) !! k = Some h.
Proof.
  intros Hi Hk. unfold insert_parsed.
  destruct (_ <? starting_pos _); [done|].
  destruct (_ || bool_decide (is_Some (stubs s !! sequence_number e))) eqn:Ee; [done|].
  apply orb_false_iff in Ee as [_ Ee]. apply bool_decide_eq_false, eq_None_not_Some in Ee.
  destruct (_ <? _)%nat; [|done].
  destruct (last _) as [ev|] eqn:El; [|done]. simpl.
  apply last_Some_elem, elem_of_vec_insert in El as [->|Hin].
  - rewrite lookup_insert_ne; [done|]. congruence.
  - rewrite lookup_insert_ne; [done|]. intros E. apply (inv_disjoint s Hi) in Hin. congruence.
Qed.

Lemma filter_messages_keeps_stub es s k h :
  streamer_inv s → Forall (λ e, is_u64 (sequence_number e)) es →
  stubs s !! k = Some h → stubs (filter_messages s es) !! k = Some h.
Proof.
  unfold filter_messages. revert s. induction es as [|e es IH]; intros s Hi Hu Hk; [done|].
  apply Forall_cons in Hu as [Hu Hus]. simpl. apply IH; [|done|by apply insert_parsed_keeps_stub].
  by apply insert_parsed_spec.
Qed.

Lemma queue_u64 s : streamer_inv s → ∀ e, e ∈ queue s → is_u64 (sequence_number e).
Proof.
  intros Hi e He. apply (inv_keys s Hi). unfold view. rewrite lookup_union_is_Some. left.
  rewrite queue_index_elem; [eauto|by apply inv_sorted|done].
Qed.

(** With a stub in the next position there is nothing to broadcast. *)
Lemma find_contiguous_stub s h :
  streamer_inv s → is_u64 (last_broadcast_position s) →
  stubs s !! (last_broadcast_position s + 1) = Some h →
  find_contiguous_entries_after (queue s) (last_broadcast_position s) = [].
Proof.
  intros Hi Hp Hk.
  destruct (find_contiguous_spec (queue s) _ (inv_sorted _ Hi) (queue_u64 s Hi) Hp) as (Hn & Hin & _).
  destruct (find_contiguous_entries_after _ _) as [|e es]; [done|].
  pose proof (inv_disjoint s Hi e (Hin e ltac:(set_solver))) as Hd.
  rewrite (Hn 0%nat e eq_refl) in Hd. simpl in Hd. rewrite Z.add_0_r in Hd. congruence.
Qed.

(** ** The properties *)

(** C4. Every state the main loop can reach, whatever the Espresso node answers
    and whatever the order of finalizations, transactions, verification requests
    and retries: the queue is strictly sorted by sequence number and within
    [max_full_queue_entries], no sequence number is both queued and stubbed,
    nothing below [starting_pos] is kept, and at most one retry is pending. *)
Theorem reachable_state_invariant cfg rcfg c0 st :
  reachable cfg rcfg c0 st →
  streamer_inv (streamer_of st) ∧ retry_inv (retry_of st) ∧
  is_u64 (finalized_idx (streamer_of st)) ∧ is_u64 (last_broadcast_position (streamer_of st)).
Proof. intros []%reachable_inv. done. Qed.

(** In every reachable state the messages sent to the feed since the start
    have strictly increasing sequence numbers, so none is sent twice or out of
    order, and none is zero or above [last_broadcast_position]. *)
Theorem broadcast_order cfg rcfg c0 st :
  reachable cfg rcfg c0 st →
  ∃ hist, delivered (sender_of st) = delivered c0 ++ hist ∧
    ssorted feed_sequence_number hist ∧
    ∀ m, m ∈ hist → 0 < feed_sequence_number m ≤ last_broadcast_position (streamer_of st).
Proof. intros [_ _ _ _ _ _ Hd]%reachable_inv. exact Hd. Qed.

(** C5. The streamer with its bounded queue, evictions, promotions and failing
    nodes refines the abstract index, and the abstract index is what the events
    say: after any sequence of events the finalized cursor is the highest index
    finalized, and the queue and the stubs together hold, for a number [k] above the
    cursor, the height at which [k] was first seen in the blocks received, and for a
    number at or below the cursor, the height at which it was first seen in the
    blocks received since the cursor last moved (a message re-sent after it was
    finalized is recorded again); numbers below [starting_pos] never occur. *)
Theorem streamer_refines_index cfg rcfg c0 idx evs :
  let s := streamer_of (run_events (run_init cfg rcfg idx c0) evs) in
  abstraction s = foldl (spec_event (starting_pos cfg) (stack rcfg)) (∅, idx) evs.*2 ∧
  finalized_idx s = cursor_after idx evs.*2 ∧
  ∃ before after, evs.*2 = before ++ after ∧ last_advance idx evs.*2 before ∧
    ∀ k, view s !! k =
      first_seen (starting_pos cfg)
        (all_parsed (stack rcfg) (if k <=? finalized_idx s then after else evs.*2)) k.
Proof.
  intros s. destruct (run_events_simulates evs (run_init cfg rcfg idx c0)) as [_ Ha].
  { split; simpl; [constructor|lia|set_solver|].
    intros k. unfold view. rewrite lookup_union_is_Some. simpl. by intros [[? ?]|[? ?]]. }
  change (abstraction s = foldl (spec_event (starting_pos cfg) (stack rcfg)) (∅, idx) evs.*2) in Ha.
  split; [exact Ha|].
  destruct (spec_events_index (starting_pos cfg) (stack rcfg) idx evs.*2) as (before & after & E & Hl & Hf & Hk).
  change (view s) with (abstraction s).1. change (finalized_idx s) with (abstraction s).2. rewrite Ha.
  rewrite Hf. split; [done|]. by exists before, after.
Qed.

(** [filter_messages] implements first-seen insertion: each entry at or above
    [starting_pos] whose number is not known yet is recorded with its height,
    in the queue or as a stub, and nothing else changes; the invariant is kept. *)
Theorem filter_messages_refines s es :
  streamer_inv s → Forall (λ e, is_u64 (sequence_number e)) es →
  streamer_inv (filter_messages s es) ∧
  view (filter_messages s es) = foldl (spec_add (starting_pos (config s))) (view s) es.
Proof. intros Hi Hu. destruct (filter_messages_spec s es Hi Hu) as (? & ? & _). done. Qed.

(** [handle_finalization] implements pruning: an index that does not advance
    changes neither the queue nor the stubs, one that advances forgets exactly the
    messages at or below it, whatever the node answers during promotion; both
    cursors move to the maximum of the old and the new. *)
Theorem handle_finalization_refines reader s idx :
  streamer_inv s →
  let s' := handle_finalization reader s idx in
  streamer_inv s' ∧
  view s' = (if idx <=? finalized_idx s then view s else spec_finalize idx (view s)) ∧
  finalized_idx s' = Z.max (finalized_idx s) idx ∧
  last_broadcast_position s' = Z.max (last_broadcast_position s) idx.
Proof.
  intros Hi s'. destruct (handle_finalization_spec reader s idx Hi) as [? ?].
  destruct (handle_finalization_rest reader s idx) as (_ & _ & ? & ?). done.
Qed.

(** What a broadcast sends, and why it stops. *)
Lemma try_broadcast_sends s r c s' r' c' :
  streamer_inv s → is_u64 (last_broadcast_position s) →
  try_broadcast_feed_message s r c = (s', r', c') →
  ∃ sent, delivered c' = delivered c ++ (convert_entry_to_feed_message <$> sent) ∧
    numbered (last_broadcast_position s) sent ∧ (∀ e, e ∈ sent → e ∈ queue s) ∧
    last_broadcast_position s' = last_broadcast_position s + zlen sent ∧
    ((∀ e, e ∈ queue s → sequence_number e ≠ last_broadcast_position s' + 1) ∨
     scheduled r' = true ∨ ∃ c1 m, try_send c1 m = (c', SendClosed)).
Proof.
  intros Hi Hp H. unfold try_broadcast_feed_message in H.
  destruct (find_contiguous_spec (queue s) _ (inv_sorted _ Hi) (queue_u64 s Hi) Hp) as (Hn & Hin & Hend).
  destruct (broadcast_loop_spec _ _ _ _ _ _ _ _ H Hn eq_refl) as (sent & rest & E & Hd & -> & Hcase).
  rewrite E in Hn, Hin, Hend. exists sent. split_and!; try done.
  - intros i e Hl. apply Hn. by apply lookup_app_l_Some.
  - intros e He. apply Hin. set_solver.
  - destruct Hcase as [[-> _]|[(e & c1 & _ & _ & ->)|(e & c1 & _ & Hc & _)]].
    + left. simpl. rewrite app_nil_r in Hend. intros e He. specialize (Hend e He). lia.
    + right. left. unfold schedule. by destruct (scheduled r) eqn:?.
    + eauto.
Qed.

(** C11. What [try_broadcast_feed_message] does, exactly.  The maximal run of
    queued messages that follows [last_broadcast_position] without a gap is a
    part [sent] and a part [rest]: the channel accepts the messages of [sent], in
    order, and the position moves past them and nothing else of the streamer
    changes; [rest] is empty and the retry state is untouched, or its first
    message was offered and the channel was full, and then a retry is scheduled, or
    the channel was closed. *)
Theorem broadcast_progress s r c s' r' c' :
  streamer_inv s → is_u64 (last_broadcast_position s) →
  try_broadcast_feed_message s r c = (s', r', c') →
  ∃ sent rest c1,
    numbered (last_broadcast_position s) (sent ++ rest) ∧
    (∀ e, e ∈ sent ++ rest → e ∈ queue s) ∧
    (∀ e, e ∈ queue s → sequence_number e ≠ last_broadcast_position s + 1 + zlen (sent ++ rest)) ∧
    accepts c (convert_entry_to_feed_message <$> sent) c1 ∧
    s' = set_last_broadcast s (last_broadcast_position s + zlen sent) ∧
    match rest with
    | [] => c' = c1 ∧ r' = r
    | e :: _ => (try_send c1 (convert_entry_to_feed_message e) = (c', SendFull) ∧ r' = schedule r) ∨
                (try_send c1 (convert_entry_to_feed_message e) = (c', SendClosed) ∧ r' = r)
    end.
Proof.
  intros Hi Hp H. unfold try_broadcast_feed_message in H.
  destruct (find_contiguous_spec (queue s) _ (inv_sorted _ Hi) (queue_u64 s Hi) Hp) as (Hn & Hin & Hend).
  destruct (broadcast_loop_exact _ _ _ _ _ _ _ _ H Hn eq_refl) as (sent & rest & c1 & E & ? & ? & ?).
  rewrite E in Hn, Hin, Hend. by exists sent, rest, c1.
Qed.

(** C12. Promotion from a node that serves the chain, when the stubs point at
    messages of the chain and no sequence number occurs there twice.
    [promote_stubs] fills the queue with as many messages as it has room for and
    there are stubs; it loses no queued entry, and what it adds are messages of
    the chain that were stubs, at the height first seen; every stub stays as it
    was or is gone with its message in the queue; and every stub that went has a
    lower number than every stub that stays. *)
Theorem promotion_restores_stubs chain reader s :
  serves reader (namespace_id (rollup_config s)) chain →
  stubs_on_chain chain s → unique_on_chain chain (stack (rollup_config s)) →
  let s' := promote_stubs reader s in
  length (queue s') =
    (length (queue s) + (max_full_queue_entries (config s) - length (queue s)) `min` size (stubs s))%nat ∧
  (∀ e, e ∈ queue s → e ∈ queue s') ∧
  (∀ e, e ∈ queue s' → e ∈ queue s ∨
     (stubs s !! sequence_number e = Some (hotshot_height e) ∧
      stubs s' !! sequence_number e = None ∧ on_chain chain (stack (rollup_config s)) e)) ∧
  stubs s' ⊆ stubs s ∧
  (∀ k h, stubs s !! k = Some h → stubs s' !! k = None →
     (∃ e, e ∈ queue s' ∧ sequence_number e = k ∧ hotshot_height e = h) ∧
     ∀ k', is_Some (stubs s' !! k') → k < k').
Proof.
  intros Hs Hc Hu s'. destruct (promote_stubs_complete chain reader s Hs Hc Hu) as (Hl & Hq & Hn & Hst & H).
  fold s' in Hl, Hq, Hn, Hst, H.
  assert (Hdec : ∀ k h, stubs s !! k = Some h →
    (k, h) ∈ stubs_to_promote s ∨ k ∉ (stubs_to_promote s).*1).
  { intros k h Hk. destruct (decide (k ∈ (stubs_to_promote s).*1)) as [Hin|]; [left|by right].
    apply list_elem_of_fmap in Hin as ([k' h'] & -> & Hin).
    pose proof (stubs_to_promote_elem _ _ _ Hin) as E. simpl in *. by simplify_eq. }
  assert (Hsub : stubs s' ⊆ stubs s).
  { apply map_subseteq_spec. intros k h Hk.
    destruct (decide (k ∈ (stubs_to_promote s).*1)) as [Hin|Hin]; [|by rewrite <- (Hst k Hin)].
    apply list_elem_of_fmap in Hin as ([k' h'] & -> & Hin). destruct (H k' h' Hin) as [E _].
    simpl in Hk. congruence. }
  split_and!; [|exact Hq| |exact Hsub|].
  - rewrite Hl. unfold stubs_to_promote. f_equal. rewrite length_take, btree_iter_perm.
    fold (size (stubs s)). rewrite length_map_to_list. lia.
  - intros e [He|[Hin Ho] ]%Hn; [by left|right].
    split_and!; [by apply stubs_to_promote_elem|by apply (H _ _ Hin)|done].
  - intros k h Hk Hk'. destruct (Hdec k h Hk) as [Hin|Hin]; [|rewrite (Hst k Hin) in Hk'; congruence].
    split; [by apply (H _ _ Hin)|]. intros k' [h' Hs']. 
    eapply stubs_to_promote_lowest; [exact Hin|eexists; by eapply lookup_weaken|].
    intros ([k2 h2] & -> & Hin2)%list_elem_of_fmap. destruct (H _ _ Hin2) as [E _]. simpl in Hs'. congruence.
Qed.

(** C31. A stub in the next broadcast position stalls the feed: whatever the node
    answers, no block, verification request or retry, and no finalization at or below
    the finalized index and the last position, sends a message, moves the position or
    turns the stub into a queued message.  (Promotion runs only inside a finalization
    that advances, where the log message of a failed one promises a retry on the next
    tick.) *)
Theorem stub_blocks_feed reader st ev h :
  streamer_inv (streamer_of st) → is_u64 (last_broadcast_position (streamer_of st)) →
  stubs (streamer_of st) !! (last_broadcast_position (streamer_of st) + 1) = Some h →
  (∀ idx, ev = EvFinalized idx →
     idx ≤ finalized_idx (streamer_of st) ∧ idx ≤ last_broadcast_position (streamer_of st)) →
  let st' := (handle_event reader st ev).1 in
  last_broadcast_position (streamer_of st') = last_broadcast_position (streamer_of st) ∧
  stubs (streamer_of st') !! (last_broadcast_position (streamer_of st) + 1) = Some h ∧
  delivered (sender_of st') = delivered (sender_of st).
Proof.
  intros Hi Hp Hk Hev. destruct ev as [idx|bd cur|txs hh|]; simpl.
  - destruct (Hev idx eq_refl) as [Hf Hl]. rewrite handle_finalization_unfold. simpl.
    rewrite (proj2 (Z.leb_le _ _) Hf). simpl. split_and!; try done. lia.
  - done.
  - unfold handle_hotshot_transactions. set (es := parse_hotshot_transactions _ _ _).
    assert (Hu : Forall (λ e, is_u64 (sequence_number e)) es).
    { apply Forall_forall. intros e He. by eapply parse_u64. }
    pose proof (filter_messages_keeps_stub es _ _ _ Hi Hu Hk) as Hk'.
    destruct (filter_messages_spec (streamer_of st) es Hi Hu) as (Hi' & _ & _).
    destruct (filter_messages_rest (streamer_of st) es) as (_ & Hlp & _).
    unfold try_broadcast_feed_message. rewrite (find_contiguous_stub _ h); rewrite ?Hlp; done.
  - unfold try_broadcast_feed_message. by rewrite (find_contiguous_stub _ h).
Qed.
End theorems.

(** The ranges a promotion fetches: whatever the heights wanted (below the
    last [u64]), each range is non-empty and spans at most [HOTSHOT_RANGE_LIMIT]
    blocks, starts at a wanted height, and every wanted height is in a range. *)
Theorem promotion_ranges_bounded heights :
  (∀ h, h ∈ heights → 0 ≤ h < u64_modulus - 1) →
  let hs := btree_set heights in
  (∀ a b, (a, b) ∈ fetch_ranges (length hs) hs →
     a < b ≤ a + HOTSHOT_RANGE_LIMIT ∧ a ∈ heights) ∧
  (∀ h, h ∈ heights → ∃ a b, (a, b) ∈ fetch_ranges (length hs) hs ∧ a ≤ h < b).
Proof.
  intros Hb hs. destruct (fetch_ranges_spec (length hs) hs) as [H1 H2]; [done|apply btree_set_sorted| |].
  { intros h Hh. apply Hb. by apply elem_of_btree_set. }
  split.
  - intros a b Hab. destruct (H1 a b Hab) as (? & _ & _ & Ha). split; [done|]. by apply elem_of_btree_set.
  - intros h Hh. apply H2. by apply elem_of_btree_set.
Qed.

(** ** Concrete runs *)

Definition mock_block (seqs : list Z) : list Transaction := make_mock_espresso_transaction <$> seqs.

Definition mock_start : loop_state MockRollup (bounded_chan MockEntry) :=
  run_init mock_config mock_rollup_config 0 empty_chan.

(** Messages 1 to 4 in blocks 1 to 4; the queue holds two, so 3 and 4 are stubs
    until 2 is finalized. *)
Definition mock_chain (h : Z) : list Transaction :=
  if (1 <=? h) && (h <=? 4) then mock_block [h] else [].

Definition mock_events : list (EspressoReader * event MockRollup) :=
  let node := chain_reader mock_chain 5 in
  [(node, EvTransactions [mock_block [1]; mock_block [2]; mock_block [3]; mock_block [4]] 1)].

(** The state in which 1 and 2 are queued and broadcast, and 3 and 4 are stubs. *)
Definition mock_stubbed : loop_state MockRollup (bounded_chan MockEntry) :=
  run_events mock_start mock_events.

Lemma mock_start_reachable : reachable mock_config mock_rollup_config empty_chan mock_start.
Proof. apply reachable_init. unfold is_u64, u64_modulus. lia. Qed.

Lemma mock_stubbed_reachable : reachable mock_config mock_rollup_config empty_chan mock_stubbed.
Proof. apply reachable_step; [apply mock_start_reachable|done]. Qed.

Lemma mock_stubbed_inv : streamer_inv (streamer_of mock_stubbed).
Proof. by destruct (reachable_inv _ _ _ _ mock_stubbed_reachable). Qed.

Lemma reachable_state_invariant_witness :
  streamer_inv (streamer_of mock_stubbed) ∧ retry_inv (retry_of mock_stubbed) ∧
  is_u64 (finalized_idx (streamer_of mock_stubbed)) ∧
  is_u64 (last_broadcast_position (streamer_of mock_stubbed)).
Proof.
  apply (reachable_state_invariant (R:=MockRollup) mock_config mock_rollup_config empty_chan mock_stubbed).
  exact mock_stubbed_reachable.
Defined.

Lemma broadcast_order_witness :
  last_broadcast_position (streamer_of mock_stubbed) = 2 ∧
  ∃ hist, delivered (sender_of mock_stubbed) = delivered empty_chan ++ hist ∧
    ssorted (@feed_sequence_number MockRollup _) hist ∧
    ∀ m, m ∈ hist → 0 < @feed_sequence_number MockRollup _ m ≤ last_broadcast_position (streamer_of mock_stubbed).
Proof.
  split; [done|].
  apply (broadcast_order (R:=MockRollup) mock_config mock_rollup_config empty_chan mock_stubbed).
  exact mock_stubbed_reachable.
Defined.

(** Message 1, re-sent at height 9 after it was finalized, is recorded again. *)
Example resent_message_recorded :
  let node := chain_reader mock_chain 5 in
  let s := streamer_of (run_events mock_start (mock_events ++
             [(node, EvFinalized 2); (node, EvTransactions [mock_block [1]] 9)])) in
  view s !! 1 = Some 9 ∧ finalized_idx s = 2.
Proof. by vm_compute. Qed.

Lemma filter_messages_refines_witness :
  let es := [{| seq_num := 9; mock_hotshot_height := 7 |}; {| seq_num := 3; mock_hotshot_height := 8 |}] in
  let s := streamer_of mock_stubbed in
  stubs (filter_messages s es) !! 9 = Some 7 ∧
  streamer_inv (filter_messages s es) ∧
  view (filter_messages s es) = foldl (spec_add (starting_pos (config s))) (view s) es.
Proof.
  intros es s. split; [by vm_compute|].
  apply (filter_messages_refines (R:=MockRollup) s es); [exact mock_stubbed_inv|].
  repeat (constructor; [split; by vm_compute|]). constructor.
Defined.

Lemma handle_finalization_refines_witness :
  let s := streamer_of mock_stubbed in
  let s' := handle_finalization (chain_reader mock_chain 5) s 2 in
  map seq_num (queue s') = [3; 4] ∧
  streamer_inv s' ∧
  view s' = (if 2 <=? finalized_idx s then view s else spec_finalize 2 (view s)) ∧
  finalized_idx s' = Z.max (finalized_idx s) 2 ∧
  last_broadcast_position s' = Z.max (last_broadcast_position s) 2.
Proof.
  intros s s'. split; [by vm_compute|].
  apply (handle_finalization_refines (R:=MockRollup) (chain_reader mock_chain 5) s 2). exact mock_stubbed_inv.
Defined.

(** Messages 1 and 3: only 1 can be broadcast. *)
Definition mock_gap : Streamer MockRollup :=
  filter_messages (streamer_of mock_start)
    [{| seq_num := 1; mock_hotshot_height := 1 |}; {| seq_num := 3; mock_hotshot_height := 1 |}].

Definition mock_gap_out : Streamer MockRollup * BroadcastRetry * bounded_chan MockEntry :=
  try_broadcast_feed_message (R:=MockRollup) (SD:=bounded_sender) mock_gap BroadcastRetry_new empty_chan.

Lemma broadcast_progress_witness :
  last_broadcast_position mock_gap_out.1.1 = 1 ∧ map seq_num (chan_history mock_gap_out.2) = [1] ∧
  ∃ (sent rest : list MockEntry) (c1 : bounded_chan MockEntry),
    numbered (R:=MockRollup) 0 (sent ++ rest) ∧
    accepts (R:=MockRollup) (SD:=bounded_sender) empty_chan (id <$> sent) c1 ∧
    last_broadcast_position mock_gap_out.1.1 = 0 + zlen sent.
Proof.
  split; [done|]. split; [done|].
  destruct (broadcast_progress (R:=MockRollup) (SD:=bounded_sender) mock_gap BroadcastRetry_new empty_chan
              mock_gap_out.1.1 mock_gap_out.1.2 mock_gap_out.2) as (sent & rest & c1 & Hn & _ & _ & Hacc & Hl & _).
  - apply filter_messages_spec; [by destruct (reachable_inv _ _ _ _ mock_start_reachable)|].
    repeat (constructor; [split; by vm_compute|]). constructor.
  - split; by vm_compute.
  - fold mock_gap_out. by destruct mock_gap_out as [[? ?] ?].
  - exists sent, rest, c1. split_and!; [exact Hn|exact Hacc|by rewrite Hl].
Defined.

(** The messages of [mock_chain]: one per block, numbered by its height. *)
Lemma on_mock_chain e : on_chain (R:=MockRollup) mock_chain tt e →
  1 ≤ mock_hotshot_height e ≤ 4 ∧ seq_num e = mock_hotshot_height e.
Proof.
  intros [_ He]. simpl in He. rewrite app_nil_r in He.
  apply list_elem_of_fmap in He as (tx & -> & Htx). simpl in *.
  unfold mock_chain in Htx. destruct (Z.leb_spec 1 (mock_hotshot_height e)); [|set_solver].
  destruct (Z.leb_spec (mock_hotshot_height e) 4); [|set_solver].
  apply list_elem_of_fmap in Htx as (k & -> & ->%list_elem_of_singleton). simpl.
  split; [done|]. by apply (from_to_be_bytes_u64 (mock_hotshot_height e)); unfold is_u64, u64_modulus; lia.
Qed.

Lemma mock_entry_on_chain h : 1 ≤ h ≤ 4 →
  on_chain (R:=MockRollup) mock_chain tt {| seq_num := h; mock_hotshot_height := h |}.
Proof.
  intros Hh. split; simpl; [unfold is_u64, u64_modulus; lia|].
  rewrite app_nil_r. apply list_elem_of_fmap. exists (make_mock_espresso_transaction h). split.
  - unfold mock_entry_of_tx. simpl. f_equal. symmetry.
    apply (from_to_be_bytes_u64 h). unfold is_u64, u64_modulus. lia.
  - unfold mock_chain. rewrite (proj2 (Z.leb_le 1 h)), (proj2 (Z.leb_le h 4)) by lia. simpl. set_solver.
Qed.

(** The stubbed state with 1 and 2 pruned: room for two, stubs 3 and 4. *)
Definition mock_pruned : Streamer MockRollup := set_queue (streamer_of mock_stubbed) [].

Lemma promotion_restores_stubs_witness :
  stubs mock_pruned = {[3 := 3; 4 := 4]} ∧
  length (queue (promote_stubs (chain_reader mock_chain 5) mock_pruned)) = 2%nat.
Proof.
  split; [by vm_compute|].
  destruct (promotion_restores_stubs (R:=MockRollup) mock_chain (chain_reader mock_chain 5) mock_pruned)
    as [Hl _].
  - by intros a b _.
  - intros k h Hk.
    assert (stubs mock_pruned = {[3 := 3; 4 := 4]}) as E by (by vm_compute). rewrite E in Hk.
    assert (k = h ∧ 1 ≤ h ≤ 4) as [-> Hb].
    { apply lookup_insert_Some in Hk as [[<- <-]|[_ [<- <-]%lookup_singleton_Some]]; lia. }
    split; [unfold u64_modulus; lia|]. exists {| seq_num := h; mock_hotshot_height := h |}.
    split_and!; [by apply mock_entry_on_chain|done|done].
  - intros [k1 h1] [k2 h2] [_ E1]%on_mock_chain [_ E2]%on_mock_chain. simpl in *. by intros ->; subst.
  - rewrite Hl. by vm_compute.
Defined.

Lemma stub_blocks_feed_witness :
  let st' := (handle_event failing_reader mock_stubbed (EvTransactions [mock_block [3]] 6)).1 in
  last_broadcast_position (streamer_of st') = 2 ∧ stubs (streamer_of st') !! 3 = Some 3.
Proof.
  destruct (stub_blocks_feed (R:=MockRollup) (SD:=bounded_sender) failing_reader mock_stubbed
              (EvTransactions [mock_block [3]] 6) 3) as (H1 & H2 & _).
  - exact mock_stubbed_inv.
  - split; by vm_compute.
  - by vm_compute.
  - done.
  - split; [exact H1|exact H2].
Defined.

Lemma promotion_ranges_bounded_witness :
  let hs := btree_set [250; 10; 109; 110; 10] in
  fetch_ranges (length hs) hs = [(10, 110); (110, 111); (250, 251)] ∧
  ∃ a b, (a, b) ∈ fetch_ranges (length hs) hs ∧ a ≤ 109 < b.
Proof.
  intros hs. split; [by vm_compute|].
  destruct (promotion_ranges_bounded [250; 10; 109; 110; 10]) as [_ H].
  - intros h Hh. unfold u64_modulus. rewrite !elem_of_cons in Hh. set_solver by lia.
  - apply H. set_solver.
Defined.

(** ** A resubmitted message blocks promotion

    Message 3 is seen at height 3 and again at height 4, in the block that first
    carries 4; the queue holds two entries, so 3 and 4 are stubs. *)

Definition dup_chain (h : Z) : list Transaction :=
  if h =? 4 then mock_block [3; 4] else mock_chain h.

Definition dup_events : list (EspressoReader * event MockRollup) :=
  [(chain_reader dup_chain 5, EvTransactions (chain_blocks dup_chain 1 5) 1);
   (chain_reader dup_chain 5, EvFinalized 2)].

(** A stub whose message was submitted again within the re-fetched range is
    not promoted, although the node serves the whole chain: the later copy
    replaces the first one among the fetched entries, its height differs from the
    one recorded, and the promotion of this and every later stub is abandoned
    with the queue empty.  Without the resubmission the same run ends with both
    messages queued. *)
Theorem resubmission_blocks_promotion :
  let st := streamer_of (run_events mock_start dup_events) in
  queue st = [] ∧ stubs st = {[3 := 3; 4 := 4]} ∧
  let node := chain_reader mock_chain 5 in
  map seq_num (queue (streamer_of
    (run_events mock_start [(node, EvTransactions (chain_blocks mock_chain 1 5) 1);
                            (node, EvFinalized 2)]))) = [3; 4].
Proof. split_and!; by vm_compute. Qed.
