(* ===== verification/FeedStart.v ===== *)
(** * When the feed starts

    [Streamer::new] of [src/src/streamer/streamer.rs] puts the broadcast position at
    0, while nothing below [starting_pos] is ever queued. *)

From S2P Require Import Prelude Slice Config Rollup MockRollup Streamer StreamerProofs StreamerRun StreamerTheorems.

Section feed_start.
Context {R : Rollup} {L : RollupLaws R}.
Context {C : Type} {SD : Sender C FeedMessage} {SL : SenderLaws SD}.
Implicit Types (s : Streamer R) (st : loop_state R C) (ev : event R).

(** The next position is one that the queue never holds. *)
Definition below_start s : Prop :=
  0 ≤ last_broadcast_position s ∧ last_broadcast_position s + 1 < starting_pos (config s).

Lemma find_contiguous_below s :
  streamer_inv s → is_u64 (starting_pos (config s)) → below_start s →
  find_contiguous_entries_after (queue s) (last_broadcast_position s) = [].
Proof.
  intros Hi Hu [H0 Hlt].
  assert (Hk : ∀ e, e ∈ queue s → starting_pos (config s) ≤ sequence_number e ∧ is_u64 (sequence_number e)).
  { intros e He. apply (inv_keys s Hi). unfold view. rewrite lookup_union_is_Some. left.
    rewrite queue_index_elem; [eauto|by apply inv_sorted|done]. }
  destruct (find_contiguous_spec (queue s) (last_broadcast_position s) (inv_sorted _ Hi)) as (Hn & Hin & _).
  { intros e He. by apply Hk. }
  { unfold is_u64 in *. lia. }
  destruct (find_contiguous_entries_after _ _) as [|e es]; [done|].
  destruct (Hk e (Hin e ltac:(set_solver))) as [Hs _]. rewrite (Hn 0%nat e eq_refl) in Hs. lia.
Qed.

(** What an event must not be for the feed to stay silent. *)
Definition not_final_yet (start : Z) ev : Prop :=
  match ev with EvFinalized idx => idx + 1 < start | _ => True end.

Lemma silent_step reader st ev :
  streamer_inv (streamer_of st) → is_u64 (starting_pos (config (streamer_of st))) → below_start (streamer_of st) →
  not_final_yet (starting_pos (config (streamer_of st))) ev →
  let st' := (handle_event reader st ev).1 in
  below_start (streamer_of st') ∧ sender_of st' = sender_of st.
Proof.
  intros Hi Hu Hb Hev. destruct ev as [idx|bd cur|txs h|]; simpl.
  - destruct (handle_finalization_rest reader (streamer_of st) idx) as (Hc & _ & _ & Hl).
    split; [|done]. unfold below_start in *. rewrite Hc, Hl. simpl in Hev. lia.
  - done.
  - unfold handle_hotshot_transactions, try_broadcast_feed_message.
    set (es := parse_hotshot_transactions _ _ _).
    destruct (filter_messages_spec (streamer_of st) es Hi) as (Hi' & _ & Hc).
    { apply Forall_forall. intros e He. by eapply parse_u64. }
    destruct (filter_messages_rest (streamer_of st) es) as (_ & Hl & _).
    assert (Hb' : below_start (filter_messages (streamer_of st) es)) by (unfold below_start; by rewrite Hl, Hc).
    rewrite find_contiguous_below; [done|done|by rewrite Hc|done].
  - unfold try_broadcast_feed_message. by rewrite find_contiguous_below.
Qed.

(** The feed waits for L1: from the start and as long as no finalized index
    reaches the message before [starting_pos], nothing is ever sent to the feed,
    whatever the chain holds, however full the queue is and however long it
    takes; and the position stays below the start. *)
Theorem feed_waits_for_finality cfg rcfg idx c0 evs :
  is_u64 idx → is_u64 (starting_pos cfg) → 1 < starting_pos cfg →
  Forall (not_final_yet (starting_pos cfg)) evs.*2 →
  let st := run_events (run_init cfg rcfg idx c0) evs in
  sender_of st = c0 ∧ last_broadcast_position (streamer_of st) + 1 < starting_pos cfg.
Proof.
  intros Hidx Hu H1 Hevs.
  assert (Hgen : ∀ st, streamer_inv (streamer_of st) → config (streamer_of st) = cfg → below_start (streamer_of st) →
    let st' := run_events st evs in sender_of st' = sender_of st ∧ config (streamer_of st') = cfg ∧ below_start (streamer_of st')).
  { induction evs as [|[reader ev] evs IH]; intros st Hi Hc Hb; [done|]. simpl in *.
    apply Forall_cons in Hevs as [Hev Hevs].
    destruct (handle_event_simulates reader st ev Hi) as (Hi' & Hc' & _).
    destruct (silent_step reader st ev Hi) as [Hb' Hs]; [by rewrite Hc|done|by rewrite Hc|].
    rewrite <- Hs. apply IH; [done|done|congruence|done]. }
  destruct (Hgen (run_init cfg rcfg idx c0)) as (Hs & Hc & [_ Hlt]); [|done|by split|].
  { by apply (li_streamer cfg rcfg c0), run_init_inv. }
  split; [exact Hs|]. by rewrite Hc in Hlt.
Qed.
End feed_start.

(** ** A concrete start at position 5: three queued messages stay unsent until 4 is
    finalized, and are sent with the next range. *)

Definition start_cfg : StreamerConfig := {|
  initial_backoff_ms := 1000; max_backoff_ms := 30000; retry_broadcast_delay_ms := 300;
  starting_pos := 5; starting_hotshot_height := 0; max_full_queue_entries := 100;
  hotshot_stall_warn_ms := 30000; progress_log_interval_ms := 15000 |}.

Definition waiting_events : list (EspressoReader * event MockRollup) :=
  [(failing_reader, EvTransactions (R:=MockRollup) [mock_block [5; 6; 7]] 0);
   (failing_reader, EvFinalized (R:=MockRollup) 2); (failing_reader, EvFinalized (R:=MockRollup) 3);
   (failing_reader, EvTransactions (R:=MockRollup) [[]] 1)].

Definition start_run (evs : list (EspressoReader * event MockRollup)) : loop_state MockRollup (bounded_chan MockEntry) :=
  run_events (R:=MockRollup) (SD:=bounded_sender) (run_init (R:=MockRollup) start_cfg mock_rollup_config 0 empty_chan) evs.

Lemma feed_waits_for_finality_witness :
  length (queue (streamer_of (start_run waiting_events))) = 3%nat ∧
  sender_of (start_run waiting_events) = empty_chan ∧
  seq_num <$> delivered (Sender:=bounded_sender) (sender_of (start_run (waiting_events ++
    [(failing_reader, EvFinalized (R:=MockRollup) 4); (failing_reader, EvTransactions (R:=MockRollup) [[]] 2)]))) = [5; 6; 7].
Proof.
  split; [by vm_compute|]. split; [|by vm_compute].
  apply (feed_waits_for_finality (R:=MockRollup) (SD:=bounded_sender) start_cfg mock_rollup_config 0 empty_chan waiting_events).
  - split; by vm_compute.
  - split; by vm_compute.
  - by vm_compute.
  - repeat (apply Forall_cons; split; [by vm_compute|]). by apply Forall_nil.
Defined.
