(* ===== verification/Poller.v ===== *)
(** * The HotShot poller

    [poll_hotshot_blocks] of [src/src/streamer/streamer.rs] and
    [exponential_backoff] of [src/src/utils.rs].  An iteration of the loop is a
    function of the node's answers, the clock and whether the streamer still
    listens; a run is a list of iterations. *)

From S2P Require Import Prelude Bytes Slice Config Rollup MockRollup Streamer StreamerProofs StreamerRun StreamerTheorems.

(** ** Durations, in nanoseconds *)

Definition DURATION_MAX : Z := (u64_modulus - 1) * 1000000000 + 999999999.

Definition from_millis (ms : Z) : Z := ms * 1000000.

Definition saturating_mul (d k : Z) : Z := Z.min (d * k) DURATION_MAX.

(** The next backoff; the time slept is [current]. *)
Definition exponential_backoff (current max : Z) : Z := Z.min (saturating_mul current 2) max.

(** ** The loop *)

Record poller := {
  from_block : Z;
  backoff : Z;
  not_found_since : option Z;
  not_found_warned : bool;
  last_progress_log : option Z;
}.

Definition poller_init (config : StreamerConfig) (next_hotshot_block_num : Z) : poller := {|
  from_block := next_hotshot_block_num;
  backoff := from_millis (initial_backoff_ms config);
  not_found_since := None;
  not_found_warned := false;
  last_progress_log := None;
|}.

(** How an iteration ends: it sleeps and starts over, it hands a range to the
    streamer, or the channel is closed and the poller returns an error. *)
Inductive poll_outcome :=
| Slept (d : Z)
| Sent (txns : list (list Transaction)) (height : Z)
| ChannelClosed.

Definition set_backoff (p : poller) (b : Z) : poller :=
  {| from_block := from_block p; backoff := b; not_found_since := not_found_since p;
     not_found_warned := not_found_warned p; last_progress_log := last_progress_log p |}.

(** What an iteration meets: the node, the clock, and the channel. *)
Record poll_input := {
  poll_reader : EspressoReader;
  poll_now : Z;
  channel_open : bool;
}.

Definition poll_once (config : StreamerConfig) (namespace : Z) (i : poll_input) (p : poller)
    : poller * poll_outcome :=
  let max_backoff := from_millis (max_backoff_ms config) in
  match block_height (poll_reader i) with
  | Err _ => (set_backoff p (exponential_backoff (backoff p) max_backoff), Slept (backoff p))
  | Ok latest_block_height =>
      if latest_block_height <=? from_block p then (p, Slept (from_millis (initial_backoff_ms config)))
      else
        let to_block := Z.min (saturating_add (from_block p) HOTSHOT_RANGE_LIMIT) latest_block_height in
        match namespace_transactions_in_range (poll_reader i) namespace (from_block p) to_block with
        | Err (LcVerification true _) =>
            let first := default (poll_now i) (not_found_since p) in
            let stuck_for := poll_now i - first in
            ({| from_block := from_block p; backoff := backoff p; not_found_since := Some first;
                not_found_warned := not_found_warned p ||
                                    (from_millis (hotshot_stall_warn_ms config) <=? stuck_for);
                last_progress_log := last_progress_log p |},
             Slept (from_millis (initial_backoff_ms config)))
        | Err _ => (set_backoff p (exponential_backoff (backoff p) max_backoff), Slept (backoff p))
        | Ok txns =>
            let should_log_progress :=
              match last_progress_log p with
              | Some t => from_millis (progress_log_interval_ms config) <=? poll_now i - t
              | None => true
              end in
            let p' :=
              {| from_block := from_block p; backoff := from_millis (initial_backoff_ms config);
                 not_found_since := None; not_found_warned := false;
                 last_progress_log := if should_log_progress then Some (poll_now i)
                                      else last_progress_log p |} in
            if channel_open i then
              ({| from_block := to_block; backoff := backoff p'; not_found_since := None;
                  not_found_warned := false; last_progress_log := last_progress_log p' |},
               Sent txns (from_block p))
            else (p', ChannelClosed)
        end
  end.

(** A run: the ranges sent, until the inputs end or the channel is closed. *)
Fixpoint poll_hotshot_blocks (config : StreamerConfig) (namespace : Z) (inputs : list poll_input)
    (p : poller) : poller * list (list (list Transaction) * Z) :=
  match inputs with
  | [] => (p, [])
  | i :: inputs' =>
      match poll_once config namespace i p with
      | (p', Slept _) => poll_hotshot_blocks config namespace inputs' p'
      | (p', Sent txns h) =>
          let '(p'', sent) := poll_hotshot_blocks config namespace inputs' p' in
          (p'', (txns, h) :: sent)
      | (p', ChannelClosed) => (p', [])
      end
  end.

(** ** Lemmas *)

(** A node whose reported height is a [u64] with room for a successor. *)
Definition sane_height (reader : EspressoReader) : Prop :=
  ∀ h, block_height reader = Ok h → 0 ≤ h < u64_modulus.

(** Whenever the node answers for a range of the namespace, it answers with the
    blocks of the chain, one vector per height. *)
Definition answers (reader : EspressoReader) (ns : Z) (chain : Z → list Transaction) : Prop :=
  ∀ a b txns, 0 ≤ a < b → namespace_transactions_in_range reader ns a b = Ok txns →
    txns = chain_blocks chain a b.

Section lemmas.
Context (config : StreamerConfig) (ns : Z).
Implicit Types (p : poller) (i : poll_input).

(** One iteration: nothing is sent and the cursor stays, or the range sent is
    the answer for the next one to a hundred blocks and the cursor moves to its
    end, never past the reported height. *)
Lemma poll_once_spec i p p' o :
  is_u64 (from_block p) → sane_height (poll_reader i) →
  poll_once config ns i p = (p', o) →
  match o with
  | Sent txns h =>
      h = from_block p ∧ from_block p < from_block p' ≤ from_block p + HOTSHOT_RANGE_LIMIT ∧
      is_u64 (from_block p') ∧
      (∃ l, block_height (poll_reader i) = Ok l ∧ from_block p' ≤ l) ∧
      namespace_transactions_in_range (poll_reader i) ns (from_block p) (from_block p') = Ok txns
  | _ => from_block p' = from_block p
  end.
Proof.
  intros Hp Hs. unfold poll_once.
  destruct (block_height (poll_reader i)) as [l|] eqn:El; [|by intros [= <- <-]].
  destruct (Z.leb_spec l (from_block p)); [by intros [= <- <-]|].
  specialize (Hs l El). unfold HOTSHOT_RANGE_LIMIT.
  set (t := Z.min _ l).
  assert (Ht : from_block p < t ≤ from_block p + 100 ∧ t ≤ l) by (unfold t, is_u64 in *; u64_arith).
  destruct (namespace_transactions_in_range _ _ _ _) as [txns|err] eqn:En.
  - destruct (channel_open i); intros [= <- <-]; [|done]. simpl. rewrite En. unfold is_u64 in *.
    split_and!; try done; try lia. exists l. split; [done|lia].
  - destruct err as [| | |[] ?]; by intros [= <- <-].
Qed.

Lemma backoff_step b m : 0 ≤ m → exponential_backoff b m ≤ m ∧ (0 ≤ b → 0 ≤ exponential_backoff b m).
Proof. unfold exponential_backoff, saturating_mul, DURATION_MAX, u64_modulus. lia. Qed.

Lemma poll_once_backoff i p :
  0 ≤ initial_backoff_ms config → 0 ≤ max_backoff_ms config →
  let bound := from_millis (Z.max (initial_backoff_ms config) (max_backoff_ms config)) in
  0 ≤ backoff p ≤ bound →
  0 ≤ backoff (poll_once config ns i p).1 ≤ bound.
Proof.
  intros Hi Hm bound Hb. subst bound. unfold poll_once.
  pose proof (backoff_step (backoff p) (from_millis (max_backoff_ms config))) as Hstep.
  unfold from_millis in *.
  repeat (case_match; simpl; try lia).
Qed.
End lemmas.

(** Consecutive blocks of a chain. *)
Lemma chain_blocks_app chain a b c :
  a ≤ b ≤ c → chain_blocks chain a c = chain_blocks chain a b ++ chain_blocks chain b c.
Proof.
  intros H. unfold chain_blocks.
  replace (Z.to_nat (c - a)) with (Z.to_nat (b - a) + Z.to_nat (c - b))%nat by lia.
  rewrite seq_app, fmap_app. f_equal. apply list_eq. intros k.
  rewrite !list_lookup_fmap. simpl.
  destruct (decide (k < Z.to_nat (c - b))%nat).
  - rewrite !lookup_seq_lt by done. simpl. do 2 f_equal. lia.
  - by rewrite !lookup_seq_ge by lia.
Qed.

Lemma chain_blocks_length chain a b : a ≤ b → zlen (chain_blocks chain a b) = b - a.
Proof. intros. unfold zlen, chain_blocks. rewrite length_fmap, length_seq. lia. Qed.

Section run_lemmas.
Context (config : StreamerConfig) (ns : Z).

(** The ranges sent tile the blocks from where the poller started to where it
    got, when the nodes answer from one chain. *)
Lemma poll_tiles chain inputs p :
  is_u64 (from_block p) →
  Forall (λ i, sane_height (poll_reader i) ∧ answers (poll_reader i) ns chain) inputs →
  let '(p', sent) := poll_hotshot_blocks config ns inputs p in
  from_block p ≤ from_block p' ∧ is_u64 (from_block p') ∧
  concat sent.*1 = chain_blocks chain (from_block p) (from_block p') ∧
  ∀ k txns h, sent !! k = Some (txns, h) →
    h = from_block p + zlen (concat (take k sent).*1) ∧
    txns = chain_blocks chain h (h + zlen txns) ∧ 1 ≤ zlen txns ≤ HOTSHOT_RANGE_LIMIT.
Proof.
  revert p. induction inputs as [|i inputs IH]; intros p Hp Hin; simpl.
  { split_and!; try done. unfold chain_blocks. by rewrite Z.sub_diag. }
  apply Forall_cons in Hin as [[Hs Hsv] Hin].
  destruct (poll_once config ns i p) as [p1 o] eqn:E.
  pose proof (poll_once_spec config ns i p p1 o Hp Hs E) as Ho.
  destruct o as [d|txns h|].
  - specialize (IH p1). rewrite Ho in IH. by apply IH.
  - destruct Ho as (-> & Hb & Hp1 & _ & Hn).
    apply Hsv in Hn as ->; [|unfold is_u64 in *; lia].
    specialize (IH p1 Hp1 Hin). destruct (poll_hotshot_blocks _ _ inputs p1) as [p' sent].
    destruct IH as (Hle & Hu & Hc & Hk). csimpl. split_and!; [lia|done| |].
    + rewrite Hc, <- chain_blocks_app by lia. done.
    + intros [|k] txns h Hl; simplify_eq/=.
      * unfold zlen at 1. simpl. rewrite Z.add_0_r, chain_blocks_length by lia.
        split_and!; [done| |lia|lia]. f_equal. lia.
      * destruct (Hk k txns h Hl) as (-> & Ht & Hz). split_and!; try done; try lia.
        unfold zlen. rewrite length_app, Nat2Z.inj_add. fold (zlen (chain_blocks chain (from_block p) (from_block p1))).
        rewrite chain_blocks_length by lia. unfold zlen. lia.
  - rewrite Ho. split_and!; try done. unfold chain_blocks. by rewrite Z.sub_diag.
Qed.
End run_lemmas.

(** ** Properties of the poller *)

(** The poller hands the streamer every block from its start to its cursor,
    once and in order, in ranges of one to [HOTSHOT_RANGE_LIMIT] blocks tagged
    with their first height, however often the nodes fail, lag or answer 404 in
    between. *)
Theorem poller_covers_chain config ns chain start inputs :
  is_u64 start →
  Forall (λ i, sane_height (poll_reader i) ∧
               answers (poll_reader i) ns chain) inputs →
  let '(p, sent) := poll_hotshot_blocks config ns inputs (poller_init config start) in
  start ≤ from_block p ∧
  concat sent.*1 = chain_blocks chain start (from_block p) ∧
  ∀ k txns h, sent !! k = Some (txns, h) →
    h = start + zlen (concat (take k sent).*1) ∧
    txns = chain_blocks chain h (h + zlen txns) ∧ 1 ≤ zlen txns ≤ HOTSHOT_RANGE_LIMIT.
Proof.
  intros Hs Hin. pose proof (poll_tiles config ns chain inputs (poller_init config start) Hs) as H.
  simpl in H. destruct (poll_hotshot_blocks _ _ _ _) as [p sent].
  by destruct H as (? & _ & ? & ?).
Qed.

(** A node that serves the chain up to [l] in ranges of at most
    [HOTSHOT_RANGE_LIMIT] blocks. *)
Definition serves_ranges (reader : EspressoReader) (ns l : Z) (chain : Z → list Transaction) : Prop :=
  ∀ a b, 0 ≤ a < b → b ≤ l → b - a ≤ HOTSHOT_RANGE_LIMIT →
    namespace_transactions_in_range reader ns a b = Ok (chain_blocks chain a b).

(** A healthy iteration: the node is up at height [l] and the streamer listens. *)
Definition healthy (ns l : Z) (chain : Z → list Transaction) (i : poll_input) : Prop :=
  block_height (poll_reader i) = Ok l ∧ serves_ranges (poll_reader i) ns l chain ∧ channel_open i = true.

Lemma poll_once_healthy config ns l chain i p :
  is_u64 (from_block p) → is_u64 l → healthy ns l chain i → from_block p ≤ l →
  from_block (poll_once config ns i p).1 = Z.min (from_block p + HOTSHOT_RANGE_LIMIT) l ∧
  (poll_once config ns i p).2 ≠ ChannelClosed.
Proof.
  intros Hp Hl (Eh & Hs & Eo) Hle. unfold poll_once. rewrite Eh, Eo.
  unfold serves_ranges, HOTSHOT_RANGE_LIMIT in *.
  destruct (Z.leb_spec l (from_block p)); simpl; [split; [lia|done]|].
  rewrite Hs by (unfold is_u64 in *; u64_arith). simpl.
  split; [unfold is_u64 in *; u64_arith|done].
Qed.

Lemma poll_run_catches_up config ns l chain inputs p :
  is_u64 (from_block p) → is_u64 l → from_block p ≤ l →
  Forall (healthy ns l chain) inputs →
  l - from_block p ≤ HOTSHOT_RANGE_LIMIT * zlen inputs →
  from_block (poll_hotshot_blocks config ns inputs p).1 = l.
Proof.
  intros Hp Hl Hle Hin. revert p Hp Hle. induction Hin as [|i inputs Hi Hin IH]; intros p Hp Hle Hn; simpl.
  { unfold zlen in Hn. simpl in Hn. lia. }
  destruct (poll_once_healthy config ns l chain i p Hp Hl Hi Hle) as [Hf Ho].
  destruct (poll_once config ns i p) as [p1 o]; simpl in *.
  assert (H1 : from_block (poll_hotshot_blocks config ns inputs p1).1 = l).
  { apply IH; rewrite Hf; unfold is_u64, zlen, HOTSHOT_RANGE_LIMIT in *; simpl in *; lia. }
  destruct o; try done.
  by destruct (poll_hotshot_blocks config ns inputs p1).
Qed.

(** A healthy node answers every range the poller asks for from the chain. *)
Lemma healthy_tiles config ns l chain inputs p :
  is_u64 (from_block p) → is_u64 l → from_block p ≤ l →
  Forall (healthy ns l chain) inputs →
  let '(p', sent) := poll_hotshot_blocks config ns inputs p in
  from_block p ≤ from_block p' ≤ l ∧ concat sent.*1 = chain_blocks chain (from_block p) (from_block p').
Proof.
  intros Hp Hl Hle Hin. revert p Hp Hle. induction Hin as [|i inputs Hi Hin IH]; intros p Hp Hle; simpl.
  { split; [lia|]. unfold chain_blocks. by rewrite Z.sub_diag. }
  destruct (poll_once_healthy config ns l chain i p Hp Hl Hi Hle) as [Hf Ho]. destruct Hi as (Eh & Hserve & _).
  destruct (poll_once config ns i p) as [p1 o] eqn:E; simpl in *.
  assert (Hs : sane_height (poll_reader i)) by (intros h Hh; rewrite Eh in Hh; by simplify_eq).
  pose proof (poll_once_spec config ns i p p1 o Hp Hs E) as Hspec.
  assert (IH1 := IH p1 ltac:(rewrite Hf; unfold is_u64, HOTSHOT_RANGE_LIMIT in *; lia)
                       ltac:(rewrite Hf; unfold HOTSHOT_RANGE_LIMIT in *; lia)).
  destruct o as [d|txns h|]; [by rewrite Hspec in IH1| |done].
  destruct Hspec as (_ & Hb & _ & _ & Hn).
  rewrite Hserve in Hn by (unfold is_u64, HOTSHOT_RANGE_LIMIT in *; lia). apply Ok_inj in Hn as <-.
  destruct (poll_hotshot_blocks config ns inputs p1) as [p' sent]. destruct IH1 as [Hle1 Hc].
  csimpl. split; [lia|]. by rewrite Hc, <- chain_blocks_app by lia.
Qed.

(** The poller catches up: against a node that is up at height [l], [n]
    iterations bring the cursor to [l] as soon as they suffice at
    [HOTSHOT_RANGE_LIMIT] blocks each. *)
Theorem poller_catches_up config ns l chain inputs p :
  is_u64 (from_block p) → is_u64 l → from_block p ≤ l →
  Forall (healthy ns l chain) inputs →
  l - from_block p ≤ HOTSHOT_RANGE_LIMIT * zlen inputs →
  from_block (poll_hotshot_blocks config ns inputs p).1 = l.
Proof. apply poll_run_catches_up. Qed.

(** The backoff of a run stays between zero and the larger of the initial and
    the maximal backoff, whatever the node does. *)
Theorem poller_backoff_bounded config ns inputs start :
  0 ≤ initial_backoff_ms config → 0 ≤ max_backoff_ms config →
  0 ≤ backoff (poll_hotshot_blocks config ns inputs (poller_init config start)).1 ≤
    from_millis (Z.max (initial_backoff_ms config) (max_backoff_ms config)).
Proof.
  intros Hi Hm.
  assert (H0 : 0 ≤ backoff (poller_init config start) ≤
            from_millis (Z.max (initial_backoff_ms config) (max_backoff_ms config))).
  { unfold from_millis. simpl. unfold from_millis. lia. }
  revert H0. generalize (poller_init config start). induction inputs as [|i inputs IH]; intros p H0; [done|].
  simpl. pose proof (poll_once_backoff config ns i p Hi Hm H0) as H1.
  destruct (poll_once config ns i p) as [p1 []]; simpl in *; [by apply IH| |done].
  specialize (IH p1 H1). by destruct (poll_hotshot_blocks config ns inputs p1).
Qed.

(** ** The poller feeding the streamer *)

Section pipeline.
Context {R : Rollup} {L : RollupLaws R}.
Context {C : Type} {SD : Sender C FeedMessage} {SL : SenderLaws SD}.

Lemma parse_app cfg b1 b2 h :
  is_u64 h → h + zlen b1 < u64_modulus →
  parse_hotshot_transactions cfg (b1 ++ b2) h =
    parse_hotshot_transactions cfg b1 h ++ parse_hotshot_transactions cfg b2 (h + zlen b1).
Proof.
  revert h. induction b1 as [|b b1 IH]; intros h Hh Hl; simpl.
  { rewrite parse_nil. unfold zlen. simpl. by rewrite Z.add_0_r. }
  rewrite parse_cons, (parse_cons cfg b b1), <- app_assoc. f_equal.
  unfold zlen in *. simpl in *.
  assert (u64_add h 1 = h + 1) as -> by (unfold is_u64 in *; u64_arith).
  rewrite IH by (unfold is_u64 in *; lia). do 2 f_equal. lia.
Qed.

(** The events the streamer receives for the ranges a poller sent. *)
Definition poller_events (node : EspressoReader) (sent : list (list (list Transaction) * Z))
    : list (EspressoReader * event R) :=
  (λ tx, (node, EvTransactions tx.1 tx.2)) <$> sent.

Lemma foldl_spec_events start cfg node sent a h :
  is_u64 h → h + zlen (concat sent.*1) < u64_modulus →
  (∀ k txns h', sent !! k = Some (txns, h') → h' = h + zlen (concat (take k sent).*1)) →
  (foldl (spec_event start cfg) a (poller_events node sent).*2).1 =
    foldl (spec_add start) a.1 (parse_hotshot_transactions cfg (concat sent.*1) h).
Proof.
  revert a h. induction sent as [|[txns h'] sent IH]; intros a h Hh Hl Hk; csimpl.
  { by rewrite parse_nil. }
  csimpl in Hl. unfold zlen in Hl. rewrite length_app in Hl.
  assert (h' = h) as -> by (rewrite (Hk 0%nat txns h' eq_refl); unfold zlen; simpl; lia).
  rewrite parse_app, foldl_app by (unfold zlen; done || lia).
  rewrite (IH _ (h + zlen txns)); [done| | |].
  - unfold is_u64, zlen in *. lia.
  - unfold zlen. lia.
  - intros k tx2 h2 Hl2. rewrite (Hk (S k) tx2 h2 Hl2). csimpl. unfold zlen. rewrite length_app. lia.
Qed.

(** Poller and streamer together: once the streamer has taken every range the
    poller sent, what it knows is the first-seen index of the chain from
    [starting_hotshot_height] to the poller's cursor. *)
Theorem pipeline_indexes_chain cfg rcfg c0 node chain inputs :
  is_u64 (starting_hotshot_height cfg) →
  Forall (λ i, sane_height (poll_reader i) ∧ answers (poll_reader i) (namespace_id rcfg) chain) inputs →
  let start := starting_hotshot_height cfg in
  let '(p, sent) := poll_hotshot_blocks cfg (namespace_id rcfg) inputs (poller_init cfg start) in
  view (streamer_of (run_events (run_init cfg rcfg 0 c0) (poller_events node sent))) =
    foldl (spec_add (starting_pos cfg)) ∅
      (parse_hotshot_transactions (stack rcfg) (chain_blocks chain start (from_block p)) start).
Proof.
  intros Hs Hin start.
  pose proof (poll_tiles cfg (namespace_id rcfg) chain inputs (poller_init cfg start) Hs Hin) as H.
  simpl in H. destruct (poll_hotshot_blocks _ _ _ _) as [p sent]. destruct H as (Hle & Hu & Hc & Hk).
  destruct (run_events_simulates (poller_events node sent) (run_init cfg rcfg 0 c0)) as [_ Hsim].
  { by apply (li_streamer cfg rcfg c0), run_init_inv. }
  apply (f_equal fst) in Hsim. simpl in Hsim. rewrite Hsim, (foldl_spec_events _ _ _ _ _ start).
  - simpl. rewrite Hc. done.
  - done.
  - rewrite Hc, chain_blocks_length by done. unfold is_u64 in *. lia.
  - intros k txns h Hl. by apply (Hk k txns h).
Qed.
End pipeline.

(** ** Concrete runs *)

Definition mock_input (reader : EspressoReader) : poll_input :=
  {| poll_reader := reader; poll_now := 0; channel_open := true |}.

Definition mock_inputs : list poll_input :=
  mock_input <$> [failing_reader; chain_reader mock_chain 3; chain_reader mock_chain 3; chain_reader mock_chain 5].

Lemma chain_reader_answers ns chain l :
  is_u64 l → sane_height (chain_reader chain l) ∧ answers (chain_reader chain l) ns chain.
Proof. intros Hl. split; [by intros h [= <-]|by intros a b txns _ [= <-]]. Qed.

Lemma mock_inputs_answer ns :
  Forall (λ i, sane_height (poll_reader i) ∧ answers (poll_reader i) ns mock_chain) mock_inputs.
Proof.
  apply Forall_cons. split; [split; by intros ?|].
  repeat (apply Forall_cons; split; [apply chain_reader_answers; split; by vm_compute|]).
  by apply Forall_nil.
Qed.

Lemma poller_covers_chain_witness :
  let out := poll_hotshot_blocks mock_config 1918988905 mock_inputs (poller_init mock_config 0) in
  from_block out.1 = 5 ∧ concat out.2.*1 = chain_blocks mock_chain 0 (from_block out.1).
Proof.
  pose proof (poller_covers_chain mock_config 1918988905 mock_chain 0 mock_inputs) as H.
  intros out. split; [by vm_compute|]. unfold out.
  destruct (poll_hotshot_blocks _ _ _ _) as [p sent]. simpl.
  destruct H as (_ & H & _); [split; by vm_compute|apply mock_inputs_answer|exact H].
Defined.

Lemma poller_catches_up_witness :
  from_block (poll_hotshot_blocks mock_config 1918988905
    (mock_input <$> [chain_reader mock_chain 250; chain_reader mock_chain 250; chain_reader mock_chain 250])
    (poller_init mock_config 7)).1 = 250.
Proof.
  apply (poller_catches_up _ _ 250 mock_chain).
  - split; by vm_compute.
  - split; by vm_compute.
  - by vm_compute.
  - repeat constructor; by intros a b _.
  - by vm_compute.
Defined.

Lemma poller_backoff_bounded_witness :
  0 ≤ backoff (poll_hotshot_blocks mock_config 1 (replicate 9 (mock_input failing_reader))
                 (poller_init mock_config 0)).1 ≤ 30000000000.
Proof. apply (poller_backoff_bounded mock_config); by vm_compute. Defined.

Lemma pipeline_indexes_chain_witness :
  let out := poll_hotshot_blocks mock_config 1918988905 mock_inputs (poller_init mock_config 0) in
  view (streamer_of (run_events (run_init mock_config mock_rollup_config 0 empty_chan)
                       (poller_events failing_reader out.2))) =
    foldl (spec_add (R:=MockRollup) 1) ∅
      (mock_parse_hotshot_transactions (chain_blocks mock_chain 0 (from_block out.1)) 0).
Proof.
  pose proof (pipeline_indexes_chain (R:=MockRollup) mock_config mock_rollup_config empty_chan
                failing_reader mock_chain mock_inputs) as H.
  intros out. unfold out. cbv zeta in H. destruct (poll_hotshot_blocks _ _ _ _) as [p sent].
  apply H; [split; by vm_compute|apply mock_inputs_answer].
Defined.
