(* ===== verification/StreamerChain.v ===== *)
(** * The queue and the chain

    Where the entries of the queue come from: [filter_messages] adds what was
    parsed, [promote_stubs] what was fetched.  Over nodes that answer from one chain,
    every queued entry is a message of that chain, and above the finalized index
    the streamer's knowledge is the first-seen index of the blocks it was given,
    whatever finalizations and promotions came in between. *)

From S2P Require Import Prelude Bytes Slice Config Rollup MockRollup Streamer StreamerProofs StreamerRun StreamerTheorems Poller.

Section sources.
Context {R : Rollup} {L : RollupLaws R}.
Implicit Types (s : Streamer R) (e x : Entry) (es : list Entry) (m fetched : gmap Z Entry).

Lemma elem_of_take_sub {A} (l : list A) n y : y ∈ take n l → y ∈ l.
Proof. intros H. rewrite <- (take_drop n l). apply elem_of_app. by left. Qed.

Lemma elem_of_drop_sub {A} (l : list A) n y : y ∈ drop n l → y ∈ l.
Proof. intros H. rewrite <- (take_drop n l). apply elem_of_app. by right. Qed.

Lemma insert_parsed_source s x e : e ∈ queue (insert_parsed s x) → e = x ∨ e ∈ queue s.
Proof.
  unfold insert_parsed. destruct (_ <? _); [by right|]. destruct (_ || _); [by right|].
  destruct (_ <? _)%nat; [destruct (last _)|]; simpl.
  - intros H%elem_of_take_sub. by apply elem_of_vec_insert in H.
  - apply elem_of_vec_insert.
  - apply elem_of_vec_insert.
Qed.

Lemma filter_messages_source s es e : e ∈ queue (filter_messages s es) → e ∈ es ∨ e ∈ queue s.
Proof.
  unfold filter_messages. revert s. induction es as [|x es IH]; intros s; simpl; [by right|].
  intros [He|[->|He]%insert_parsed_source]%IH; [left|left|by right]; apply elem_of_cons; auto.
Qed.

Lemma collect_source expected m es k e :
  collect_expected expected m es !! k = Some e → e ∈ es ∨ m !! k = Some e.
Proof.
  unfold collect_expected. revert m. induction es as [|x es IH]; intros m; simpl; [by right|].
  intros [He|He]%IH; [left; apply elem_of_cons; by right|].
  destruct (bool_decide _); [|by right].
  apply lookup_insert_Some in He as [[_ <-]|[_ He] ]; [left; apply elem_of_cons; by left|by right].
Qed.

Lemma fetch_all_source reader s expected ranges m m' k e :
  fetch_all reader s expected ranges m = Some m' → m' !! k = Some e →
  m !! k = Some e ∨
  ∃ a b txns, (a, b) ∈ ranges ∧
    namespace_transactions_in_range reader (namespace_id (rollup_config s)) a b = Ok txns ∧
    e ∈ parse_hotshot_transactions (stack (rollup_config s)) txns a.
Proof.
  revert m. induction ranges as [|[a b] ranges IH]; intros m Hf Hk; simpl in Hf; [simplify_eq; by left|].
  destruct (namespace_transactions_in_range _ _ a b) as [txns|] eqn:Er; [|done].
  destruct (IH _ Hf Hk) as [Hc|(a' & b' & txns' & Hin & Hrest)].
  - apply collect_source in Hc as [He|Hm]; [right|by left]. exists a, b, txns. split_and!; try done. by left.
  - right. exists a', b', txns'. split; [by right|done].
Qed.

Lemma promote_loop_source todo s fetched e :
  e ∈ queue (promote_loop s todo fetched) →
  e ∈ queue s ∨ ∃ k, fetched !! k = Some e ∧ (k, hotshot_height e) ∈ todo.
Proof.
  revert s fetched. induction todo as [|[k h] todo IH]; intros s fetched; simpl; [by left|].
  destruct (fetched !! k) as [x|] eqn:Ek.
  - destruct (Z.eqb_spec (hotshot_height x) h) as [<-|]; [|by left]. intros [He|(k' & Hk' & Hin)]%IH.
    + simpl in He. apply elem_of_vec_insert in He as [->|He]; [right|by left].
      exists k. split; [done|]. by left.
    + apply lookup_delete_Some in Hk' as [_ Hk']. right. exists k'. split; [done|]. by right.
  - intros [He|(k' & Hk' & Hin)]%IH; [by left|]. right. exists k'. split; [done|]. by right.
Qed.

Lemma promote_stubs_source reader s e :
  e ∈ queue (promote_stubs reader s) → e ∈ queue s ∨
  (∃ k, stubs s !! k = Some (hotshot_height e)) ∧
  ∃ a b txns heights, heights = btree_set (stubs_to_promote s).*2 ∧ (a, b) ∈ fetch_ranges (length heights) heights ∧
    namespace_transactions_in_range reader (namespace_id (rollup_config s)) a b = Ok txns ∧
    e ∈ parse_hotshot_transactions (stack (rollup_config s)) txns a.
Proof.
  unfold promote_stubs. destruct (_ || _); [by left|].
  destruct (fetch_all _ _ _ _ _) as [fetched|] eqn:Ef; [|by left].
  intros [He|(k & Hk & Hin)]%promote_loop_source; [by left|]. right.
  split; [exists k; by apply stubs_to_promote_elem|].
  destruct (fetch_all_source _ _ _ _ _ _ _ _ Ef Hk) as [H|(a & b & txns & Hab & Hr & He)]; [by rewrite lookup_empty in H|].
  by eexists a, b, txns, _.
Qed.
End sources.

(** ** Over one chain *)

Section chain.
Context {R : Rollup} {L : RollupLaws R}.
Context (chain : Z → list Transaction) (cfg : StreamerConfig) (rcfg : RollupConfig StackConfig).
Implicit Types (s : Streamer R) (e : Entry) (m : gmap Z Z).

(** The first-seen index of the blocks [a, b). *)
Definition chain_index (a b : Z) : gmap Z Z :=
  foldl (spec_add (starting_pos cfg)) ∅ (parse_hotshot_transactions (stack rcfg) (chain_blocks chain a b) a).

(** [e] is a message of a block of [a, b). *)
Definition in_blocks (a b : Z) e : Prop := a ≤ hotshot_height e < b ∧ on_chain chain (stack rcfg) e.

Record chain_inv (a b : Z) s : Prop := {
  ci_streamer : streamer_inv s;
  ci_config : config s = cfg;
  ci_rollup : rollup_config s = rcfg;
  ci_start : is_u64 a;
  ci_taken : is_u64 b;
  ci_le : a ≤ b;
  ci_queue e : e ∈ queue s → in_blocks a b e;
  ci_view k h : view s !! k = Some h → a ≤ h < b;
  ci_index k : finalized_idx s < k → view s !! k = chain_index a b !! k;
}.

Lemma chain_index_nil a : chain_index a a = ∅.
Proof. unfold chain_index, chain_blocks. rewrite Z.sub_diag. simpl. by rewrite parse_nil. Qed.

Lemma chain_index_app a b c :
  is_u64 a → is_u64 c → a ≤ b ≤ c →
  chain_index a c =
    foldl (spec_add (starting_pos cfg)) (chain_index a b)
      (parse_hotshot_transactions (stack rcfg) (chain_blocks chain b c) b).
Proof.
  intros Ha Hc Hle. unfold chain_index. rewrite (chain_blocks_app chain a b c) by lia.
  rewrite parse_app, foldl_app, chain_blocks_length by (done || rewrite ?chain_blocks_length; unfold is_u64 in *; lia).
  do 2 f_equal. lia.
Qed.

(** A streamer that has taken nothing. *)
Lemma chain_inv_start a idx : is_u64 a → is_u64 idx → chain_inv a a (set_finalized (new cfg rcfg) idx).
Proof.
  intros Ha Hi. assert (Hv : view (set_finalized (new cfg rcfg) idx) = ∅) by apply map_empty_union.
  split; try done; rewrite ?Hv.
  - split; [constructor|simpl; lia|set_solver|]. intros k [h Hk]. by rewrite Hv, lookup_empty in Hk.
  - intros e He. by apply elem_of_nil in He.
  - intros k _. by rewrite chain_index_nil.
Qed.

(** Maps that agree above [f] still do after the same entries. *)
Lemma spec_add_agree start es f m1 m2 :
  (∀ k, f < k → m1 !! k = m2 !! k) →
  ∀ k, f < k → foldl (spec_add (R:=R) start) m1 es !! k = foldl (spec_add start) m2 es !! k.
Proof.
  revert m1 m2. induction es as [|e es IH]; intros m1 m2 Hm; [done|]. simpl. apply IH. intros k Hk.
  destruct (decide (sequence_number e = k)) as [<-|Hne].
  - unfold spec_add. rewrite (Hm _ Hk). destruct (_ || _); [by apply Hm|]. by rewrite !lookup_insert_eq.
  - unfold spec_add. destruct (_ || _), (_ || _); rewrite ?lookup_insert_ne by done; by apply Hm.
Qed.

Lemma spec_add_heights_in start es (P : Z → Prop) m :
  (∀ k h, m !! k = Some h → P h) → (∀ e, e ∈ es → P (hotshot_height e)) →
  ∀ k h, foldl (spec_add (R:=R) start) m es !! k = Some h → P h.
Proof.
  revert m. induction es as [|e es IH]; intros m Hm Hes; [done|]. simpl. apply IH.
  - intros k h. unfold spec_add. destruct (_ || _); [apply Hm|].
    intros [[_ <-]|[_ ?] ]%lookup_insert_Some; [apply Hes; by left|by eapply Hm].
  - intros e' He'. apply Hes. by right.
Qed.

Lemma in_blocks_mono a b c e : in_blocks a b e → b ≤ c → in_blocks a c e.
Proof. intros [H ?] ?. split; [lia|done]. Qed.

(** The next range of the chain. *)
Lemma chain_inv_range a b c s :
  chain_inv a b s → b < c → is_u64 c →
  chain_inv a c (filter_messages s (parse_hotshot_transactions (stack rcfg) (chain_blocks chain b c) b)).
Proof.
  intros [Hi Hc Hr Ha Hb Hle Hq Hv Hx] Hbc Huc. set (es := parse_hotshot_transactions _ _ _).
  assert (Hes : ∀ e, e ∈ es → in_blocks b c e).
  { intros e He. by apply elem_of_chain_range in He. }
  destruct (filter_messages_spec s es Hi) as (Hi' & Hv' & Hc').
  { apply Forall_forall. intros e He. by eapply parse_u64. }
  destruct (filter_messages_rest s es) as (Hf & _ & Hr').
  split; [done|by rewrite Hc'|by rewrite Hr'|done|done|lia| | |].
  - intros e [He|He]%filter_messages_source; [|apply in_blocks_mono with b; [by apply Hq|lia] ].
    destruct (Hes e He) as [? ?]. split; [lia|done].
  - rewrite Hv'. apply spec_add_heights_in.
    + intros k h Hk. specialize (Hv k h Hk). lia.
    + intros e He. destruct (Hes e He) as [? _]. lia.
  - intros k Hk. rewrite Hf in Hk. rewrite Hv', Hc, (chain_index_app a b c) by (done || lia).
    by apply spec_add_agree with (finalized_idx s).
Qed.

(** What depends on the queue and the stubs only. *)
Lemma chain_inv_same a b s s' :
  chain_inv a b s → streamer_inv s' → queue s' = queue s → stubs s' = stubs s → config s' = config s →
  rollup_config s' = rollup_config s → finalized_idx s' = finalized_idx s → chain_inv a b s'.
Proof.
  intros [Hi Hc Hr Ha Hb Hle Hq Hv Hx] Hi' Eq Es Ec Er Ef.
  split; unfold view in *; rewrite ?Eq, ?Es, ?Ec, ?Er, ?Ef; done.
Qed.

(** Stubs are fetched from blocks that were taken. *)
Lemma promotion_heights a b s h :
  chain_inv a b s → h ∈ btree_set (stubs_to_promote s).*2 → 0 ≤ h < u64_modulus - 1.
Proof.
  intros Hci. rewrite elem_of_btree_set. intros ([k h'] & -> & Hk%stubs_to_promote_elem)%list_elem_of_fmap. simpl.
  assert (Hh : a ≤ h' < b).
  { apply (ci_view _ _ _ Hci k). unfold view. rewrite lookup_union_Some_raw. right. split; [|done].
    apply queue_index_None. intros e He Heq. pose proof (inv_disjoint _ (ci_streamer _ _ _ Hci) e He). congruence. }
  pose proof (ci_start _ _ _ Hci). pose proof (ci_taken _ _ _ Hci). unfold is_u64 in *. lia.
Qed.

Lemma promotion_on_chain reader a b s e :
  chain_inv a b s → answers reader (namespace_id rcfg) chain →
  e ∈ queue (promote_stubs reader s) → in_blocks a b e.
Proof.
  intros Hci Hans [He|[ [k Hk] (x & y & txns & heights & -> & Hxy & Hr & He)] ]%promote_stubs_source.
  { by apply (ci_queue _ _ _ Hci). }
  rewrite (ci_rollup _ _ _ Hci) in Hr, He.
  destruct (fetch_ranges_spec (length (btree_set (stubs_to_promote s).*2)) (btree_set (stubs_to_promote s).*2)) as [Hranges _];
    [done|apply btree_set_sorted|intros h; by apply (promotion_heights a b)|].
  destruct (Hranges x y Hxy) as (Hlt & Hx & Hy & _).
  apply Hans in Hr as ->; [|unfold is_u64 in *; lia].
  apply elem_of_chain_range in He as [_ Hon]; [|done|lia|done]. split; [|done].
  apply (ci_view _ _ _ Hci k). unfold view. rewrite lookup_union_Some_raw. right. split; [|done].
  apply queue_index_None. intros e' He' Heq. pose proof (inv_disjoint _ (ci_streamer _ _ _ Hci) e' He'). congruence.
Qed.

Lemma chain_inv_pruned a b s idx : chain_inv a b s → finalized_idx s < idx → chain_inv a b (pruned s idx).
Proof.
  intros [Hi Hc Hr Ha Hb Hle Hq Hv Hx] Hlt.
  destruct (pruned_spec s idx Hi) as [Hi' Hv']. destruct (pruned_rest s idx) as (Ec & Er & Ef & _ & Eq).
  split; [done|by rewrite Ec|by rewrite Er|done|done|done| | |].
  - intros e. rewrite Eq. intros He%elem_of_drop_sub. by apply Hq.
  - intros k h. rewrite Hv', spec_finalize_lookup. case_decide; [apply Hv|done].
  - intros k. rewrite Ef, Hv', spec_finalize_lookup. intros Hk. rewrite decide_True by done. apply Hx. lia.
Qed.

Lemma chain_inv_finalization reader a b s idx :
  chain_inv a b s → answers reader (namespace_id rcfg) chain → chain_inv a b (handle_finalization reader s idx).
Proof.
  intros Hci Hans. rewrite handle_finalization_unfold. cbv zeta.
  set (s1 := set_last_broadcast s _).
  assert (H1 : chain_inv a b s1).
  { apply (chain_inv_same a b s); try done. by apply streamer_inv_last_broadcast, (ci_streamer _ _ _ Hci). }
  destruct (Z.leb_spec idx (finalized_idx s)) as [|Hlt]; [done|].
  assert (H2 : chain_inv a b (pruned s1 idx)) by (apply chain_inv_pruned; done).
  destruct (promote_stubs_spec reader _ (ci_streamer _ _ _ H2)) as [Hi Hv].
  destruct (promote_stubs_rest reader (pruned s1 idx)) as (Ec & Er & Ef & _).
  pose proof H2 as [_ Hc Hr Ha Hb Hle Hq Hvw Hx].
  split; rewrite ?Ec, ?Er, ?Ef, ?Hv; try done.
  intros e. apply promotion_on_chain; [|done]. exact H2.
Qed.
End chain.
