(* ===== verification/NitroTypes.v ===== *)
(** * The Nitro data model

    [src/src/rollups/nitro/types.rs] and
    [src/src/rollups/nitro/feed/message.rs]: the messages of the sequencer feed,
    the queue entries made of them, and what a batch is compared with. *)

From S2P Require Import Prelude Bytes Slice Config Rollup.

(** A 20-byte address, a 32-byte hash and a 256-bit unsigned integer. *)
Definition Address : Type := bytes.
Definition B256 : Type := bytes.
Abbreviation U256 := Z (only parsing).

#[export] Instance Address_eq_dec : EqDecision Address.
Proof. unfold Address. apply _. Defined.

#[export] Instance B256_eq_dec : EqDecision B256.
Proof. unfold B256. apply _. Defined.

Definition is_U256 (x : U256) : Prop := 0 ≤ x < 2 ^ 256.

Record BatchDataStats := {
  stats_length : Z;
  non_zeros : Z;
}.

Record L1IncomingMessageHeader := {
  kind : Z;
  poster : Address;
  block_number : Z;
  timestamp : Z;
  request_id : option B256;
  l1_base_fee : option U256;
}.

Record L1IncomingMessage := {
  header : option L1IncomingMessageHeader;
  l2msg : bytes;
  legacy_batch_gas_cost : option Z;
  batch_data_stats : option BatchDataStats;
}.

Record MessageWithMetadata := {
  message : option L1IncomingMessage;
  delayed_messages_read : Z;
}.

Inductive BatchMessage :=
| L2Msg (content : bytes)
| DelayedMsg.

Record BatchCursor := {
  last_batch_delayed_messages_read : Z;
  next_batch_start_pos : Z;
}.

Definition default_BatchCursor : BatchCursor :=
  {| last_batch_delayed_messages_read := 1; next_batch_start_pos := 1 |}.

Record BroadcastFeedMessage := {
  msg_sequence_number : Z;
  feed_msg : MessageWithMetadata;
  signature : bytes;
  block_metadata : bytes;
  cumulative_sum_msg_size : Z;
  block_hash : option B256;
}.

Record ConfirmedSequenceNumberMessage := {
  confirmed_sequence_number : Z;
}.

Record BroadcastMessage := {
  version : Z;
  messages : list (option BroadcastFeedMessage);
  confirmed_sequence_number_message : option ConfirmedSequenceNumberMessage;
}.

Record NitroRollupQueueEntry := {
  feed_message : BroadcastFeedMessage;
  entry_hotshot_height : Z;
}.

Inductive NitroHeader := V1.

Record LegacyParsedNitroEspressoTransaction := {
  legacy_signature : bytes;
  messages_hash : B256;
  indices : list Z;
  legacy_messages : list bytes;
}.

#[export] Instance BatchDataStats_eq_dec : EqDecision BatchDataStats.
Proof. solve_decision. Defined.

#[export] Instance L1IncomingMessageHeader_eq_dec : EqDecision L1IncomingMessageHeader.
Proof. solve_decision. Defined.

#[export] Instance L1IncomingMessage_eq_dec : EqDecision L1IncomingMessage.
Proof. solve_decision. Defined.

#[export] Instance MessageWithMetadata_eq_dec : EqDecision MessageWithMetadata.
Proof. solve_decision. Defined.

#[export] Instance BatchMessage_eq_dec : EqDecision BatchMessage.
Proof. solve_decision. Defined.

#[export] Instance BroadcastFeedMessage_eq_dec : EqDecision BroadcastFeedMessage.
Proof. solve_decision. Defined.

#[export] Instance NitroRollupQueueEntry_eq_dec : EqDecision NitroRollupQueueEntry.
Proof. solve_decision. Defined.

#[export] Instance NitroHeader_eq_dec : EqDecision NitroHeader.
Proof. solve_decision. Defined.

(** [impl RollupQueueEntry for NitroRollupQueueEntry] *)
#[export] Instance nitro_entry_ops : RollupQueueEntry NitroRollupQueueEntry := {|
  sequence_number e := msg_sequence_number (feed_message e);
  hotshot_height := entry_hotshot_height;
|}.
