(* ===== verification/GoBigInt.v ===== *)
(** * Go's big integers in JSON

    The module [go_bigint_u256] of [src/src/rollups/nitro/types.rs]: the base fee of
    a message header is written as a bare decimal number, and read from a number, a
    string or null. *)

From S2P Require Import Prelude Json NitroTypes.
From Stdlib Require Import Ascii DecimalString DecimalN.

(** [U256]'s [Display] and [FromStr]; the document a [RawValue] writes; and the text
    of the [serde_json::Number] that an integer literal is read as. *)
Class U256Text := {
  u256_to_string : Z → string;
  u256_parse : string → result Z string;
  raw_value_from_string : string → result Value string;
  number_to_string : Z → string;
  value_to_string : Value → string;
}.

Section bigint.
Context {T : U256Text}.
Open Scope cas_scope.

Definition bigint_serialize (val : option Z) : result Value string :=
  match val with
  | None => Ok JNull
  | Some v => raw_value_from_string (u256_to_string v)
  end.

Definition bigint_deserialize (v : Value) : result (option Z) string :=
  match v with
  | JNull => Ok None
  | JNumber z => let? fee := u256_parse (number_to_string z) in Ok (Some fee)
  | JFloat n => let? fee := u256_parse n in Ok (Some fee)
  | JString s => let? fee := u256_parse s in Ok (Some fee)
  | v => Err ("expected null, number, or string for U256, got " +:+ value_to_string v)
  end.

(** [serde_json] keeps an integer literal only up to [u64::MAX]; a larger one is
    read as a floating-point number, whose text is not a decimal integer. *)
Class U256TextLaws : Prop := {
  parse_print z : is_U256 z → u256_parse (u256_to_string z) = Ok z;
  parse_range s z : u256_parse s = Ok z → is_U256 z;
  raw_decimal z : is_U256 z → raw_value_from_string (u256_to_string z) = Ok (JNumber z);
  number_small z : is_u64 z → number_to_string z = u256_to_string z;
  number_large z : is_U256 z → u64_modulus ≤ z → ∃ e, u256_parse (number_to_string z) = Err e;
}.

Lemma u64_U256 z : is_u64 z → is_U256 z.
Proof. unfold is_u64, is_U256, u64_modulus. lia. Qed.

(** The base fee survives the wire exactly when it fits 64 bits: a larger one is
    written by [serialize] and refused by [deserialize]. *)
Lemma bigint_roundtrip {TL : U256TextLaws} val :
  (∀ z, val = Some z → is_U256 z) →
  ∃ v, bigint_serialize val = Ok v ∧
    (bigint_deserialize v = Ok val ↔ ∀ z, val = Some z → is_u64 z) ∧
    (is_ok (bigint_deserialize v) = true ↔ ∀ z, val = Some z → is_u64 z).
Proof.
  intros Hz. destruct val as [z|]; [|by exists JNull].
  specialize (Hz z eq_refl). exists (JNumber z). split; [by apply raw_decimal|].
  simpl. destruct (decide (is_u64 z)) as [Hs|Hl].
  - rewrite number_small, parse_print by done. split; (split; [|done]); by intros _ z' [= <-].
  - destruct (number_large z Hz) as [e ->]; [unfold is_u64, is_U256 in *; lia|].
    split; (split; [done|]); intros H; by destruct Hl, (H z eq_refl).
Qed.
End bigint.

(** ** Decimal text *)

Definition decimal_text (z : Z) : string := NilZero.string_of_uint (N.to_uint (Z.to_N z)).

Definition decimal_parse (s : string) : result Z string :=
  match NilZero.uint_of_string s with
  | Some d => let z := Z.of_N (N.of_uint d) in if z <? 2 ^ 256 then Ok z else Err "number too large"%string
  | None => Err "invalid digit"%string
  end.

Lemma decimal_parse_text z : is_U256 z → decimal_parse (decimal_text z) = Ok z.
Proof.
  intros [H0 H1]. unfold decimal_parse, decimal_text. rewrite NilZero.usu.
  - rewrite DecimalN.Unsigned.of_to, Z2N.id by done. destruct (Z.ltb_spec z (2 ^ 256)); [done|lia].
  - destruct (Z.to_N z); [done|]. simpl. intros E.
    pose proof (DecimalPos.Unsigned.of_to p) as Hp. unfold N.to_uint, Pos.to_uint in *. rewrite E in Hp. done.
Qed.

Definition decimal_u256 : U256Text := {|
  u256_to_string := decimal_text; u256_parse := decimal_parse;
  raw_value_from_string s := let? z := decimal_parse s in Ok (JNumber z);
  number_to_string z := if (0 <=? z) && (z <? u64_modulus) then decimal_text z else "1.8446744073709552e19"%string;
  value_to_string _ := "value"%string |}.

Lemma decimal_u256_laws : U256TextLaws (T:=decimal_u256).
Proof.
  split; cbn [u256_to_string u256_parse raw_value_from_string number_to_string decimal_u256].
  - apply decimal_parse_text.
  - intros s z. unfold decimal_parse. destruct (NilZero.uint_of_string s) as [d|]; [|done].
    destruct (Z.ltb_spec (Z.of_N (N.of_uint d)) (2 ^ 256)); [|done]. intros [= <-]. unfold is_U256. lia.
  - intros z Hz. by rewrite decimal_parse_text.
  - intros z [H0 H1]. destruct (Z.leb_spec 0 z); [|lia]. destruct (Z.ltb_spec z u64_modulus); [done|lia].
  - intros z Hz Hl. destruct (Z.ltb_spec z u64_modulus); [lia|]. rewrite andb_false_r. by eexists.
Qed.
