(* ===== verification/NitroVerify.v ===== *)
(** * Batch verification

    [verify_batch_messages] of [src/src/rollups/nitro/nitro.rs]: a batch is
    compared with the streamer's queue from the cursor's position, and the
    delayed-message count is tracked along it. *)

From S2P Require Import Prelude Bytes Slice Config Rollup NitroTypes.

(** The loop over the batch; [None] is an early return of a failure. *)
Fixpoint verify_loop (expected_delayed_messages_read : Z) (batch_messages : list BatchMessage)
    (queue : list NitroRollupQueueEntry) : option Z :=
  match batch_messages, queue with
  | [], _ => Some expected_delayed_messages_read
  | _ :: _, [] => None
  | msg :: batch', entry :: queue' =>
      let checked :=
        match msg with
        | L2Msg content =>
            match message (feed_msg (feed_message entry)) with
            | None => None
            | Some msg_bytes =>
                if bytes_eqb content (l2msg msg_bytes) then Some expected_delayed_messages_read
                else None
            end
        | DelayedMsg => Some (u64_add expected_delayed_messages_read 1)
        end in
      match checked with
      | None => None
      | Some expected =>
          if delayed_messages_read (feed_msg (feed_message entry)) =? expected
          then verify_loop expected batch' queue' else None
      end
  end.

Definition nitro_verify_batch_messages (batch_messages : list BatchMessage)
    (streamer_queue : list NitroRollupQueueEntry) (context : BatchCursor) : VerificationResult :=
  match binary_search_by_key (next_batch_start_pos context) sequence_number streamer_queue with
  | Err _ => VerificationResult_failure
  | Ok pos =>
      let queue := drop pos streamer_queue in
      if (length queue <? length batch_messages)%nat then VerificationResult_failure
      else
        match verify_loop (last_batch_delayed_messages_read context) batch_messages queue with
        | None => VerificationResult_failure
        | Some expected_delayed_messages_read =>
            match batch_messages with
            | [] => VerificationResult_failure
            | _ :: _ =>
                let n := length batch_messages in
                {| success := true;
                   start_message_position := next_batch_start_pos context;
                   end_message_position :=
                     u64_sub (u64_add (next_batch_start_pos context) (Z.of_nat n)) 1;
                   start_espresso_block := min_or_zero (hotshot_height <$> take n queue);
                   after_delayed_messages_read := expected_delayed_messages_read;
                   min_espresso_block_still_in_queue := min_or_zero (hotshot_height <$> drop n queue) |}
            end
        end
  end.

(** ** What a verified batch is *)

Definition is_delayed (m : BatchMessage) : bool :=
  match m with DelayedMsg => true | L2Msg _ => false end.

(** The delayed-message count after [n] messages of the batch. *)
Definition delayed_after (start : Z) (batch : list BatchMessage) (n : nat) : Z :=
  wrap64 (start + zlen (filter is_delayed (take n batch))).

(** Message [i] of the batch is the content of queue entry [i] and the entry
    carries the count of delayed messages up to and including it. *)
Definition message_matches (start : Z) (batch : list BatchMessage) (i : nat)
    (msg : BatchMessage) (e : NitroRollupQueueEntry) : Prop :=
  (∀ content, msg = L2Msg content →
     ∃ m, message (feed_msg (feed_message e)) = Some m ∧ l2msg m = content) ∧
  delayed_messages_read (feed_msg (feed_message e)) = delayed_after start batch (S i).

Definition batch_matches (start : Z) (batch : list BatchMessage)
    (queue : list NitroRollupQueueEntry) : Prop :=
  ∀ i msg, batch !! i = Some msg → ∃ e, queue !! i = Some e ∧ message_matches start batch i msg e.

Lemma wrap64_add_l a b : wrap64 (wrap64 a + b) = wrap64 (a + b).
Proof. unfold wrap64. apply Zplus_mod_idemp_l. Qed.

(** The count an entry must carry after one message. *)
Definition count_step (d : Z) (msg : BatchMessage) : Z :=
  match msg with L2Msg _ => d | DelayedMsg => u64_add d 1 end.

Lemma delayed_after_S d msg batch n :
  is_u64 d → delayed_after d (msg :: batch) (S n) = delayed_after (count_step d msg) batch n.
Proof.
  intros Hd. unfold delayed_after. simpl. destruct msg; simpl.
  - by rewrite filter_cons_False by (simpl; tauto).
  - rewrite filter_cons_True by done. unfold zlen, u64_add. simpl.
    rewrite wrap64_add_l. f_equal. lia.
Qed.

Lemma delayed_after_0 d batch : is_u64 d → delayed_after d batch 0 = d.
Proof. intros Hd. unfold delayed_after, zlen, wrap64. simpl. rewrite Z.add_0_r. by apply Z.mod_small. Qed.

Lemma count_step_u64 d msg : is_u64 d → is_u64 (count_step d msg).
Proof. destruct msg; simpl; [done|]. intros. unfold is_u64, u64_add, wrap64. apply Z.mod_pos_bound. done. Qed.

(** What one iteration checks. *)
Definition accepts (d : Z) (msg : BatchMessage) (e : NitroRollupQueueEntry) : Prop :=
  (∀ content, msg = L2Msg content →
     ∃ m, message (feed_msg (feed_message e)) = Some m ∧ l2msg m = content) ∧
  delayed_messages_read (feed_msg (feed_message e)) = count_step d msg.

Lemma verify_loop_cons d msg batch e queue r :
  verify_loop d (msg :: batch) (e :: queue) = Some r ↔
  accepts d msg e ∧ verify_loop (count_step d msg) batch queue = Some r.
Proof.
  unfold accepts. simpl. destruct msg as [content|]; simpl.
  - destruct (message (feed_msg (feed_message e))) as [m|].
    + unfold bytes_eqb. case_bool_decide as Hc.
      * destruct (Z.eqb_spec (delayed_messages_read (feed_msg (feed_message e))) d); naive_solver.
      * naive_solver.
    + naive_solver.
  - destruct (Z.eqb_spec (delayed_messages_read (feed_msg (feed_message e))) (u64_add d 1)); naive_solver.
Qed.

Lemma batch_matches_cons d msg batch queue :
  is_u64 d →
  batch_matches d (msg :: batch) queue ↔
  ∃ e q, queue = e :: q ∧ accepts d msg e ∧ batch_matches (count_step d msg) batch q.
Proof.
  intros Hd. assert (Hd' := count_step_u64 d msg Hd). split.
  - intros H. destruct (H 0%nat msg eq_refl) as (e & He & Hm & Hc).
    destruct queue as [|e' q]; simplify_eq/=. exists e, q. split_and!; [done| |].
    + split; [done|]. by rewrite Hc, delayed_after_S, delayed_after_0.
    + intros i msg' Hi. destruct (H (S i) msg' Hi) as (e' & He' & Hm' & Hc').
      exists e'. split; [done|]. split; [done|]. by rewrite Hc', delayed_after_S.
  - intros (e & q & -> & [Hm Hc] & H) [|i] msg' Hi; simplify_eq/=.
    + exists e. split; [done|]. split; [done|]. by rewrite Hc, delayed_after_S, delayed_after_0.
    + destruct (H i msg' Hi) as (e' & He' & Hm' & Hc'). exists e'. split; [done|].
      split; [done|]. by rewrite Hc', delayed_after_S.
Qed.

(** The loop decides the match, and computes the final count. *)
Lemma verify_loop_spec d batch queue r :
  is_u64 d →
  verify_loop d batch queue = Some r ↔
  batch_matches d batch queue ∧ r = delayed_after d batch (length batch).
Proof.
  revert d queue. induction batch as [|msg batch IH]; intros d queue Hd.
  { simpl. rewrite delayed_after_0 by done. split; [intros [= ->]; split; [by intros ? ? ?|done]|naive_solver]. }
  rewrite batch_matches_cons by done. simpl length. rewrite delayed_after_S by done.
  destruct queue as [|e q]; [naive_solver|].
  rewrite verify_loop_cons, IH by (by apply count_step_u64). naive_solver.
Qed.

Lemma batch_matches_length d batch queue : batch_matches d batch queue → (length batch ≤ length queue)%nat.
Proof.
  intros H. destruct (decide (length batch ≤ length queue)%nat) as [|Hlt]; [done|].
  destruct (lookup_lt_is_Some_2 batch (length queue)) as [msg Hm]; [lia|].
  destruct (H _ _ Hm) as (e & He & _). apply lookup_lt_Some in He. lia.
Qed.

(** The result of a successful verification. *)
Definition verified (batch : list BatchMessage) (queue : list NitroRollupQueueEntry)
    (context : BatchCursor) : VerificationResult :=
  let n := length batch in
  VerificationResult_success (next_batch_start_pos context)
    (u64_sub (u64_add (next_batch_start_pos context) (Z.of_nat n)) 1)
    (min_or_zero (hotshot_height <$> take n queue))
    (delayed_after (last_batch_delayed_messages_read context) batch n)
    (min_or_zero (hotshot_height <$> drop n queue)).

(** Every outcome, on a sorted queue: the batch matches the entries from the
    cursor's position on, or the answer is the failure. *)
Lemma verify_cases batch q ctx :
  ssorted sequence_number q → is_u64 (last_batch_delayed_messages_read ctx) →
  (∃ q1 e q2, q = q1 ++ e :: q2 ∧ sequence_number e = next_batch_start_pos ctx ∧ batch ≠ [] ∧
     batch_matches (last_batch_delayed_messages_read ctx) batch (e :: q2) ∧
     nitro_verify_batch_messages batch q ctx = verified batch (e :: q2) ctx) ∨
  (nitro_verify_batch_messages batch q ctx = VerificationResult_failure ∧
   ∀ q1 e q2, q = q1 ++ e :: q2 → sequence_number e = next_batch_start_pos ctx → batch ≠ [] →
     ¬ batch_matches (last_batch_delayed_messages_read ctx) batch (e :: q2)).
Proof.
  intros Hs Hd. unfold nitro_verify_batch_messages.
  destruct (binary_search_split sequence_number q (next_batch_start_pos ctx) Hs)
    as [(q1 & e & q2 & -> & He & ->)|[Hno [i ->]]].
  2: { right. split; [done|]. intros q1 e q2 -> He. exfalso. apply (Hno e); [set_solver|done]. }
  rewrite drop_app_length.
  assert (Huniq : ∀ q1' e' q2', q1 ++ e :: q2 = q1' ++ e' :: q2' →
            sequence_number e' = next_batch_start_pos ctx → e' :: q2' = e :: q2).
  { intros q1' e' q2' E He'.
    assert (length q1' = length q1) as Hl.
    { apply (ssorted_lookup_inj sequence_number (q1 ++ e :: q2) _ _ e' e Hs);
        [rewrite E| |congruence]; by apply list_lookup_middle. }
    apply app_inj_1 in E; [|done]. by destruct E as [_ ->]. }
  set (d := last_batch_delayed_messages_read ctx) in *.
  assert (Hfail : ¬ batch_matches d batch (e :: q2) → ∀ q1' e' q2', q1 ++ e :: q2 = q1' ++ e' :: q2' →
            sequence_number e' = next_batch_start_pos ctx → batch ≠ [] →
            ¬ batch_matches d batch (e' :: q2')).
  { intros Hn q1' e' q2' E He' _. by rewrite (Huniq q1' e' q2' E He'). }
  destruct (Nat.ltb_spec (length (e :: q2)) (length batch)) as [Hlt|Hge].
  { right. split; [done|]. apply Hfail. intros H%batch_matches_length. lia. }
  destruct (verify_loop d batch (e :: q2)) as [r|] eqn:Ev.
  - apply verify_loop_spec in Ev as [Hm ->]; [|done].
    destruct batch as [|msg batch]; [right; split; [done|naive_solver]|].
    left. exists q1, e, q2. split_and!; done.
  - right. split; [done|]. apply Hfail. intros Hm.
    assert (verify_loop d batch (e :: q2) = Some (delayed_after d batch (length batch))) as E'; [|congruence].
    by apply verify_loop_spec.
Qed.

(** On a queue without a gap in the covered range, position [k] of a verified
    batch is the message numbered [k]. *)
Lemma verify_sound batch q ctx :
  ssorted sequence_number q → is_u64 (last_batch_delayed_messages_read ctx) →
  is_u64 (next_batch_start_pos ctx) → next_batch_start_pos ctx + zlen batch ≤ u64_modulus →
  (∀ k, next_batch_start_pos ctx ≤ k < next_batch_start_pos ctx + zlen batch →
        ∃ e, e ∈ q ∧ sequence_number e = k) →
  let r := nitro_verify_batch_messages batch q ctx in
  success r = true →
  ∀ k, start_message_position r ≤ k ≤ end_message_position r →
    ∃ e msg, e ∈ q ∧ sequence_number e = k ∧
      batch !! Z.to_nat (k - start_message_position r) = Some msg ∧
      message_matches (last_batch_delayed_messages_read ctx) batch
        (Z.to_nat (k - start_message_position r)) msg e.
Proof.
  intros Hs Hd Hn Hlen Hall r. subst r.
  destruct (verify_cases batch q ctx Hs Hd) as [(q1 & e & q2 & -> & He & Hb & Hm & ->)|[-> _]]; [|done].
  intros _ k Hk. simpl in Hk |- *.
  assert (Hend : u64_sub (u64_add (next_batch_start_pos ctx) (Z.of_nat (length batch))) 1 =
                 next_batch_start_pos ctx + zlen batch - 1).
  { unfold is_u64, zlen in *. destruct batch; [done|]. simpl length in *.
    unfold u64_sub, u64_add, wrap64. rewrite Zminus_mod_idemp_l. apply Z.mod_small. lia. }
  rewrite Hend in Hk. set (p := next_batch_start_pos ctx) in *.
  apply ssorted_app in Hs as (_ & Hs2 & Hlt).
  destruct (ssorted_dense sequence_number (length batch) q2 e p Hs2 He) with (i := Z.to_nat (k - p))
    as (y & Hy & Ey).
  - intros k' Hk'. destruct (Hall k') as (y & [Hy|Hy]%elem_of_app & Ey); [unfold zlen; lia| |eauto].
    specialize (Hlt y e Hy ltac:(set_solver)). lia.
  - unfold zlen in *. lia.
  - destruct (lookup_lt_is_Some_2 batch (Z.to_nat (k - p))) as [msg Hmsg]; [unfold zlen in *; lia|].
    destruct (Hm _ _ Hmsg) as (y' & Hy' & Hmm).
    assert (y' = y) as -> by congruence. exists y, msg. split_and!; try done; [|change (sequence_number y = k); rewrite Ey; lia].
    apply elem_of_app. right. by eapply list_elem_of_lookup_2.
Qed.

(** ** Properties *)

(** C10. [verify_batch_messages] decides exactly this: the batch is not empty, the
    queue has an entry at the cursor's position, and from there on every L2
    message equals the queued one and every delayed count agrees with the running
    total.  Nothing else makes it succeed and nothing else makes it fail. *)
Theorem verify_success_iff batch q ctx :
  ssorted sequence_number q → is_u64 (last_batch_delayed_messages_read ctx) →
  success (nitro_verify_batch_messages batch q ctx) = true ↔
  batch ≠ [] ∧ ∃ q1 e q2, q = q1 ++ e :: q2 ∧ sequence_number e = next_batch_start_pos ctx ∧
    batch_matches (last_batch_delayed_messages_read ctx) batch (e :: q2).
Proof.
  intros Hs Hd.
  destruct (verify_cases batch q ctx Hs Hd) as [(q1 & e & q2 & -> & He & Hb & Hm & ->)|[-> Hno]].
  - simpl. split; [|done]. intros _. split; [done|]. eauto 8.
  - simpl. split; [done|]. intros [Hb (q1 & e & q2 & E & He & Hm)]. by destruct (Hno q1 e q2).
Qed.

(** What a successful verification reports: the position range starts at the
    cursor and has one position per message, the delayed count is the cursor's
    plus the delayed messages of the batch, [start_espresso_block] is the least
    height of the covered entries, and [min_espresso_block_still_in_queue] the
    least height of the entries after them, or 0 if there are none. *)
Theorem verify_reports batch q ctx :
  ssorted sequence_number q → is_u64 (last_batch_delayed_messages_read ctx) →
  is_u64 (next_batch_start_pos ctx) → next_batch_start_pos ctx + zlen batch ≤ u64_modulus →
  let r := nitro_verify_batch_messages batch q ctx in
  success r = true →
  ∃ q1 covered rest, q = q1 ++ covered ++ rest ∧ length covered = length batch ∧
    start_message_position r = next_batch_start_pos ctx ∧
    end_message_position r = next_batch_start_pos ctx + zlen batch - 1 ∧
    after_delayed_messages_read r =
      wrap64 (last_batch_delayed_messages_read ctx + zlen (filter is_delayed batch)) ∧
    (∃ e, e ∈ covered ∧ start_espresso_block r = hotshot_height e) ∧
    (∀ e, e ∈ covered → start_espresso_block r ≤ hotshot_height e) ∧
    (rest = [] → min_espresso_block_still_in_queue r = 0) ∧
    (∀ e, e ∈ rest → min_espresso_block_still_in_queue r ≤ hotshot_height e).
Proof.
  intros Hs Hd Hn Hlen r. subst r.
  destruct (verify_cases batch q ctx Hs Hd) as [(q1 & e & q2 & -> & He & Hb & Hm & ->)|[-> _]]; [|done].
  intros _. pose proof (batch_matches_length _ _ _ Hm) as Hl.
  set (n := length batch) in *.
  exists q1, (take n (e :: q2)), (drop n (e :: q2)). rewrite take_drop.
  assert (Hne : hotshot_height <$> take n (e :: q2) ≠ []).
  { destruct batch; [done|]. simpl. done. }
  destruct (min_or_zero_spec _ Hne) as [Hin Hmin].
  split_and!; try done.
  - rewrite length_take. lia.
  - unfold verified, VerificationResult_success. simpl end_message_position. fold n.
    unfold is_u64, zlen in *. fold n in Hlen |- *.
    assert (n ≠ 0%nat) by (destruct batch; [done|simpl; done]).
    unfold u64_sub, u64_add, wrap64. rewrite Zminus_mod_idemp_l. apply Z.mod_small. lia.
  - unfold verified, delayed_after, n. simpl. by rewrite firstn_all.
  - apply list_elem_of_fmap in Hin as (e' & E & Hin). exists e'. split; [done|]. exact E.
  - intros e' He'. apply Hmin. by apply list_elem_of_fmap_2.
  - intros E. unfold verified. simpl min_espresso_block_still_in_queue. fold n. by rewrite E.
  - intros e' He'. unfold verified. simpl min_espresso_block_still_in_queue. fold n.
    apply min_or_zero_spec; [|by apply list_elem_of_fmap_2].
    intros E. apply fmap_nil_inv in E. rewrite E in He'. by apply elem_of_nil in He'.
Qed.

(** On a queue without a gap in the covered range the signature is sound:
    for every position reported, the queue holds the feed message of exactly that
    position, and the batch's message there is its content. *)
Theorem verify_sound_without_gap batch q ctx :
  ssorted sequence_number q → is_u64 (last_batch_delayed_messages_read ctx) →
  is_u64 (next_batch_start_pos ctx) → next_batch_start_pos ctx + zlen batch ≤ u64_modulus →
  (∀ k, next_batch_start_pos ctx ≤ k < next_batch_start_pos ctx + zlen batch →
        ∃ e, e ∈ q ∧ sequence_number e = k) →
  let r := nitro_verify_batch_messages batch q ctx in
  success r = true →
  ∀ k, start_message_position r ≤ k ≤ end_message_position r →
    ∃ e msg, e ∈ q ∧ sequence_number e = k ∧
      batch !! Z.to_nat (k - start_message_position r) = Some msg ∧
      message_matches (last_batch_delayed_messages_read ctx) batch
        (Z.to_nat (k - start_message_position r)) msg e.
Proof. apply verify_sound. Qed.

(** ** Concrete batches *)

(** A feed message with the given number, payload and delayed count. *)
Definition sample_message (seq : Z) (payload : bytes) (delayed : Z) : BroadcastFeedMessage := {|
  msg_sequence_number := seq;
  feed_msg := {| message := Some {| header := None; l2msg := payload;
                                    legacy_batch_gas_cost := None; batch_data_stats := None |};
                 delayed_messages_read := delayed |};
  signature := []; block_metadata := []; cumulative_sum_msg_size := 0; block_hash := None;
|}.

Definition sample_entry (seq : Z) (payload : bytes) (delayed height : Z) : NitroRollupQueueEntry :=
  {| feed_message := sample_message seq payload delayed; entry_hotshot_height := height |}.

Definition sample_queue : list NitroRollupQueueEntry :=
  [sample_entry 4 [] 1 30; sample_entry 5 (to_be_bytes 2 10) 1 31;
   sample_entry 6 [] 2 33; sample_entry 7 (to_be_bytes 2 11) 2 32; sample_entry 8 [] 3 34].

Definition sample_cursor : BatchCursor :=
  {| last_batch_delayed_messages_read := 1; next_batch_start_pos := 5 |}.

Definition sample_batch : list BatchMessage :=
  [L2Msg (to_be_bytes 2 10); DelayedMsg; L2Msg (to_be_bytes 2 11)].

Lemma sample_queue_sorted : ssorted sequence_number sample_queue.
Proof. apply (bool_decide_eq_true_1 _). by vm_compute. Qed.

Lemma sample_cursor_u64 :
  is_u64 (last_batch_delayed_messages_read sample_cursor) ∧ is_u64 (next_batch_start_pos sample_cursor).
Proof. split; split; by vm_compute. Qed.

Lemma verify_success_iff_witness :
  sample_batch ≠ [] ∧ ∃ q1 e q2, sample_queue = q1 ++ e :: q2 ∧
    sequence_number e = 5 ∧ batch_matches 1 sample_batch (e :: q2).
Proof.
  apply (verify_success_iff sample_batch sample_queue sample_cursor).
  - exact sample_queue_sorted.
  - apply sample_cursor_u64.
  - by vm_compute.
Defined.

Lemma verify_reports_witness :
  let r := nitro_verify_batch_messages sample_batch sample_queue sample_cursor in
  (start_message_position r, end_message_position r, start_espresso_block r,
   after_delayed_messages_read r, min_espresso_block_still_in_queue r) = (5, 7, 31, 2, 34) ∧
  ∃ q1 covered rest, sample_queue = q1 ++ covered ++ rest ∧ length covered = 3%nat ∧
    ∀ e, e ∈ rest → min_espresso_block_still_in_queue r ≤ hotshot_height e.
Proof.
  intros r. split; [by vm_compute|].
  destruct (verify_reports sample_batch sample_queue sample_cursor) as (q1 & cov & rest & H1 & H2 & H3).
  - exact sample_queue_sorted.
  - apply sample_cursor_u64.
  - apply sample_cursor_u64.
  - by vm_compute.
  - by vm_compute.
  - exists q1, cov, rest. split_and!; [done|done|apply H3].
Defined.

Lemma verify_sound_without_gap_witness :
  ∃ e msg, e ∈ sample_queue ∧ sequence_number e = 6 ∧ sample_batch !! 1%nat = Some msg ∧
    message_matches 1 sample_batch 1 msg e.
Proof.
  apply (verify_sound_without_gap sample_batch sample_queue sample_cursor) with (k := 6).
  - exact sample_queue_sorted.
  - apply sample_cursor_u64.
  - apply sample_cursor_u64.
  - by vm_compute.
  - intros k Hk. change (5 ≤ k < 5 + 3) in Hk.
    assert (k = 5 ∨ k = 6 ∨ k = 7) as Hc by lia.
    exists (default (sample_entry 0 [] 0 0) (sample_queue !! Z.to_nat (k - 4))).
    split; [|destruct Hc as [->|[-> | ->] ]; by vm_compute].
    apply (list_elem_of_lookup_2 _ (Z.to_nat (k - 4))). destruct Hc as [->|[-> | ->] ]; by vm_compute.
  - by vm_compute.
  - split; by vm_compute.
Defined.

(** The comparison goes by index and never looks at the sequence numbers after
    the first: a queue in which message 6 is missing verifies a batch of three
    from position 5, so the reported positions 5 to 7 cover messages 5, 7 and 8. *)
Theorem verify_accepts_gap :
  let q := [sample_entry 5 (to_be_bytes 2 10) 1 31; sample_entry 7 (to_be_bytes 2 11) 1 32;
            sample_entry 8 (to_be_bytes 2 12) 1 34] in
  let r := nitro_verify_batch_messages
             [L2Msg (to_be_bytes 2 10); L2Msg (to_be_bytes 2 11); L2Msg (to_be_bytes 2 12)]
             q sample_cursor in
  ssorted sequence_number q ∧ success r = true ∧
  start_message_position r = 5 ∧ end_message_position r = 7 ∧
  ∀ e, e ∈ q → sequence_number e ≠ 6.
Proof.
  split_and!; try by vm_compute.
  - apply (bool_decide_eq_true_1 _). by vm_compute.
  - intros e. rewrite !elem_of_cons. intros [->|[->|[->|Hn] ] ]; try by vm_compute.
    by apply elem_of_nil in Hn.
Qed.
