(* ===== verification/Rlp.v ===== *)
(** * RLP of the Nitro messages

    The hand-written codecs of [src/src/rollups/nitro/types.rs] for
    [L1IncomingMessageHeader], [L1IncomingMessage] and [MessageWithMetadata].
    The primitives of the crate [alloy_rlp] they are built from (headers,
    integers, byte strings, the derived codec of [BatchDataStats]) are a class;
    the laws state RLP as the Ethereum specification defines it. *)

From S2P Require Import Prelude Bytes Slice Config Rollup NitroTypes.

(** [alloy_rlp::Error] *)
Inductive rlp_error :=
| Overflow
| LeadingZero
| InputTooShort
| NonCanonicalSingleByte
| NonCanonicalSize
| UnexpectedLength
| UnexpectedString
| UnexpectedList
| ListLengthMismatch (expected got : Z)
| RlpCustom (msg : string).

#[export] Instance rlp_error_eq_dec : EqDecision rlp_error.
Proof. solve_decision. Defined.

(** [alloy_rlp::PayloadView]: a string's bytes, or the encoded items of a list. *)
Inductive payload_view :=
| PvString (b : bytes)
| PvList (items : list bytes).

(** The traits [Encodable] and [Decodable] of a type; [decode] returns the value
    and the rest of the buffer. *)
Record codec (T : Type) := {
  encode : T → bytes;
  encoded_length : T → nat;
  decode : bytes → result (T * bytes) rlp_error;
}.

Arguments encode {T}.
Arguments encoded_length {T}.
Arguments decode {T}.

Class AlloyRlp := {
  header_encode : bool → nat → bytes;
  length_of_length : nat → nat;
  decode_raw : bytes → result (payload_view * bytes) rlp_error;
  u8_codec : codec Z;
  u64_codec : codec Z;
  u256_codec : codec U256;
  address_codec : codec Address;
  b256_codec : codec B256;
  bytes_codec : codec bytes;
  stats_codec : codec BatchDataStats;
}.

(** [alloy_rlp::decode_exact]: the whole buffer is one value. *)
Definition decode_exact {T} (dec : bytes → result (T * bytes) rlp_error) (buf : bytes)
    : result T rlp_error :=
  match dec buf with
  | Ok (v, []) => Ok v
  | Ok (_, _ :: _) => Err UnexpectedLength
  | Err e => Err e
  end.

Inductive NilPolicy := EmptyStringOnly | EmptyListOnly.

Section codecs.
Context {A : AlloyRlp}.
Open Scope cas_scope.

Definition decode_optional_field {T} (dec : bytes → result (T * bytes) rlp_error) (buf : bytes)
    (nil_policy : NilPolicy) : result (option T) rlp_error :=
  let? '(view, _) := decode_raw buf in
  match view, nil_policy with
  | PvString [], EmptyStringOnly => Ok None
  | PvString _, EmptyListOnly => Err UnexpectedString
  | PvList [], EmptyListOnly => Ok None
  | PvList _, EmptyStringOnly => Err UnexpectedList
  | _, _ => let? v := decode_exact dec buf in Ok (Some v)
  end.

Definition decode_optional_b256_allow_nil_list (buf : bytes) : result (option B256) rlp_error :=
  let? '(view, _) := decode_raw buf in
  match view with
  | PvString [] => Ok None
  | PvString b => if (length b =? 32)%nat then Ok (Some b) else Err UnexpectedLength
  | PvList [] => Ok None
  | PvList _ => Err UnexpectedList
  end.

(** [fields[i]], with what the code does when there are more than [i] fields and
    when there are not. *)
Definition optional_at {T} (fields : list bytes) (i : nat) (dec : bytes → result T rlp_error) (none : T)
    : result T rlp_error :=
  match fields !! i with
  | Some f => dec f
  | None => Ok none
  end.

(** *** [L1IncomingMessageHeader] *)

Definition header_decode (buf : bytes) : result (L1IncomingMessageHeader * bytes) rlp_error :=
  let? '(view, rest) := decode_raw buf in
  match view with
  | PvString _ => Err UnexpectedString
  | PvList fields =>
      match fields with
      | f0 :: f1 :: f2 :: f3 :: _ =>
          let? k := decode_exact (decode u8_codec) f0 in
          let? p := decode_exact (decode address_codec) f1 in
          let? b := decode_exact (decode u64_codec) f2 in
          let? t := decode_exact (decode u64_codec) f3 in
          let? r := optional_at fields 4 decode_optional_b256_allow_nil_list None in
          let? f := optional_at fields 5
                      (λ x, decode_optional_field (decode u256_codec) x EmptyStringOnly) None in
          Ok ({| kind := k; poster := p; block_number := b; timestamp := t;
                 request_id := r; l1_base_fee := f |}, rest)
      | _ => Err (ListLengthMismatch 4 (zlen fields))
      end
  end.

Definition header_payload_length (h : L1IncomingMessageHeader) : nat :=
  encoded_length u8_codec (kind h) + encoded_length address_codec (poster h) +
  encoded_length u64_codec (block_number h) + encoded_length u64_codec (timestamp h) +
  match request_id h with Some id => encoded_length b256_codec id | None => 1 end +
  match l1_base_fee h with Some fee => encoded_length u256_codec fee | None => 1 end.

Definition L1IncomingMessageHeader_encode (h : L1IncomingMessageHeader) : bytes :=
  header_encode true (header_payload_length h) ++
  encode u8_codec (kind h) ++ encode address_codec (poster h) ++
  encode u64_codec (block_number h) ++ encode u64_codec (timestamp h) ++
  match request_id h with Some id => encode b256_codec id | None => header_encode true 0 end ++
  match l1_base_fee h with Some fee => encode u256_codec fee | None => [u8_of_Z 128] end.

Definition header_length (h : L1IncomingMessageHeader) : nat :=
  let pl := header_payload_length h in length_of_length pl + pl.

(** *** [L1IncomingMessage] *)

Definition L1IncomingMessage_decode (buf : bytes) : result (L1IncomingMessage * bytes) rlp_error :=
  let? '(view, rest) := decode_raw buf in
  match view with
  | PvString _ => Err UnexpectedString
  | PvList fields =>
      match fields with
      | f0 :: f1 :: _ =>
          let? h := decode_optional_field header_decode f0 EmptyListOnly in
          let? m := decode_exact (decode bytes_codec) f1 in
          let? g := optional_at fields 2
                      (λ x, decode_optional_field (decode u64_codec) x EmptyStringOnly) None in
          let? s := optional_at fields 3
                      (λ x, decode_optional_field (decode stats_codec) x EmptyListOnly) None in
          Ok ({| header := h; l2msg := m; legacy_batch_gas_cost := g; batch_data_stats := s |}, rest)
      | _ => Err (ListLengthMismatch 2 (zlen fields))
      end
  end.

(** The optional tail: present when one of the two last fields is. *)
Definition has_tail (m : L1IncomingMessage) : bool :=
  bool_decide (is_Some (legacy_batch_gas_cost m)) || bool_decide (is_Some (batch_data_stats m)).

Definition message_payload_length (m : L1IncomingMessage) : nat :=
  match header m with Some h => header_length h | None => 1 end +
  encoded_length bytes_codec (l2msg m) +
  (if has_tail m
   then match legacy_batch_gas_cost m with Some c => encoded_length u64_codec c | None => 1 end
   else 0) +
  match batch_data_stats m with Some st => encoded_length stats_codec st | None => 0 end.

Definition L1IncomingMessage_encode (m : L1IncomingMessage) : bytes :=
  header_encode true (message_payload_length m) ++
  match header m with Some h => L1IncomingMessageHeader_encode h | None => header_encode true 0 end ++
  encode bytes_codec (l2msg m) ++
  (if has_tail m
   then match legacy_batch_gas_cost m with Some c => encode u64_codec c | None => [u8_of_Z 128] end
   else []) ++
  match batch_data_stats m with Some st => encode stats_codec st | None => [] end.

(** *** [MessageWithMetadata] *)

Definition MessageWithMetadata_decode (buf : bytes) : result (MessageWithMetadata * bytes) rlp_error :=
  let? '(view, rest) := decode_raw buf in
  match view with
  | PvString _ => Err UnexpectedString
  | PvList fields =>
      match fields with
      | f0 :: _ =>
          let? m := decode_optional_field L1IncomingMessage_decode f0 EmptyListOnly in
          let? d := optional_at fields 1 (decode_exact (decode u64_codec)) 0 in
          Ok ({| message := m; delayed_messages_read := d |}, rest)
      | [] => Err (ListLengthMismatch 1 0)
      end
  end.

End codecs.

(** ** The laws of the primitives *)

(** A complete item: one string or list and nothing after it. *)
Definition is_item `{AlloyRlp} (b : bytes) : Prop := ∃ v, decode_raw b = Ok (v, []).

(** Values in [P] are encoded as one item that views as [view v], is decoded
    back, and has the announced length. *)
Definition codec_ok `{AlloyRlp} {T} (P : T → Prop) (c : codec T) (view : T → payload_view) : Prop :=
  ∀ v, P v →
    decode_raw (encode c v) = Ok (view v, []) ∧
    (∀ rest, decode c (encode c v ++ rest) = Ok (v, rest)) ∧
    length (encode c v) = encoded_length c v.

(** Integers are encoded as their big-endian bytes without leading zeros. *)
Definition uint_view (n : nat) (z : Z) : payload_view := PvString (trim_leading_zeros (to_be_bytes n z)).

Class AlloyRlpLaws (A : AlloyRlp) : Prop := {
  decode_list items rest :
    Forall is_item items → zlen (concat items) < u64_modulus →
    decode_raw (header_encode true (length (concat items)) ++ concat items ++ rest) =
      Ok (PvList items, rest);
  decode_raw_nil : decode_raw [] = Err InputTooShort;
  header_encode_length l n : length (header_encode l n) = length_of_length n;
  empty_list_is_c0 : header_encode true 0 = [u8_of_Z 192];
  empty_string_is_80 : decode_raw [u8_of_Z 128] = Ok (PvString [], []);
  u8_ok : codec_ok (λ z, 0 ≤ z < 256) u8_codec (uint_view 1);
  u64_ok : codec_ok is_u64 u64_codec (uint_view 8);
  u256_ok : codec_ok is_U256 u256_codec (uint_view 32);
  address_ok : codec_ok (λ a : Address, length a = 20%nat) address_codec PvString;
  b256_ok : codec_ok (λ b : B256, length b = 32%nat) b256_codec PvString;
  bytes_ok : codec_ok (λ b : bytes, zlen b < u64_modulus) bytes_codec PvString;
  stats_ok : codec_ok (λ st, is_u64 (stats_length st) ∧ is_u64 (non_zeros st)) stats_codec
               (λ st, PvList [encode u64_codec (stats_length st); encode u64_codec (non_zeros st)]);
}.

(** ** Round trips *)

(** Well-formed values: the Rust types' ranges. *)
Record wf_header (h : L1IncomingMessageHeader) : Prop := {
  wf_kind : 0 ≤ kind h < 256;
  wf_poster : length (poster h) = 20%nat;
  wf_block_number : is_u64 (block_number h);
  wf_timestamp : is_u64 (timestamp h);
  wf_request_id id : request_id h = Some id → length id = 32%nat;
  wf_base_fee fee : l1_base_fee h = Some fee → is_U256 fee;
}.

Record wf_message (m : L1IncomingMessage) : Prop := {
  wf_msg_header h : header m = Some h → wf_header h;
  wf_l2msg : zlen (l2msg m) < u64_modulus;
  wf_gas_cost c : legacy_batch_gas_cost m = Some c → is_u64 c;
  wf_stats st : batch_data_stats m = Some st → is_u64 (stats_length st) ∧ is_u64 (non_zeros st);
}.

(** Zero and absent share the encoding of the empty string, and decode as absent. *)
Definition zero_to_none (o : option Z) : option Z :=
  match o with Some 0 => None | _ => o end.

Definition norm_header (h : L1IncomingMessageHeader) : L1IncomingMessageHeader :=
  {| kind := kind h; poster := poster h; block_number := block_number h; timestamp := timestamp h;
     request_id := request_id h; l1_base_fee := zero_to_none (l1_base_fee h) |}.

Definition norm_message (m : L1IncomingMessage) : L1IncomingMessage :=
  {| header := norm_header <$> header m; l2msg := l2msg m;
     legacy_batch_gas_cost := zero_to_none (legacy_batch_gas_cost m);
     batch_data_stats := batch_data_stats m |}.

Section roundtrip.
Context {A : AlloyRlp} {L : AlloyRlpLaws A}.

Lemma codec_item {T} (P : T → Prop) (c : codec T) view v : codec_ok P c view → P v → is_item (encode c v).
Proof. intros Hc Hv. destruct (Hc v Hv) as (H & _ & _). by exists (view v). Qed.

Lemma codec_exact {T} (P : T → Prop) (c : codec T) view v :
  codec_ok P c view → P v → decode_exact (decode c) (encode c v) = Ok v.
Proof.
  intros Hc Hv. unfold decode_exact. destruct (Hc v Hv) as (_ & H & _).
  specialize (H []). rewrite app_nil_r in H. by rewrite H.
Qed.

Lemma codec_len {T} (P : T → Prop) (c : codec T) view v :
  codec_ok P c view → P v → encoded_length c v = length (encode c v).
Proof. intros Hc Hv. by destruct (Hc v Hv) as (_ & _ & ->). Qed.

Lemma empty_list_item : is_item (header_encode true 0).
Proof.
  exists (PvList []). pose proof (decode_list [] [] (Forall_nil_2 _)) as H. simpl in H.
  rewrite app_nil_r in H. by apply H.
Qed.

Lemma empty_list_raw : decode_raw (header_encode true 0) = Ok (PvList [], []).
Proof.
  pose proof (decode_list [] [] (Forall_nil_2 _)) as H. simpl in H.
  rewrite app_nil_r in H. by apply H.
Qed.

Lemma empty_string_item : is_item [u8_of_Z 128].
Proof. exists (PvString []). apply empty_string_is_80. Qed.

Lemma zero_view n z : 0 ≤ z < 2 ^ (Z.of_nat n * 8) → trim_leading_zeros (to_be_bytes n z) = [] ↔ z = 0.
Proof.
  intros Hz. rewrite trim_nil. split.
  - intros H. assert (from_be_bytes (to_be_bytes n z) = 0) as E by (by apply from_be_bytes_zero).
    rewrite from_to_be_bytes_mod, Z.mod_small in E; done.
  - intros ->. apply to_be_bytes_zero.
Qed.

(** An optional integer: absent and zero read as absent. *)
Lemma decode_optional_uint n (c : codec Z) (o : option Z) :
  codec_ok (λ z, 0 ≤ z < 2 ^ (Z.of_nat n * 8)) c (uint_view n) →
  (∀ z, o = Some z → 0 ≤ z < 2 ^ (Z.of_nat n * 8)) →
  decode_optional_field (decode c) (match o with Some z => encode c z | None => [u8_of_Z 128] end)
    EmptyStringOnly = Ok (zero_to_none o).
Proof.
  intros Hc Ho. unfold decode_optional_field. destruct o as [z|]; [|by rewrite empty_string_is_80].
  specialize (Ho z eq_refl). destruct (Hc z Ho) as (-> & Hd & _). unfold uint_view.
  pose proof (zero_view n z Ho) as Hz.
  destruct (trim_leading_zeros _) as [|b l] eqn:E.
  - by rewrite (proj1 Hz eq_refl).
  - unfold decode_exact. specialize (Hd []). rewrite app_nil_r in Hd. rewrite Hd. destruct z; [discriminate (proj2 Hz eq_refl)| |]; done.
Qed.

Definition header_items (h : L1IncomingMessageHeader) : list bytes :=
  [encode u8_codec (kind h); encode address_codec (poster h); encode u64_codec (block_number h);
   encode u64_codec (timestamp h);
   match request_id h with Some id => encode b256_codec id | None => header_encode true 0 end;
   match l1_base_fee h with Some fee => encode u256_codec fee | None => [u8_of_Z 128] end].

Lemma header_items_ok h : wf_header h → Forall is_item (header_items h).
Proof.
  intros []. repeat constructor.
  - by eapply codec_item; [apply u8_ok|].
  - by eapply codec_item; [apply address_ok|].
  - by eapply codec_item; [apply u64_ok|].
  - by eapply codec_item; [apply u64_ok|].
  - destruct (request_id h) eqn:?; [apply (codec_item _ _ _ _ b256_ok); simpl; by eauto|apply empty_list_item].
  - destruct (l1_base_fee h) eqn:?; [apply (codec_item _ _ _ _ u256_ok); simpl; by eauto|apply empty_string_item].
Qed.

(** [rlp_payload_length] is the length of the encoded fields. *)
Lemma header_payload_length_ok h :
  wf_header h → header_payload_length h = length (concat (header_items h)).
Proof.
  intros []. unfold header_payload_length, header_items. simpl. rewrite !length_app. simpl.
  rewrite (codec_len _ _ _ (kind h) u8_ok), (codec_len _ _ _ (poster h) address_ok),
    (codec_len _ _ _ (block_number h) u64_ok), (codec_len _ _ _ (timestamp h) u64_ok) by done.
  destruct (request_id h) as [id|] eqn:?; [rewrite (codec_len _ _ _ id b256_ok) by auto|rewrite empty_list_is_c0];
    (destruct (l1_base_fee h) as [fee|] eqn:?; [rewrite (codec_len _ _ _ fee u256_ok) by auto|]); simpl; lia.
Qed.

Lemma header_encode_eq h :
  wf_header h →
  L1IncomingMessageHeader_encode h =
    header_encode true (length (concat (header_items h))) ++ concat (header_items h).
Proof.
  intros Hw. unfold L1IncomingMessageHeader_encode. rewrite header_payload_length_ok by done.
  simpl. by rewrite app_nil_r.
Qed.

Lemma header_length_ok h : wf_header h → header_length h = length (L1IncomingMessageHeader_encode h).
Proof.
  intros Hw. rewrite header_encode_eq by done. unfold header_length.
  by rewrite length_app, header_encode_length, header_payload_length_ok.
Qed.

Lemma header_raw h rest :
  wf_header h → zlen (L1IncomingMessageHeader_encode h) < u64_modulus →
  decode_raw (L1IncomingMessageHeader_encode h ++ rest) = Ok (PvList (header_items h), rest).
Proof.
  intros Hw Hlen. rewrite header_encode_eq in * by done. rewrite <- app_assoc.
  apply decode_list; [by apply header_items_ok|]. unfold zlen in *. rewrite length_app in Hlen. lia.
Qed.

Lemma header_roundtrip h rest :
  wf_header h → zlen (L1IncomingMessageHeader_encode h) < u64_modulus →
  header_decode (L1IncomingMessageHeader_encode h ++ rest) = Ok (norm_header h, rest).
Proof.
  intros Hw Hlen. unfold header_decode. rewrite header_raw by done. destruct Hw.
  unfold header_items. simpl.
  rewrite (codec_exact _ _ _ _ u8_ok), (codec_exact _ _ _ _ address_ok),
    (codec_exact _ _ _ _ u64_ok), (codec_exact _ _ _ _ u64_ok) by done.
  unfold optional_at. simpl.
  rewrite (decode_optional_uint 32 u256_codec (l1_base_fee h) u256_ok) by auto.
  unfold decode_optional_b256_allow_nil_list, norm_header.
  destruct (request_id h) as [id|] eqn:?; [|by rewrite empty_list_raw].
  destruct (b256_ok id) as (-> & _); [auto|]. 
  specialize (wf_request_id0 id eq_refl). destruct id as [|b id]; [done|].
  rewrite (proj2 (Nat.eqb_eq _ _) wf_request_id0). done.
Qed.

Definition message_items (m : L1IncomingMessage) : list bytes :=
  [match header m with Some h => L1IncomingMessageHeader_encode h | None => header_encode true 0 end;
   encode bytes_codec (l2msg m)] ++
  (if has_tail m
   then [match legacy_batch_gas_cost m with Some c => encode u64_codec c | None => [u8_of_Z 128] end]
   else []) ++
  match batch_data_stats m with Some st => [encode stats_codec st] | None => [] end.

Lemma header_item h :
  wf_header h → zlen (L1IncomingMessageHeader_encode h) < u64_modulus →
  decode_raw (L1IncomingMessageHeader_encode h) = Ok (PvList (header_items h), []).
Proof. intros. rewrite <- (app_nil_r (L1IncomingMessageHeader_encode h)). by apply header_raw. Qed.

Lemma message_items_ok m :
  wf_message m → (∀ h, header m = Some h → zlen (L1IncomingMessageHeader_encode h) < u64_modulus) →
  Forall is_item (message_items m).
Proof.
  intros [] Hlen. unfold message_items. apply Forall_app. split; [|apply Forall_app; split].
  - repeat constructor; [|by apply (codec_item _ _ _ _ bytes_ok)].
    destruct (header m) as [h|] eqn:?; [|apply empty_list_item].
    eexists. apply header_item; auto.
  - destruct (has_tail m); repeat constructor.
    destruct (legacy_batch_gas_cost m) eqn:?; [|apply empty_string_item].
    apply (codec_item _ _ _ _ u64_ok). auto.
  - destruct (batch_data_stats m) eqn:?; repeat constructor.
    apply (codec_item _ _ _ _ stats_ok). simpl. auto.
Qed.

Lemma message_payload_length_ok m :
  wf_message m → message_payload_length m = length (concat (message_items m)).
Proof.
  intros []. unfold message_payload_length, message_items.
  rewrite !concat_app, !length_app. simpl. rewrite !length_app. simpl.
  rewrite (codec_len _ _ _ (l2msg m) bytes_ok) by done.
  assert (match header m with Some h => header_length h | None => 1%nat end =
          length (match header m with Some h => L1IncomingMessageHeader_encode h
                                    | None => header_encode true 0 end)) as ->.
  { destruct (header m) as [h|] eqn:?; [apply header_length_ok; auto|by rewrite empty_list_is_c0]. }
  destruct (legacy_batch_gas_cost m) as [c|] eqn:?, (batch_data_stats m) as [st|] eqn:?,
    (has_tail m); simpl; rewrite ?length_app;
    try rewrite (codec_len _ _ _ c u64_ok) by eauto;
    try rewrite (codec_len _ _ _ st stats_ok) by (simpl; eauto); simpl; lia.
Qed.

Lemma message_encode_eq m :
  wf_message m →
  L1IncomingMessage_encode m =
    header_encode true (length (concat (message_items m))) ++ concat (message_items m).
Proof.
  intros Hw. unfold L1IncomingMessage_encode. rewrite message_payload_length_ok by done.
  f_equal. unfold message_items. rewrite !concat_app. simpl. rewrite app_nil_r, <- app_assoc. do 2 f_equal.
  destruct (has_tail m), (batch_data_stats m); simpl; by rewrite ?app_nil_r.
Qed.

Lemma message_header_short m :
  wf_message m → zlen (L1IncomingMessage_encode m) < u64_modulus →
  ∀ h, header m = Some h → zlen (L1IncomingMessageHeader_encode h) < u64_modulus.
Proof.
  intros Hw Hl h Hh. unfold L1IncomingMessage_encode in Hl. rewrite Hh in Hl.
  unfold zlen in *. rewrite !length_app in Hl. lia.
Qed.

Lemma message_raw m rest :
  wf_message m → zlen (L1IncomingMessage_encode m) < u64_modulus →
  decode_raw (L1IncomingMessage_encode m ++ rest) = Ok (PvList (message_items m), rest).
Proof.
  intros Hw Hl. pose proof (message_header_short m Hw Hl) as Hh.
  rewrite message_encode_eq in * by done. rewrite <- app_assoc.
  apply decode_list; [by apply message_items_ok|]. unfold zlen in *. rewrite length_app in Hl. lia.
Qed.

Lemma decode_header_field m :
  wf_message m → zlen (L1IncomingMessage_encode m) < u64_modulus →
  decode_optional_field header_decode
    (match header m with Some h => L1IncomingMessageHeader_encode h | None => header_encode true 0 end)
    EmptyListOnly = Ok (norm_header <$> header m).
Proof.
  intros Hw Hl. pose proof (message_header_short m Hw Hl) as Hs. destruct Hw.
  unfold decode_optional_field. destruct (header m) as [h|] eqn:Eh; [|by rewrite empty_list_raw].
  rewrite header_item by auto. simpl. unfold decode_exact.
  rewrite <- (app_nil_r (L1IncomingMessageHeader_encode h)), header_roundtrip by auto. done.
Qed.

Lemma decode_stats_field st :
  is_u64 (stats_length st) ∧ is_u64 (non_zeros st) →
  decode_optional_field (decode stats_codec) (encode stats_codec st) EmptyListOnly = Ok (Some st).
Proof.
  intros Hst. unfold decode_optional_field. destruct (stats_ok st Hst) as (-> & Hd & _). simpl.
  unfold decode_exact. specialize (Hd []). rewrite app_nil_r in Hd. by rewrite Hd.
Qed.

Lemma message_roundtrip m rest :
  wf_message m → zlen (L1IncomingMessage_encode m) < u64_modulus →
  L1IncomingMessage_decode (L1IncomingMessage_encode m ++ rest) = Ok (norm_message m, rest).
Proof.
  intros Hw Hl. unfold L1IncomingMessage_decode. rewrite message_raw by done.
  unfold message_items. simpl. rewrite decode_header_field by done. destruct Hw.
  rewrite (codec_exact _ _ _ _ bytes_ok) by done. unfold optional_at, norm_message, has_tail.
  destruct (batch_data_stats m) as [st|] eqn:Est.
  - rewrite (bool_decide_eq_true_2 (is_Some (Some st))), orb_true_r by eauto. simpl.
    rewrite (decode_optional_uint 8 u64_codec (legacy_batch_gas_cost m) u64_ok) by auto.
    rewrite decode_stats_field by (by apply wf_stats0). done.
  - rewrite orb_false_r. destruct (legacy_batch_gas_cost m) as [c|] eqn:Ec; simpl; [|done].
    by rewrite (decode_optional_uint 8 u64_codec (Some c) u64_ok) by naive_solver.
Qed.
End roundtrip.
