(* ===== verification/RlpInstance.v ===== *)
(** * A concrete RLP

    An instance of the RLP primitives, written from the Ethereum specification,
    with the proof that it has the laws; the theorems about the codecs and
    everything above them run on it. *)

From coqutil Require Import Byte Word.LittleEndianList.
From S2P Require Import Prelude Bytes Slice Config Rollup NitroTypes Rlp.
From Stdlib Require Import Strings.Byte.
#[global] Open Scope Z_scope.

Definition len_bytes (n : nat) : bytes := trim_leading_zeros (to_be_bytes 8 (Z.of_nat n)).

Definition rlp_header (list : bool) (n : nat) : bytes :=
  if (n <? 56)%nat then [u8_of_Z ((if list then 192 else 128) + Z.of_nat n)]
  else u8_of_Z ((if list then 247 else 183) + zlen (len_bytes n)) :: len_bytes n.

Definition string_encode (b : bytes) : bytes :=
  match b with
  | [x] => if u8_to_Z x <? 128 then [x] else rlp_header false 1 ++ b
  | _ => rlp_header false (length b) ++ b
  end.

(** A number with a leading zero byte. *)
Definition hd_zero (b : bytes) : bool := match b with x :: _ => bool_decide (x = x00) | [] => false end.

(** The header of a buffer: list or string, the payload's length, what follows
    the header.  A length of its own has no leading zero and is at least 56. *)
Definition parse_header (buf : bytes) : result (bool * nat * bytes) rlp_error :=
  match buf with
  | [] => Err InputTooShort
  | b :: r =>
      let z := u8_to_Z b in
      let long list k :=
        if (length r <? k)%nat then Err InputTooShort
        else if hd_zero (take k r) then Err LeadingZero
        else if from_be_bytes (take k r) <? 56 then Err NonCanonicalSize
        else Ok (list, Z.to_nat (from_be_bytes (take k r)), drop k r) in
      if z <? 128 then Ok (false, 1%nat, buf)
      else if z <? 184 then Ok (false, Z.to_nat (z - 128), r)
      else if z <? 192 then long false (Z.to_nat (z - 183))
      else if z <? 248 then Ok (true, Z.to_nat (z - 192), r)
      else long true (Z.to_nat (z - 247))
  end.

(** A string of one byte below 128 is its own encoding, and has no other. *)
Definition noncanonical (list : bool) (buf p : bytes) : bool :=
  match list, buf, p with
  | false, b :: _, [x] => (u8_to_Z b =? 129) && (u8_to_Z x <? 128)
  | _, _, _ => false
  end.

Definition take_item (buf : bytes) : result (bool * bytes * bytes) rlp_error :=
  match parse_header buf with
  | Err e => Err e
  | Ok (list, n, r) =>
      if (length r <? n)%nat then Err InputTooShort
      else if noncanonical list buf (take n r) then Err NonCanonicalSingleByte
      else Ok (list, take n r, drop n r)
  end.

Fixpoint split_items (fuel : nat) (payload : bytes) : result (list bytes) rlp_error :=
  match fuel, payload with
  | _, [] => Ok []
  | O, _ => Err InputTooShort
  | S fuel', _ =>
      match take_item payload with
      | Err e => Err e
      | Ok (_, _, rest) =>
          match split_items fuel' rest with
          | Err e => Err e
          | Ok items => Ok (take (length payload - length rest) payload :: items)
          end
      end
  end.

Definition rlp_decode_raw (buf : bytes) : result (payload_view * bytes) rlp_error :=
  match take_item buf with
  | Err e => Err e
  | Ok (false, p, rest) => Ok (PvString p, rest)
  | Ok (true, p, rest) =>
      match split_items (length p) p with
      | Err e => Err e
      | Ok items => Ok (PvList items, rest)
      end
  end.

Definition string_decode (check : bytes → bool) (buf : bytes) : result (bytes * bytes) rlp_error :=
  match take_item buf with
  | Err e => Err e
  | Ok (true, _, _) => Err UnexpectedList
  | Ok (false, p, rest) => if check p then Ok (p, rest) else Err UnexpectedLength
  end.

Definition string_codec (check : bytes → bool) : codec bytes :=
  {| encode := string_encode; encoded_length b := length (string_encode b); decode := string_decode check |}.

Definition uint_codec (n : nat) : codec Z :=
  let enc z := string_encode (trim_leading_zeros (to_be_bytes n z)) in
  {| encode := enc; encoded_length z := length (enc z);
     decode buf := match string_decode (λ _, true) buf with
                   | Ok (p, rest) =>
                       if (n <? length p)%nat then Err Overflow
                       else if hd_zero p then Err LeadingZero
                       else Ok (from_be_bytes p, rest)
                   | Err e => Err e
                   end |}.

Definition stats_encode (st : BatchDataStats) : bytes :=
  let p := encode (uint_codec 8) (stats_length st) ++ encode (uint_codec 8) (non_zeros st) in
  rlp_header true (length p) ++ p.

Definition stats_decode (buf : bytes) : result (BatchDataStats * bytes) rlp_error :=
  match rlp_decode_raw buf with
  | Err e => Err e
  | Ok (PvList [f0; f1], rest) =>
      match decode_exact (decode (uint_codec 8)) f0, decode_exact (decode (uint_codec 8)) f1 with
      | Ok a, Ok b => Ok ({| stats_length := a; non_zeros := b |}, rest)
      | Err e, _ | _, Err e => Err e
      end
  | Ok (PvList fs, _) => Err (ListLengthMismatch 2 (zlen fs))
  | Ok (PvString _, _) => Err UnexpectedString
  end.

#[export] Instance concrete_rlp : AlloyRlp := {|
  header_encode := rlp_header;
  length_of_length n := length (rlp_header true n);
  decode_raw := rlp_decode_raw;
  u8_codec := uint_codec 1;
  u64_codec := uint_codec 8;
  u256_codec := uint_codec 32;
  address_codec := string_codec (λ p, length p =? 20)%nat;
  b256_codec := string_codec (λ p, length p =? 32)%nat;
  bytes_codec := string_codec (λ _, true);
  stats_codec := {| encode := stats_encode; encoded_length st := length (stats_encode st);
                    decode := stats_decode |};
|}.

(** ** Bytes *)

Lemma u8_of_to z : 0 ≤ z < 256 → u8_to_Z (u8_of_Z z) = z.
Proof. intros Hz. unfold u8_to_Z, u8_of_Z. rewrite byte.unsigned_of_Z. unfold byte.wrap. by apply Z.mod_small. Qed.

Lemma trim_length l : (length (trim_leading_zeros l) ≤ length l)%nat.
Proof. induction l as [|b l IH]; simpl; [done|]. case_decide; simpl; lia. Qed.

Lemma trim_hd_zero l : hd_zero (trim_leading_zeros l) = false.
Proof. induction l as [|b l IH]; simpl; [done|]. case_decide; [done|]. simpl. by apply bool_decide_eq_false. Qed.

Lemma from_be_bytes_cons_zero l : from_be_bytes (x00 :: l) = from_be_bytes l.
Proof.
  unfold from_be_bytes. rewrite reverse_cons. 
  rewrite le_combine_app. change (le_combine [x00]) with 0. by rewrite Z.shiftl_0_l, Z.lor_0_r.
Qed.

Lemma from_be_bytes_trim l : from_be_bytes (trim_leading_zeros l) = from_be_bytes l.
Proof.
  induction l as [|b l IH]; simpl; [done|]. case_decide as E; [|done].
  subst b. by rewrite from_be_bytes_cons_zero.
Qed.

Lemma len_bytes_spec n :
  Z.of_nat n < u64_modulus → (0 < n)%nat →
  (1 ≤ length (len_bytes n) ≤ 8)%nat ∧ from_be_bytes (len_bytes n) = Z.of_nat n.
Proof.
  intros Hn H0. unfold len_bytes. rewrite from_be_bytes_trim.
  assert (Hv : from_be_bytes (to_be_bytes 8 (Z.of_nat n)) = Z.of_nat n).
  { apply from_to_be_bytes_u64. unfold is_u64. lia. }
  split; [|exact Hv]. pose proof (trim_length (to_be_bytes 8 (Z.of_nat n))) as Hl.
  rewrite length_to_be_bytes in Hl. split; [|exact Hl].
  destruct (trim_leading_zeros _) eqn:E; [|simpl; lia].
  rewrite trim_nil in E. rewrite (from_be_bytes_zero _ E) in Hv. lia.
Qed.

(** ** Headers and items *)

Lemma parse_rlp_header l n rest :
  Z.of_nat n < u64_modulus → parse_header (rlp_header l n ++ rest) = Ok (l, n, rest).
Proof.
  intros Hn. unfold rlp_header. destruct (n <? 56)%nat eqn:H; [apply Nat.ltb_lt in H|apply Nat.ltb_ge in H];
    cbn [app parse_header].
  - rewrite u8_of_to by (destruct l; lia).
    destruct l; repeat match goal with |- context [?a <? ?b] => destruct (Z.ltb_spec a b); try lia end;
      do 3 f_equal; lia.
  - destruct (len_bytes_spec n) as [Hl Hv]; [done|lia|]. unfold zlen.
    rewrite u8_of_to by (destruct l; lia).
    destruct l; repeat match goal with
      |- context [(?a <? ?b)%Z] => first [rewrite (proj2 (Z.ltb_lt a b)) by lia|rewrite (proj2 (Z.ltb_ge a b)) by lia] end;
      (match goal with |- context [Z.to_nat ?k] => replace (Z.to_nat k) with (length (len_bytes n)) by lia end);
      rewrite length_app; (destruct (Nat.ltb_spec (length (len_bytes n) + length rest) (length (len_bytes n))); [lia|]);
      rewrite take_app_length, drop_app_length, Hv, Nat2Z.id; unfold len_bytes; rewrite trim_hd_zero;
      (destruct (Z.ltb_spec (Z.of_nat n) 56); [lia|done]).
Qed.

Lemma parse_header_app b l n r rest :
  parse_header b = Ok (l, n, r) → parse_header (b ++ rest) = Ok (l, n, r ++ rest).
Proof.
  destruct b as [|x b]; [done|]. unfold parse_header. simpl.
  repeat match goal with |- context [u8_to_Z x <? ?b] => destruct (Z.ltb_spec (u8_to_Z x) b); try lia end;
    try (intros [= <- <- <-]; done);
    (match goal with |- context [(length b <? ?k)%nat] => destruct (Nat.ltb_spec (length b) k) end); try done;
    rewrite length_app; (match goal with |- context [(?a <? ?k)%nat] => destruct (Nat.ltb_spec a k); [lia|] end);
    rewrite take_app_le, drop_app_le by lia; destruct (hd_zero _); try done;
    (match goal with |- context [?a <? 56] => destruct (a <? 56) end); try done; by intros [= <- <- <-].
Qed.

Lemma take_item_app b l p r rest :
  take_item b = Ok (l, p, r) → take_item (b ++ rest) = Ok (l, p, r ++ rest).
Proof.
  unfold take_item. destruct (parse_header b) as [[[l' n] r']|] eqn:E; [|done].
  rewrite (parse_header_app _ _ _ _ rest E), length_app.
  destruct (Nat.ltb_spec (length r') n); [done|].
  destruct (Nat.ltb_spec (length r' + length rest) n); [lia|].
  rewrite take_app_le, drop_app_le by lia. destruct b as [|x b]; [done|].
  change (noncanonical l' ((x :: b) ++ rest)) with (noncanonical l' (x :: b)).
  destruct (noncanonical _ _ _); [done|]. by intros [= <- <- <-].
Qed.

Lemma noncanonical_large l buf p : (∀ x, p = [x] → 128 ≤ u8_to_Z x) → noncanonical l buf p = false.
Proof.
  intros Hp. destruct l, buf as [|b buf], p as [|x [|y p]]; try done. simpl.
  rewrite (proj2 (Z.ltb_ge _ _) (Hp x eq_refl)). apply andb_false_r.
Qed.

Lemma take_item_string b rest :
  zlen b < u64_modulus → take_item (string_encode b ++ rest) = Ok (false, b, rest).
Proof.
  intros Hb. 
  assert (Hgen : (∀ x, b = [x] → 128 ≤ u8_to_Z x) →
            take_item ((rlp_header false (length b) ++ b) ++ rest) = Ok (false, b, rest)).
  { intros Hx. unfold take_item. rewrite <- app_assoc, parse_rlp_header by done. rewrite length_app.
    destruct (Nat.ltb_spec (length b + length rest) (length b)); [lia|].
    rewrite take_app_length, drop_app_length, noncanonical_large by done. done. }
  unfold string_encode. destruct b as [|x [|y b]]; [by apply Hgen| |by apply Hgen].
  destruct (Z.ltb_spec (u8_to_Z x) 128) as [Hx|Hx]; [|apply Hgen; by intros ? [= <-] ].
  unfold take_item, parse_header. simpl. rewrite (proj2 (Z.ltb_lt _ _) Hx). simpl.
  by rewrite (proj2 (Z.eqb_neq (u8_to_Z x) 129)) by lia.
Qed.

Lemma raw_take_item b v r : rlp_decode_raw b = Ok (v, r) → ∃ l p, take_item b = Ok (l, p, r).
Proof.
  unfold rlp_decode_raw. destruct (take_item b) as [[[[] p] r']|]; [|intros [= <- <-]; eauto|done].
  destruct (split_items _ _); [|done]. intros [= <- <-]. eauto.
Qed.

Lemma split_items_concat fuel items :
  Forall (λ b, ∃ l p, take_item b = Ok (l, p, [])) items → (length (concat items) ≤ fuel)%nat →
  split_items fuel (concat items) = Ok items.
Proof.
  revert items. induction fuel as [|fuel IH]; intros items Hi Hf.
  - destruct items as [|b items]; [done|]. apply Forall_cons in Hi as [(l & p & Hb) _].
    destruct b; [done|]. simpl in Hf. lia.
  - destruct items as [|b items]; [done|]. apply Forall_cons in Hi as [(l & p & Hb) Hi].
    destruct b as [|x b]; [done|]. simpl concat. set (c := concat items) in *.
    pose proof (take_item_app _ _ _ _ c Hb) as Hc. simpl in Hc |- *. rewrite Hc.
    assert (split_items fuel c = Ok items) as ->.
    { apply IH; [done|]. simpl in Hf. rewrite length_app in Hf. unfold c. lia. }
    change (match length c with 0%nat => _ | S l0 => _ end) with (S (length (b ++ c)) - length c)%nat.
    do 2 f_equal. rewrite length_app. replace (S (length b + length c) - length c)%nat with (S (length b)) by lia.
    simpl. by rewrite take_app_length.
Qed.

(** ** The laws *)

Lemma rlp_decode_list items rest :
  Forall (λ b, ∃ v, rlp_decode_raw b = Ok (v, [])) items → zlen (concat items) < u64_modulus →
  rlp_decode_raw (rlp_header true (length (concat items)) ++ concat items ++ rest) = Ok (PvList items, rest).
Proof.
  intros Hi Hl. unfold rlp_decode_raw, take_item. rewrite parse_rlp_header, length_app by done.
  destruct (Nat.ltb_spec (length (concat items) + length rest) (length (concat items))); [lia|].
  rewrite take_app_length, drop_app_length. cbn [noncanonical]. rewrite split_items_concat; [done| |done].
  eapply Forall_impl; [exact Hi|]. intros b [v Hv]. by eapply raw_take_item.
Qed.

Lemma string_raw b : zlen b < u64_modulus → rlp_decode_raw (string_encode b) = Ok (PvString b, []).
Proof.
  intros Hb. unfold rlp_decode_raw. rewrite <- (app_nil_r (string_encode b)).
  by rewrite take_item_string.
Qed.

Lemma string_codec_ok check (P : bytes → Prop) :
  (∀ b, P b → check b = true ∧ zlen b < u64_modulus) →
  codec_ok (H:=concrete_rlp) P (string_codec check) PvString.
Proof.
  intros Hp b Hb. destruct (Hp b Hb) as [Hc Hl]. split_and!; [by apply string_raw| |done].
  intros rest. simpl. unfold string_decode. by rewrite take_item_string, Hc.
Qed.

Lemma uint_codec_ok n :
  Z.of_nat n < u64_modulus →
  codec_ok (H:=concrete_rlp) (λ z, 0 ≤ z < 2 ^ (Z.of_nat n * 8)) (uint_codec n) (uint_view n).
Proof.
  intros Hn z Hz. set (b := trim_leading_zeros (to_be_bytes n z)).
  pose proof (trim_length (to_be_bytes n z)) as Hl. rewrite length_to_be_bytes in Hl.
  assert (Hb : zlen b < u64_modulus) by (unfold zlen, b; lia).
  split_and!; [by apply string_raw| |done].
  intros rest. simpl. unfold string_decode. fold b. rewrite take_item_string by done.
  fold b in Hl. rewrite (proj2 (Nat.ltb_ge _ _) Hl). unfold b. rewrite trim_hd_zero.
  rewrite from_be_bytes_trim, from_to_be_bytes_mod, Z.mod_small by done. done.
Qed.

Lemma uint_encode_short n z : (n < 56)%nat → (length (encode (uint_codec n) z) ≤ S n)%nat.
Proof.
  intros Hn. unfold uint_codec, encode, string_encode. pose proof (trim_length (to_be_bytes n z)) as Hl.
  rewrite length_to_be_bytes in Hl.
  destruct (trim_leading_zeros _) as [|x [|y l]]; simpl in Hl; [simpl; lia| |].
  - destruct (u8_to_Z x <? 128); simpl; lia.
  - rewrite length_app. unfold rlp_header.
    rewrite (proj2 (Nat.ltb_lt _ 56)) by (simpl; lia). simpl. lia.
Qed.

Lemma rlp_decode_pair a b rest :
  (∃ v, rlp_decode_raw a = Ok (v, [])) → (∃ v, rlp_decode_raw b = Ok (v, [])) →
  zlen (a ++ b) < u64_modulus →
  rlp_decode_raw ((rlp_header true (length (a ++ b)) ++ a ++ b) ++ rest) = Ok (PvList [a; b], rest).
Proof.
  intros Ha Hb Hl. pose proof (rlp_decode_list [a; b] rest) as H. simpl in H.
  rewrite !app_nil_r in H. rewrite <- !app_assoc in *. apply H; [by repeat constructor|done].
Qed.

Lemma stats_codec_ok :
  codec_ok (H:=concrete_rlp) (λ st, is_u64 (stats_length st) ∧ is_u64 (non_zeros st)) stats_codec
    (λ st, PvList [encode (uint_codec 8) (stats_length st); encode (uint_codec 8) (non_zeros st)]).
Proof.
  assert (H8 := uint_codec_ok 8 ltac:(done)).
  intros st [Ha Hb]. destruct (H8 _ Ha) as (Ra & Da & _), (H8 _ Hb) as (Rb & Db & _).
  assert (Hraw : ∀ rest, rlp_decode_raw (stats_encode st ++ rest) =
            Ok (PvList [encode (uint_codec 8) (stats_length st); encode (uint_codec 8) (non_zeros st)], rest)).
  { intros rest. apply rlp_decode_pair; [by eexists|by eexists|]. unfold zlen. rewrite length_app.
    pose proof (uint_encode_short 8 (stats_length st)). pose proof (uint_encode_short 8 (non_zeros st)).
    unfold u64_modulus. lia. }
  split_and!; [by rewrite <- (Hraw []), app_nil_r| |done].
  intros rest. change (decode stats_codec (encode stats_codec st ++ rest)) with (stats_decode (stats_encode st ++ rest)).
  unfold stats_decode. rewrite Hraw. specialize (Da []). specialize (Db []). rewrite app_nil_r in Da, Db.
  unfold decode_exact. rewrite Da, Db. by destruct st.
Qed.

#[export] Instance concrete_rlp_laws : AlloyRlpLaws concrete_rlp.
Proof.
  split.
  - apply rlp_decode_list.
  - done.
  - intros l n. simpl. unfold rlp_header. by destruct (n <? 56)%nat.
  - done.
  - by vm_compute.
  - apply (uint_codec_ok 1). done.
  - apply (uint_codec_ok 8). done.
  - apply (uint_codec_ok 32). done.
  - apply string_codec_ok. intros b Hb. unfold zlen. by rewrite Hb.
  - apply string_codec_ok. intros b Hb. unfold zlen. by rewrite Hb.
  - apply string_codec_ok. done.
  - apply stats_codec_ok.
Qed.

(** ** Properties of the codecs *)

(** C23. The hand-written RLP of [L1IncomingMessage] round-trips with any bytes
    after it, for every message whose fields are in range: what is decoded is the
    message itself, up to the one identification RLP forces, that a zero base fee
    or gas cost is read as absent. *)
Theorem rlp_message_roundtrip (A : AlloyRlp) (L : AlloyRlpLaws A) m rest :
  wf_message m → zlen (L1IncomingMessage_encode m) < u64_modulus →
  L1IncomingMessage_decode (L1IncomingMessage_encode m ++ rest) = Ok (norm_message m, rest).
Proof. apply message_roundtrip. Qed.

(** The announced lengths are the real ones: the list header of an encoded
    message carries the length of what follows it, for the message and for the
    header inside it. *)
Theorem rlp_lengths_exact (A : AlloyRlp) (L : AlloyRlpLaws A) m :
  wf_message m →
  length (L1IncomingMessage_encode m) =
    (length_of_length (message_payload_length m) + message_payload_length m)%nat ∧
  ∀ h, header m = Some h → length (L1IncomingMessageHeader_encode h) = header_length h.
Proof.
  intros Hw. split.
  - by rewrite message_encode_eq, length_app, header_encode_length, message_payload_length_ok by done.
  - intros h Hh. symmetry. apply header_length_ok. by apply (wf_msg_header m Hw).
Qed.

(** The message of the tests in [types.rs]: zero base fee, present request id. *)
Definition sample_l1 : L1IncomingMessage := {|
  header := Some {| kind := 3; poster := replicate 20 x00; block_number := 1000; timestamp := 1700000000;
                    request_id := Some (replicate 32 x00); l1_base_fee := Some 0 |};
  l2msg := u8_of_Z <$> [222; 173; 190; 239];
  legacy_batch_gas_cost := None;
  batch_data_stats := Some {| stats_length := 7; non_zeros := 300 |};
|}.

Lemma sample_l1_wf : wf_message sample_l1.
Proof.
  assert (Hu : ∀ z, 0 ≤ z < 2 ^ 32 → is_u64 z) by (intros z Hz; unfold is_u64, u64_modulus; lia).
  split.
  - intros h [= <-]. split; cbn -[is_u64 is_U256]; [lia|done|apply Hu; lia|apply Hu; lia|by intros ? [= <-]|].
    intros fee [= <-]. unfold is_U256. lia.
  - by vm_compute.
  - done.
  - intros st [= <-]. cbn -[is_u64]. split; apply Hu; lia.
Qed.

Lemma rlp_message_roundtrip_witness :
  L1IncomingMessage_decode (L1IncomingMessage_encode sample_l1 ++ [x00; x01]) =
    Ok (norm_message sample_l1, [x00; x01]) ∧
  norm_message sample_l1 ≠ sample_l1.
Proof.
  split; [|done].
  apply (rlp_message_roundtrip concrete_rlp concrete_rlp_laws); [exact sample_l1_wf|by vm_compute].
Defined.

Lemma rlp_lengths_exact_witness :
  length (L1IncomingMessage_encode sample_l1) =
    (length_of_length (message_payload_length sample_l1) + message_payload_length sample_l1)%nat ∧
  message_payload_length sample_l1 = 77%nat.
Proof.
  split; [|by vm_compute].
  exact (proj1 (rlp_lengths_exact concrete_rlp concrete_rlp_laws sample_l1 sample_l1_wf)).
Defined.
