(* ===== verification/Batch.v ===== *)
(** * Parsing sequencer batches

    [src/src/rollups/nitro/batch_parsing.rs] and
    [src/src/rollups/nitro/decompress/brotli.rs].  Brotli is a parameter; the
    segments are RLP byte strings. *)

From S2P Require Import Prelude Bytes Slice Config Rollup NitroTypes Rlp RlpInstance.
From Stdlib Require Import Strings.Byte.

Definition MAX_DECOMPRESSED_LEN : Z := 1024 * 1024 * 16.
Definition MAX_L2_MESSAGE_SIZE : Z := 256 * 1024.
Definition MAX_SEGMENTS : nat := Z.to_nat (100 * 1024).

(** The crate [brotli]: [brotli_take input n] is what
    [Decompressor::new(input, _).take(n).read_to_end()] yields, the first [n]
    bytes of the decompressed stream or an error. *)
Class Brotli := {
  brotli_take : bytes → Z → result bytes string;
  brotli_take_bound input n out : 0 ≤ n → brotli_take input n = Ok out → zlen out ≤ n;
}.

Section batch.
Context {A : AlloyRlp} {B : Brotli}.
Open Scope cas_scope.

Definition decompress (input : bytes) (max_size : Z) : result bytes string :=
  let? output := map_err (λ e, "brotli decompression failed: " +:+ e) (brotli_take input (max_size + 1)) in
  if max_size <? zlen output then Err "decompression result too large" else Ok output.

(** The segment loop.  It stops when the buffer is empty, when [MAX_SEGMENTS]
    segments have been read and bytes remain, and at the first error, which is
    ignored if it is a truncated segment.  [fuel] counts the segments that may
    still be read. *)
Fixpoint decode_segments (fuel : nat) (buf : bytes) : result (list bytes) string :=
  match buf, fuel with
  | [], _ => Ok []
  | _, O => Err "too many segments in sequence batch"
  | _, S fuel' =>
      match decode bytes_codec buf with
      | Ok (segment, buf') =>
          let? segments := decode_segments fuel' buf' in Ok (segment :: segments)
      | Err e => if decide (e = InputTooShort) then Ok [] else Err "error parsing sequencer message segment"
      end
  end.

Definition BROTLI_HEADER_BYTE : u8 := x00.
Definition BATCH_SEGMENT_KIND_L2_MESSAGE : u8 := x00.
Definition BATCH_SEGMENT_KIND_L2_MESSAGE_BROTLI : u8 := x01.
Definition BATCH_SEGMENT_KIND_DELAYED_MESSAGES : u8 := x02.
Definition BATCH_SEGMENT_KIND_ADVANCE_TIMESTAMP : u8 := x03.
Definition BATCH_SEGMENT_KIND_ADVANCE_L1_BLOCK_NUMBER : u8 := x04.

(** One segment: the message it contributes, if any. *)
Definition segment_message (segment : bytes) : result (list BatchMessage) string :=
  match segment with
  | [] => Ok []
  | kind :: data =>
      if decide (kind = BATCH_SEGMENT_KIND_L2_MESSAGE) then Ok [L2Msg data]
      else if decide (kind = BATCH_SEGMENT_KIND_L2_MESSAGE_BROTLI) then
        let? msg := map_err (λ _, "brotli-compressed L2 message segment would replay as a placeholder")
                      (decompress data MAX_L2_MESSAGE_SIZE) in Ok [L2Msg msg]
      else if decide (kind = BATCH_SEGMENT_KIND_DELAYED_MESSAGES) then Ok [DelayedMsg]
      else if decide (kind = BATCH_SEGMENT_KIND_ADVANCE_TIMESTAMP ∨
                      kind = BATCH_SEGMENT_KIND_ADVANCE_L1_BLOCK_NUMBER) then Ok []
      else Err "unknown batch segment kind"
  end.

Fixpoint segments_messages (segments : list bytes) : result (list BatchMessage) string :=
  match segments with
  | [] => Ok []
  | segment :: segments' =>
      let? m := segment_message segment in
      let? ms := segments_messages segments' in
      Ok (m ++ ms)
  end.

Definition parse_batch (batch_content : bytes) : result (list BatchMessage) string :=
  match batch_content with
  | [] => Err "empty sequencer message"
  | b :: payload =>
      if decide (b = BROTLI_HEADER_BYTE) then
        let? segment_data := decompress payload MAX_DECOMPRESSED_LEN in
        let? segments := decode_segments MAX_SEGMENTS segment_data in
        segments_messages segments
      else Err "unsupported batch header byte"
  end.

(** ** The canonical replay

    What the module's documentation says of the upstream replayer: every segment
    it can interpret is a message slot, the two timestamp kinds take no slot, and
    what it cannot interpret is a placeholder that is counted. *)

Inductive slot := SlotMessage (m : BatchMessage) | SlotPlaceholder.

Definition replay_segment (segment : bytes) : list slot :=
  match segment with
  | [] => []
  | k :: data =>
      if decide (k = x00) then [SlotMessage (L2Msg data)]
      else if decide (k = x01) then
        match brotli_take data (MAX_L2_MESSAGE_SIZE + 1) with
        | Ok m => if decide (zlen m ≤ MAX_L2_MESSAGE_SIZE) then [SlotMessage (L2Msg m)] else [SlotPlaceholder]
        | Err _ => [SlotPlaceholder]
        end
      else if decide (k = x02) then [SlotMessage DelayedMsg]
      else if decide (k = x03 ∨ k = x04) then []
      else [SlotPlaceholder]
  end.

Lemma decompress_cases input n :
  decompress input n =
  match brotli_take input (n + 1) with
  | Ok out => if decide (zlen out ≤ n) then Ok out else Err "decompression result too large"
  | Err e => Err ("brotli decompression failed: " +:+ e)
  end.
Proof.
  unfold decompress. destruct (brotli_take input (n + 1)) as [out|]; [|done]. simpl.
  destruct (Z.ltb_spec n (zlen out)); case_decide; done || lia.
Qed.

Lemma segment_message_spec segment :
  match segment_message segment with
  | Ok ms => replay_segment segment = SlotMessage <$> ms
  | Err _ => replay_segment segment = [SlotPlaceholder]
  end.
Proof.
  destruct segment as [|k data]; [done|]. unfold segment_message, replay_segment,
    BATCH_SEGMENT_KIND_L2_MESSAGE, BATCH_SEGMENT_KIND_L2_MESSAGE_BROTLI,
    BATCH_SEGMENT_KIND_DELAYED_MESSAGES, BATCH_SEGMENT_KIND_ADVANCE_TIMESTAMP,
    BATCH_SEGMENT_KIND_ADVANCE_L1_BLOCK_NUMBER.
  case_decide; [done|]. case_decide; [|by repeat case_decide].
  rewrite decompress_cases. destruct (brotli_take _ _) as [out|]; [|done]. by case_decide.
Qed.

(** All segments are interpreted, or the parse fails. *)
Lemma segments_messages_spec segments :
  match segments_messages segments with
  | Ok ms => concat (replay_segment <$> segments) = SlotMessage <$> ms
  | Err _ => SlotPlaceholder ∈ concat (replay_segment <$> segments)
  end.
Proof.
  induction segments as [|sg segments IH]; [done|]. simpl.
  pose proof (segment_message_spec sg) as Hs. destruct (segment_message sg) as [m|]; simpl.
  - destruct (segments_messages segments) as [ms|]; simpl in *.
    + unfold fmap in *. rewrite Hs, IH. by rewrite <- fmap_app.
    + apply elem_of_app. by right.
  - rewrite Hs. apply elem_of_app. left. set_solver.
Qed.

(** What the segments of a stream are, without a bound on their number: RLP strings
    one after the other until the stream ends, or until a [tail] that is a truncated
    string. *)
Inductive splits : bytes → list bytes → bytes → Prop :=
| splits_end : splits [] [] []
| splits_truncated tail : tail ≠ [] → decode bytes_codec tail = Err InputTooShort → splits tail [] tail
| splits_segment buf segment rest segments tail :
    buf ≠ [] → decode bytes_codec buf = Ok (segment, rest) → splits rest segments tail →
    splits buf (segment :: segments) tail.

(** The strings of a stream, the truncated one included. *)
Definition strings_of (segments : list bytes) (tail : bytes) : nat :=
  (length segments + if decide (tail = []) then 0 else 1)%nat.

Lemma decode_segments_splits fuel buf segments :
  decode_segments fuel buf = Ok segments ↔
  ∃ tail, splits buf segments tail ∧ (strings_of segments tail ≤ fuel)%nat.
Proof.
  unfold strings_of. split.
  - revert buf segments. induction fuel as [|fuel IH]; intros [|b buf] segments; simpl; try done.
    1,2: intros [= <-]; exists []; split; [constructor|rewrite decide_True by done; simpl; lia].
    destruct (decode bytes_codec (b :: buf)) as [ [sg rest]|e] eqn:E.
    + destruct (decode_segments fuel rest) as [sgs|] eqn:Er; [|done]. intros [= <-].
      destruct (IH rest sgs Er) as (tail & Hs & Hl). exists tail. split; [by econstructor|]. simpl. lia.
    + case_decide as He; [subst e|done]. intros [= <-]. exists (b :: buf).
      split; [by constructor|]. rewrite decide_False by done. simpl. lia.
  - intros (tail & Hs & Hl). revert fuel Hl.
    induction Hs as [|tail Ht Hd|buf sg rest sgs tail Hb Hd Hs IH]; intros fuel Hl; [by destruct fuel|..].
    + rewrite decide_False in Hl by done. destruct fuel as [|fuel]; [simpl in Hl; lia|].
      destruct tail as [|b tail]; [done|]. cbn [decode_segments]. by rewrite Hd, decide_True by done.
    + simpl in Hl. destruct fuel as [|fuel]; [lia|]. destruct buf as [|b buf]; [done|]. cbn [decode_segments].
      rewrite Hd, (IH fuel) by lia. done.
Qed.

(** The messages are those of a replay without placeholder. *)
Lemma segments_messages_iff segments ms :
  segments_messages segments = Ok ms ↔ concat (replay_segment <$> segments) = SlotMessage <$> ms.
Proof.
  pose proof (segments_messages_spec segments) as H. destruct (segments_messages segments) as [ms'|].
  - rewrite H. split; [by intros [= ->]|]. intros E. f_equal. symmetry. eapply (list_fmap_eq_inj SlotMessage); [by intros ? ? [= ->]|exact (eq_sym E)].
  - split; [done|]. intros E. rewrite E in H. by apply list_elem_of_fmap in H as (? & ? & ?).
Qed.

Lemma decompress_bound input n out : decompress input n = Ok out → zlen out ≤ n.
Proof.
  unfold decompress. destruct (brotli_take input (n + 1)); simpl; [|done].
  destruct (Z.ltb_spec n (zlen a)); [done|]. by intros [= <-].
Qed.
End batch.

Section stream.
Context {A : AlloyRlp} {L : AlloyRlpLaws A} {B : Brotli}.

(** A stream of encoded segments decodes to the segments, with a truncated
    segment at the end ignored. *)
Lemma decode_segments_encoded fuel segments tail :
  Forall (λ sg, zlen sg < u64_modulus) segments → (length segments ≤ fuel)%nat →
  (tail = [] ∨ decode bytes_codec tail = Err InputTooShort ∧ (length segments < fuel)%nat) →
  decode_segments fuel (concat (encode bytes_codec <$> segments) ++ tail) = Ok segments.
Proof.
  intros Hs. revert fuel. induction Hs as [|sg segments Hsg Hs IH]; intros fuel Hf Ht; simpl.
  { destruct tail as [|b tail]; [by destruct fuel|]. destruct Ht as [?|[Ht Hlt] ]; [done|].
    destruct fuel as [|fuel]; [simpl in Hlt; lia|]. simpl. rewrite Ht. by rewrite decide_True. }
  destruct fuel as [|fuel]; [simpl in Hf; lia|].
  destruct (bytes_ok sg Hsg) as (Hraw & Hd & _). rewrite <- app_assoc.
  specialize (Hd (concat (encode bytes_codec <$> segments) ++ tail)).
  destruct (encode bytes_codec sg ++ _) as [|b0 buf] eqn:E.
  - apply app_eq_nil in E as [E1 E2]. rewrite E1 in Hraw.
    by rewrite decode_raw_nil in Hraw.
  - cbn [decode_segments]. rewrite Hd.
    rewrite IH; [done|simpl in Hf; lia|]. simpl in Ht. destruct Ht as [?|[? ?] ]; [by left|right].
    split; [done|lia].
Qed.

(** One segment more than the rounds given is an error. *)
Lemma decode_segments_too_many fuel segments :
  Forall (λ sg, zlen sg < u64_modulus) segments → (fuel < length segments)%nat →
  decode_segments fuel (concat (encode bytes_codec <$> segments)) = Err "too many segments in sequence batch".
Proof.
  intros Hs. revert fuel. induction Hs as [|sg segments Hsg Hs IH]; intros fuel Hf; simpl in Hf |- *; [lia|].
  destruct (bytes_ok sg Hsg) as (Hraw & Hd & _).
  specialize (Hd (concat (encode bytes_codec <$> segments))). unfold fmap in Hd, IH |- *.
  destruct (encode bytes_codec sg ++ _) as [|b0 buf] eqn:E.
  - apply app_eq_nil in E as [E1 E2]. rewrite E1 in Hraw. by rewrite decode_raw_nil in Hraw.
  - destruct fuel as [|fuel]; [done|]. cbn [decode_segments]. rewrite Hd. by rewrite IH by lia.
Qed.
End stream.

(** ** Properties *)

Section properties.
Context {A : AlloyRlp} {L : AlloyRlpLaws A} {B : Brotli}.

(** C22. Whatever the bytes, a batch parses to [msgs] exactly if it has the Brotli
    header byte, its content decompresses to at most 16 MiB and is a sequence of at
    most [MAX_SEGMENTS] RLP strings, of which the last may be truncated, and the
    canonical replay of the complete ones is [msgs] and nothing else.  So a stream of
    more strings is refused, never cut short, and so is a batch with a segment that
    would replay as a placeholder. *)
Theorem parse_batch_is_replay batch_content msgs :
  parse_batch batch_content = Ok msgs ↔
  ∃ payload data segments tail,
    batch_content = BROTLI_HEADER_BYTE :: payload ∧
    brotli_take payload (MAX_DECOMPRESSED_LEN + 1) = Ok data ∧ zlen data ≤ MAX_DECOMPRESSED_LEN ∧
    splits data segments tail ∧ (strings_of segments tail ≤ MAX_SEGMENTS)%nat ∧
    concat (replay_segment <$> segments) = SlotMessage <$> msgs.
Proof.
  unfold parse_batch. generalize MAX_DECOMPRESSED_LEN MAX_SEGMENTS. intros max n.
  destruct batch_content as [|b payload]; [naive_solver|].
  case_decide as Hb; [subst b|naive_solver]. rewrite decompress_cases.
  destruct (brotli_take payload (max + 1)) as [data|] eqn:Hbr; [|split; [done|naive_solver congruence] ].
  case_decide as Hd; [|split; [done|naive_solver congruence] ].
  split.
  - destruct (decode_segments n data) as [segments|] eqn:Hs; [|done].
    apply decode_segments_splits in Hs as (tail & Hs & Hl). intros Hm%segments_messages_iff.
    exists payload, data, segments, tail. by split_and!.
  - intros (payload' & data' & segments & tail & [= <-] & Hbr' & _ & Hs & Hl & Hm).
    rewrite Hbr in Hbr'. apply Ok_inj in Hbr' as <-.
    assert (decode_segments n data = Ok segments) as -> by (apply decode_segments_splits; by exists tail).
    by apply segments_messages_iff.
Qed.

(** A stream of more than [MAX_SEGMENTS] encoded segments is refused. *)
Lemma parse_batch_too_many payload segments :
  let data := concat (encode bytes_codec <$> segments) in
  decompress payload MAX_DECOMPRESSED_LEN = Ok data →
  Forall (λ sg, zlen sg < u64_modulus) segments → (MAX_SEGMENTS < length segments)%nat →
  parse_batch (BROTLI_HEADER_BYTE :: payload) = Err "too many segments in sequence batch".
Proof.
  unfold parse_batch. generalize MAX_SEGMENTS. intros n Hd Hs Hn. rewrite decide_True, Hd by done.
  by rewrite (decode_segments_too_many n segments).
Qed.

(** The segment a batch poster writes for a message, uncompressed. *)
Definition message_segment (m : BatchMessage) : bytes :=
  match m with
  | L2Msg content => BATCH_SEGMENT_KIND_L2_MESSAGE :: content
  | DelayedMsg => [BATCH_SEGMENT_KIND_DELAYED_MESSAGES]
  end.

(** Round trip: a batch that compresses the encoded segments of a list of
    messages, within the size limits, parses to that list. *)
Theorem parse_batch_roundtrip payload msgs :
  let data := concat (encode bytes_codec <$> (message_segment <$> msgs)) in
  brotli_take payload (MAX_DECOMPRESSED_LEN + 1) = Ok data →
  zlen data ≤ MAX_DECOMPRESSED_LEN → (length msgs ≤ MAX_SEGMENTS)%nat →
  Forall (λ m, zlen (message_segment m) < u64_modulus) msgs →
  parse_batch (BROTLI_HEADER_BYTE :: payload) = Ok msgs.
Proof.
  intros data Hb Hlen Hn Hf. unfold parse_batch. rewrite decide_True by done.
  assert (decompress payload MAX_DECOMPRESSED_LEN = Ok data) as ->.
  { unfold decompress. rewrite Hb. simpl. by rewrite (proj2 (Z.ltb_ge _ _) Hlen). }
  assert (decode_segments MAX_SEGMENTS data = Ok (message_segment <$> msgs)) as ->.
  { rewrite <- (app_nil_r data). apply decode_segments_encoded; [by apply Forall_fmap| |by left].
    by rewrite length_fmap. }
  clear. induction msgs as [|[content|] msgs IH]; [done| |]; simpl; unfold fmap in IH; by rewrite IH.
Qed.
End properties.

(** A brotli that stores its input. *)
#[export] Program Instance stored_brotli : Brotli := {|
  brotli_take input n := Ok (if zlen input <=? n then input else take (Z.to_nat n) input);
|}.
Next Obligation.
  intros input n out Hn [= <-]. destruct (Z.leb_spec (zlen input) n); [done|].
  unfold zlen. rewrite length_take. lia.
Qed.

Definition sample_msgs : list BatchMessage := [L2Msg [x2a; x2b]; DelayedMsg; L2Msg []].

Definition sample_payload : bytes := concat (encode bytes_codec <$> (message_segment <$> sample_msgs)).

Lemma parse_batch_roundtrip_witness :
  parse_batch (BROTLI_HEADER_BYTE :: sample_payload) = Ok sample_msgs.
Proof.
  apply (parse_batch_roundtrip sample_payload sample_msgs);
    [by vm_compute|by vm_compute|apply Nat.leb_le; by vm_compute|].
  repeat (apply Forall_cons; split; [by vm_compute|]). by apply Forall_nil.
Defined.
