(* ===== verification/FeedJson.v ===== *)
(** * The JSON of the feed

    The serde implementations of [BroadcastMessage], [BroadcastFeedMessage] and what
    they hold ([src/src/rollups/nitro/feed/message.rs],
    [src/src/rollups/nitro/types.rs]): the names, aliases and defaults of the fields,
    base64, hexadecimal and the decimal base fee.  A message of the wire, one within
    the ranges of its types whose base fee fits 64 bits, is read back as it was
    written by either build of the service. *)

From S2P Require Import Prelude Bytes Slice Config Json Rollup NitroTypes GoBigInt NitroVerify Rlp.
#[local] Open Scope string_scope.
#[local] Open Scope Z_scope.

(** [serde_with]'s base64 and the hexadecimal serde forms of [alloy]'s fixed-size
    byte strings. *)
Class WireText := {
  base64_encode : bytes → string;
  base64_decode : string → result bytes string;
  fixed_to_string : bytes → string;
  fixed_from_value : nat → Value → result bytes string;
}.

Class WireTextLaws (W : WireText) : Prop := {
  base64_law b : base64_decode (base64_encode b) = Ok b;
  fixed_law n b : length b = n → fixed_from_value n (JString (fixed_to_string b)) = Ok b;
  fixed_length n v b : fixed_from_value n v = Ok b → length b = n;
}.

Section feed_json.
Context {W : WireText} {T : U256Text}.

Definition de_base64 (v : Value) : result bytes string :=
  match v with JString s => base64_decode s | _ => Err "invalid type" end.

(** [DefaultOnNull<Base64>] *)
Definition de_null_base64 (v : Value) : result bytes string :=
  match v with JNull => Ok [] | _ => de_base64 v end.

(** ** [BatchDataStats] *)

Definition ser_stats (st : BatchDataStats) : Value :=
  JObject [("length", JNumber (stats_length st)); ("nonzeros", JNumber (non_zeros st))].

Definition stats_de : struct_de (option Z * option Z) BatchDataStats := {|
  sd_names := [["length"]; ["nonzeros"]];
  sd_empty := (None, None);
  sd_set i v '(l, n) :=
    match i with
    | 0%nat => put "length" l (de_uint u64_modulus) v (λ x, (Some x, n))
    | _ => put "nonzeros" n (de_uint u64_modulus) v (λ x, (l, Some x))
    end;
  sd_finish by_position '(l, n) :=
    let? l := required by_position "length" l in
    let? n := required by_position "nonzeros" n in
    Ok {| stats_length := l; non_zeros := n |};
|}.

(** ** [L1IncomingMessageHeader] *)

Definition ser_header (h : L1IncomingMessageHeader) : result Value string :=
  let? fee := bigint_serialize (l1_base_fee h) in
  Ok (JObject [
    ("kind", JNumber (kind h));
    ("sender", JString (fixed_to_string (poster h)));
    ("blockNumber", JNumber (block_number h));
    ("timestamp", JNumber (timestamp h));
    ("requestId", ser_option (JString ∘ fixed_to_string) (request_id h));
    ("baseFeeL1", fee)]).

Record header_fields := {
  hf_kind : option Z;
  hf_sender : option Address;
  hf_block_number : option Z;
  hf_timestamp : option Z;
  hf_request_id : option (option B256);
  hf_base_fee : option (option Z);
}.

Definition header_de : struct_de header_fields L1IncomingMessageHeader := {|
  sd_names := [["kind"]; ["sender"]; ["blockNumber"]; ["timestamp"]; ["requestId"]; ["baseFeeL1"]];
  sd_empty := {| hf_kind := None; hf_sender := None; hf_block_number := None; hf_timestamp := None;
                 hf_request_id := None; hf_base_fee := None |};
  sd_set i v '{| hf_kind := k; hf_sender := s; hf_block_number := b; hf_timestamp := t;
                 hf_request_id := r; hf_base_fee := f |} :=
    match i with
    | 0%nat => put "kind" k (de_uint 256) v (λ x, Build_header_fields (Some x) s b t r f)
    | 1%nat => put "sender" s (fixed_from_value 20) v (λ x, Build_header_fields k (Some x) b t r f)
    | 2%nat => put "blockNumber" b (de_uint u64_modulus) v (λ x, Build_header_fields k s (Some x) t r f)
    | 3%nat => put "timestamp" t (de_uint u64_modulus) v (λ x, Build_header_fields k s b (Some x) r f)
    | 4%nat => put "requestId" r (de_option (fixed_from_value 32)) v (λ x, Build_header_fields k s b t (Some x) f)
    | _ => put "baseFeeL1" f bigint_deserialize v (λ x, Build_header_fields k s b t r (Some x))
    end;
  sd_finish by_position '{| hf_kind := k; hf_sender := s; hf_block_number := b; hf_timestamp := t;
                            hf_request_id := r; hf_base_fee := f |} :=
    let? k := required by_position "kind" k in
    let? s := required by_position "sender" s in
    let? b := required by_position "blockNumber" b in
    let? t := required by_position "timestamp" t in
    let? r := optional by_position r in
    let? f := required by_position "baseFeeL1" f in
    Ok {| kind := k; poster := s; block_number := b; timestamp := t; request_id := r; l1_base_fee := f |};
|}.

(** ** [L1IncomingMessage] *)

Definition ser_incoming (m : L1IncomingMessage) : result Value string :=
  let? h := match header m with None => Ok JNull | Some h => ser_header h end in
  Ok (JObject (
    [("header", h); ("l2Msg", JString (base64_encode (l2msg m)))] ++
    field_unless is_none "batchGasCost" (legacy_batch_gas_cost m) (ser_option JNumber (legacy_batch_gas_cost m)) ++
    field_unless is_none "batchDataTokens" (batch_data_stats m) (ser_option ser_stats (batch_data_stats m)))).

Record incoming_fields := {
  if_header : option (option L1IncomingMessageHeader);
  if_l2msg : option bytes;
  if_gas_cost : option (option Z);
  if_stats : option (option BatchDataStats);
}.

Definition incoming_de : struct_de incoming_fields L1IncomingMessage := {|
  sd_names := [["header"]; ["l2Msg"]; ["batchGasCost"]; ["batchDataTokens"]];
  sd_empty := {| if_header := None; if_l2msg := None; if_gas_cost := None; if_stats := None |};
  sd_set i v '{| if_header := h; if_l2msg := m; if_gas_cost := g; if_stats := s |} :=
    match i with
    | 0%nat => put "header" h (de_option (de_struct header_de)) v (λ x, Build_incoming_fields (Some x) m g s)
    | 1%nat => put "l2Msg" m de_base64 v (λ x, Build_incoming_fields h (Some x) g s)
    | 2%nat => put "batchGasCost" g (de_option (de_uint u64_modulus)) v (λ x, Build_incoming_fields h m (Some x) s)
    | _ => put "batchDataTokens" s (de_option (de_struct stats_de)) v (λ x, Build_incoming_fields h m g (Some x))
    end;
  sd_finish by_position '{| if_header := h; if_l2msg := m; if_gas_cost := g; if_stats := s |} :=
    let? h := optional by_position h in
    let? m := required by_position "l2Msg" m in
    let? g := optional by_position g in
    let? s := optional by_position s in
    Ok {| header := h; l2msg := m; legacy_batch_gas_cost := g; batch_data_stats := s |};
|}.

(** ** [MessageWithMetadata] *)

Definition ser_metadata (m : MessageWithMetadata) : result Value string :=
  let? im := match message m with None => Ok JNull | Some im => ser_incoming im end in
  Ok (JObject [("message", im); ("delayedMessagesRead", JNumber (delayed_messages_read m))]).

Definition metadata_de : struct_de (option (option L1IncomingMessage) * option Z) MessageWithMetadata := {|
  sd_names := [["message"]; ["delayedMessagesRead"]];
  sd_empty := (None, None);
  sd_set i v '(m, d) :=
    match i with
    | 0%nat => put "message" m (de_option (de_struct incoming_de)) v (λ x, (Some x, d))
    | _ => put "delayedMessagesRead" d (de_uint u64_modulus) v (λ x, (m, Some x))
    end;
  sd_finish by_position '(m, d) :=
    let? m := optional by_position m in
    let? d := required by_position "delayedMessagesRead" d in
    Ok {| message := m; delayed_messages_read := d |};
|}.

(** ** [BroadcastFeedMessage]

    The signature is written under the name of the build's feature [nitro-v3_9_9],
    and read under either name. *)

Definition signature_name (nitro_v3_9_9 : bool) : string := if nitro_v3_9_9 then "signature" else "signatureV2".

Definition ser_feed_message (nitro_v3_9_9 : bool) (m : BroadcastFeedMessage) : result Value string :=
  let? mm := ser_metadata (feed_msg m) in
  Ok (JObject (
    [("sequenceNumber", JNumber (msg_sequence_number m)); ("message", mm);
     (signature_name nitro_v3_9_9, JString (base64_encode (signature m)))] ++
    field_unless is_empty "blockMetadata" (block_metadata m) (JString (base64_encode (block_metadata m))) ++
    field_unless is_none "blockHash" (block_hash m) (ser_option (JString ∘ fixed_to_string) (block_hash m)))).

Record feed_fields := {
  ff_sequence_number : option Z;
  ff_message : option MessageWithMetadata;
  ff_signature : option bytes;
  ff_block_metadata : option bytes;
  ff_block_hash : option (option B256);
}.

Definition feed_de (nitro_v3_9_9 : bool) : struct_de feed_fields BroadcastFeedMessage := {|
  sd_names := [["sequenceNumber"]; ["message"]; [signature_name nitro_v3_9_9; signature_name (negb nitro_v3_9_9)];
               ["blockMetadata"]; ["blockHash"]];
  sd_empty := {| ff_sequence_number := None; ff_message := None; ff_signature := None; ff_block_metadata := None;
                 ff_block_hash := None |};
  sd_set i v '{| ff_sequence_number := n; ff_message := m; ff_signature := s; ff_block_metadata := d;
                 ff_block_hash := h |} :=
    match i with
    | 0%nat => put "sequenceNumber" n (de_uint u64_modulus) v (λ x, Build_feed_fields (Some x) m s d h)
    | 1%nat => put "message" m (de_struct metadata_de) v (λ x, Build_feed_fields n (Some x) s d h)
    | 2%nat => put (signature_name nitro_v3_9_9) s de_null_base64 v (λ x, Build_feed_fields n m (Some x) d h)
    | 3%nat => put "blockMetadata" d de_null_base64 v (λ x, Build_feed_fields n m s (Some x) h)
    | _ => put "blockHash" h (de_option (fixed_from_value 32)) v (λ x, Build_feed_fields n m s d (Some x))
    end;
  sd_finish by_position '{| ff_sequence_number := n; ff_message := m; ff_signature := s; ff_block_metadata := d;
                  ff_block_hash := h |} :=
    let? n := required by_position "sequenceNumber" n in
    let? m := required by_position "message" m in
    Ok {| msg_sequence_number := n; feed_msg := m; signature := default [] s; block_metadata := default [] d;
          cumulative_sum_msg_size := 0; block_hash := default None h |};
|}.

(** ** [ConfirmedSequenceNumberMessage] and [BroadcastMessage] *)

Definition ser_confirmed (c : ConfirmedSequenceNumberMessage) : Value :=
  JObject [("sequenceNumber", JNumber (confirmed_sequence_number c))].

Definition confirmed_de : struct_de (option Z) ConfirmedSequenceNumberMessage := {|
  sd_names := [["sequenceNumber"]];
  sd_empty := None;
  sd_set _ v n := put "sequenceNumber" n (de_uint u64_modulus) v Some;
  sd_finish by_position n := let? n := required by_position "sequenceNumber" n in Ok {| confirmed_sequence_number := n |};
|}.

Fixpoint ser_messages (nitro_v3_9_9 : bool) (l : list (option BroadcastFeedMessage)) : result (list Value) string :=
  match l with
  | [] => Ok []
  | o :: l' =>
      let? v := match o with None => Ok JNull | Some m => ser_feed_message nitro_v3_9_9 m end in
      let? vs := ser_messages nitro_v3_9_9 l' in
      Ok (v :: vs)
  end.

Definition ser_broadcast (nitro_v3_9_9 : bool) (bm : BroadcastMessage) : result Value string :=
  let? ms := ser_messages nitro_v3_9_9 (messages bm) in
  Ok (JObject (
    [("version", JNumber (version bm))] ++
    field_unless is_empty "messages" (messages bm) (JArray ms) ++
    field_unless is_none "confirmedSequenceNumberMessage" (confirmed_sequence_number_message bm)
      (ser_option ser_confirmed (confirmed_sequence_number_message bm)))).

Record broadcast_fields := {
  bf_version : option Z;
  bf_messages : option (list (option BroadcastFeedMessage));
  bf_confirmed : option (option ConfirmedSequenceNumberMessage);
}.

Definition broadcast_de (nitro_v3_9_9 : bool) : struct_de broadcast_fields BroadcastMessage := {|
  sd_names := [["version"]; ["messages"]; ["confirmedSequenceNumberMessage"]];
  sd_empty := {| bf_version := None; bf_messages := None; bf_confirmed := None |};
  sd_set i v '{| bf_version := n; bf_messages := ms; bf_confirmed := c |} :=
    match i with
    | 0%nat => put "version" n de_i32 v (λ x, Build_broadcast_fields (Some x) ms c)
    | 1%nat => put "messages" ms (de_vec (de_option (de_struct (feed_de nitro_v3_9_9)))) v
                 (λ x, Build_broadcast_fields n (Some x) c)
    | _ => put "confirmedSequenceNumberMessage" c (de_option (de_struct confirmed_de)) v
             (λ x, Build_broadcast_fields n ms (Some x))
    end;
  sd_finish by_position '{| bf_version := n; bf_messages := ms; bf_confirmed := c |} :=
    let? n := required by_position "version" n in
    let? c := optional by_position c in
    Ok {| version := n; messages := default [] ms; confirmed_sequence_number_message := c |};
|}.

(** ** [NitroHeader] *)

Definition ser_nitro_header (h : NitroHeader) : Value := match h with V1 => JString "V1" end.

(** A unit variant is read from its name, or from an object with the name and null. *)
Definition de_nitro_header (v : Value) : result NitroHeader string :=
  match v with
  | JString s => if decide (s = "V1") then Ok V1 else Err "unknown variant"
  | JObject [(k, JNull)] => if decide (k = "V1") then Ok V1 else Err "unknown variant"
  | _ => Err "invalid type"
  end.

(** ** Round trips *)

(** A message within the ranges of its types, whose base fee fits 64 bits. *)
Definition fee_fits (m : BroadcastFeedMessage) : Prop :=
  ∀ im h fee, message (feed_msg m) = Some im → header im = Some h → l1_base_fee h = Some fee → is_u64 fee.

Record typed_feed_message (m : BroadcastFeedMessage) : Prop := {
  tm_sequence_number : is_u64 (msg_sequence_number m);
  tm_delayed : is_u64 (delayed_messages_read (feed_msg m));
  tm_message im : message (feed_msg m) = Some im → wf_message im;
  tm_block_hash h : block_hash m = Some h → length h = 32%nat;
}.

Definition wire_message (m : BroadcastFeedMessage) : Prop := typed_feed_message m ∧ fee_fits m.

Context {WL : WireTextLaws W} {TL : U256TextLaws}.

(** Reads the fields of a document one after the other. *)
Ltac reads :=
  repeat (progress (cbn [put de_null_base64 de_base64]; rewrite ?de_uint_ok, ?fixed_law, ?base64_law by done)); cbn [put].

Lemma stats_wire st : is_u64 (stats_length st) → is_u64 (non_zeros st) → de_struct stats_de (ser_stats st) = Ok st.
Proof.
  intros H1 H2. unfold de_struct, ser_stats. cbn [visit_map]. fields. cbn [sd_set stats_de sd_empty].
  reads. by destruct st.
Qed.

Lemma fixed_option_wire n (o : option bytes) :
  (∀ b, o = Some b → length b = n) → de_option (fixed_from_value n) (ser_option (JString ∘ fixed_to_string) o) = Ok o.
Proof. intros H. apply de_ser_option. intros b Hb. split; [done|]. by apply fixed_law, H. Qed.

Lemma header_wire h :
  wf_header h → (∀ fee, l1_base_fee h = Some fee → is_u64 fee) →
  ∃ v, ser_header h = Ok v ∧ v ≠ JNull ∧ de_struct header_de v = Ok h.
Proof.
  intros [H1 H2 H3 H4 H5 H6] Hfee. destruct (bigint_roundtrip (l1_base_fee h) H6) as (fee & Es & Hd & _).
  apply Hd in Hfee. unfold ser_header. rewrite Es. eexists. split; [reflexivity|]. split; [done|].
  unfold de_struct. cbn [visit_map]. fields. cbn [sd_set header_de sd_empty].
  reads. rewrite fixed_option_wire by done. cbn [put]. rewrite Hfee. by destruct h.
Qed.

Lemma header_option_wire (o : option L1IncomingMessageHeader) :
  (∀ h, o = Some h → wf_header h ∧ ∀ fee, l1_base_fee h = Some fee → is_u64 fee) →
  ∃ v, match o with None => Ok JNull | Some h => ser_header h end = Ok v ∧
    de_option (de_struct header_de) v = Ok o.
Proof.
  intros H. destruct o as [h|]; [|by exists JNull]. destruct (H h eq_refl) as [Hw Hf].
  destruct (header_wire h Hw Hf) as (v & Es & Hn & Hd). exists v. split; [done|]. by apply de_option_some.
Qed.

Lemma incoming_wire m :
  wf_message m → (∀ h fee, header m = Some h → l1_base_fee h = Some fee → is_u64 fee) →
  ∃ v, ser_incoming m = Ok v ∧ v ≠ JNull ∧ de_struct incoming_de v = Ok m.
Proof.
  intros [H1 _ H3 H4] Hfee. destruct (header_option_wire (header m)) as (v & Es & Hd); [naive_solver|].
  unfold ser_incoming. rewrite Es. eexists. split; [reflexivity|]. split; [done|]. unfold de_struct.
  assert (Hg : de_option (de_uint u64_modulus) (ser_option JNumber (legacy_batch_gas_cost m)) = Ok (legacy_batch_gas_cost m)).
  { apply de_ser_option. intros c Hc. split; [done|]. by apply de_uint_ok, H3. }
  assert (Hs : de_option (de_struct stats_de) (ser_option ser_stats (batch_data_stats m)) = Ok (batch_data_stats m)).
  { apply de_ser_option. intros st Hst. split; [done|]. by apply stats_wire; apply H4. }
  destruct m as [h l g st]. simpl in *.
  destruct g as [g|], st as [st|]; unfold field_unless; simpl app; cbn [visit_map]; fields;
    cbn [sd_set incoming_de sd_empty put]; rewrite Hd; cbn [put de_base64]; rewrite base64_law; cbn [put];
    cbn [ser_option] in Hg, Hs; rewrite ?Hg; cbn [put]; by rewrite ?Hs.
Qed.

Lemma metadata_wire m :
  is_u64 (delayed_messages_read m) → (∀ im, message m = Some im → wf_message im) →
  (∀ im h fee, message m = Some im → header im = Some h → l1_base_fee h = Some fee → is_u64 fee) →
  ∃ v, ser_metadata m = Ok v ∧ de_struct metadata_de v = Ok m.
Proof.
  intros Hd Hm Hfee.
  assert (∃ v, match message m with None => Ok JNull | Some im => ser_incoming im end = Ok v ∧
            de_option (de_struct incoming_de) v = Ok (message m)) as (v & Es & Hv).
  { destruct (message m) as [im|]; [|by exists JNull].
    destruct (incoming_wire im) as (v & Es & Hn & Hv); [by apply Hm|naive_solver|].
    exists v. split; [done|]. by apply de_option_some. }
  unfold ser_metadata. rewrite Es. eexists. split; [reflexivity|].
  unfold de_struct. cbn [visit_map]. fields. cbn [sd_set metadata_de sd_empty put]. rewrite Hv. reads. by destruct m.
Qed.

(** The size is not written ([serde(skip)]). *)
Definition skip_size (m : BroadcastFeedMessage) : BroadcastFeedMessage :=
  {| msg_sequence_number := msg_sequence_number m; feed_msg := feed_msg m; signature := signature m;
     block_metadata := block_metadata m; cumulative_sum_msg_size := 0; block_hash := block_hash m |}.

Lemma feed_message_wire written read m :
  typed_feed_message m → fee_fits m →
  ∃ v, ser_feed_message written m = Ok v ∧ v ≠ JNull ∧ de_struct (feed_de read) v = Ok (skip_size m).
Proof.
  intros [H1 H2 H3 H4] Hfee. destruct (metadata_wire (feed_msg m)) as (v & Es & Hv); [done..|].
  unfold ser_feed_message. rewrite Es. eexists. split; [reflexivity|]. split; [done|].
  assert (Hh : de_option (fixed_from_value 32) (ser_option (JString ∘ fixed_to_string) (block_hash m)) = Ok (block_hash m))
    by (by apply fixed_option_wire).
  unfold de_struct, skip_size. destruct m as [n mm sig d c h].
  cbn [msg_sequence_number feed_msg signature block_metadata block_hash cumulative_sum_msg_size] in *.
  destruct written, read, d as [|x d], h as [h|]; unfold field_unless; simpl app; cbn [visit_map]; fields;
    cbn [sd_set feed_de sd_empty]; reads; rewrite Hv; reads;
    cbn [ser_option compose] in Hh; rewrite ?Hh; reads; done.
Qed.

(** What a frame of the feed becomes on the other side. *)
Definition skip_sizes (bm : BroadcastMessage) : BroadcastMessage :=
  {| version := version bm; messages := fmap (M:=option) skip_size <$> messages bm;
     confirmed_sequence_number_message := confirmed_sequence_number_message bm |}.

Record wire_broadcast (bm : BroadcastMessage) : Prop := {
  wb_version : - 2 ^ 31 ≤ version bm < 2 ^ 31;
  wb_messages m : Some m ∈ messages bm → wire_message m;
  wb_confirmed c : confirmed_sequence_number_message bm = Some c → is_u64 (confirmed_sequence_number c);
}.

Lemma messages_wire written read l :
  (∀ m, Some m ∈ l → wire_message m) →
  ∃ vs, ser_messages written l = Ok vs ∧ de_all (de_option (de_struct (feed_de read))) vs = Ok (fmap (M:=option) skip_size <$> l).
Proof.
  induction l as [|o l IH]; intros Hl; [by exists []|].
  destruct IH as (vs & Es & Ed); [intros m Hm; apply Hl; by right|].
  destruct o as [m|].
  - destruct (Hl m ltac:(by left)) as [Hm Hf]. destruct (feed_message_wire written read m Hm Hf) as (v & Ev & Hn & Hd).
    exists (v :: vs). simpl. rewrite Ev, Es. split; [done|]. by rewrite (de_option_some _ _ _ Hn Hd), Ed.
  - exists (JNull :: vs). simpl. by rewrite Es, Ed.
Qed.

Lemma confirmed_wire c : is_u64 (confirmed_sequence_number c) → de_struct confirmed_de (ser_confirmed c) = Ok c.
Proof.
  intros H. unfold de_struct, ser_confirmed. cbn [visit_map]. fields. cbn [sd_set confirmed_de sd_empty]. reads. by destruct c.
Qed.

Lemma broadcast_wire written read bm :
  wire_broadcast bm → ∃ v, ser_broadcast written bm = Ok v ∧ de_struct (broadcast_de read) v = Ok (skip_sizes bm).
Proof.
  intros [H1 H2 H3]. destruct (messages_wire written read (messages bm) H2) as (vs & Es & Ed).
  unfold ser_broadcast. rewrite Es. eexists. split; [reflexivity|].
  assert (Hc : de_option (de_struct confirmed_de) (ser_option ser_confirmed (confirmed_sequence_number_message bm)) =
               Ok (confirmed_sequence_number_message bm)).
  { apply de_ser_option. intros c Hc. split; [done|]. by apply confirmed_wire, H3. }
  unfold de_struct, skip_sizes. destruct bm as [n ms c]. cbn [version messages confirmed_sequence_number_message] in *.
  destruct ms as [|m ms], c as [c|]; unfold field_unless; simpl app; cbn [visit_map]; fields;
    cbn [sd_set broadcast_de sd_empty]; cbn [put]; rewrite de_i32_ok by done; cbn [put de_vec];
    rewrite ?Ed; cbn [put]; cbn [ser_option] in Hc; rewrite ?Hc; done.
Qed.

(** ** What is refused *)

Lemma header_refused h fee :
  wf_header h → l1_base_fee h = Some fee → ¬ is_u64 fee →
  ∃ v, ser_header h = Ok v ∧ v ≠ JNull ∧ is_ok (de_struct header_de v) = false.
Proof.
  intros [H1 H2 H3 H4 H5 H6] Ef Hfee. destruct (bigint_roundtrip (l1_base_fee h) H6) as (v & Es & _ & Hd).
  assert (is_ok (bigint_deserialize v) = false) as Hr.
  { apply not_true_is_false. intros H. apply Hfee. by apply (proj1 Hd H). }
  unfold ser_header. rewrite Es. eexists. split; [reflexivity|]. split; [done|].
  unfold de_struct. cbn [visit_map]. fields. cbn [sd_set header_de sd_empty].
  reads. rewrite fixed_option_wire by done. cbn [put]. by destruct (bigint_deserialize v).
Qed.

Lemma refused_option {X} (de : Value → result X string) v : v ≠ JNull → is_ok (de v) = false → is_ok (de_option de v) = false.
Proof. intros Hn H. unfold de_option. destruct v, (de _); by simpl in *. Qed.

Lemma feed_message_refused written read m im h fee :
  typed_feed_message m → message (feed_msg m) = Some im → header im = Some h → l1_base_fee h = Some fee → ¬ is_u64 fee →
  ∃ v, ser_feed_message written m = Ok v ∧ is_ok (de_struct (feed_de read) v) = false.
Proof.
  intros [H1 H2 H3 H4] Em Eh Ef Hfee. destruct (H3 im Em) as [G1 _ _ _].
  destruct (header_refused h fee (G1 h Eh) Ef Hfee) as (v & Es & Hn & Hr).
  unfold ser_feed_message, ser_metadata, ser_incoming. rewrite Em, Eh, Es. eexists. split; [reflexivity|].
  apply (refused_option _ _ Hn) in Hr. unfold de_struct at 1.
  destruct written, read; cbn [visit_map app]; fields; cbn [sd_set feed_de sd_empty]; reads;
    unfold de_struct at 1; cbn [visit_map]; fields; cbn [sd_set metadata_de sd_empty put];
    unfold de_option at 1, de_struct at 1; cbn [visit_map]; fields; cbn [sd_set incoming_de sd_empty put];
    by destruct (de_option (de_struct header_de) v).
Qed.

(** What is read is a [u64]. *)
Lemma feed_de_u64 read v m : de_struct (feed_de read) v = Ok m → is_u64 (msg_sequence_number m).
Proof.
  apply (de_struct_inv (feed_de read) (λ b, ∀ z, ff_sequence_number b = Some z → is_u64 z) (λ m, is_u64 (msg_sequence_number m))).
  - done.
  - intros i w [n mm s d h] b' Hb. simpl in *. destruct i as [|[|[|[|i] ] ] ]; intros (_ & x & Hx & ->)%put_Ok; simpl; try done.
    intros z [= <-]. by apply de_uint_range in Hx.
  - intros p [n mm s d h] t Hb. simpl in *. destruct n as [n|]; [|done]. simpl. destruct mm; [|done].
    intros [= <-]. simpl. by apply Hb.
Qed.

(** A message that carries the signature under both names is refused. *)
Lemma both_signatures_refused read fields1 fields2 fields3 v1 v2 k1 k2 :
  k1 ∈ ["signature"; "signatureV2"] → k2 ∈ ["signature"; "signatureV2"] →
  is_ok (de_struct (feed_de read) (JObject (fields1 ++ (k1, v1) :: fields2 ++ (k2, v2) :: fields3))) = false.
Proof.
  intros Hk1 Hk2.
  assert (Hidx : ∀ k, k ∈ ["signature"; "signatureV2"] → field_index (sd_names (feed_de read)) k = Some 2%nat).
  { intros k. rewrite !elem_of_cons, elem_of_nil. destruct read; intros [->|[->|[] ] ]; reflexivity. }
  assert (Hset : ∀ b fields, is_Some (ff_signature b) →
    is_ok (visit_map (feed_de read) b (fields ++ (k2, v2) :: fields3)) = false).
  { intros b fields. revert b. induction fields as [|[k w] fields IH]; intros b [s Hs]; cbn [app visit_map].
    - rewrite (Hidx k2 Hk2). destruct b as [n mm sg d h]. simpl in *. subst sg. done.
    - destruct (field_index _ k) as [i|]; [|by apply IH; exists s].
      destruct (sd_set (feed_de read) i w b) as [b'|] eqn:E; [|done]. apply IH.
      destruct b as [n mm sg d h]. simpl in *. subst sg.
      destruct i as [|[|[|[|i] ] ] ]; apply put_Ok in E as (? & x & _ & ->); try done; by eexists. }
  unfold de_struct. generalize (sd_empty (feed_de read)) as b. induction fields1 as [|[k w] fields1 IH]; intros b; cbn [app visit_map].
  - rewrite (Hidx k1 Hk1). destruct (sd_set (feed_de read) 2 v1 b) as [b'|] eqn:E; [|done].
    pose proof (Hset b' fields2) as Hr. destruct (visit_map _ b' _); [|done].
    assert (is_Some (ff_signature b')) as H; [|by specialize (Hr H)].
    destruct b as [n mm sg d h]. simpl in E. apply put_Ok in E as (_ & x & _ & ->). by eexists.
  - destruct (field_index _ k) as [i|]; [|apply IH]. destruct (sd_set (feed_de read) i w b) as [b'|]; [apply IH|done].
Qed.
End feed_json.
