(* ===== verification/WireText.v ===== *)
(** * Base64 and hexadecimal

    Executable base64 (the standard alphabet, padded) and the hexadecimal form of
    fixed-size byte strings, with the laws [FeedJson] relies on: a concrete text for
    the messages of the feed and for the vectors the repository's tests give in
    these forms. *)

From S2P Require Import Prelude Bytes Slice Config Json Rollup NitroTypes GoBigInt NitroVerify Rlp RlpInstance FeedJson.
From Stdlib Require Import Strings.Byte.
#[local] Open Scope Z_scope.

(** ** Digits *)

Definition b64_digit (n : Z) : byte :=
  u8_of_Z (if n <? 26 then n + 65 else if n <? 52 then n + 71 else if n <? 62 then n - 4
           else if n =? 62 then 43 else 47).

Definition b64_value (b : byte) : option Z :=
  let z := u8_to_Z b in
  if (65 <=? z) && (z <=? 90) then Some (z - 65)
  else if (97 <=? z) && (z <=? 122) then Some (z - 71)
  else if (48 <=? z) && (z <=? 57) then Some (z + 4)
  else if z =? 43 then Some 62 else if z =? 47 then Some 63 else None.

Definition b64_pad : byte := x3d.

Definition hex_digit (n : Z) : byte := u8_of_Z (if n <? 10 then n + 48 else n + 87).

Definition hex_value (b : byte) : option Z :=
  let z := u8_to_Z b in
  if (48 <=? z) && (z <=? 57) then Some (z - 48)
  else if (97 <=? z) && (z <=? 102) then Some (z - 87)
  else if (65 <=? z) && (z <=? 70) then Some (z - 55) else None.

(** ** Base64 *)

Fixpoint b64_encode (b : bytes) : bytes :=
  match b with
  | [] => []
  | [x] =>
      let n := u8_to_Z x * 16 in [b64_digit (n / 64); b64_digit (n mod 64); b64_pad; b64_pad]
  | [x; y] =>
      let n := u8_to_Z x * 1024 + u8_to_Z y * 4 in
      [b64_digit (n / 4096); b64_digit (n / 64 mod 64); b64_digit (n mod 64); b64_pad]
  | x :: y :: z :: b' =>
      let n := u8_to_Z x * 65536 + u8_to_Z y * 256 + u8_to_Z z in
      b64_digit (n / 262144) :: b64_digit (n / 4096 mod 64) :: b64_digit (n / 64 mod 64) ::
      b64_digit (n mod 64) :: b64_encode b'
  end.

(** The bytes of the last group; the bits past the last byte must be zero. *)
Definition b64_last (a b c d : byte) : option bytes :=
  a ← b64_value a; b ← b64_value b;
  if decide (d = b64_pad) then
    if decide (c = b64_pad) then
      if b mod 16 =? 0 then Some [u8_of_Z ((a * 64 + b) / 16)] else None
    else
      c ← b64_value c;
      let n := (a * 64 + b) * 64 + c in
      if c mod 4 =? 0 then Some [u8_of_Z (n / 1024); u8_of_Z (n / 4 mod 256)] else None
  else
    c ← b64_value c; d ← b64_value d;
    let n := ((a * 64 + b) * 64 + c) * 64 + d in
    Some [u8_of_Z (n / 65536); u8_of_Z (n / 256 mod 256); u8_of_Z (n mod 256)].

Definition b64_group (a b c d : byte) : option bytes := if decide (d = b64_pad) then None else b64_last a b c d.

Fixpoint b64_decode (t : bytes) : option bytes :=
  match t with
  | [] => Some []
  | [a; b; c; d] => b64_last a b c d
  | a :: b :: c :: d :: t' => g ← b64_group a b c d; rest ← b64_decode t'; Some (g ++ rest)
  | _ => None
  end.

(** ** Hexadecimal *)

Fixpoint hex_encode (b : bytes) : bytes :=
  match b with
  | [] => []
  | x :: b' => hex_digit (u8_to_Z x / 16) :: hex_digit (u8_to_Z x mod 16) :: hex_encode b'
  end.

Fixpoint hex_decode_digits (t : bytes) : option bytes :=
  match t with
  | [] => Some []
  | h :: l :: t' => h ← hex_value h; l ← hex_value l; rest ← hex_decode_digits t'; Some (u8_of_Z (h * 16 + l) :: rest)
  | _ => None
  end.

(** With or without the prefix [0x]. *)
Definition hex_decode_text (t : bytes) : option bytes :=
  match t with
  | x30 :: x78 :: t' => hex_decode_digits t'
  | _ => hex_decode_digits t
  end.

(** ** The text of the feed *)

Definition base64_text : WireText := {|
  base64_encode b := String.string_of_list_byte (b64_encode b);
  base64_decode s := ok_or (b64_decode (String.list_byte_of_string s)) "invalid base64"%string;
  fixed_to_string b := String.string_of_list_byte (x30 :: x78 :: hex_encode b);
  fixed_from_value n v :=
    match v with
    | JString s =>
        match hex_decode_text (String.list_byte_of_string s) with
        | Some b => if decide (length b = n) then Ok b else Err "invalid length"%string
        | None => Err "invalid hex"%string
        end
    | _ => Err "invalid type"%string
    end;
|}.

(** ** Laws *)

Lemma u8_of_to_byte x : u8_of_Z (u8_to_Z x) = x.
Proof. by destruct x. Qed.

(** [by_cases] splits and closes the comparisons of an arithmetic goal. *)
Ltac by_cases :=
  repeat match goal with
  | |- context [?a <? ?b] => destruct (Z.ltb_spec a b)
  | |- context [?a <=? ?b] => destruct (Z.leb_spec a b)
  | |- context [?a =? ?b] => destruct (Z.eqb_spec a b)
  end; cbn [andb]; first [f_equal; lia | lia].

Lemma b64_value_digit n : 0 ≤ n < 64 → b64_value (b64_digit n) = Some n.
Proof.
  intros Hn. unfold b64_value, b64_digit.
  rewrite u8_of_to by by_cases. by_cases.
Qed.

Lemma hex_value_digit n : 0 ≤ n < 16 → hex_value (hex_digit n) = Some n.
Proof.
  intros Hn. unfold hex_value, hex_digit. rewrite u8_of_to by by_cases. by_cases.
Qed.

Lemma b64_pad_digit n : 0 ≤ n < 64 → b64_digit n ≠ b64_pad.
Proof. intros Hn E. apply b64_value_digit in Hn. by rewrite E in Hn. Qed.

(** A group of digits of a number, and the bytes of it. *)
Ltac digits :=
  rewrite ?b64_value_digit, ?hex_value_digit by (Z.to_euclidean_division_equations; lia); simpl.

Lemma byte_of z x : z = u8_to_Z x → u8_of_Z z = x.
Proof. intros ->. apply u8_of_to_byte. Qed.

Ltac by_bytes := f_equal; repeat (apply (f_equal2 cons); [apply byte_of; Z.to_euclidean_division_equations; lia|]); done.

Lemma b64_last_three x y z :
  let n := u8_to_Z x * 65536 + u8_to_Z y * 256 + u8_to_Z z in
  let d := b64_digit (n mod 64) in
  d ≠ b64_pad ∧
  b64_last (b64_digit (n / 262144)) (b64_digit (n / 4096 mod 64)) (b64_digit (n / 64 mod 64)) d = Some [x; y; z].
Proof.
  intros n d. pose proof (u8_range x). pose proof (u8_range y). pose proof (u8_range z).
  assert (Hd : d ≠ b64_pad) by (apply b64_pad_digit; Z.to_euclidean_division_equations; lia).
  split; [done|]. unfold b64_last. subst d. digits. rewrite decide_False by done. digits. by_bytes.
Qed.

Lemma b64_decode_cons a b c d t :
  t ≠ [] → b64_decode (a :: b :: c :: d :: t) = (g ← b64_group a b c d; rest ← b64_decode t; Some (g ++ rest)).
Proof. by destruct t. Qed.

Lemma b64_encode_nonempty b : b ≠ [] → b64_encode b ≠ [].
Proof. by destruct b as [|x [|y [|z b]]]. Qed.

Lemma b64_roundtrip b : b64_decode (b64_encode b) = Some b.
Proof.
  induction b as [b IH] using (induction_ltof1 _ length).
  destruct b as [|x [|y [|z b]]]; [done| | |].
  - pose proof (u8_range x). cbn [b64_encode b64_decode]. unfold b64_last. digits.
    rewrite (proj2 (Z.eqb_eq _ _)) by (Z.to_euclidean_division_equations; lia). by_bytes.
  - pose proof (u8_range x). pose proof (u8_range y). cbn [b64_encode b64_decode]. unfold b64_last. digits.
    rewrite decide_False by (apply b64_pad_digit; Z.to_euclidean_division_equations; lia). digits.
    rewrite (proj2 (Z.eqb_eq _ _)) by (Z.to_euclidean_division_equations; lia). by_bytes.
  - destruct (b64_last_three x y z) as [Hd Hl]. cbn [b64_encode].
    destruct b as [|w b]; [exact Hl|]. specialize (IH (w :: b) ltac:(unfold ltof; simpl; lia)).
    rewrite b64_decode_cons by (by apply b64_encode_nonempty). unfold b64_group. rewrite decide_False by exact Hd.
    cbv zeta in Hl. rewrite Hl. cbn [mbind option_bind]. by rewrite IH.
Qed.

Lemma hex_roundtrip b : hex_decode_digits (hex_encode b) = Some b.
Proof.
  induction b as [|x b IH]; [done|]. pose proof (u8_range x). cbn [hex_encode hex_decode_digits]. digits.
  rewrite IH. simpl. by_bytes.
Qed.

#[export] Instance base64_text_laws : WireTextLaws base64_text.
Proof.
  split; cbn [base64_encode base64_decode fixed_to_string fixed_from_value base64_text].
  - intros b. by rewrite String.list_byte_of_string_of_list_byte, b64_roundtrip.
  - intros n b Hb. rewrite String.list_byte_of_string_of_list_byte. cbn [hex_decode_text].
    by rewrite hex_roundtrip, decide_True.
  - intros n v b. destruct v; try done. destruct (hex_decode_text _); [|done]. case_decide; [|done]. by intros [= <-].
Qed.
