(* ===== verification/NitroPayload.v ===== *)
(** * Espresso transaction payloads

    The payload format of [src/src/rollups/nitro/nitro.rs]: building it from feed
    messages, parsing it back with signature checks, the legacy format, and the
    loop of [src/src/main.rs] that turns a list of messages into transactions.
    JSON, keccak and secp256k1 are parameters. *)

From S2P Require Import Prelude Bytes Slice Config Rollup Json NitroTypes GoBigInt NitroVerify Rlp RlpInstance FeedJson.
From Stdlib Require Import Strings.Byte.

Definition LEN_SIZE : nat := 8.
Definition INDEX_SIZE : nat := 8.

(** ** Signatures ([utils.rs]) *)

(** [keccak256], and [Signature::recover_address_from_prehash] on [r], [s] and
    the parity. *)
Class Crypto := {
  keccak256 : bytes → B256;
  recover_address_from_prehash : Z → Z → bool → B256 → option Address;
}.

(** Half the order of secp256k1: [normalize_s] changes exactly the values above. *)
Definition SECP256K1N_HALF : Z :=
  57896044618658097711785492504343953926418782139537452191302581570759080747168.

Section signatures.
Context {K : Crypto} {A : AlloyRlp}.
Open Scope cas_scope.

Definition recover_signer_address (message_hash : B256) (sig : bytes) : result Address string :=
  if negb (length sig =? 65)%nat then Err "invalid signature length"
  else
    let? parity :=
      match u8_to_Z (nth 64 sig x00) with
      | 0 | 27 => Ok false
      | 1 | 28 => Ok true
      | _ => Err "invalid signature value"
      end in
    let r := from_be_bytes (slice sig 0 32) in
    let s := from_be_bytes (slice sig 32 64) in
    if (r =? 0) || (s =? 0) then Err "invalid signature"
    else if SECP256K1N_HALF <? s then Err "non-canonical high-S signature"
    else ok_or (recover_address_from_prehash r s parity message_hash) "failed to recover signer".

Definition FEED_PREFIX : bytes := String.list_byte_of_string "Arbitrum Nitro Feed:".

(** [signature_hash] with the feature [nitro-v3_9_9], the default. *)
Definition signature_hash_v3_9_9 (msg : BroadcastFeedMessage) (chain_id : Z) : result B256 string :=
  let? l1_msg := ok_or (message (feed_msg msg)) "BroadcastFeedMessage missing L1IncomingMessage" in
  let extra_data := to_be_bytes 8 (msg_sequence_number msg) ++ to_be_bytes 8 chain_id ++
                    to_be_bytes 8 (delayed_messages_read (feed_msg msg)) in
  Ok (keccak256 (FEED_PREFIX ++ extra_data ++ L1IncomingMessage_encode l1_msg)).

(** The bytes hashed by the other versions. *)
Definition signature_preimage (msg : BroadcastFeedMessage) (chain_id : Z) : result bytes string :=
  let? l1_msg := ok_or (message (feed_msg msg)) "BroadcastFeedMessage missing L1IncomingMessage" in
  let? h := ok_or (header l1_msg) "BroadcastFeedMessage missing L1IncomingMessageHeader" in
  Ok (FEED_PREFIX ++ to_be_bytes 8 chain_id ++ to_be_bytes 8 (msg_sequence_number msg) ++
      default [] (block_hash msg) ++ block_metadata msg ++
      to_be_bytes 8 (delayed_messages_read (feed_msg msg)) ++
      [u8_of_Z (kind h)] ++ poster h ++ to_be_bytes 8 (block_number h) ++ to_be_bytes 8 (timestamp h) ++
      default [] (request_id h) ++
      match l1_base_fee h with Some fee => trim_leading_zeros (to_be_bytes 32 fee) | None => [] end ++
      l2msg l1_msg).

(** [signature_hash] without that feature. *)
Definition signature_hash (msg : BroadcastFeedMessage) (chain_id : Z) : result B256 string :=
  let? p := signature_preimage msg chain_id in Ok (keccak256 p).

(** The hash function is the feature the binary is built with. *)
Definition verify_broadcast_feed_message_signature
    (hash : BroadcastFeedMessage → Z → result B256 string)
    (chain_id : Z) (sequencer_addresses : list Address) (msg : BroadcastFeedMessage) : result unit string :=
  let? h := hash msg chain_id in
  let? signer := recover_signer_address h (signature msg) in
  if bool_decide (signer ∈ sequencer_addresses) then Ok tt else Err "signer is not valid".

End signatures.

(** ** JSON

    [serde_json] on the header and on feed messages. *)

Class NitroJson := {
  header_to_vec : NitroHeader → result bytes string;
  header_from_slice : bytes → result NitroHeader string;
  message_to_vec : BroadcastFeedMessage → result bytes string;
  message_from_slice : bytes → result BroadcastFeedMessage string;
}.

(** A message of the wire is read back as it was written, less its size, which is not
    written; [FeedJson] derives this from the fields. *)
Class NitroJsonLaws (J : NitroJson) : Prop := {
  header_json : ∃ b, header_to_vec V1 = Ok b ∧ header_from_slice b = Ok V1 ∧ (length b ≤ 64)%nat;
  message_json m b : wire_message m → message_to_vec m = Ok b → message_from_slice b = Ok (skip_size m);
  message_json_u64 b m : message_from_slice b = Ok m → is_u64 (msg_sequence_number m);
}.

Definition HOTSHOT_TX_PAYLOAD_MAX_SIZE : Z := 900 * 1024.

Section payload.
Context {J : NitroJson}.
Open Scope cas_scope.

(** ** Building *)

(** A length-prefixed item. *)
Definition framed (b : bytes) : bytes := to_be_bytes 8 (zlen b) ++ b.

#[global] Arguments framed : simpl never.

(** The loop of [build_espresso_tx_payload] over the messages: the payload so
    far and how many messages are consumed. *)
Fixpoint build_loop (payload : bytes) (count : nat) (messages : list BroadcastFeedMessage)
    : bytes * nat :=
  match messages with
  | [] => (payload, count)
  | message :: messages' =>
      match message_to_vec message with
      | Ok encoded_msg =>
          if HOTSHOT_TX_PAYLOAD_MAX_SIZE <? zlen payload + Z.of_nat LEN_SIZE + zlen encoded_msg then
            match payload with
            | [] => build_loop payload (S count) messages'
            | _ :: _ => (payload, count)
            end
          else build_loop (payload ++ framed encoded_msg) (S count) messages'
      | Err _ => build_loop payload (S count) messages'
      end
  end.

(** The payload and what is left of the messages. *)
Definition build_espresso_tx_payload (messages : list BroadcastFeedMessage)
    : bytes * list BroadcastFeedMessage :=
  match header_to_vec V1 with
  | Err _ => ([], messages)
  | Ok encoded_header =>
      let '(payload, count) := build_loop (framed encoded_header) 0 messages in
      (payload, drop count messages)
  end.

(** The loop of [main.rs]; [None] is running out of rounds. *)
Fixpoint build_tx_fn (fuel : nat) (namespace_id : Z) (msgs : list BroadcastFeedMessage)
    : option (list Transaction) :=
  match msgs, fuel with
  | [], _ => Some []
  | _, O => None
  | _, S fuel' =>
      let '(payload, msgs') := build_espresso_tx_payload msgs in
      match payload with
      | [] => Some []
      | _ :: _ =>
          txes ← build_tx_fn fuel' namespace_id msgs';
          Some ({| tx_namespace := namespace_id; payload := payload |} :: txes)
      end
  end.

(** ** Parsing *)

(** One length-prefixed item at the head of a buffer. *)
Definition take_framed (too_short_len too_short : string) (buf : bytes) : result (bytes * bytes) string :=
  if (length buf <? LEN_SIZE)%nat then Err too_short_len
  else
    let size := from_be_bytes (take LEN_SIZE buf) in
    let rest := drop LEN_SIZE buf in
    if zlen rest <? size then Err too_short
    else Ok (take (Z.to_nat size) rest, drop (Z.to_nat size) rest).

(** The loop over the messages; every round consumes at least [LEN_SIZE] bytes,
    so [length buf] rounds suffice. *)
Fixpoint parse_messages (fuel : nat) (verify : BroadcastFeedMessage → result unit string) (buf : bytes)
    : result (list BroadcastFeedMessage) string :=
  match buf, fuel with
  | [], _ => Ok []
  | _, O => Err "out of rounds"
  | _, S fuel' =>
      let? '(message_bytes, rest) :=
        take_framed "payload too short to parse message size" "payload too short to parse message" buf in
      let? message := map_err (λ e, "failed to parse nitro hotshot message: " +:+ e)
                        (message_from_slice message_bytes) in
      let? messages := parse_messages fuel' verify rest in
      Ok (if is_ok (verify message) then message :: messages else messages)
  end.

Definition parse_nitro_hotshot_payload (tx_payload : bytes)
    (verify_signature : BroadcastFeedMessage → result unit string)
    : result (list BroadcastFeedMessage) string :=
  let? '(header_bytes, rest) :=
    take_framed "payload too short to parse header size" "payload too short to parse header" tx_payload in
  let? header := map_err (λ e, "failed to parse nitro hotshot header: " +:+ e)
                   (header_from_slice header_bytes) in
  if decide (header = V1) then parse_messages (length tx_payload) verify_signature rest
  else Err "unsupported nitro hotshot header version".

End payload.

(** ** Lemmas *)

Section lemmas.
Context {J : NitroJson} {JL : NitroJsonLaws J}.
Implicit Types (m : BroadcastFeedMessage) (msgs : list BroadcastFeedMessage).

Lemma take_framed_app e1 e2 b rest :
  zlen b < u64_modulus → take_framed e1 e2 (framed b ++ rest) = Ok (b, rest).
Proof.
  intros Hb. unfold take_framed, framed. rewrite <- app_assoc.
  assert (Hl : length (to_be_bytes 8 (zlen b)) = LEN_SIZE) by apply length_to_be_bytes.
  rewrite length_app, Hl. destruct (Nat.ltb_spec (LEN_SIZE + length (b ++ rest)) LEN_SIZE); [lia|].
  rewrite <- Hl, take_app_length, drop_app_length, from_to_be_bytes_u64 by (unfold is_u64, zlen in *; lia).
  destruct (Z.ltb_spec (zlen (b ++ rest)) (zlen b)) as [H'|_].
  { unfold zlen in H'. rewrite length_app in H'. lia. }
  unfold zlen. by rewrite Nat2Z.id, take_app_length, drop_app_length.
Qed.

Lemma framed_nonempty b : framed b ≠ [].
Proof. intros H. apply (f_equal length) in H. unfold framed in H. by rewrite length_app, length_to_be_bytes in H. Qed.

Lemma zlen_framed b : zlen (framed b) = 8 + zlen b.
Proof. unfold zlen, framed. rewrite length_app, length_to_be_bytes. lia. Qed.

Lemma zlen_app {X} (a b : list X) : zlen (a ++ b) = zlen a + zlen b.
Proof. unfold zlen. rewrite length_app. lia. Qed.

(** The encodings of the messages that have one. *)
Definition encodings msgs : list bytes := omap (λ m, ok (message_to_vec m)) msgs.

(** The messages a reader gets back: those that encode, without their size,
    whose signature verifies. *)
Definition kept (verify : BroadcastFeedMessage → result unit string) msgs : list BroadcastFeedMessage :=
  filter (λ m, is_ok (verify m) = true)
    (skip_size <$> filter (λ m, is_ok (message_to_vec m) = true) msgs).

Lemma kept_app verify l1 l2 : kept verify (l1 ++ l2) = kept verify l1 ++ kept verify l2.
Proof. unfold kept. by rewrite filter_app, fmap_app, filter_app. Qed.

(** The build loop appends the frames of a prefix of the messages; it stops at
    the end or at a message that does not fit any more. *)
Lemma build_loop_spec msgs p0 c p c' :
  p0 ≠ [] → zlen p0 ≤ HOTSHOT_TX_PAYLOAD_MAX_SIZE → build_loop p0 c msgs = (p, c') →
  ∃ n, c' = (c + n)%nat ∧ (n ≤ length msgs)%nat ∧
    p = p0 ++ concat (framed <$> encodings (take n msgs)) ∧
    zlen p ≤ HOTSHOT_TX_PAYLOAD_MAX_SIZE ∧
    (n = length msgs ∨
     ∃ m b, msgs !! n = Some m ∧ message_to_vec m = Ok b ∧ HOTSHOT_TX_PAYLOAD_MAX_SIZE < zlen p + 8 + zlen b).
Proof.
  revert p0 c. induction msgs as [|m msgs IH]; intros p0 c Hne Hle; simpl.
  { intros [= <- <-]. exists 0%nat. simpl. rewrite app_nil_r. split_and!; try done; try lia; by left. }
  assert (Hstep : ∀ p1, p1 ≠ [] → zlen p1 ≤ HOTSHOT_TX_PAYLOAD_MAX_SIZE →
     build_loop p1 (S c) msgs = (p, c') →
     p1 = p0 ++ concat (framed <$> encodings [m]) →
     ∃ n, c' = (c + n)%nat ∧ (n ≤ S (length msgs))%nat ∧
       p = p0 ++ concat (framed <$> encodings (take n (m :: msgs))) ∧
       zlen p ≤ HOTSHOT_TX_PAYLOAD_MAX_SIZE ∧
       (n = S (length msgs) ∨
        ∃ m' b, (m :: msgs) !! n = Some m' ∧ message_to_vec m' = Ok b ∧
                HOTSHOT_TX_PAYLOAD_MAX_SIZE < zlen p + 8 + zlen b)).
  { intros p1 H1 H2 Hb E. destruct (IH p1 (S c) H1 H2 Hb) as (n & -> & Hn & -> & Hl & Hor).
    exists (S n). split_and!; [lia|lia| |done|].
    - rewrite E. unfold encodings. simpl. destruct (ok (message_to_vec m)); simpl;
        by rewrite <- ?app_assoc, ?app_nil_r.
    - destruct Hor as [->|Hor]; [by left|right]. exact Hor. }
  destruct (message_to_vec m) as [b|e] eqn:Em.
  - destruct (Z.ltb_spec HOTSHOT_TX_PAYLOAD_MAX_SIZE (zlen p0 + Z.of_nat LEN_SIZE + zlen b)) as [Hgt|Hfit].
    + destruct p0 as [|x p0]; [done|]. intros [= <- <-]. exists 0%nat. simpl. rewrite app_nil_r.
      split_and!; try done; try lia. right. exists m, b. split_and!; try done. 
    + intros Hb. apply (Hstep (p0 ++ framed b)); [by destruct p0| |exact Hb|].
      * rewrite zlen_app, zlen_framed. unfold LEN_SIZE in Hfit. lia.
      * unfold encodings. simpl. rewrite Em. simpl. by rewrite app_nil_r.
  - intros Hb. apply (Hstep p0); try done. unfold encodings. simpl. rewrite Em. simpl. by rewrite app_nil_r.
Qed.

Lemma frames_cons m msgs :
  concat (framed <$> encodings (m :: msgs)) =
    match message_to_vec m with Ok b => framed b | Err _ => [] end ++ concat (framed <$> encodings msgs).
Proof. unfold encodings. cbn [omap list_omap]. by destruct (message_to_vec m). Qed.

Lemma kept_cons verify m msgs :
  kept verify (m :: msgs) =
    match message_to_vec m with
    | Ok _ => if is_ok (verify (skip_size m)) then [skip_size m] else []
    | Err _ => []
    end ++ kept verify msgs.
Proof.
  change (m :: msgs) with ([m] ++ msgs). rewrite kept_app. f_equal. unfold kept.
  rewrite filter_cons, filter_nil. destruct (message_to_vec m); [|done]. rewrite decide_True by done. simpl.
  rewrite filter_cons, filter_nil. by destruct (verify (skip_size m)).
Qed.

(** Frames of encoded messages parse back. *)
Lemma parse_messages_encoded verify msgs fuel :
  Forall wire_message msgs →
  zlen (concat (framed <$> encodings msgs)) < u64_modulus →
  (length (concat (framed <$> encodings msgs)) ≤ fuel)%nat →
  parse_messages fuel verify (concat (framed <$> encodings msgs)) = Ok (kept verify msgs).
Proof.
  intros Hw. revert fuel. induction Hw as [|m msgs Hm Hw IH]; intros fuel Hz Hf; [by destruct fuel|].
  rewrite kept_cons. rewrite frames_cons in *.
  destruct (message_to_vec m) as [b|e] eqn:Em; [|by apply IH].
  rewrite zlen_app in Hz. rewrite length_app in Hf.
  pose proof (zlen_framed b) as Hzf. assert (Hb : zlen b < u64_modulus) by (unfold zlen in *; lia).
  set (tail := concat _) in *.
  destruct fuel as [|fuel].
  { pose proof (framed_nonempty b). destruct (framed b); [done|]. simpl in Hf. lia. }
  destruct (framed b ++ tail) as [|x l] eqn:E.
  { by apply app_eq_nil in E as [?%framed_nonempty _]. }
  cbn [parse_messages]. rewrite <- E, take_framed_app by done.
  rewrite (message_json m b Hm Em). simpl map_err. cbn iota beta.
  rewrite IH; [|unfold zlen in *; lia|].
  2: { unfold zlen in Hzf. lia. }
  by destruct (verify (skip_size m)).
Qed.

(** A message that is not read back: the rest of the payload goes with it. *)
Lemma parse_messages_refused verify pre m post b fuel :
  Forall wire_message pre → message_to_vec m = Ok b → is_ok (message_from_slice b) = false →
  zlen (concat (framed <$> encodings (pre ++ m :: post))) < u64_modulus →
  is_ok (parse_messages fuel verify (concat (framed <$> encodings (pre ++ m :: post)))) = false.
Proof.
  intros Hw Em Hr. revert fuel. induction Hw as [|x pre Hx Hw IH]; intros fuel; cbn [app]; rewrite frames_cons.
  - rewrite Em, zlen_app, zlen_framed. intros Hz. set (tail := concat _) in *.
    destruct (framed b ++ tail) as [|y l] eqn:E.
    { by apply app_eq_nil in E as [?%framed_nonempty _]. }
    destruct fuel as [|fuel]; [done|]. cbn [parse_messages].
    rewrite <- E, take_framed_app by (unfold zlen in *; lia). by destruct (message_from_slice b).
  - destruct (message_to_vec x) as [bx|e] eqn:Ex; [|apply IH]. rewrite zlen_app, zlen_framed. intros Hz.
    set (tail := concat _) in *. destruct (framed bx ++ tail) as [|y l] eqn:E.
    { by apply app_eq_nil in E as [?%framed_nonempty _]. }
    destruct fuel as [|fuel]; [done|]. cbn [parse_messages].
    rewrite <- E, take_framed_app by (unfold zlen in *; lia). rewrite (message_json x bx Hx Ex). simpl map_err. cbn iota beta.
    specialize (IH fuel). fold tail in IH. destruct (parse_messages fuel verify tail); [|done].
    apply IH. unfold zlen in *. lia.
Qed.
End lemmas.

Section payload_properties.
Context {J : NitroJson} {JL : NitroJsonLaws J}.
Implicit Types (m : BroadcastFeedMessage) (msgs : list BroadcastFeedMessage).

(** What one call of the builder does. *)
Lemma build_spec msgs p rest :
  build_espresso_tx_payload msgs = (p, rest) →
  ∃ n hb, (n ≤ length msgs)%nat ∧ rest = drop n msgs ∧ header_from_slice hb = Ok V1 ∧ (length hb ≤ 64)%nat ∧
    p = framed hb ++ concat (framed <$> encodings (take n msgs)) ∧
    zlen p ≤ HOTSHOT_TX_PAYLOAD_MAX_SIZE ∧
    (n = length msgs ∨
     ∃ m b, msgs !! n = Some m ∧ message_to_vec m = Ok b ∧ HOTSHOT_TX_PAYLOAD_MAX_SIZE < zlen p + 8 + zlen b).
Proof.
  unfold build_espresso_tx_payload. destruct header_json as (hb & -> & Hh & Hl).
  destruct (build_loop (framed hb) 0 msgs) as [p' c] eqn:E. intros [= <- <-].
  apply build_loop_spec in E as (n & -> & Hn & -> & Hz & Hor); [|apply framed_nonempty|].
  - exists n, hb. split_and!; try done.
  - rewrite zlen_framed. unfold zlen, HOTSHOT_TX_PAYLOAD_MAX_SIZE. lia.
Qed.

Lemma parse_built verify hb msgs :
  Forall wire_message msgs → header_from_slice hb = Ok V1 →
  zlen (framed hb ++ concat (framed <$> encodings msgs)) < u64_modulus →
  parse_nitro_hotshot_payload (framed hb ++ concat (framed <$> encodings msgs)) verify = Ok (kept verify msgs).
Proof.
  intros Hw Hh Hz. unfold parse_nitro_hotshot_payload.
  rewrite zlen_app in Hz. pose proof (zlen_framed hb) as Hf.
  rewrite take_framed_app by (unfold zlen in *; lia). rewrite Hh. simpl map_err. cbn iota beta.
  rewrite decide_True by done. apply parse_messages_encoded; [done|unfold zlen in *; lia|].
  rewrite length_app. lia.
Qed.

(** Round trip of the transaction payload: the builder consumes a prefix of
    the messages, its payload respects the 900 KiB limit, and parsing it gives
    back that prefix in order, less the messages without an encoding and those
    whose signature does not verify. *)
Theorem build_parse_roundtrip verify msgs p rest :
  Forall wire_message msgs → build_espresso_tx_payload msgs = (p, rest) →
  ∃ consumed, msgs = consumed ++ rest ∧
    zlen p ≤ HOTSHOT_TX_PAYLOAD_MAX_SIZE ∧
    parse_nitro_hotshot_payload p verify = Ok (kept verify consumed).
Proof.
  intros Hw (n & hb & Hn & -> & Hh & _ & -> & Hz & _)%build_spec.
  exists (take n msgs). split_and!; [by rewrite take_drop|done|].
  apply parse_built; [by apply Forall_take|done|]. unfold HOTSHOT_TX_PAYLOAD_MAX_SIZE, u64_modulus in *. lia.
Qed.

(** A payload that holds a message that is not read back is refused as a whole. *)
Lemma parse_built_refused verify msgs p rest pre m post b :
  build_espresso_tx_payload msgs = (p, rest) → msgs = pre ++ m :: post ++ rest →
  Forall wire_message pre → message_to_vec m = Ok b → is_ok (message_from_slice b) = false →
  is_ok (parse_nitro_hotshot_payload p verify) = false.
Proof.
  intros (n & hb & Hn & Er & Hh & _ & -> & Hz & _)%build_spec Em Hw Hm Hr.
  assert (take n msgs = pre ++ m :: post) as Et.
  { apply (app_inj_2 _ _ rest rest); [done|]. rewrite Er at 1. rewrite take_drop, Em. by rewrite <- (assoc_L (++)). }
  rewrite Et, zlen_app, zlen_framed in Hz. unfold parse_nitro_hotshot_payload. rewrite Et.
  unfold HOTSHOT_TX_PAYLOAD_MAX_SIZE in Hz.
  rewrite take_framed_app by (unfold zlen, u64_modulus in *; lia). rewrite Hh. simpl map_err. cbn iota beta.
  rewrite decide_True by done. apply (parse_messages_refused verify pre m post b); try done.
  unfold zlen, u64_modulus in *. lia.
Qed.

(** A message that fits a payload of its own (header, length prefix, message). *)
Definition fits m : Prop :=
  ∀ b, message_to_vec m = Ok b → zlen b ≤ HOTSHOT_TX_PAYLOAD_MAX_SIZE - 80.

Lemma build_progress msgs p rest :
  Forall fits msgs → msgs ≠ [] → build_espresso_tx_payload msgs = (p, rest) →
  (length rest < length msgs)%nat ∧ p ≠ [].
Proof.
  intros Hf Hne (n & hb & Hn & -> & _ & Hl & -> & _ & Hor)%build_spec. split.
  - rewrite length_drop. destruct msgs as [|m msgs]; [done|]. destruct n as [|n]; [|simpl in *; lia].
    destruct Hor as [?|(m' & b & Hm & Hb & Hgt)]; [done|]. exfalso. injection Hm as <-.
    apply Forall_cons in Hf as [Hf _]. apply Hf in Hb. rewrite take_0 in Hgt.
    change (concat (framed <$> encodings [])) with ([] : bytes) in Hgt.
    rewrite app_nil_r, zlen_framed in Hgt. unfold zlen in *. lia.
  - intros E. apply app_eq_nil in E as [E _]. by apply framed_nonempty in E.
Qed.

(** The builder with enough rounds. *)
Lemma build_tx_fn_spec verify namespace_id fuel msgs :
  (length msgs ≤ fuel)%nat → Forall wire_message msgs → Forall fits msgs →
  ∃ txes, build_tx_fn fuel namespace_id msgs = Some txes ∧
    Forall (λ tx, tx_namespace tx = namespace_id ∧ zlen (payload tx) ≤ HOTSHOT_TX_PAYLOAD_MAX_SIZE) txes ∧
    ∃ parsed, Forall2 (λ tx ms, parse_nitro_hotshot_payload (payload tx) verify = Ok ms) txes parsed ∧
      concat parsed = kept verify msgs.
Proof.
  revert msgs. induction fuel as [|fuel IH]; intros msgs Hl Hw Hf.
  { destruct msgs; [|simpl in Hl; lia]. exists []. split_and!; [done|done|]. by exists []. }
  destruct msgs as [|m msgs'] eqn:Em.
  { exists []. split_and!; [done|done|]. by exists []. }
  cbn [build_tx_fn]. rewrite <- Em in *.
  destruct (build_espresso_tx_payload msgs) as [p rest] eqn:Eb.
  destruct (build_progress msgs p rest Hf) as [Hlt Hp]; [by rewrite Em|done|].
  pose proof (build_spec _ _ _ Eb) as (n & hb & Hn & Er & Hh & _ & Ep & Hz & _).
  destruct (IH rest) as (txes & Ht & Hall & parsed & H2 & Hc); [lia|rewrite Er; by apply Forall_drop..|].
  rewrite Ht. destruct p as [|x p]; [done|]. simpl.
  eexists. split; [reflexivity|]. split; [constructor; done|].
  exists (kept verify (take n msgs) :: parsed). split; [constructor; [|done]|].
  - cbn [payload]. rewrite Ep. apply parse_built; [by apply Forall_take|done|].
    rewrite <- Ep. unfold HOTSHOT_TX_PAYLOAD_MAX_SIZE, u64_modulus in *. lia.
  - simpl. rewrite Hc, Er, <- kept_app, take_drop. done.
Qed.

(** C24. If every message is within its types, has a base fee of 64 bits and fits a
    payload of its own, the transaction builder of the submitter ends within one round per message, every payload is within the
    limit, and reading the transactions in order yields every message that has an
    encoding and a valid signature, in order. *)
Theorem build_tx_fn_complete verify namespace_id msgs :
  Forall wire_message msgs → Forall fits msgs →
  ∃ txes, build_tx_fn (length msgs) namespace_id msgs = Some txes ∧
    Forall (λ tx, tx_namespace tx = namespace_id ∧ zlen (payload tx) ≤ HOTSHOT_TX_PAYLOAD_MAX_SIZE) txes ∧
    ∃ parsed, Forall2 (λ tx ms, parse_nitro_hotshot_payload (payload tx) verify = Ok ms) txes parsed ∧
      concat parsed = kept verify msgs.
Proof. by apply build_tx_fn_spec. Qed.

(** A message whose encoding alone exceeds the limit is not skipped: the
    builder returns a payload with the header only and consumes nothing, so the
    loop that drains the messages makes no progress and never ends. *)
Theorem oversized_message_never_drained namespace_id m msgs b :
  message_to_vec m = Ok b → HOTSHOT_TX_PAYLOAD_MAX_SIZE < zlen b →
  (∃ hb, build_espresso_tx_payload (m :: msgs) = (framed hb, m :: msgs)) ∧
  ∀ fuel, build_tx_fn fuel namespace_id (m :: msgs) = None.
Proof.
  intros Hb Hlen.
  assert (Hbuild : ∃ hb, build_espresso_tx_payload (m :: msgs) = (framed hb, m :: msgs)).
  { unfold build_espresso_tx_payload. destruct header_json as (hb & -> & _ & _). exists hb.
    simpl build_loop. rewrite Hb.
    destruct (Z.ltb_spec HOTSHOT_TX_PAYLOAD_MAX_SIZE (zlen (framed hb) + Z.of_nat LEN_SIZE + zlen b)) as [_|H].
    - pose proof (framed_nonempty hb). by destruct (framed hb).
    - unfold zlen in *. lia. }
  split; [exact Hbuild|]. destruct Hbuild as [hb Hbuild].
  induction fuel as [|fuel IH]; [done|]. cbn [build_tx_fn]. rewrite Hbuild, IH.
  pose proof (framed_nonempty hb). by destruct (framed hb).
Qed.
End payload_properties.

(** ** Concrete parameters: a hash that keeps the first 32 bytes, a recovery that
    finds the same signer everywhere. *)

#[export] Instance toy_crypto : Crypto := {|
  keccak256 b := take 32 (b ++ replicate 32 x00);
  recover_address_from_prehash _ _ _ _ := Some (replicate 20 x01);
|}.
