(* ===== verification/Nitro.v ===== *)
(** * The Nitro rollup

    [src/src/rollups/nitro/nitro.rs]: the legacy payload, parsing a range of
    HotShot blocks, and the instance of the rollup interface the streamer runs
    on. *)

From S2P Require Import Prelude Bytes Slice Config Rollup NitroTypes Rlp Batch FeedJson NitroPayload NitroVerify.
From S2P Require Import Streamer StreamerProofs StreamerRun StreamerTheorems.
From Stdlib Require Import Strings.Byte.

Section nitro.
Context {A : AlloyRlp} {B : Brotli} {J : NitroJson} {K : Crypto}.
Context (hash : BroadcastFeedMessage → Z → result B256 string).
Open Scope cas_scope.

Implicit Types (config : NitroConfig Address).

(** ** The legacy payload *)

(** The loop over index, length and message; the two lists grow together and an
    empty message is skipped. *)
Fixpoint legacy_loop (fuel : nat) (buf : bytes) : result (list Z * list bytes) string :=
  match buf, fuel with
  | [], _ => Ok ([], [])
  | _, O => Err "out of rounds"
  | _, S fuel' =>
      if (length buf <? LEN_SIZE + INDEX_SIZE)%nat then Err "payload too short to index size"
      else
        let index := from_be_bytes (take INDEX_SIZE buf) in
        let? '(message, rest) :=
          take_framed "payload too short to index size" "payload too short to message size"
            (drop INDEX_SIZE buf) in
        let? '(indices, messages) := legacy_loop fuel' rest in
        match message with
        | [] => Ok (indices, messages)
        | _ :: _ => Ok (index :: indices, message :: messages)
        end
  end.

Definition parse_legacy_payload_bytes (tx_payload : bytes)
    : result LegacyParsedNitroEspressoTransaction string :=
  let? '(sig, data) :=
    take_framed "payload too short to parse signature size" "payload too short to parse signature" tx_payload in
  let? '(indices, messages) := legacy_loop (length data) data in
  Ok {| legacy_signature := sig; messages_hash := keccak256 data;
        indices := indices; legacy_messages := messages |}.

(** The entry of one decoded legacy message. *)
Definition legacy_entry (hotshot_height index : Z) (m : MessageWithMetadata) : NitroRollupQueueEntry := {|
  feed_message := {| msg_sequence_number := index; feed_msg := m; block_hash := None; signature := [];
                     block_metadata := []; cumulative_sum_msg_size := 0 |};
  entry_hotshot_height := hotshot_height;
|}.

Definition legacy_parse_nitro_hotshot_payload config (tx_payload : bytes) (hotshot_height : Z)
    : list NitroRollupQueueEntry :=
  match parse_legacy_payload_bytes tx_payload with
  | Err _ => []
  | Ok parsed =>
      match recover_signer_address (messages_hash parsed) (legacy_signature parsed) with
      | Err _ => []
      | Ok signer =>
          if negb (bool_decide (signer ∈ legacy_signer_addresses config)) then []
          else if negb (length (indices parsed) =? length (legacy_messages parsed))%nat then []
          else
            omap (λ im, match decode_exact MessageWithMetadata_decode im.2 with
                        | Ok m => Some (legacy_entry hotshot_height im.1 m)
                        | Err _ => None
                        end) (zip (indices parsed) (legacy_messages parsed))
      end
  end.

(** ** HotShot blocks *)

(** The entries of one transaction: the V1 format first, then the legacy one. *)
Definition parse_transaction config (hotshot_height : Z) (tx : Transaction) : list NitroRollupQueueEntry :=
  match parse_nitro_hotshot_payload (payload tx)
          (verify_broadcast_feed_message_signature hash (chain_id config)
             (trusted_sequencer_addresses (client (feed config)))) with
  | Ok broadcast_messages =>
      (λ m, {| feed_message := m; entry_hotshot_height := hotshot_height |}) <$> broadcast_messages
  | Err _ => legacy_parse_nitro_hotshot_payload config (payload tx) hotshot_height
  end.

Fixpoint nitro_parse_hotshot_transactions config (blocks : list (list Transaction)) (hotshot_height : Z)
    : list NitroRollupQueueEntry :=
  match blocks with
  | [] => []
  | block_txs :: blocks' =>
      concat (parse_transaction config hotshot_height <$> block_txs) ++
      nitro_parse_hotshot_transactions config blocks' (u64_add hotshot_height 1)
  end.

Definition verify_broadcast_feed_message config (message : BroadcastFeedMessage) : bool :=
  is_ok (verify_broadcast_feed_message_signature hash (chain_id config)
           (legacy_signer_addresses config) message).

(** [impl Rollup for Nitro] *)
#[local] Instance Nitro : Rollup := {|
  StackConfig := NitroConfig Address;
  Entry := NitroRollupQueueEntry;
  BatchMessageT := BatchMessage;
  FeedMessage := BroadcastFeedMessage;
  BatchCursorT := BatchCursor;
  default_cursor := default_BatchCursor;
  entry_ops := nitro_entry_ops;
  parse_batch_data := parse_batch;
  convert_entry_to_feed_message := feed_message;
  parse_hotshot_transactions := nitro_parse_hotshot_transactions;
  verify_batch_messages := nitro_verify_batch_messages;
|}.

(** [resolve_config_with_checkpoint] *)
Definition resolve_config_with_checkpoint {Genesis}
    (config : ServiceConfig Genesis Address (NitroConfig Address)) (cursor : BatchCursor)
    (starting_height : option Z) : ServiceConfig Genesis Address (NitroConfig Address) :=
  let s := streamer config in
  let r := rollup config in
  let n := stack r in
  let f := feed n in
  {| espresso_client := espresso_client config;
     streamer :=
       {| initial_backoff_ms := initial_backoff_ms s; max_backoff_ms := max_backoff_ms s;
          retry_broadcast_delay_ms := retry_broadcast_delay_ms s;
          starting_pos := next_batch_start_pos cursor;
          starting_hotshot_height := default (starting_hotshot_height s) starting_height;
          max_full_queue_entries := max_full_queue_entries s;
          hotshot_stall_warn_ms := hotshot_stall_warn_ms s;
          progress_log_interval_ms := progress_log_interval_ms s |};
     rollup :=
       {| ty := ty r; namespace_id := namespace_id r;
          stack :=
            {| legacy_signer_addresses := legacy_signer_addresses n; chain_id := chain_id n;
               feed := {| client := client f; server := server f; web_socket_url := web_socket_url f;
                          current_message_count := next_batch_start_pos cursor |};
               l1_http_url := l1_http_url n; l1_ws_url := l1_ws_url n;
               sequencer_inbox_address := sequencer_inbox_address n; log_scan_step := log_scan_step n;
               max_l1_blocks_to_scan_on_startup := max_l1_blocks_to_scan_on_startup n;
               l1_finalized_poll_interval_ms := l1_finalized_poll_interval_ms n |} |};
     da_server := da_server config; submitter := submitter config; advanced := advanced config;
     key_manager := key_manager config; is_fresh_deployment := is_fresh_deployment config |}.

End nitro.

(** ** Lemmas *)

Lemma take_framed_length e1 e2 buf b rest :
  take_framed e1 e2 buf = Ok (b, rest) → length buf = (LEN_SIZE + length b + length rest)%nat.
Proof.
  unfold take_framed. destruct (Nat.ltb_spec (length buf) LEN_SIZE) as [|H]; [done|].
  destruct (Z.ltb_spec (zlen (drop LEN_SIZE buf)) (from_be_bytes (take LEN_SIZE buf))) as [|Hz]; [done|].
  intros [= <- <-]. rewrite length_take, !length_drop. unfold zlen in Hz. rewrite length_drop in Hz. lia.
Qed.

(** The rounds given to the two loops are enough: more change nothing. *)
Lemma parse_messages_fuel `{NitroJson} verify buf fuel :
  (length buf ≤ fuel)%nat → parse_messages fuel verify buf = parse_messages (length buf) verify buf.
Proof.
  assert (Hgen : ∀ n buf f1 f2, (length buf ≤ n)%nat → (length buf ≤ f1)%nat → (length buf ≤ f2)%nat →
            parse_messages f1 verify buf = parse_messages f2 verify buf); [|intros; by eapply Hgen].
  clear. induction n as [|n IH]; intros [|x buf] f1 f2 Hn H1 H2; try (simpl in Hn; lia); try by destruct f1, f2.
  destruct f1 as [|f1]; [simpl in H1; lia|]. destruct f2 as [|f2]; [simpl in H2; lia|].
  cbn [parse_messages]. destruct (take_framed _ _ (x :: buf)) as [[b rest]|] eqn:E; [|done].
  apply take_framed_length in E. simpl in *. unfold LEN_SIZE in E.
  destruct (map_err _ (message_from_slice b)); [|done].
  by rewrite (IH rest f1 f2) by lia.
Qed.

Lemma legacy_loop_fuel buf fuel :
  (length buf ≤ fuel)%nat → legacy_loop fuel buf = legacy_loop (length buf) buf.
Proof.
  assert (Hgen : ∀ n buf f1 f2, (length buf ≤ n)%nat → (length buf ≤ f1)%nat → (length buf ≤ f2)%nat →
            legacy_loop f1 buf = legacy_loop f2 buf); [|intros; by eapply Hgen].
  clear. induction n as [|n IH]; intros [|x buf] f1 f2 Hn H1 H2; try (simpl in Hn; lia); try by destruct f1, f2.
  destruct f1 as [|f1]; [simpl in H1; lia|]. destruct f2 as [|f2]; [simpl in H2; lia|].
  cbn [legacy_loop]. destruct (_ <? _)%nat; [done|].
  destruct (take_framed _ _ _) as [[b rest]|] eqn:E; [|done].
  apply take_framed_length in E. rewrite length_drop in E. simpl in *. unfold LEN_SIZE, INDEX_SIZE in E.
  by rewrite (IH rest f1 f2) by lia.
Qed.

(** The two lists of a legacy payload have the same length, and the indices are
    [u64]s. *)
Lemma legacy_loop_lengths fuel buf idx ms :
  legacy_loop fuel buf = Ok (idx, ms) → length idx = length ms ∧ Forall is_u64 idx.
Proof.
  revert buf idx ms. induction fuel as [|fuel IH]; intros [|x buf] idx ms; cbn [legacy_loop];
    try by intros [= <- <-].
  destruct (Nat.ltb_spec (length (x :: buf)) (LEN_SIZE + INDEX_SIZE)) as [|Hlen]; [done|].
  assert (Hi : is_u64 (from_be_bytes (take INDEX_SIZE (x :: buf)))).
  { apply from_be_bytes_u64. rewrite length_take. unfold LEN_SIZE, INDEX_SIZE in *. lia. }
  destruct (take_framed _ _ _) as [[b rest]|]; [|done].
  destruct (legacy_loop fuel rest) as [[idx' ms']|] eqn:E; [|done].
  apply IH in E as [E1 E2]. destruct b; intros [= <- <-]; [done|]. split; [cbn; by rewrite E1|].
  by apply Forall_cons.
Qed.

(** Messages that parse have been verified. *)
Lemma parse_messages_verified `{NitroJson} fuel verify buf ms m :
  parse_messages fuel verify buf = Ok ms → m ∈ ms →
  verify m = Ok tt ∧ ∃ b, message_from_slice b = Ok m.
Proof.
  revert buf ms. induction fuel as [|fuel IH]; intros [|x buf] ms; cbn [parse_messages];
    try (by intros [= <-] ?%elem_of_nil).
  destruct (take_framed _ _ _) as [[b rest]|]; [|done].
  destruct (message_from_slice b) as [m'|] eqn:Em; [|done]. cbn [map_err].
  destruct (parse_messages fuel verify rest) as [ms'|] eqn:E; [|done].
  destruct (verify m') as [[]|] eqn:Ev; cbn [is_ok]; intros [= <-].
  - intros [->|Hin]%elem_of_cons; [split; [done|eauto]|]. by eapply IH.
  - by eapply IH.
Qed.

Lemma parse_payload_verified `{NitroJson} p verify ms m :
  parse_nitro_hotshot_payload p verify = Ok ms → m ∈ ms →
  verify m = Ok tt ∧ ∃ b, message_from_slice b = Ok m.
Proof.
  unfold parse_nitro_hotshot_payload. destruct (take_framed _ _ _) as [[hb rest]|]; [|done].
  destruct (header_from_slice hb) as [h|]; [|done]. cbn [map_err]. case_decide; [|done].
  apply parse_messages_verified.
Qed.

Section nitro_lemmas.
Context {A : AlloyRlp} {B : Brotli} {J : NitroJson} {JL : NitroJsonLaws J} {K : Crypto}.
Context (hash : BroadcastFeedMessage → Z → result B256 string).
Implicit Types (config : NitroConfig Address).

(** A feed message signed by a trusted sequencer. *)
Definition sequencer_signed config (m : BroadcastFeedMessage) : Prop :=
  ∃ h signer, hash m (chain_id config) = Ok h ∧ recover_signer_address h (signature m) = Ok signer ∧
    signer ∈ trusted_sequencer_addresses (client (feed config)).

(** A legacy payload whose data is signed by a legacy signer. *)
Definition legacy_signed config (p : bytes) : Prop :=
  ∃ sig data e1 e2 signer, take_framed e1 e2 p = Ok (sig, data) ∧
    recover_signer_address (keccak256 data) sig = Ok signer ∧ signer ∈ legacy_signer_addresses config.

Lemma verify_signed config m :
  verify_broadcast_feed_message_signature hash (chain_id config)
    (trusted_sequencer_addresses (client (feed config))) m = Ok tt ↔ sequencer_signed config m.
Proof.
  unfold verify_broadcast_feed_message_signature, sequencer_signed.
  destruct (hash m (chain_id config)) as [h|]; [|split; [done|by intros (h & ? & ? & _)]].
  destruct (recover_signer_address h (signature m)) as [signer|] eqn:E.
  - case_bool_decide as Hin; [split; [eauto 6|done]|]. split; [done|].
    intros (h' & signer' & [= <-] & Hr & Hs). congruence.
  - split; [done|]. intros (h' & signer' & [= <-] & Hr & Hs). congruence.
Qed.

Lemma legacy_parse_spec config p h e :
  e ∈ legacy_parse_nitro_hotshot_payload config p h →
  legacy_signed config p ∧ entry_hotshot_height e = h ∧ is_u64 (sequence_number e).
Proof.
  unfold legacy_parse_nitro_hotshot_payload, parse_legacy_payload_bytes.
  destruct (take_framed _ _ p) as [[sig data]|] eqn:Ef; [|by intros ?%elem_of_nil].
  destruct (legacy_loop _ data) as [[idx ms]|] eqn:El; [|by intros ?%elem_of_nil].
  cbn [messages_hash legacy_signature indices legacy_messages].
  destruct (recover_signer_address _ sig) as [signer|] eqn:Er; [|by intros ?%elem_of_nil].
  case_bool_decide as Hs; cbn [negb]; [|by intros ?%elem_of_nil].
  apply legacy_loop_lengths in El as [El Hu]. rewrite (proj2 (Nat.eqb_eq _ _) El). cbn [negb].
  intros ([i b] & Hin & He)%list_elem_of_omap. simpl in He.
  destruct (decode_exact _ b) as [m|]; [|done]. injection He as <-. split; [|split; [done|]].
  - unfold legacy_signed. eauto 10.
  - simpl. apply elem_of_zip_l in Hin. rewrite Forall_forall in Hu. by apply Hu.
Qed.

Lemma parse_transaction_spec config h tx e :
  e ∈ parse_transaction hash config h tx →
  (sequencer_signed config (feed_message e) ∨ legacy_signed config (payload tx)) ∧
  entry_hotshot_height e = h ∧ is_u64 (sequence_number e).
Proof.
  unfold parse_transaction. destruct (parse_nitro_hotshot_payload _ _) as [ms|] eqn:E.
  - intros (m & -> & Hm)%list_elem_of_fmap. destruct (parse_payload_verified _ _ _ _ E Hm) as [Hv [b Hb]].
    split; [left; by apply verify_signed|]. split; [done|]. by eapply message_json_u64.
  - intros (? & ? & ?)%legacy_parse_spec. auto.
Qed.

Lemma parse_block_spec config h txs e :
  e ∈ concat (parse_transaction hash config h <$> txs) →
  ∃ tx, tx ∈ txs ∧ e ∈ parse_transaction hash config h tx.
Proof.
  induction txs as [|tx txs IH]; simpl; [by intros ?%elem_of_nil|].
  intros [He|(tx' & ? & ?)%IH]%elem_of_app; [exists tx|exists tx']; (split; [set_solver|done]).
Qed.

#[export] Instance NitroLaws : RollupLaws (Nitro hash).
Proof.
  refine {| feed_sequence_number := (msg_sequence_number : @FeedMessage (Nitro hash) → Z) |}; simpl; try done.
  - intros cfg blocks. induction blocks as [|b blocks IH]; intros h e; simpl; [set_solver|].
    intros [(tx & _ & Htx)%parse_block_spec|He]%elem_of_app; [|by eapply IH].
    by apply parse_transaction_spec in Htx as (_ & _ & ?).
  - intros cfg b blocks h. by rewrite app_nil_r.
  - intros cfg b h e. rewrite app_nil_r. intros (tx & _ & Htx)%parse_block_spec.
    by apply parse_transaction_spec in Htx as (_ & ? & _).
Defined.
End nitro_lemmas.

(** ** Concrete parameters

    A serializer that numbers the messages of a table, each padded to a size of
    its own. *)

Definition same_message (m : BroadcastFeedMessage) (e : BroadcastFeedMessage * Z) : Prop := skip_size m = e.1.

#[export] Instance same_message_dec m e : Decision (same_message m e).
Proof. unfold same_message. apply _. Defined.

Definition table_json (table : list (BroadcastFeedMessage * Z)) : NitroJson := {|
  header_to_vec _ := Ok [x22; x56; x31; x22];
  header_from_slice b := if decide (b = [x22; x56; x31; x22]) then Ok V1 else Err "header";
  message_to_vec m :=
    match list_find (same_message m) table with
    | Some (i, (_, pad)) => Ok (to_be_bytes 8 (Z.of_nat i) ++ replicate (Z.to_nat pad) x00)
    | None => Err "not in the table"
    end;
  message_from_slice b :=
    match table !! Z.to_nat (from_be_bytes (take 8 b)) with
    | Some (m, _) => Ok m
    | None => Err "not in the table"
    end;
|}.

Lemma table_json_laws table :
  zlen table < u64_modulus → Forall (λ e, is_u64 (msg_sequence_number e.1)) table →
  NitroJsonLaws (table_json table).
Proof.
  intros Hlen Hu. split.
  - exists [x22; x56; x31; x22]. split_and!; [done|by vm_compute|simpl; lia].
  - intros m b _. cbn [message_to_vec message_from_slice table_json]. destruct (list_find _ table) as [[i [m' pad]]|] eqn:E; [|done].
    apply list_find_Some in E as (Hi & Hm & _). intros Hb.
    assert (b = to_be_bytes 8 (Z.of_nat i) ++ replicate (Z.to_nat pad) x00) as -> by congruence.
    rewrite (take_app_length' _ _ 8) by (symmetry; apply length_to_be_bytes).
    rewrite from_to_be_bytes_u64, Nat2Z.id, Hi.
    + by rewrite Hm.
    + apply lookup_lt_Some in Hi. unfold is_u64, zlen in *. lia.
  - intros b m. simpl. destruct (table !! _) as [[m' pad]|] eqn:E; [|done]. intros [= <-].
    rewrite Forall_forall in Hu. apply (Hu (m', pad)). by eapply list_elem_of_lookup_2.
Qed.
