(* ===== verification/NitroTheorems.v ===== *)
(** * Theorems of the Nitro rollup

    Authenticity of the queue entries, the payload round trip on concrete
    messages, and the streamer's replies to verification requests. *)

From S2P Require Import Prelude Bytes Slice Config Rollup NitroTypes Rlp RlpInstance Batch FeedJson NitroPayload NitroVerify.
From S2P Require Import MockRollup Streamer StreamerProofs StreamerRun StreamerTheorems Nitro.
From Stdlib Require Import Strings.Byte.

Section nitro_properties.
Context {A : AlloyRlp} {B : Brotli} {J : NitroJson} {JL : NitroJsonLaws J} {K : Crypto}.
Context (hash : BroadcastFeedMessage → Z → result B256 string).

(** Where a parsed entry comes from, and who signed it. *)
Lemma parsed_entry_spec config blocks h e :
  is_u64 h → h + zlen blocks ≤ u64_modulus →
  e ∈ nitro_parse_hotshot_transactions hash config blocks h →
  ∃ i block tx, blocks !! i = Some block ∧ tx ∈ block ∧ entry_hotshot_height e = h + Z.of_nat i ∧
    is_u64 (sequence_number e) ∧
    (sequencer_signed hash config (feed_message e) ∨ legacy_signed config (payload tx)).
Proof.
  intros Hh Hlen He.
  destruct (parse_in_range (R:=Nitro hash) config blocks h e Hh Hlen He) as (i & b & Hb & Ehh & Hin).
  simpl in Hin. rewrite app_nil_r in Hin.
  apply parse_block_spec in Hin as (tx & Htx & (Hs & _ & Hu)%parse_transaction_spec).
  exists i, b, tx. split_and!; done.
Qed.

(** No entry reaches the queue unsigned: every entry parsed from a range of
    blocks sits at the height of its block, in one of its transactions, and is a
    feed message signed by a trusted sequencer or part of a legacy payload whose
    data is signed by a legacy signer. *)
Theorem nitro_entries_authentic config blocks h e :
  is_u64 h → h + zlen blocks ≤ u64_modulus →
  e ∈ nitro_parse_hotshot_transactions hash config blocks h →
  ∃ i block tx, blocks !! i = Some block ∧ tx ∈ block ∧ entry_hotshot_height e = h + Z.of_nat i ∧
    is_u64 (sequence_number e) ∧
    (sequencer_signed hash config (feed_message e) ∨ legacy_signed config (payload tx)).
Proof. apply parsed_entry_spec. Qed.

(** The reply of the running streamer: in every reachable state, if a
    verification request succeeds then the batch parses, and when the queue has
    every position of the reported range, each of them is the queued feed message
    of that number with the batch's content and the running delayed count. *)
Theorem nitro_reply_sound {C} {SD : Sender C BroadcastFeedMessage} {SL : SenderLaws SD}
    cfg rcfg (c0 : C) (st : loop_state (Nitro hash) C) data cursor :
  reachable (R:=Nitro hash) cfg rcfg c0 st →
  is_u64 (last_batch_delayed_messages_read cursor) → is_u64 (next_batch_start_pos cursor) →
  let q : list NitroRollupQueueEntry := queue (streamer_of st) in
  let r := verify_request (R:=Nitro hash) (streamer_of st) data (Some (Ok cursor)) in
  success r = true →
  ∃ batch, parse_batch data = Ok batch ∧
    (next_batch_start_pos cursor + zlen batch ≤ u64_modulus →
     (∀ k, next_batch_start_pos cursor ≤ k < next_batch_start_pos cursor + zlen batch →
           ∃ e, e ∈ q ∧ sequence_number e = k) →
     ∀ k, start_message_position r ≤ k ≤ end_message_position r →
       ∃ e msg, e ∈ q ∧ sequence_number e = k ∧
         batch !! Z.to_nat (k - start_message_position r) = Some msg ∧
         message_matches (last_batch_delayed_messages_read cursor) batch
           (Z.to_nat (k - start_message_position r)) msg e).
Proof.
  intros Hr Hd Hn q r. destruct (reachable_inv _ _ _ _ Hr) as [Hinv _ _ _ _ _ _].
  subst r. unfold verify_request. simpl. destruct (parse_batch data) as [batch|] eqn:Eb; [|done].
  intros Hs. exists batch. split; [done|]. intros Hlen Hall.
  apply (verify_sound batch q cursor); try done. apply (inv_sorted _ Hinv).
Qed.

(** A request whose batch does not parse, or for which the cursor cannot be
    fetched and the queue has no entry 1, is answered with the failure, and the
    streamer's state never changes on a request. *)
Theorem verify_request_failures {C} {SD : Sender C BroadcastFeedMessage} reader
    (st : loop_state (Nitro hash) C) data cursor err :
  streamer_inv (streamer_of st) →
  (parse_batch data = Err err ∨
   (∀ c, cursor ≠ Some (Ok c)) ∧
   ∀ e : NitroRollupQueueEntry, e ∈ queue (streamer_of st) → sequence_number e ≠ 1) →
  handle_event (R:=Nitro hash) reader st (EvVerify (R:=Nitro hash) data cursor) =
    (st, Some VerificationResult_failure).
Proof.
  intros Hinv H. simpl. f_equal. f_equal. unfold verify_request. simpl.
  destruct (parse_batch data) as [batch|] eqn:Eb; [|done].
  destruct H as [?|[Hc Hno]]; [done|].
  assert (Hfail : nitro_verify_batch_messages batch (queue (streamer_of st)) default_BatchCursor =
                  VerificationResult_failure).
  { destruct (verify_cases batch (queue (streamer_of st)) default_BatchCursor) as
      [(q1 & e & q2 & Eq & He & _)|[-> _]]; [apply (inv_sorted _ Hinv)|split; by vm_compute| |done].
    exfalso. apply (Hno e); [|exact He]. rewrite Eq. set_solver. }
  destruct cursor as [[c|]|]; [by destruct (Hc c)|exact Hfail|exact Hfail].
Qed.
End nitro_properties.

(** ** Concrete runs *)

(** Signed messages 5 to 7 of a small feed. *)
Definition signed_message (seq : Z) : BroadcastFeedMessage := {|
  msg_sequence_number := seq;
  feed_msg := {| message := Some {| header := None; l2msg := to_be_bytes 2 seq;
                                    legacy_batch_gas_cost := None; batch_data_stats := None |};
                 delayed_messages_read := 1 |};
  signature := replicate 65 x01; block_metadata := []; cumulative_sum_msg_size := 0; block_hash := None;
|}.

Definition small_table : list (BroadcastFeedMessage * Z) :=
  [(signed_message 5, 0); (signed_message 6, 0); (signed_message 7, 0)].

Definition small_json : NitroJson := table_json small_table.

Definition small_msgs : list BroadcastFeedMessage := fst <$> small_table.

Lemma signed_message_wire n : is_u64 n → wire_message (signed_message n).
Proof.
  intros Hn. split; [|by intros im h fee [= <-]]. split; [done|split; by vm_compute| |done].
  intros im [= <-]. split; try done.
Qed.

Lemma small_msgs_wire : Forall wire_message small_msgs.
Proof. repeat (apply Forall_cons; split; [apply signed_message_wire; split; by vm_compute|]). by apply Forall_nil. Qed.

Lemma small_json_laws : NitroJsonLaws small_json.
Proof.
  apply table_json_laws; [by vm_compute|].
  repeat (apply Forall_cons; split; [split; by vm_compute|]). by apply Forall_nil.
Qed.

Definition feed_hash : BroadcastFeedMessage → Z → result B256 string := signature_hash_v3_9_9.

Definition small_config : NitroConfig Address := {|
  legacy_signer_addresses := []; chain_id := 412346;
  feed := {| client := {| reconnect_initial_backoff := 1000; reconnect_maximum_backoff := 64000;
                          timeout := 20000; retry_connect_max_backoff := 15000;
                          retry_connect_backoff_step := 500; enable_compression := true;
                          require_feed_server_version := false; require_chain_id := false;
                          trusted_sequencer_addresses := [replicate 20 x01] |};
             server := default_BroadcasterConfig; web_socket_url := "ws://sequencer"; current_message_count := 5 |};
  l1_http_url := ""; l1_ws_url := ""; sequencer_inbox_address := [];
  log_scan_step := 10000; max_l1_blocks_to_scan_on_startup := 0; l1_finalized_poll_interval_ms := 12000;
|}.

Definition small_tx : Transaction :=
  {| tx_namespace := 1; payload := (build_espresso_tx_payload (J:=small_json) small_msgs).1 |}.

(** Every message of the list comes back from its transaction, verified. *)
Lemma build_parse_roundtrip_witness :
  (build_espresso_tx_payload (J:=small_json) small_msgs).2 = [] ∧
  ∃ consumed, small_msgs = consumed ++ [] ∧ zlen (payload small_tx) ≤ 921600 ∧
    parse_nitro_hotshot_payload (J:=small_json) (payload small_tx)
      (verify_broadcast_feed_message_signature feed_hash 412346 [replicate 20 x01]) =
    Ok (kept (J:=small_json) (verify_broadcast_feed_message_signature feed_hash 412346 [replicate 20 x01])
          consumed).
Proof.
  split; [by vm_compute|].
  apply (build_parse_roundtrip (JL:=small_json_laws)); [exact small_msgs_wire|by vm_compute].
Defined.

Lemma build_tx_fn_complete_witness :
  ∃ txes, build_tx_fn (J:=small_json) 3 1 small_msgs = Some txes ∧
    Forall (λ tx, tx_namespace tx = 1 ∧ zlen (payload tx) ≤ HOTSHOT_TX_PAYLOAD_MAX_SIZE) txes ∧
    ∃ parsed, Forall2 (λ tx ms, parse_nitro_hotshot_payload (J:=small_json) (payload tx) (λ _, Ok tt) = Ok ms)
                txes parsed ∧
      concat parsed = kept (J:=small_json) (λ _, Ok tt) small_msgs.
Proof.
  apply (build_tx_fn_complete (JL:=small_json_laws) (λ _, Ok tt) 1 small_msgs); [exact small_msgs_wire|].
  repeat (apply Forall_cons; split; [intros b [= <-]; by vm_compute|]). by apply Forall_nil.
Defined.

(** A message of a million bytes. *)
Definition big_json : NitroJson := table_json [(signed_message 5, 1000000)].

Lemma big_json_laws : NitroJsonLaws big_json.
Proof.
  apply table_json_laws; [by vm_compute|].
  apply Forall_cons. split; [split; by vm_compute|by apply Forall_nil].
Qed.

Lemma oversized_message_never_drained_witness :
  (∃ hb, build_espresso_tx_payload (J:=big_json) [signed_message 5] = (framed hb, [signed_message 5])) ∧
  ∀ fuel, build_tx_fn (J:=big_json) fuel 1 [signed_message 5] = None.
Proof.
  apply (oversized_message_never_drained (JL:=big_json_laws) 1 (signed_message 5) []
           (to_be_bytes 8 0 ++ replicate (Z.to_nat 1000000) x00)).
  - unfold message_to_vec, big_json, table_json.
    assert (list_find (same_message (signed_message 5)) [(signed_message 5, 1000000)] =
            Some (0%nat, (signed_message 5, 1000000))) as -> by (by vm_compute). done.
  - unfold zlen. rewrite length_app, length_replicate, length_to_be_bytes.
    unfold HOTSHOT_TX_PAYLOAD_MAX_SIZE. lia.
Defined.

Lemma nitro_entries_authentic_witness :
  ∃ i block tx, [[]; [small_tx]] !! i = Some block ∧ tx ∈ block ∧ 11 = 10 + Z.of_nat i ∧ is_u64 6 ∧
    (sequencer_signed feed_hash small_config (signed_message 6) ∨ legacy_signed small_config (payload tx)).
Proof.
  apply (nitro_entries_authentic (JL:=small_json_laws) feed_hash small_config [[]; [small_tx]] 10
           {| feed_message := signed_message 6; entry_hotshot_height := 11 |}).
  - split; by vm_compute.
  - by vm_compute.
  - apply (list_elem_of_lookup_2 _ 1). by vm_compute.
Defined.

(** The streamer after one block with the three messages. *)
Definition small_rollup_config : RollupConfig (NitroConfig Address) :=
  {| ty := RollupNitro; namespace_id := 1; stack := small_config |}.

Definition small_cfg : StreamerConfig := {|
  initial_backoff_ms := 1000; max_backoff_ms := 30000; retry_broadcast_delay_ms := 300;
  starting_pos := 5; starting_hotshot_height := 10; max_full_queue_entries := 100;
  hotshot_stall_warn_ms := 30000; progress_log_interval_ms := 15000;
|}.

Definition small_chan : bounded_chan BroadcastFeedMessage :=
  {| chan_capacity := 100; chan_pending := []; chan_history := []; chan_closed := false |}.

Definition SmallNitro : Rollup := Nitro (A:=concrete_rlp) (B:=stored_brotli) (J:=small_json) feed_hash.

Definition small_sender : Sender (bounded_chan BroadcastFeedMessage) (@FeedMessage SmallNitro) := bounded_sender.

Definition small_start : loop_state SmallNitro (bounded_chan BroadcastFeedMessage) :=
  run_init (R:=SmallNitro) small_cfg small_rollup_config 4 small_chan.

Definition small_state : loop_state SmallNitro (bounded_chan BroadcastFeedMessage) :=
  (handle_event (R:=SmallNitro) (SD:=small_sender) failing_reader small_start
     (EvTransactions (R:=SmallNitro) [[small_tx]] 10)).1.

Lemma small_state_reachable :
  reachable (R:=SmallNitro) (SD:=small_sender) small_cfg small_rollup_config small_chan small_state.
Proof. apply reachable_step; [|done]. apply reachable_init. split; by vm_compute. Qed.

(** The batch that holds messages 5 and 6. *)
Definition small_batch : bytes :=
  BROTLI_HEADER_BYTE ::
    concat (encode bytes_codec <$> (message_segment <$> [L2Msg (to_be_bytes 2 5); L2Msg (to_be_bytes 2 6)])).

Definition small_cursor : BatchCursor :=
  {| last_batch_delayed_messages_read := 1; next_batch_start_pos := 5 |}.

Lemma nitro_reply_sound_witness :
  let r := verify_request (R:=SmallNitro) (streamer_of small_state) small_batch (Some (Ok small_cursor)) in
  success r = true ∧ end_message_position r = 6 ∧
  ∃ batch, parse_batch small_batch = Ok batch.
Proof.
  intros r. split; [by vm_compute|]. split; [by vm_compute|].
  destruct (nitro_reply_sound (JL:=small_json_laws) feed_hash (SD:=small_sender) (SL:=bounded_sender_laws)
              small_cfg small_rollup_config small_chan small_state small_batch small_cursor)
    as (batch & Hb & _).
  - exact small_state_reachable.
  - split; by vm_compute.
  - split; by vm_compute.
  - by vm_compute.
  - by exists batch.
Defined.

Lemma verify_request_failures_witness :
  handle_event (R:=SmallNitro) (SD:=small_sender) failing_reader small_start
    (EvVerify (R:=SmallNitro) [] None) = (small_start, Some VerificationResult_failure).
Proof.
  apply (verify_request_failures (JL:=small_json_laws) feed_hash failing_reader small_start [] None
           "empty sequencer message").
  - destruct (reachable_inv (R:=SmallNitro) (SD:=small_sender) (L:=NitroLaws (JL:=small_json_laws) feed_hash)
                small_cfg small_rollup_config small_chan small_start); [|done].
    apply reachable_init. split; by vm_compute.
  - by left.
Defined.

(** ** Heights of stubs

    Message 9 was seen first, at height 1, and overflowed the queue. *)

Definition stub_cfg : StreamerConfig := {|
  initial_backoff_ms := 1000; max_backoff_ms := 30000; retry_broadcast_delay_ms := 300;
  starting_pos := 5; starting_hotshot_height := 0; max_full_queue_entries := 3;
  hotshot_stall_warn_ms := 30000; progress_log_interval_ms := 15000;
|}.

Definition stub_streamer : Streamer SmallNitro :=
  filter_messages (R:=SmallNitro) (new (R:=SmallNitro) stub_cfg small_rollup_config)
    [sample_entry 9 [] 1 1; sample_entry 5 (to_be_bytes 2 5) 1 5; sample_entry 6 [] 1 6; sample_entry 7 [] 1 7].

(** [min_espresso_block_still_in_queue] looks at the queue only: a message
    that is still pending as a stub can have a smaller height than the one
    reported. *)
Theorem min_block_ignores_stubs :
  let r := nitro_verify_batch_messages [L2Msg (to_be_bytes 2 5)] (queue stub_streamer) small_cursor in
  success r = true ∧ min_espresso_block_still_in_queue r = 6 ∧ stubs stub_streamer !! 9 = Some 1.
Proof. split_and!; by vm_compute. Qed.
