(* ===== verification/FeedSignature.v ===== *)
(** * What a feed signature covers

    The two versions of [signature_hash] ([src/src/rollups/nitro/nitro.rs]): the one of
    the default build hashes an RLP list, so the hash determines the message; the one
    of the other builds hashes the fields end to end, and a byte moved from one field
    to the next goes unnoticed. *)

From S2P Require Import Prelude Bytes Slice Config Rollup NitroTypes Rlp RlpInstance NitroPayload NitroVerify.
From Stdlib Require Import Strings.Byte.
#[local] Open Scope cas_scope.

(** ** The default build *)

(** A message within its types, and what it carries. *)
Record signable (msg : BroadcastFeedMessage) (x : L1IncomingMessage) : Prop := {
  sg_message : message (feed_msg msg) = Some x;
  sg_number : is_u64 (msg_sequence_number msg);
  sg_delayed : is_u64 (delayed_messages_read (feed_msg msg));
}.

Definition encodable `{AlloyRlp} (x : L1IncomingMessage) : Prop :=
  wf_message x ∧ zlen (L1IncomingMessage_encode x) < u64_modulus.

Lemma app_inj_length {A} (a b c d : list A) : length a = length b → a ++ c = b ++ d → a = b ∧ c = d.
Proof. intros Hl H. by apply app_inj_1 in H. Qed.

Lemma encode_binds {A : AlloyRlp} {L : AlloyRlpLaws A} x y :
  encodable x → encodable y → L1IncomingMessage_encode x = L1IncomingMessage_encode y → norm_message x = norm_message y.
Proof.
  intros [Hx Hlx] [Hy Hly] E. pose proof (message_roundtrip x [] Hx Hlx) as H. rewrite E, message_roundtrip in H by done.
  apply Ok_inj in H. congruence.
Qed.

Lemma preimage_binds pre n1 c1 d1 e1 n2 c2 d2 e2 :
  is_u64 n1 → is_u64 n2 → is_u64 c1 → is_u64 c2 → is_u64 d1 → is_u64 d2 →
  pre ++ (to_be_bytes 8 n1 ++ to_be_bytes 8 c1 ++ to_be_bytes 8 d1) ++ e1 =
  pre ++ (to_be_bytes 8 n2 ++ to_be_bytes 8 c2 ++ to_be_bytes 8 d2) ++ e2 →
  n1 = n2 ∧ c1 = c2 ∧ d1 = d2 ∧ e1 = e2.
Proof.
  intros ?????? E. apply app_inv_head in E.
  apply app_inj_length in E as [En E]; [|by rewrite !length_app, !length_to_be_bytes].
  apply app_inj_length in En as [E1 En]; [|by rewrite !length_to_be_bytes].
  apply app_inj_length in En as [E2 E3]; [|by rewrite !length_to_be_bytes].
  split_and!; [by apply to_be_bytes_u64_inj..|done].
Qed.

(** C20. The signature of the default build covers what a batch is compared with: two
    messages whose hashes agree, under whatever chain ids, have the same number, chain
    id, delayed count and L1 message, up to a zero base fee or gas cost that RLP cannot
    tell from an absent one, unless two byte strings with one keccak hash are known. *)
Theorem feed_signature_binds {K : Crypto} {A : AlloyRlp} {L : AlloyRlpLaws A} m1 m2 x1 x2 c1 c2 h :
  signable m1 x1 → signable m2 x2 → encodable x1 → encodable x2 → is_u64 c1 → is_u64 c2 →
  signature_hash_v3_9_9 m1 c1 = Ok h → signature_hash_v3_9_9 m2 c2 = Ok h →
  (msg_sequence_number m1 = msg_sequence_number m2 ∧ c1 = c2 ∧
   delayed_messages_read (feed_msg m1) = delayed_messages_read (feed_msg m2) ∧
   norm_message x1 = norm_message x2) ∨
  ∃ p q, p ≠ q ∧ keccak256 p = keccak256 q.
Proof.
  intros [Hm1 Hn1 Hd1] [Hm2 Hn2 Hd2] He1 He2 Hc1 Hc2. unfold signature_hash_v3_9_9. rewrite Hm1, Hm2. cbn [ok_or].
  intros H1 H2. apply Ok_inj in H1, H2. subst h. rename H2 into H.
  match type of H with keccak256 ?q = keccak256 ?p => destruct (decide (p = q)) as [E|E]; [|right; by exists p, q] end.
  left. apply preimage_binds in E as (? & ? & ? & ?); [|done..]. split_and!; [done..|by apply encode_binds].
Qed.

(** ** The other builds *)

(** The first byte of the content becomes the base fee. *)
Definition forge (msg : BroadcastFeedMessage) (x : L1IncomingMessage) (h : L1IncomingMessageHeader) (b : byte) (rest : bytes)
    : BroadcastFeedMessage := {|
  msg_sequence_number := msg_sequence_number msg;
  feed_msg := {|
    message := Some {|
      header := Some {| kind := kind h; poster := poster h; block_number := block_number h; timestamp := timestamp h;
                        request_id := request_id h; l1_base_fee := Some (u8_to_Z b) |};
      l2msg := rest; legacy_batch_gas_cost := legacy_batch_gas_cost x; batch_data_stats := batch_data_stats x |};
    delayed_messages_read := delayed_messages_read (feed_msg msg) |};
  signature := signature msg; block_metadata := block_metadata msg;
  cumulative_sum_msg_size := cumulative_sum_msg_size msg; block_hash := block_hash msg |}.

Lemma trimmed_byte b : b ≠ x00 → trim_leading_zeros (to_be_bytes 32 (u8_to_Z b)) = [b].
Proof. destruct b; intros H; first done; by vm_compute. Qed.

Lemma trimmed_zero : trim_leading_zeros (to_be_bytes 32 0) = [].
Proof. by vm_compute. Qed.

Lemma forge_hash {K : Crypto} msg x h b rest chain :
  message (feed_msg msg) = Some x → header x = Some h → l1_base_fee h = None ∨ l1_base_fee h = Some 0 →
  l2msg x = b :: rest → b ≠ x00 → signature_hash (forge msg x h b rest) chain = signature_hash msg chain.
Proof.
  intros Hm Hh Hf Hl Hb. unfold signature_hash, signature_preimage, forge. rewrite Hm.
  cbn [feed_msg message ok_or header l1_base_fee l2msg kind poster block_number timestamp request_id msg_sequence_number
       block_hash block_metadata delayed_messages_read].
  rewrite Hh. cbn [ok_or]. rewrite trimmed_byte, Hl by done.
  assert (match l1_base_fee h with Some fee => trim_leading_zeros (to_be_bytes 32 fee) | None => [] end = []) as ->.
  { destruct Hf as [-> | ->]; [done|apply trimmed_zero]. }
  reflexivity.
Qed.

(** The verification of a one-message batch against a one-message queue. *)
Lemma one_entry_verified e cur content x :
  next_batch_start_pos cur = sequence_number e →
  delayed_messages_read (feed_msg (feed_message e)) = last_batch_delayed_messages_read cur →
  message (feed_msg (feed_message e)) = Some x →
  success (nitro_verify_batch_messages [L2Msg content] [e] cur) = bytes_eqb content (l2msg x).
Proof.
  intros Hp Hd Hx. unfold nitro_verify_batch_messages, binary_search_by_key, binary_search_by. cbn [length bs_loop nth].
  simpl. rewrite Hp, Z.compare_refl. simpl. rewrite Hx, Hd. destruct (bytes_eqb content (l2msg x)); [|done].
  by rewrite Z.eqb_refl.
Qed.

(** C21. The signature of the other builds does not cover the content: whoever has a signed
    message without a base fee whose content begins with a byte that is not zero has
    another one, of the same number and with the same signature, that every check of
    signatures accepts as well; a queue that holds it refuses the batch with the
    signed content and accepts the batch with the shortened one. *)
Theorem feed_signature_malleable {K : Crypto} msg x h b rest :
  message (feed_msg msg) = Some x → header x = Some h → l1_base_fee h = None ∨ l1_base_fee h = Some 0 →
  l2msg x = b :: rest → b ≠ x00 →
  let forged := forge msg x h b rest in
  (∀ chain trusted, verify_broadcast_feed_message_signature signature_hash chain trusted forged =
                    verify_broadcast_feed_message_signature signature_hash chain trusted msg) ∧
  ∀ height cur,
    next_batch_start_pos cur = msg_sequence_number msg →
    last_batch_delayed_messages_read cur = delayed_messages_read (feed_msg msg) →
    let verified batch m := success (nitro_verify_batch_messages batch [ {| feed_message := m; entry_hotshot_height := height |} ] cur) in
    verified [L2Msg (l2msg x)] msg = true ∧ verified [L2Msg (l2msg x)] forged = false ∧
    verified [L2Msg rest] forged = true.
Proof.
  intros Hm Hh Hf Hl Hb forged. split.
  - intros chain trusted. unfold verify_broadcast_feed_message_signature. unfold forged at 1. by rewrite forge_hash.
  - intros height cur Hp Hd. cbv zeta beta. rewrite (one_entry_verified _ cur _ x) by done.
    rewrite !(one_entry_verified {| feed_message := forged; entry_hotshot_height := height |} cur _
      {| header := _; l2msg := rest; legacy_batch_gas_cost := _; batch_data_stats := _ |}) by done.
    unfold bytes_eqb. simpl. split_and!; [by apply bool_decide_eq_true| |by apply bool_decide_eq_true].
    apply bool_decide_eq_false. rewrite Hl. intros E. apply (f_equal length) in E. simpl in E. lia.
Qed.

(** ** Concrete messages *)

(** A hash without collisions, and a recovery that always finds one signer. *)
Definition sig_crypto : Crypto := {|
  keccak256 b := b;
  recover_address_from_prehash _ _ _ _ := Some (replicate 20 x01);
|}.

Definition sig_message (x : L1IncomingMessage) : BroadcastFeedMessage := {|
  msg_sequence_number := 5; feed_msg := {| message := Some x; delayed_messages_read := 4 |};
  signature := replicate 65 x01; block_metadata := []; cumulative_sum_msg_size := 0; block_hash := None |}.

Lemma norm_sample_wf : wf_message (norm_message sample_l1).
Proof.
  destruct sample_l1_wf as [H1 H2 H3 H4]. split; try done.
  intros h Hh. destruct (H1 _ eq_refl). injection Hh as <-. by split.
Qed.

Lemma feed_signature_binds_witness :
  sample_l1 ≠ norm_message sample_l1 ∧ norm_message sample_l1 = norm_message (norm_message sample_l1).
Proof.
  split; [done|].
  destruct (feed_signature_binds (K:=sig_crypto) (A:=concrete_rlp) (L:=concrete_rlp_laws) (sig_message sample_l1)
    (sig_message (norm_message sample_l1)) sample_l1 (norm_message sample_l1) 1 1
    (FEED_PREFIX ++ (to_be_bytes 8 5 ++ to_be_bytes 8 1 ++ to_be_bytes 8 4) ++ L1IncomingMessage_encode sample_l1))
    as [(_ & _ & _ & H)|(p & q & Hpq & H)].
  - by split.
  - by split.
  - split; [exact sample_l1_wf|by vm_compute].
  - split; [exact norm_sample_wf|by vm_compute].
  - done.
  - done.
  - reflexivity.
  - by vm_compute.
  - exact H.
  - by destruct Hpq.
Defined.

Definition sig_header : L1IncomingMessageHeader :=
  {| kind := 3; poster := replicate 20 x02; block_number := 7; timestamp := 9; request_id := None; l1_base_fee := None |}.

Definition sig_content : L1IncomingMessage :=
  {| header := Some sig_header; l2msg := [x04; x05]; legacy_batch_gas_cost := None; batch_data_stats := None |}.

Lemma feed_signature_malleable_witness :
  let forged := forge (sig_message sig_content) sig_content sig_header x04 [x05] in
  verify_broadcast_feed_message_signature (K:=sig_crypto) (signature_hash (K:=sig_crypto)) 1 [replicate 20 x01] forged = Ok tt ∧
  success (nitro_verify_batch_messages [L2Msg [x04; x05]] [ {| feed_message := forged; entry_hotshot_height := 1 |} ]
    {| last_batch_delayed_messages_read := 4; next_batch_start_pos := 5 |}) = false.
Proof.
  destruct (feed_signature_malleable (K:=sig_crypto) (sig_message sig_content) sig_content sig_header x04 [x05]) as [H1 H2].
  - done.
  - done.
  - by left.
  - done.
  - done.
  - cbv zeta. split; [rewrite H1; by vm_compute|].
    apply (H2 1 {| last_batch_delayed_messages_read := 4; next_batch_start_pos := 5 |} eq_refl eq_refl).
Defined.
