(* ===== verification/Keccak.v ===== *)
(** * Keccak-256

    The hash function behind the parameter [keccak256], from its specification (the
    Keccak reference, with the original padding Ethereum uses).  It is the concrete
    function the repository's test vectors are checked with; nothing is proved of
    it. *)

From S2P Require Import Prelude Bytes.
#[local] Open Scope Z_scope.

Definition MASK64 : Z := 2 ^ 64 - 1.

Definition rotl64 (x n : Z) : Z := Z.lor (Z.land (Z.shiftl x n) MASK64) (Z.shiftr x (64 - n)).

Definition lane (s : list Z) (x y : nat) : Z := nth ((x mod 5) + 5 * (y mod 5)) s 0.

(** The lanes of a state, in the order of their index. *)
Definition tabulate (f : nat → nat → Z) : list Z := (λ i, f (i mod 5)%nat (i / 5)%nat) <$> seq 0 25.

Definition theta (s : list Z) : list Z :=
  let c := (λ x, Z.lxor (lane s x 0) (Z.lxor (lane s x 1) (Z.lxor (lane s x 2) (Z.lxor (lane s x 3) (lane s x 4))))) <$> seq 0 5 in
  let d := (λ x, Z.lxor (nth ((x + 4) mod 5) c 0) (rotl64 (nth ((x + 1) mod 5) c 0) 1)) <$> seq 0 5 in
  tabulate (λ x y, Z.lxor (lane s x y) (nth x d 0)).

(** The rotation offsets by index. *)
Definition RHO : list Z :=
  [0; 1; 62; 28; 27; 36; 44; 6; 55; 20; 3; 10; 43; 25; 39; 41; 45; 15; 21; 8; 18; 2; 61; 56; 14].

Definition rho (s : list Z) : list Z := zip_with rotl64 s RHO.

Definition pi (s : list Z) : list Z := tabulate (λ x y, lane s (x + 3 * y) x).

Definition chi (s : list Z) : list Z :=
  tabulate (λ x y, Z.lxor (lane s x y) (Z.land (Z.lxor (lane s (x + 1) y) MASK64) (lane s (x + 2) y))).

Definition ROUND_CONSTANTS : list Z :=
  [0x0000000000000001; 0x0000000000008082; 0x800000000000808A; 0x8000000080008000; 0x000000000000808B; 0x0000000080000001;
   0x8000000080008081; 0x8000000000008009; 0x000000000000008A; 0x0000000000000088; 0x0000000080008009; 0x000000008000000A;
   0x000000008000808B; 0x800000000000008B; 0x8000000000008089; 0x8000000000008003; 0x8000000000008002; 0x8000000000000080;
   0x000000000000800A; 0x800000008000000A; 0x8000000080008081; 0x8000000000008080; 0x0000000080000001; 0x8000000080008008].

Definition round (s : list Z) (rc : Z) : list Z :=
  match chi (pi (rho (theta s))) with
  | l :: rest => Z.lxor l rc :: rest
  | [] => []
  end.

Definition keccak_f (s : list Z) : list Z := foldl round s ROUND_CONSTANTS.

Definition RATE : nat := 136.

(** The padding [0x01 0x00 ... 0x80], or [0x81] when one byte is left. *)
Definition pad (b : bytes) : bytes :=
  let n := (RATE - length b mod RATE)%nat in
  if (n =? 1)%nat then b ++ [u8_of_Z 129] else b ++ [u8_of_Z 1] ++ replicate (n - 2) (u8_of_Z 0) ++ [u8_of_Z 128].

(** A little-endian lane. *)
Definition lane_of (b : bytes) : Z := from_be_bytes (reverse b).

Definition absorb (s : list Z) (block : bytes) : list Z :=
  keccak_f (imap (λ i l, if (i <? RATE / 8)%nat then Z.lxor l (lane_of (take 8 (drop (8 * i) block))) else l) s).

Fixpoint absorb_all (fuel : nat) (s : list Z) (b : bytes) : list Z :=
  match fuel, b with
  | S fuel', _ :: _ => absorb_all fuel' (absorb s (take RATE b)) (drop RATE b)
  | _, _ => s
  end.

Definition keccak_256 (b : bytes) : bytes :=
  let p := pad b in
  take 32 (mjoin ((λ l, reverse (to_be_bytes 8 l)) <$> absorb_all (length p) (replicate 25 0) p)).
