(* ===== verification/Feed.v ===== *)
(** * The feed server

    [src/src/rollups/nitro/feed/ws_server.rs] (the backlog, [broadcast], the
    admission of a client and [run_ws_client]) and
    [src/src/rollups/nitro/feed/broadcaster.rs].

    The relay task broadcasts while every connected client runs in a task of its
    own; they share the backlog, behind a mutex, and a [tokio] broadcast channel.
    A step of the model is a step between two accesses to the shared state: a
    broadcast is three of them (confirm, append, send), a client subscribes to
    the channel and takes its snapshot of the backlog in two, and receives one
    broadcast per step.  [feed_reachable] interleaves them in every way. *)

From S2P Require Import Prelude Bytes Slice Config Rollup NitroTypes.

Abbreviation seq := msg_sequence_number.

(** [bm.messages.iter().flatten()] *)
Definition flat (bm : BroadcastMessage) : list BroadcastFeedMessage := omap id (messages bm).

(** ** The backlog *)

Definition append_one (msgs : list BroadcastFeedMessage) (m : BroadcastFeedMessage)
    : list BroadcastFeedMessage :=
  match last msgs with
  | Some tail => if seq m <=? seq tail then msgs else msgs ++ [m]
  | None => msgs ++ [m]
  end.

Definition append (msgs : list BroadcastFeedMessage) (bm : BroadcastMessage)
    : list BroadcastFeedMessage :=
  foldl append_one msgs (flat bm).

Definition confirm (msgs : list BroadcastFeedMessage) (confirmed : Z) : list BroadcastFeedMessage :=
  filter (λ m, confirmed < seq m) msgs.

Definition get_since (msgs : list BroadcastFeedMessage) (from_seq : Z) : list BroadcastFeedMessage :=
  filter (λ m, from_seq ≤ seq m) msgs.

(** ** What a client is sent *)

Definition should_send (bm : BroadcastMessage) (last_sent_seq : option Z) : bool :=
  match confirmed_sequence_number_message bm with
  | Some _ => true
  | None =>
      match last_sent_seq with
      | None => match messages bm with [] => false | _ => true end
      | Some l => existsb (λ m, match m with Some msg => l <? seq msg | None => false end) (messages bm)
      end
  end.

Definition update_last_sent (bm : BroadcastMessage) (last_sent_seq : option Z) : option Z :=
  foldl (λ acc msg, let current := default 0 acc in
                    if current <=? seq msg then Some (seq msg) else acc)
        last_sent_seq (flat bm).

(** ** The broadcaster's messages *)

Inductive broadcast_op :=
| FeedMessages (msgs : list BroadcastFeedMessage)
| Confirm (msg_idx : Z).

Definition op_message (op : broadcast_op) : BroadcastMessage :=
  match op with
  | FeedMessages msgs =>
      {| version := 1; messages := Some <$> msgs; confirmed_sequence_number_message := None |}
  | Confirm msg_idx =>
      {| version := 1; messages := [];
         confirmed_sequence_number_message := Some {| confirmed_sequence_number := msg_idx |} |}
  end.

(** ** The server's state

    A client is subscribed (its receiver exists and holds the position [rx] in
    the channel), then live, then closed.  [out] is the list of the frames its
    socket accepted.  A sink that reported an error accepts nothing more. *)

Inductive client_phase := Subscribed | Live | Closed.

#[export] Instance client_phase_eq_dec : EqDecision client_phase.
Proof. solve_decision. Defined.

Record ws_client := {
  requested : Z;
  phase : client_phase;
  rx : nat;
  last_sent_seq : option Z;
  sink_failed : bool;
  out : list BroadcastMessage;
}.

(** [channel] is everything ever sent to the broadcast channel; [inflight] the
    broadcast in progress and whether it has been appended to the backlog. *)
Record feed_server := {
  backlog : list BroadcastFeedMessage;
  channel : list BroadcastMessage;
  inflight : option (BroadcastMessage * bool);
  clients : gmap nat ws_client;
  client_count : Z;
}.

Definition feed_new : feed_server :=
  {| backlog := []; channel := []; inflight := None; clients := ∅; client_count := 0 |}.

(** [WsBroadcastServer::broadcast], in its three accesses to the shared state. *)
Definition broadcast_confirm (f : feed_server) (bm : BroadcastMessage) : feed_server :=
  {| backlog := match confirmed_sequence_number_message bm with
                | Some confirmed => confirm (backlog f) (confirmed_sequence_number confirmed)
                | None => backlog f
                end;
     channel := channel f; inflight := Some (bm, false); clients := clients f;
     client_count := client_count f |}.

Definition broadcast_append (f : feed_server) (bm : BroadcastMessage) : feed_server :=
  {| backlog := append (backlog f) bm; channel := channel f; inflight := Some (bm, true);
     clients := clients f; client_count := client_count f |}.

Definition broadcast_send (f : feed_server) (bm : BroadcastMessage) : feed_server :=
  {| backlog := backlog f; channel := channel f ++ [bm]; inflight := None;
     clients := clients f; client_count := client_count f |}.

(** What becomes of a write to the socket. *)
Inductive write_result := WriteOk | WriteError | WriteTimeout | EncodeError.

Definition set_client (f : feed_server) (id : nat) (c : ws_client) (dcount : Z) : feed_server :=
  {| backlog := backlog f; channel := channel f; inflight := inflight f;
     clients := <[id := c]> (clients f); client_count := client_count f + dcount |}.

Definition close (c : ws_client) : ws_client :=
  {| requested := requested c; phase := Closed; rx := rx c; last_sent_seq := last_sent_seq c;
     sink_failed := sink_failed c; out := out c |}.

(** The end of [handle_connection] and the first line of [run_ws_client]. *)
Definition client_subscribe (f : feed_server) (id : nat) (seq_num : Z) : feed_server :=
  set_client f id {| requested := seq_num; phase := Subscribed; rx := length (channel f);
                     last_sent_seq := None; sink_failed := false; out := [] |} 1.

(** The backlog part of [run_ws_client]: only a timeout of the write ends the
    client here, and a failed encoding leaves without touching [client_count]. *)
Definition client_snapshot (f : feed_server) (id : nat) (c : ws_client) (w : write_result)
    : feed_server :=
  let b := get_since (backlog f) (requested c) in
  let frame := {| version := 1; messages := Some <$> b; confirmed_sequence_number_message := None |} in
  let live last failed frames :=
    {| requested := requested c; phase := Live; rx := rx c; last_sent_seq := last;
       sink_failed := failed; out := out c ++ frames |} in
  match last b with
  | None => set_client f id (live None (sink_failed c) []) 0
  | Some m =>
      match w with
      | WriteOk => set_client f id (live (Some (seq m)) (sink_failed c) [frame]) 0
      | WriteError => set_client f id (live (Some (seq m)) true []) 0
      | WriteTimeout => set_client f id (close c) (-1)
      | EncodeError => set_client f id (close c) 0
      end
  end.

(** The [rx.recv()] arm of [run_ws_client].  [ring] is the number of broadcasts
    the channel retains: a receiver that is further behind has lagged. *)
Definition client_recv (ring : nat) (f : feed_server) (id : nat) (c : ws_client) (w : write_result)
    : option feed_server :=
  if (ring <? length (channel f) - rx c)%nat then Some (set_client f id (close c) (-1))
  else
    match channel f !! rx c with
    | None => None
    | Some bm =>
        let next last frames :=
          {| requested := requested c; phase := Live; rx := S (rx c); last_sent_seq := last;
             sink_failed := sink_failed c; out := out c ++ frames |} in
        if should_send bm (last_sent_seq c) then
          match w with
          | WriteOk => Some (set_client f id (next (update_last_sent bm (last_sent_seq c)) [bm]) 0)
          | WriteError | WriteTimeout => Some (set_client f id (close c) (-1))
          | EncodeError => Some (set_client f id (close c) 0)
          end
        else Some (set_client f id (next (last_sent_seq c) []) 0)
    end.

(** ** The interleaving *)

Inductive feed_action :=
| BroadcastBegin (op : broadcast_op)
| BroadcastAppend
| BroadcastSend
| ClientSubscribe (id : nat) (seq_num : Z)
| ClientSnapshot (id : nat) (w : write_result)
| ClientRecv (id : nat) (w : write_result)
| ClientStop (id : nat).

Definition write_possible (c : ws_client) (w : write_result) : bool :=
  match w with WriteOk => negb (sink_failed c) | _ => true end.

Definition feed_step (ring : nat) (a : feed_action) (f : feed_server) : option feed_server :=
  match a, inflight f with
  | BroadcastBegin op, None => Some (broadcast_confirm f (op_message op))
  | BroadcastAppend, Some (bm, false) => Some (broadcast_append f bm)
  | BroadcastSend, Some (bm, true) => Some (broadcast_send f bm)
  | ClientSubscribe id seq_num, _ =>
      match clients f !! id with
      | None => Some (client_subscribe f id seq_num)
      | Some _ => None
      end
  | ClientSnapshot id w, _ =>
      c ← clients f !! id;
      if decide (phase c = Subscribed ∧ write_possible c w = true)
      then Some (client_snapshot f id c w) else None
  | ClientRecv id w, _ =>
      c ← clients f !! id;
      if decide (phase c = Live ∧ write_possible c w = true)
      then client_recv ring f id c w else None
  | ClientStop id, _ =>
      c ← clients f !! id;
      if decide (phase c = Live) then Some (set_client f id (close c) (-1)) else None
  | _, _ => None
  end.

Inductive feed_reachable (ring : nat) : feed_server → Prop :=
| feed_reachable_new : feed_reachable ring feed_new
| feed_reachable_step a f f' :
    feed_reachable ring f → feed_step ring a f = Some f' → feed_reachable ring f'.

Fixpoint feed_exec (ring : nat) (acts : list feed_action) (f : feed_server) : option feed_server :=
  match acts with
  | [] => Some f
  | a :: acts' => f' ← feed_step ring a f; feed_exec ring acts' f'
  end.

(** ** What the theorems speak about *)

(** The messages of the broadcasts that have reached the channel, of those that
    have reached the backlog, and of all that were started. *)
Definition inflight_msgs (appended_only : bool) (f : feed_server) : list BroadcastFeedMessage :=
  match inflight f with
  | Some (bm, appended) => if negb appended_only || appended then flat bm else []
  | None => []
  end.

Definition channel_msgs (l : list BroadcastMessage) : list BroadcastFeedMessage := mjoin (flat <$> l).

Definition appended (f : feed_server) : list BroadcastFeedMessage :=
  channel_msgs (channel f) ++ inflight_msgs true f.

Definition history (f : feed_server) : list BroadcastFeedMessage :=
  channel_msgs (channel f) ++ inflight_msgs false f.

(** The indices confirmed to the clients, and being confirmed. *)
Definition confirmations (f : feed_server) : list Z :=
  omap (λ bm, confirmed_sequence_number <$> confirmed_sequence_number_message bm)
       (channel f ++ match inflight f with Some (bm, _) => [bm] | None => [] end).

Definition is_confirmed (f : feed_server) (s : Z) : Prop := ∃ k, k ∈ confirmations f ∧ s ≤ k.

(** What a client received. *)
Definition received (c : ws_client) : list BroadcastFeedMessage := channel_msgs (out c).
