(* ===== verification/FeedTheorems.v ===== *)
(** * What the feed server guarantees

    The backlog is always in strict order.  When the broadcast messages are in
    strict order, as the streamer sends them, every client receives every message
    it asked for that is not confirmed yet exactly once and in order, however its
    connection interleaves with the broadcasts. *)

From S2P Require Import Prelude Bytes Slice Config Rollup NitroTypes Feed.

(** ** The backlog's operations *)

Lemma append_one_ssorted msgs m : ssorted seq msgs → ssorted seq (append_one msgs m).
Proof.
  intros Hs. unfold append_one. destruct (last msgs) as [t|] eqn:E.
  - case_bool; [done|]. apply last_Some in E as [l ->].
    apply ssorted_app. split_and!; [done|apply ssorted_cons; split; [apply ssorted_nil|set_solver]|].
    intros x y Hx ->%list_elem_of_singleton. apply ssorted_app in Hs as (_ & _ & Hl).
    apply elem_of_app in Hx as [Hx|Hx].
    + specialize (Hl x t Hx ltac:(by apply list_elem_of_singleton)). lia.
    + apply list_elem_of_singleton in Hx as ->. lia.
  - apply last_None in E as ->. apply ssorted_cons. split; [apply ssorted_nil|set_solver].
Qed.

Lemma append_ssorted msgs bm : ssorted seq msgs → ssorted seq (append msgs bm).
Proof.
  unfold append. generalize (flat bm) as l. intros l. revert msgs.
  induction l as [|m l IH]; intros msgs Hs; simpl; [done|]. by apply IH, append_one_ssorted.
Qed.

Lemma elem_of_append msgs bm m : m ∈ append msgs bm → m ∈ msgs ∨ m ∈ flat bm.
Proof.
  unfold append. generalize (flat bm) as l. intros l. revert msgs.
  induction l as [|x l IH]; intros msgs Hm; simpl in *; [by left|].
  apply IH in Hm as [Hm|Hm]; [|right; by right].
  assert (m ∈ msgs ++ [x]) as Hm'.
  { unfold append_one in Hm. destruct (last msgs); [|done]. case_bool; [|done].
    apply elem_of_app. by left. }
  apply elem_of_app in Hm' as [?| ->%list_elem_of_singleton]; [by left|right; by left].
Qed.

(** Messages above the tail are all appended. *)
Lemma append_above msgs bm : ssorted seq (msgs ++ flat bm) → append msgs bm = msgs ++ flat bm.
Proof.
  unfold append. generalize (flat bm) as l. intros l. revert msgs.
  induction l as [|x l IH]; intros msgs Hs; simpl; [by rewrite app_nil_r|].
  assert (append_one msgs x = msgs ++ [x]) as ->.
  { unfold append_one. destruct (last msgs) as [t|] eqn:E; [|done].
    apply last_Some_elem in E. apply ssorted_app in Hs as (_ & _ & Hl).
    specialize (Hl t x E ltac:(by left)). case_bool; [lia|done]. }
  rewrite IH; rewrite <- (assoc_L (++)); done.
Qed.

Lemma ssorted_filter (P : BroadcastFeedMessage → Prop) `{∀ m, Decision (P m)} l :
  ssorted seq l → ssorted seq (filter P l).
Proof.
  induction l as [|x l IH]; intros Hs; [done|]. apply ssorted_cons in Hs as [Hs Hx].
  rewrite filter_cons. case_decide; [|by apply IH].
  apply ssorted_cons. split; [by apply IH|]. intros y [_ Hy]%list_elem_of_filter. auto.
Qed.

(** Filtering by an upward-closed condition keeps a suffix of a sorted list. *)
Lemma filter_up_suffix (P : BroadcastFeedMessage → Prop) `{∀ m, Decision (P m)} l :
  ssorted seq l → (∀ x y, seq x < seq y → P x → P y) → filter P l `suffix_of` l.
Proof.
  intros Hs Hup. induction l as [|x l IH]; [done|].
  apply ssorted_cons in Hs as [Hs Hx]. rewrite filter_cons. case_decide as HP.
  - assert (filter P l = l) as ->; [|done].
    assert (∀ y, y ∈ l → P y) as Hall by eauto. clear -Hall.
    induction l as [|y l IH]; [done|]. rewrite filter_cons, decide_True by (apply Hall; by left).
    f_equal. apply IH. intros z Hz. apply Hall. by right.
  - by apply suffix_cons_r, IH.
Qed.

Lemma suffix_elem {A} (l1 l2 : list A) x : l1 `suffix_of` l2 → x ∈ l1 → x ∈ l2.
Proof. intros [k ->] ?. apply elem_of_app. by right. Qed.

(** A non-empty suffix of a sorted list ends with its greatest element. *)
Lemma suffix_last_max (l1 l2 : list BroadcastFeedMessage) t m :
  ssorted seq l2 → l1 `suffix_of` l2 → last l1 = Some t → m ∈ l2 → seq m ≤ seq t.
Proof.
  intros Hs [k ->] [l' ->]%last_Some Hm. rewrite (assoc_L (++)) in *.
  apply ssorted_app in Hs as (_ & _ & Hl). apply elem_of_app in Hm as [Hm|Hm].
  - specialize (Hl m t Hm ltac:(by left)). lia.
  - apply list_elem_of_singleton in Hm as ->. lia.
Qed.

(** ** What is sent *)

Lemma elem_of_flat m bm : m ∈ flat bm ↔ Some m ∈ messages bm.
Proof.
  unfold flat. rewrite list_elem_of_omap. split.
  - intros (x & Hx & E). unfold id in E. by subst.
  - intros Hx. by exists (Some m).
Qed.

Lemma flat_some msgs v k :
  flat {| version := v; messages := Some <$> msgs; confirmed_sequence_number_message := k |} = msgs.
Proof. unfold flat. simpl. induction msgs as [|m l IH]; [done|]. cbn. f_equal. exact IH. Qed.

Lemma should_send_above bm l m : m ∈ flat bm → l < seq m → should_send bm (Some l) = true.
Proof.
  intros Hm%elem_of_flat Hl. unfold should_send. destruct (confirmed_sequence_number_message bm); [done|].
  apply existsb_exists. exists (Some m). split; [by apply list_elem_of_In|]. by apply Z.ltb_lt.
Qed.

Lemma should_send_none bm m : m ∈ flat bm → should_send bm None = true.
Proof.
  intros Hm%elem_of_flat. unfold should_send. destruct (confirmed_sequence_number_message bm); [done|].
  destruct (messages bm); [by apply elem_of_nil in Hm|done].
Qed.

(** A broadcast of the broadcaster that is sent carries a confirmation and no
    message, or some message above what was sent. *)
Lemma should_send_op op l :
  should_send (op_message op) (Some l) = true →
  flat (op_message op) = [] ∨ ∃ m, m ∈ flat (op_message op) ∧ l < seq m.
Proof.
  destruct op as [msgs|k]; [|by left]. unfold should_send. simpl.
  intros ([m|] & Hin%list_elem_of_In & Hl)%existsb_exists; [|done]. right. exists m.
  split; [by apply elem_of_flat|]. by apply Z.ltb_lt.
Qed.

Definition above (acc : option Z) (s : Z) : Prop :=
  match acc with None => 0 ≤ s | Some l => l < s end.

Lemma update_last_sent_above bm acc :
  ssorted seq (flat bm) → (∀ m, m ∈ flat bm → 0 ≤ seq m ∧ above acc (seq m)) →
  update_last_sent bm acc = match last (flat bm) with Some m => Some (seq m) | None => acc end.
Proof.
  unfold update_last_sent. generalize (flat bm) as l. intros l. revert acc.
  induction l as [|x l IH]; intros acc Hs Ha; simpl; [done|].
  apply ssorted_cons in Hs as [Hs Hx].
  assert (default 0 acc <=? seq x = true) as ->.
  { destruct (Ha x ltac:(by left)) as [H1 H2]. apply Z.leb_le. unfold above in H2. destruct acc; simpl; lia. }
  rewrite IH; [|done|].
  - destruct l; [done|]. change (last (x :: b :: l)) with (last (b :: l)).
    destruct (last (b :: l)) eqn:E; [done|]. by apply last_None in E.
  - intros m Hm. destruct (Ha m ltac:(by right)). split; [done|]. simpl. by apply Hx.
Qed.

(** ** Broadcasts in order *)

(** The messages broadcast so far are [u64]-numbered and in strict order: what
    [broadcast_order] of the streamer provides. *)
Definition ordered (f : feed_server) : Prop :=
  ssorted seq (history f) ∧ ∀ m, m ∈ history f → 0 ≤ seq m.

(** What two states share when only clients have moved between them. *)
Definition same_feed (f f' : feed_server) : Prop :=
  backlog f' = backlog f ∧ channel f' = channel f ∧ inflight f' = inflight f.

Lemma same_feed_views f f' :
  same_feed f f' →
  history f' = history f ∧ appended f' = appended f ∧ confirmations f' = confirmations f.
Proof.
  intros (_ & E2 & E3). unfold history, appended, confirmations, inflight_msgs.
  by rewrite E2, E3.
Qed.

Lemma channel_msgs_app l1 l2 : channel_msgs (l1 ++ l2) = channel_msgs l1 ++ channel_msgs l2.
Proof. unfold channel_msgs. by rewrite fmap_app, join_app. Qed.

Lemma channel_msgs_one bm : channel_msgs [bm] = flat bm.
Proof. unfold channel_msgs. simpl. by rewrite app_nil_r. Qed.

(** Every step is a client's step or one of the three of a broadcast. *)
Lemma feed_step_cases ring a f f' :
  feed_step ring a f = Some f' →
  (∃ op, inflight f = None ∧ f' = broadcast_confirm f (op_message op)) ∨
  (∃ bm, inflight f = Some (bm, false) ∧ f' = broadcast_append f bm) ∨
  (∃ bm, inflight f = Some (bm, true) ∧ f' = broadcast_send f bm) ∨
  (∃ id c' d, f' = set_client f id c' d ∧
     ((clients f !! id = None ∧ ∃ s, f' = client_subscribe f id s) ∨
      ∃ c, clients f !! id = Some c ∧
        (c' = close c ∨
         (∃ w, phase c = Subscribed ∧ write_possible c w = true ∧ f' = client_snapshot f id c w) ∨
         (∃ w, phase c = Live ∧ write_possible c w = true ∧ client_recv ring f id c w = Some f')))).
Proof.
  intros H. destruct a as [op| | |id s|id w|id w|id]; simpl in H.
  - destruct (inflight f) eqn:E; simplify_eq. left. eauto.
  - destruct (inflight f) as [[bm []]|] eqn:E; simplify_eq. right; left. eauto.
  - destruct (inflight f) as [[bm []]|] eqn:E; simplify_eq. right; right; left. eauto.
  - destruct (clients f !! id) eqn:E; simplify_eq. do 3 right. unfold client_subscribe.
    eexists id, _, _. split; [done|]. left. eauto.
  - destruct (clients f !! id) as [c|] eqn:E; simpl in H; [|done].
    case_decide as Hd; [|done]. apply (inj Some) in H. subst f'. do 3 right.
    assert (∃ c' d, client_snapshot f id c w = set_client f id c' d) as (c' & d & Ec).
    { unfold client_snapshot. destruct (last _); [destruct w|]; eauto. }
    exists id, c', d. split; [done|]. right. exists c. split; [done|]. right; left. naive_solver.
  - destruct (clients f !! id) as [c|] eqn:E; simpl in H; [|done].
    case_decide as Hd; [|done]. do 3 right.
    assert (∃ c' d, f' = set_client f id c' d) as (c' & d & Ec).
    { unfold client_recv in H. case_bool; try (destruct (channel f !! rx c); [|done]);
        try case_bool; try destruct w; simplify_eq; eauto. }
    exists id, c', d. split; [done|]. right. exists c. split; [done|]. right; right. naive_solver.
  - destruct (clients f !! id) as [c|] eqn:E; simpl in H; [|done].
    case_decide as Hd; [|done]. simplify_eq. do 3 right.
    exists id, (close c), (-1). split; [done|]. right. exists c. split; [done|]. by left.
Qed.

Lemma set_client_same f id c d : same_feed f (set_client f id c d).
Proof. done. Qed.

Definition client_action (a : feed_action) : Prop :=
  match a with ClientSubscribe _ _ | ClientSnapshot _ _ | ClientRecv _ _ | ClientStop _ => True | _ => False end.

Lemma client_step_same ring a f f' : feed_step ring a f = Some f' → client_action a → same_feed f f'.
Proof.
  intros H Ha. destruct a as [op| | |id s|id w|id w|id]; try done; simpl in H.
  all: destruct (clients f !! id) as [c|]; simpl in H; try case_decide; try done; simplify_eq; try done.
  - unfold client_snapshot. destruct (last _); [destruct w|]; done.
  - unfold client_recv in H. destruct (ring <? _)%nat; [by simplify_eq|].
    destruct (channel f !! rx c); [|done]. destruct (should_send _ _); [destruct w|]; by simplify_eq.
Qed.

(** Histories grow by appending, appended histories too, and confirmations
    stay. *)
Record grows (f f' : feed_server) : Prop := {
  grows_history : history f `prefix_of` history f';
  grows_appended : appended f `prefix_of` appended f';
  grows_confirmations : confirmations f `prefix_of` confirmations f';
}.

Lemma feed_step_grows ring a f f' : feed_step ring a f = Some f' → grows f f'.
Proof.
  intros [(op & E & ->) | [(bm & E & ->) | [(bm & E & ->) | (id & c & d & -> & _)] ] ]%feed_step_cases.
  - split; unfold history, appended, confirmations, inflight_msgs; simpl; rewrite E; simpl.
    + apply prefix_app. apply prefix_nil.
    + done.
    + rewrite app_nil_r, omap_app. by apply prefix_app_r.
  - split; unfold history, appended, confirmations, inflight_msgs; simpl; rewrite E; simpl; try done.
    apply prefix_app, prefix_nil.
  - split; unfold history, appended, confirmations, inflight_msgs; simpl; rewrite E; simpl;
      by rewrite ?channel_msgs_app, ?channel_msgs_one, ?app_nil_r.
  - destruct (same_feed_views f (set_client f id c d)) as (E1 & E2 & E3); [done|].
    by split; rewrite ?E1, ?E2, ?E3.
Qed.

Lemma ordered_before f f' : grows f f' → ordered f' → ordered f.
Proof.
  intros [ [l E] _ _] [Hs H0]. unfold ordered. rewrite E in *. apply ssorted_app in Hs as (? & _).
  split; [done|]. intros m Hm. apply H0, elem_of_app. by left.
Qed.

Lemma appended_history f : appended f `prefix_of` history f.
Proof.
  unfold appended, history, inflight_msgs. apply prefix_app.
  destruct (inflight f) as [ [bm []]|]; simpl; try done. apply prefix_nil.
Qed.

Lemma prefix_elem {A} (l1 l2 : list A) x : l1 `prefix_of` l2 → x ∈ l1 → x ∈ l2.
Proof. intros [k ->] ?. apply elem_of_app. by left. Qed.

Lemma ordered_appended f : ordered f → ssorted seq (appended f).
Proof.
  intros [Hs _]. destruct (appended_history f) as [l E]. rewrite E in Hs.
  by apply ssorted_app in Hs as (? & _).
Qed.

Lemma is_confirmed_grows f f' s : grows f f' → is_confirmed f s → is_confirmed f' s.
Proof. intros [_ _ H] (k & Hk & ?). exists k. split; [by eapply prefix_elem|done]. Qed.

(** ** The backlog invariant *)

Record backlog_inv (f : feed_server) : Prop := {
  bi_suffix : backlog f `suffix_of` appended f;
  bi_confirmed m : m ∈ appended f → m ∈ backlog f ∨ is_confirmed f (seq m);
}.

Lemma backlog_inv_confirm f op :
  ordered (broadcast_confirm f (op_message op)) → inflight f = None → backlog_inv f →
  backlog_inv (broadcast_confirm f (op_message op)).
Proof.
  intros Ho E [H1 H2]. set (f' := broadcast_confirm f (op_message op)) in *.
  assert (Hg : grows f f').
  { by apply (feed_step_grows 0 (BroadcastBegin op)); simpl; rewrite E. }
  assert (Ea : appended f' = appended f).
  { unfold appended, inflight_msgs. simpl. by rewrite E. }
  assert (Hs : ssorted seq (backlog f)).
  { destruct H1 as [l E1]. apply ordered_appended in Ho. rewrite Ea, E1 in Ho.
    by apply ssorted_app in Ho as (_ & ? & _). }
  destruct op as [msgs|k].
  - split; rewrite Ea; simpl; [done|]. intros m Hm.
    destruct (H2 m Hm) as [?|?]; [by left|right; by eapply is_confirmed_grows].
  - split; rewrite Ea; simpl.
    + etrans; [apply filter_up_suffix; [done|lia]|done].
    + intros m Hm. destruct (H2 m Hm) as [?|?]; [|right; by eapply is_confirmed_grows].
      destruct (decide (k < seq m)); [left; by apply list_elem_of_filter|].
      right. exists k. split; [|lia]. unfold confirmations. simpl. rewrite omap_app.
      apply elem_of_app. right. by left.
Qed.

Lemma backlog_inv_append f bm :
  ordered (broadcast_append f bm) → inflight f = Some (bm, false) → backlog_inv f →
  backlog_inv (broadcast_append f bm).
Proof.
  intros Ho E [H1 H2]. set (f' := broadcast_append f bm) in *.
  assert (Hg : grows f f').
  { by apply (feed_step_grows 0 BroadcastAppend); simpl; rewrite E. }
  assert (Ea : appended f' = appended f ++ flat bm).
  { unfold appended, inflight_msgs. simpl. rewrite E. simpl. by rewrite app_nil_r. }
  apply ordered_appended in Ho. rewrite Ea in Ho. destruct H1 as [l E1].
  assert (Eb : backlog f' = backlog f ++ flat bm).
  { simpl. apply append_above. rewrite E1, <- (assoc_L (++)) in Ho. by apply ssorted_app in Ho as (_ & ? & _). }
  split; rewrite Ea, Eb.
  - exists l. by rewrite E1, (assoc_L (++)).
  - intros m [Hm|Hm]%elem_of_app; [|left; apply elem_of_app; by right].
    destruct (H2 m Hm) as [?|?]; [left; apply elem_of_app; by left|right; by eapply is_confirmed_grows].
Qed.

Lemma backlog_inv_send f bm : inflight f = Some (bm, true) → backlog_inv f → backlog_inv (broadcast_send f bm).
Proof.
  intros E [H1 H2]. set (f' := broadcast_send f bm).
  assert (Hg : grows f f').
  { by apply (feed_step_grows 0 BroadcastSend); simpl; rewrite E. }
  assert (Ea : appended f' = appended f).
  { unfold appended, inflight_msgs. simpl. rewrite E. simpl.
    by rewrite channel_msgs_app, channel_msgs_one, app_nil_r. }
  split; rewrite Ea; [done|]. intros m Hm.
  destruct (H2 m Hm) as [?|?]; [by left|right; by eapply is_confirmed_grows].
Qed.

Lemma backlog_inv_same f f' : same_feed f f' → backlog_inv f → backlog_inv f'.
Proof.
  intros Hf [H1 H2]. destruct (same_feed_views _ _ Hf) as (_ & E2 & E3). destruct Hf as (E & _).
  split; rewrite E, E2; [done|]. intros m Hm. unfold is_confirmed. rewrite E3. by apply H2.
Qed.

(** ** The client invariant *)

(** The broadcasts a client has not received yet, the one in progress included. *)
Definition pending_bms (f : feed_server) (c : ws_client) : list BroadcastMessage :=
  drop (rx c) (channel f) ++ match inflight f with Some (bm, _) => [bm] | None => [] end.

Record client_inv (f : feed_server) (c : ws_client) : Prop := {
  ci_rx : (rx c ≤ length (channel f))%nat;
  ci_sorted : ssorted seq (received c);
  ci_appended m : m ∈ received c → m ∈ appended f;
  ci_subscribed : phase c = Subscribed → out c = [] ∧ last_sent_seq c = None ∧ sink_failed c = false;
  ci_last : phase c = Live → sink_failed c = false → last_sent_seq c = seq <$> last (received c);
  ci_split bm l : phase c = Live → sink_failed c = false → bm ∈ pending_bms f c →
    last_sent_seq c = Some l →
    (∀ m, m ∈ flat bm → seq m ≤ l) ∨ (∀ m, m ∈ flat bm → l < seq m);
  ci_cover m : phase c = Live → sink_failed c = false → m ∈ appended f → requested c ≤ seq m →
    m ∈ received c ∨ is_confirmed f (seq m) ∨
    ∃ bm, bm ∈ pending_bms f c ∧ m ∈ flat bm ∧ ∀ l, last_sent_seq c = Some l → l < seq m;
}.

Lemma elem_of_channel_msgs m l : m ∈ channel_msgs l ↔ ∃ bm, bm ∈ l ∧ m ∈ flat bm.
Proof.
  unfold channel_msgs. rewrite list_elem_of_join. split.
  - intros (x & Hm & (bm & -> & Hb)%list_elem_of_fmap). eauto.
  - intros (bm & Hb & Hm). exists (flat bm). split; [done|]. by apply list_elem_of_fmap_2.
Qed.

Lemma history_pending f c :
  history f = channel_msgs (take (rx c) (channel f)) ++ channel_msgs (pending_bms f c).
Proof.
  rewrite <- channel_msgs_app. unfold pending_bms. rewrite (assoc_L (++)), take_drop.
  unfold history, inflight_msgs. rewrite channel_msgs_app.
  destruct (inflight f) as [ [bm b]|]; simpl; [by rewrite channel_msgs_one|done].
Qed.

(** A pending broadcast has been appended, or is above everything appended. *)
Lemma pending_cases f c bm :
  ordered f → bm ∈ pending_bms f c →
  (∀ m, m ∈ flat bm → m ∈ appended f) ∨ (∀ m x, m ∈ flat bm → x ∈ appended f → seq x < seq m).
Proof.
  intros [Hs _] Hb. unfold pending_bms in Hb. apply elem_of_app in Hb as [Hb|Hb].
  - left. intros m Hm. unfold appended. apply elem_of_app. left. apply elem_of_channel_msgs.
    exists bm. split; [|done]. rewrite <- (take_drop (rx c) (channel f)). apply elem_of_app. by right.
  - destruct (inflight f) as [ [bm' b]|] eqn:E; [|by apply elem_of_nil in Hb].
    apply list_elem_of_singleton in Hb as <-. unfold appended, history, inflight_msgs in *.
    rewrite E in *. destruct b; simpl in *.
    + left. intros m Hm. apply elem_of_app. by right.
    + right. intros m x Hm Hx. rewrite app_nil_r in Hx. apply ssorted_app in Hs as (_ & _ & Hl). by apply Hl.
Qed.

(** The first pending broadcast is below the others. *)
Lemma pending_ordered f c bm rest :
  ordered f → pending_bms f c = bm :: rest →
  ssorted seq (flat bm) ∧ (∀ m, m ∈ flat bm → 0 ≤ seq m) ∧
  ∀ bm' m m', bm' ∈ rest → m ∈ flat bm → m' ∈ flat bm' → seq m < seq m'.
Proof.
  intros [Hs H0] E. rewrite (history_pending f c), E in Hs, H0.
  change (bm :: rest) with ([bm] ++ rest) in *. rewrite channel_msgs_app, channel_msgs_one in Hs, H0.
  apply ssorted_app in Hs as (_ & Hs & _). apply ssorted_app in Hs as (? & _ & Hl). split_and!; [done|..].
  - intros m Hm. apply H0, elem_of_app. right. apply elem_of_app. by left.
  - intros bm' m m' Hb Hm Hm'. apply Hl; [done|]. apply elem_of_channel_msgs. eauto.
Qed.

(** What was sent last is the number of an appended message. *)
Lemma last_sent_appended f c l :
  client_inv f c → phase c = Live → sink_failed c = false → last_sent_seq c = Some l →
  ∃ m, m ∈ appended f ∧ seq m = l.
Proof.
  intros Hi Hp Hf E. rewrite (ci_last _ _ Hi Hp Hf) in E.
  destruct (last (received c)) as [m|] eqn:El; simplify_eq/=.
  exists m. split; [|done]. by apply (ci_appended _ _ Hi), last_Some_elem.
Qed.

(** Broadcast steps. *)
Lemma client_inv_grows f f' c new :
  grows f f' → (length (channel f) ≤ length (channel f'))%nat →
  pending_bms f' c = pending_bms f c ++ new →
  (∀ bm m x, bm ∈ new → m ∈ flat bm → x ∈ appended f → seq x < seq m) →
  (∀ m, m ∈ appended f' → m ∈ appended f ∨
     (∃ bm, bm ∈ pending_bms f' c ∧ m ∈ flat bm) ∧ ∀ x, x ∈ appended f → seq x < seq m) →
  client_inv f c → client_inv f' c.
Proof.
  intros Hg Hlen Ep Hnew Happ Hi.
  assert (Hlast : ∀ l m, phase c = Live → sink_failed c = false → last_sent_seq c = Some l →
            (∀ x, x ∈ appended f → seq x < seq m) → l < seq m).
  { intros l m Hp Hf El Hx. destruct (last_sent_appended f c l Hi Hp Hf El) as (x & Hxa & <-). auto. }
  split; try apply Hi.
  - pose proof (ci_rx _ _ Hi). lia.
  - intros m Hm. eapply prefix_elem; [apply Hg|by apply Hi].
  - intros bm l Hp Hf Hb El. rewrite Ep in Hb. apply elem_of_app in Hb as [Hb|Hb].
    + by eapply (ci_split _ _ Hi).
    + right. intros m Hm. eapply Hlast; eauto.
  - intros m Hp Hf Hm Hr. destruct (Happ m Hm) as [Hm'|[(bm & Hb & Hmb) Hx] ].
    + destruct (ci_cover _ _ Hi m Hp Hf Hm' Hr) as [?|[?|(bm & ? & ? & ?)] ]; [by left|..].
      * right; left. by eapply is_confirmed_grows.
      * right; right. exists bm. rewrite Ep. split; [apply elem_of_app; by left|done].
    + right; right. exists bm. split_and!; [done..|]. intros l El. eapply Hlast; eauto.
Qed.

Lemma client_inv_broadcast ring a f f' c :
  feed_step ring a f = Some f' → ordered f' → client_inv f c → (∀ id c' d, f' ≠ set_client f id c' d) → client_inv f' c.
Proof.
  intros Hst Ho Hi Hns. pose proof (feed_step_grows _ _ _ _ Hst) as Hg.
  destruct (feed_step_cases _ _ _ _ Hst)
    as [(op & E & ->) | [(bm & E & ->) | [(bm & E & ->) | (id & c' & d & -> & _)] ] ]; [..|by destruct (Hns id c' d)].
  - apply (client_inv_grows f _ c [op_message op]); try done.
    + unfold pending_bms. simpl. rewrite E, app_nil_r. done.
    + intros bm m x ->%list_elem_of_singleton Hm Hx. destruct Ho as [Ho _].
      unfold history, appended, inflight_msgs in *. simpl in *. rewrite E, app_nil_r in Hx.
      apply ssorted_app in Ho as (_ & _ & Hl). by apply Hl.
    + intros m Hm. left. unfold appended, inflight_msgs in *. simpl in *. by rewrite E.
  - apply (client_inv_grows f _ c []); try done.
    + unfold pending_bms. simpl. by rewrite E, app_nil_r.
    + intros bm' m x H%elem_of_nil. done.
    + intros m Hm. apply ordered_appended in Ho. unfold appended, inflight_msgs, pending_bms in *.
      rewrite E in *. simpl in *. rewrite app_nil_r. apply elem_of_app in Hm as [Hm|Hm]; [by left|].
      right. split; [exists bm; split; [apply elem_of_app; right; by left|done]|].
      intros x Hx. apply ssorted_app in Ho as (_ & _ & Hl). by apply Hl.
  - apply (client_inv_grows f _ c []); try done.
    + simpl. rewrite length_app. simpl. lia.
    + unfold pending_bms. simpl. rewrite E, !app_nil_r. rewrite drop_app_le; [done|apply Hi].
    + intros bm' m x H%elem_of_nil. done.
    + intros m Hm. left. unfold appended, inflight_msgs in *. rewrite E. simpl in *.
      by rewrite channel_msgs_app, channel_msgs_one, app_nil_r in Hm.
Qed.

(** Client steps. *)
Lemma client_inv_close f c : client_inv f c → client_inv f (close c).
Proof. intros Hi. split; try done; apply Hi. Qed.

Lemma client_inv_subscribe f s :
  client_inv f {| requested := s; phase := Subscribed; rx := length (channel f);
                  last_sent_seq := None; sink_failed := false; out := [] |}.
Proof. split; try done; simpl. - apply ssorted_nil. - intros m H. by apply elem_of_nil in H. Qed.

Lemma ssorted_last_max l t m : ssorted seq l → last l = Some t → m ∈ l → seq m ≤ seq t.
Proof. intros Hs Hl. by apply (suffix_last_max l l). Qed.

(** The state of a client right after its snapshot. *)
Lemma client_inv_snapshot f c b :
  ordered f → backlog_inv f → client_inv f c → phase c = Subscribed →
  b = get_since (backlog f) (requested c) →
  client_inv f {| requested := requested c; phase := Live; rx := rx c;
                  last_sent_seq := seq <$> last b; sink_failed := false;
                  out := match b with [] => [] | _ =>
                    [ {| version := 1; messages := Some <$> b; confirmed_sequence_number_message := None |} ] end |}.
Proof.
  intros Ho Hb Hi Hp Eb. pose proof (ordered_appended _ Ho) as Hs.
  assert (Hsuf : b `suffix_of` appended f).
  { subst b. etrans; [|apply Hb]. apply filter_up_suffix; [|lia].
    destruct (bi_suffix _ Hb) as [l E]. rewrite E in Hs. by apply ssorted_app in Hs as (_ & ? & _). }
  set (c' := {| requested := requested c |}).
  assert (Er : received c' = b).
  { unfold received, c'. simpl. destruct b; [done|]. by rewrite channel_msgs_one, flat_some. }
  split; rewrite ?Er.
  - apply Hi.
  - destruct Hsuf as [l E]. rewrite E in Hs. by apply ssorted_app in Hs as (_ & ? & _).
  - intros m Hm. by eapply suffix_elem.
  - done.
  - done.
  - intros bm l _ _ Hbm El. simpl in El. destruct (last b) as [t|] eqn:E; simplify_eq/=.
    destruct (pending_cases f c bm Ho Hbm) as [Hc|Hc].
    + left. intros m Hm. eapply suffix_last_max; eauto.
    + right. intros m Hm. apply Hc; [done|]. eapply suffix_elem; [exact Hsuf|by apply last_Some_elem].
  - intros m _ _ Hm Hr. simpl in Hr.
    destruct (bi_confirmed _ Hb m Hm) as [Hm'|?]; [left|right; by left].
    subst b. by apply list_elem_of_filter.
Qed.

(** A client whose sink has failed is only known to have received what it had. *)
Lemma client_inv_failed f c c' :
  client_inv f c → sink_failed c' = true → phase c' = Live → out c' = out c →
  (rx c' ≤ length (channel f))%nat → client_inv f c'.
Proof.
  intros Hi Hf Hp Eo Hr. assert (received c' = received c) as Er by (unfold received; by rewrite Eo).
  split; rewrite ?Er; try done; try apply Hi; congruence.
Qed.

(** Receiving a broadcast that is not sent on. *)
Lemma client_inv_skip f c bm rest c' :
  client_inv f c → phase c = Live → sink_failed c = false →
  pending_bms f c = bm :: rest → pending_bms f c' = rest → (rx c' ≤ length (channel f))%nat →
  should_send bm (last_sent_seq c) = false →
  requested c' = requested c → phase c' = Live → sink_failed c' = false →
  last_sent_seq c' = last_sent_seq c → out c' = out c → client_inv f c'.
Proof.
  intros Hi Hp Hf Ep Ep' Hrx Hss Er0 Hp' Hf' El Eo.
  assert (received c' = received c) as Er by (unfold received; by rewrite Eo).
  split; rewrite ?Er, ?El, ?Er0.
  - done.
  - apply Hi.
  - apply Hi.
  - congruence.
  - intros _ _. by apply Hi.
  - intros bm' l _ _ Hb. eapply (ci_split _ _ Hi); try done. rewrite Ep, <- Ep'. by right.
  - intros m _ _ Hm Hr. destruct (ci_cover _ _ Hi m Hp Hf Hm Hr) as [?|[?|(bm' & Hb & Hmb & Hl)] ];
      [by left|by right; left|]. right; right. exists bm'. split_and!; [|done..].
    rewrite Ep in Hb. apply elem_of_cons in Hb as [-> |Hb]; [|by rewrite Ep'].
    destruct (last_sent_seq c) as [l|].
    + rewrite (should_send_above bm l m) in Hss; [done..|]. by apply Hl.
    + by rewrite (should_send_none bm m) in Hss.
Qed.

(** A broadcast that is sent on is above everything the client was sent. *)
Lemma sent_above f c op rest m :
  ordered f → client_inv f c → phase c = Live → sink_failed c = false →
  pending_bms f c = op_message op :: rest → should_send (op_message op) (last_sent_seq c) = true →
  m ∈ flat (op_message op) → above (last_sent_seq c) (seq m).
Proof.
  intros Ho Hi Hp Hf Ep Hss Hm. destruct (pending_ordered _ _ _ _ Ho Ep) as (_ & H0 & _).
  destruct (last_sent_seq c) as [l|] eqn:El; simpl; [|by apply H0].
  destruct (should_send_op _ _ Hss) as [E|(x & Hx & Hl)]; [rewrite E in Hm; by apply elem_of_nil in Hm|].
  destruct (ci_split _ _ Hi (op_message op) l Hp Hf) as [Hc|Hc]; [rewrite Ep; by left|done| |by apply Hc].
  specialize (Hc x Hx). lia.
Qed.

Lemma client_inv_sent f c op rest c' :
  ordered f → client_inv f c → phase c = Live → sink_failed c = false →
  pending_bms f c = op_message op :: rest → pending_bms f c' = rest →
  (∀ m, m ∈ flat (op_message op) → m ∈ appended f) → (rx c' ≤ length (channel f))%nat →
  should_send (op_message op) (last_sent_seq c) = true →
  requested c' = requested c → phase c' = Live → sink_failed c' = false →
  last_sent_seq c' = update_last_sent (op_message op) (last_sent_seq c) →
  out c' = out c ++ [op_message op] → client_inv f c'.
Proof.
  intros Ho Hi Hp Hf Ep Ep' Happ Hrx Hss Er0 Hp' Hf' El Eo.
  destruct (pending_ordered _ _ _ _ Ho Ep) as (Hsm & H0 & Hord).
  assert (Habove := λ m, sent_above f c op rest m Ho Hi Hp Hf Ep Hss).
  set (bm := op_message op) in *.
  assert (Er : received c' = received c ++ flat bm).
  { unfold received. by rewrite Eo, channel_msgs_app, channel_msgs_one. }
  rewrite update_last_sent_above in El by auto.
  assert (Hnew : ∀ l m bm', bm' ∈ rest → m ∈ flat bm' → last_sent_seq c' = Some l →
            (∃ t, last (flat bm) = Some t) → l < seq m).
  { intros l m bm' Hb Hm E (t & Et). rewrite El, Et in E. simplify_eq.
    by eapply Hord, Hm; [|apply last_Some_elem]. }
  split; rewrite ?Er, ?Er0.
  - done.
  - apply ssorted_app. split_and!; [apply Hi|done|]. intros x y Hx Hy. specialize (Habove y Hy).
    rewrite (ci_last _ _ Hi Hp Hf) in Habove.
    destruct (last (received c)) as [t|] eqn:Et; [|by apply last_None in Et; rewrite Et in Hx; apply elem_of_nil in Hx].
    pose proof (ssorted_last_max _ t x (ci_sorted _ _ Hi) Et Hx). simpl in Habove. lia.
  - intros m [Hm|Hm]%elem_of_app; [by apply Hi|by apply Happ].
  - congruence.
  - intros _ _. rewrite El, last_app. destruct (last (flat bm)); [done|]. by apply Hi.
  - intros bm' l _ _ Hb E. rewrite Ep' in Hb. destruct (last (flat bm)) as [t|] eqn:Et.
    + right. intros m Hm. eapply Hnew; eauto.
    + rewrite El in E. eapply (ci_split _ _ Hi); try done. rewrite Ep. by right.
  - intros m _ _ Hm Hr. destruct (ci_cover _ _ Hi m Hp Hf Hm Hr) as [?|[?|(bm' & Hb & Hmb & Hl)] ].
    + left. apply elem_of_app. by left.
    + by right; left.
    + rewrite Ep in Hb. apply elem_of_cons in Hb as [-> |Hb]; [left; apply elem_of_app; by right|].
      right; right. exists bm'. rewrite Ep'. split_and!; [done..|]. intros l E.
      destruct (last (flat bm)) as [t|] eqn:Et; [eapply Hnew; eauto|]. rewrite El in E. by apply Hl.
Qed.

(** ** The whole invariant *)

Record feed_inv (f : feed_server) : Prop := {
  fi_backlog : backlog_inv f;
  fi_ops bm : bm ∈ channel f ++ match inflight f with Some (bm, _) => [bm] | None => [] end →
    ∃ op, bm = op_message op;
  fi_clients id c : clients f !! id = Some c → client_inv f c;
}.

Lemma pending_unfold f c bm :
  channel f !! rx c = Some bm →
  pending_bms f c = bm :: drop (S (rx c)) (channel f) ++
    match inflight f with Some (bm, _) => [bm] | None => [] end.
Proof. intros E. unfold pending_bms. by rewrite (drop_S _ _ _ E). Qed.

Lemma client_inv_recv ring f id c w f' c' :
  ordered f → feed_inv f → clients f !! id = Some c → phase c = Live → write_possible c w = true →
  client_recv ring f id c w = Some f' → clients f' !! id = Some c' → client_inv f c'.
Proof.
  intros Ho Hf Hc Hp Hw Hr Hc'. pose proof (fi_clients _ Hf _ _ Hc) as Hi.
  unfold client_recv in Hr. destruct (ring <? _)%nat.
  { simplify_eq/=. rewrite lookup_insert_eq in Hc'. simplify_eq. by apply client_inv_close. }
  destruct (channel f !! rx c) as [bm|] eqn:Eb; [|done].
  pose proof (pending_unfold _ _ _ Eb) as Ep. pose proof (lookup_lt_Some _ _ _ Eb) as Hlt.
  destruct (fi_ops _ Hf bm) as [op ->].
  { apply elem_of_app. left. by apply list_elem_of_lookup_2 in Eb. }
  destruct (should_send _ _) eqn:Hss; [destruct w|]; simplify_eq/=;
    rewrite lookup_insert_eq in Hc'; simplify_eq; try by apply client_inv_close.
  - apply negb_true_iff in Hw. eapply (client_inv_sent f c op); try done.
    + intros m Hm. unfold appended. apply elem_of_app. left. apply elem_of_channel_msgs.
      exists (op_message op). split; [by apply list_elem_of_lookup_2 in Eb|done].
  - destruct (sink_failed c) eqn:Esf.
    + apply (client_inv_failed f c); try done. simpl. by rewrite app_nil_r.
    + eapply (client_inv_skip f c); try done. simpl. by rewrite app_nil_r.
Qed.

Lemma client_inv_after_snapshot f id c w c' :
  ordered f → feed_inv f → clients f !! id = Some c → phase c = Subscribed → write_possible c w = true →
  clients (client_snapshot f id c w) !! id = Some c' → client_inv f c'.
Proof.
  intros Ho Hf Hc Hp Hw Hc'. pose proof (fi_clients _ Hf _ _ Hc) as Hi.
  destruct (ci_subscribed _ _ Hi Hp) as (Eo & El & Es).
  pose proof (client_inv_snapshot f c _ Ho (fi_backlog _ Hf) Hi Hp eq_refl) as Hsn.
  unfold client_snapshot in Hc'. destruct (last (get_since _ _)) as [t|] eqn:Et; [destruct w|];
    simpl in Hc'; rewrite lookup_insert_eq in Hc'; simplify_eq; try by apply client_inv_close.
  - rewrite Es, Eo. destruct (get_since (backlog f) (requested c)); [done|]. exact Hsn.
  - apply (client_inv_failed f c); try done; [simpl; by rewrite app_nil_r|apply Hi].
  - apply last_None in Et. rewrite Et in Hsn. rewrite Es, Eo. exact Hsn.
Qed.

Lemma feed_inv_reachable ring f : feed_reachable ring f → ordered f → feed_inv f.
Proof.
  induction 1 as [|a f f' Hr IH Hst]; intros Ho.
  { split.
    - split; [done|]. intros m H. by apply elem_of_nil in H.
    - intros bm H. by apply elem_of_nil in H.
    - intros id c H. simpl in H. by rewrite lookup_empty in H. }
  pose proof (feed_step_grows _ _ _ _ Hst) as Hg. pose proof (ordered_before _ _ Hg Ho) as Ho0.
  specialize (IH Ho0).
  destruct (feed_step_cases _ _ _ _ Hst)
    as [(op & E & Ef) | [(bm & E & Ef) | [(bm & E & Ef) | (id & c' & d & Ef & Hcl)] ] ].
  1-3: assert (Hb : ∀ c, client_inv f c → client_inv f' c)
        by (intros c Hc; eapply client_inv_broadcast; [done..|]; intros id c' d; subst f';
            intros [=]; simpl in *; by rewrite E in *);
       subst f'; split; [..|by intros id c Hc; apply Hb; eapply (fi_clients _ IH)].
  - by apply backlog_inv_confirm; [..|apply IH].
  - intros bm [H|H]%elem_of_app; [apply IH; apply elem_of_app; by left|].
    apply list_elem_of_singleton in H as ->. eauto.
  - by apply backlog_inv_append; [..|apply IH].
  - intros bm' H. apply IH. rewrite E. exact H.
  - by apply backlog_inv_send; [..|apply IH].
  - intros bm' H. apply IH. rewrite E. simpl in H. by rewrite app_nil_r in H.
  - assert (Hsame : same_feed f f') by (by subst f').
    assert (Hci : ∀ c, client_inv f c → client_inv f' c).
    { subst f'. intros c Hc. split; try apply Hc. }
    split.
    + eapply backlog_inv_same; [done|apply IH].
    + subst f'. apply IH.
    + intros id' c Hc. destruct (decide (id' = id)) as [-> |Hne].
      2: { apply Hci. subst f'. simpl in Hc. rewrite lookup_insert_ne in Hc by done. by eapply (fi_clients _ IH). }
      apply Hci. destruct Hcl as [ [Hnone (s & Es)]|(c0 & Hc0 & [-> |[(w & Hp & Hw & Es)|(w & Hp & Hw & Es)] ])].
      * rewrite Es in Hc. simpl in Hc. rewrite lookup_insert_eq in Hc. simplify_eq. apply client_inv_subscribe.
      * rewrite Ef in Hc. simpl in Hc. rewrite lookup_insert_eq in Hc. simplify_eq.
        apply client_inv_close. by eapply (fi_clients _ IH).
      * rewrite Es in Hc. by eapply client_inv_after_snapshot.
      * by eapply client_inv_recv.
Qed.

(** A live client that has caught up. *)
Lemma caught_up_receives_all ring f id c m :
  feed_reachable ring f → ordered f → clients f !! id = Some c →
  phase c = Live → sink_failed c = false → rx c = length (channel f) → inflight f = None →
  m ∈ history f → requested c ≤ seq m →
  m ∈ received c ∨ is_confirmed f (seq m).
Proof.
  intros Hr Ho Hc Hp Hf Hx Hin Hm Hq.
  pose proof (fi_clients _ (feed_inv_reachable _ _ Hr Ho) _ _ Hc) as Hi.
  destruct (ci_cover _ _ Hi m Hp Hf) as [?|[?|(bm & Hb & _)] ]; try done; [|by left|by right|].
  - unfold appended, history, inflight_msgs in *. by rewrite Hin in *.
  - unfold pending_bms in Hb. rewrite Hx, Hin, drop_all in Hb. by apply elem_of_nil in Hb.
Qed.

(** ** Theorems *)

Lemma feed_exec_reachable ring acts f f' :
  feed_reachable ring f → feed_exec ring acts f = Some f' → feed_reachable ring f'.
Proof.
  revert f. induction acts as [|a acts IH]; intros f Hr H; simpl in H; [by simplify_eq|].
  destruct (feed_step ring a f) as [f1|] eqn:E; simpl in H; [|done].
  apply (IH f1); [|done]. by eapply feed_reachable_step.
Qed.

(** The backlog is strictly ordered by sequence number and holds only
    messages that were broadcast, whatever is broadcast and in whatever order:
    [append] skips what is not above the tail and [confirm] only removes. *)
Theorem backlog_strictly_ordered ring f :
  feed_reachable ring f → ssorted seq (backlog f) ∧ ∀ m, m ∈ backlog f → m ∈ appended f.
Proof.
  induction 1 as [|a f f' Hr [IHs IHa] Hst].
  { split; [apply ssorted_nil|]. intros m H. by apply elem_of_nil in H. }
  pose proof (grows_appended _ _ (feed_step_grows _ _ _ _ Hst)) as Hg.
  assert (Hsub : ∀ m, m ∈ backlog f → m ∈ appended f') by eauto using prefix_elem.
  destruct (feed_step_cases _ _ _ _ Hst)
    as [(op & E & ->) | [(bm & E & ->) | [(bm & E & ->) | (id & c' & d & -> & _)] ] ]; try done.
  - destruct op as [msgs|k]; [done|]. split; simpl; [by apply ssorted_filter|].
    intros m [_ Hm]%list_elem_of_filter. by apply Hsub.
  - split; simpl; [by apply append_ssorted|]. intros m [Hm|Hm]%elem_of_append; [by apply Hsub|].
    unfold appended, inflight_msgs. simpl. apply elem_of_app. by right.
Qed.

Definition toy_feed_msg (n : Z) : BroadcastFeedMessage := {|
  msg_sequence_number := n;
  feed_msg := {| message := None; delayed_messages_read := 0 |};
  signature := []; block_metadata := []; cumulative_sum_msg_size := 0; block_hash := None;
|}.

(** A client that asks for 4 and later: it subscribes while the broadcast of 3
    and 4 is between its append and its send, and takes its snapshot then. *)
Definition toy_feed_actions : list feed_action := [
  BroadcastBegin (FeedMessages [toy_feed_msg 1; toy_feed_msg 2]); BroadcastAppend; BroadcastSend;
  BroadcastBegin (FeedMessages [toy_feed_msg 3; toy_feed_msg 4]); BroadcastAppend;
  ClientSubscribe 0 4; ClientSnapshot 0 WriteOk; BroadcastSend;
  BroadcastBegin (Confirm 2); BroadcastAppend; BroadcastSend;
  BroadcastBegin (FeedMessages [toy_feed_msg 5]); BroadcastAppend; BroadcastSend;
  ClientRecv 0 WriteOk; ClientRecv 0 WriteOk; ClientRecv 0 WriteOk ].

Definition toy_feed : feed_server := default feed_new (feed_exec 8 toy_feed_actions feed_new).

Lemma toy_feed_reachable : feed_reachable 8 toy_feed.
Proof. apply (feed_exec_reachable 8 toy_feed_actions feed_new); [constructor|vm_compute; reflexivity]. Qed.

Lemma toy_feed_ordered : ordered toy_feed.
Proof.
  split; [by apply (bool_decide_unpack _); vm_compute|].
  assert (Forall (λ m, 0 ≤ seq m) (history toy_feed)) as H.
  { by apply (bool_decide_unpack _); vm_compute. }
  by apply Forall_forall.
Qed.

Definition toy_client : ws_client :=
  default {| requested := 0; phase := Closed; rx := 0; last_sent_seq := None; sink_failed := true; out := [] |}
          (clients toy_feed !! 0%nat).

Lemma backlog_strictly_ordered_witness :
  seq <$> backlog toy_feed = [3; 4; 5] ∧ ssorted seq (backlog toy_feed).
Proof.
  split; [vm_compute; reflexivity|]. apply (backlog_strictly_ordered 8 toy_feed toy_feed_reachable).
Defined.

(** Exactly once, in order: when the broadcast messages are in strict order,
    what a client has received is strictly ordered by sequence number, and every
    message of it was broadcast, whatever the interleaving of its subscription,
    its snapshot of the backlog and the broadcasts. *)
Theorem client_receives_in_order ring f id c :
  feed_reachable ring f → ordered f → clients f !! id = Some c →
  ssorted seq (received c) ∧ ∀ m, m ∈ received c → m ∈ appended f.
Proof.
  intros Hr Ho Hc. pose proof (fi_clients _ (feed_inv_reachable _ _ Hr Ho) _ _ Hc) as Hi.
  split; apply Hi.
Qed.

Lemma client_receives_in_order_witness :
  seq <$> received toy_client = [4; 5] ∧ ssorted seq (received toy_client).
Proof.
  split; [vm_compute; reflexivity|].
  apply (client_receives_in_order 8 toy_feed 0 toy_client toy_feed_reachable toy_feed_ordered).
  vm_compute; reflexivity.
Defined.

(** Nothing is lost: a live client whose socket has accepted every write and
    that has caught up with the channel has received every message broadcast so
    far from the one it asked for on, but those that have been confirmed. *)
Theorem client_receives_all ring f id c m :
  feed_reachable ring f → ordered f → clients f !! id = Some c →
  phase c = Live → sink_failed c = false → rx c = length (channel f) → inflight f = None →
  m ∈ history f → requested c ≤ seq m →
  m ∈ received c ∨ is_confirmed f (seq m).
Proof. exact (caught_up_receives_all ring f id c m). Qed.

Lemma client_receives_all_witness :
  toy_feed_msg 4 ∈ received toy_client ∨ is_confirmed toy_feed 4.
Proof.
  apply (client_receives_all 8 toy_feed 0 toy_client (toy_feed_msg 4) toy_feed_reachable toy_feed_ordered);
    try (vm_compute; reflexivity); [|vm_compute; discriminate].
  vm_compute. right; right; right; left.
Defined.
