(* ===== verification/FeedClient.v ===== *)
(** * The feed client

    [src/src/rollups/nitro/feed/client.rs]: the client that follows the
    sequencer's feed, checks the signatures and hands the verified messages to
    the submitter; and the part of [handle_connection] of
    [src/src/rollups/nitro/feed/ws_server.rs] that admits such a client.

    The network is an input: one [attempt] per call of [connect] and one
    [read_event] per turn of the read loop.  [run_feed_client] is the whole
    [start] over lists of them. *)

From Stdlib Require Import Ascii.
From S2P Require Import Prelude Bytes Slice Config Rollup Poller NitroTypes.

Definition FEED_SERVER_VERSION : Z := 2.
Definition FEED_CLIENT_VERSION : Z := 2.
Definition MESSAGE_VERSION : Z := 1.

(** ** Decimal numbers in headers *)

Definition digit_of (c : ascii) : option Z :=
  let n := Z.of_nat (nat_of_ascii c) - 48 in
  if (0 <=? n) && (n <=? 9) then Some n else None.

Fixpoint parse_digits (acc : Z) (s : string) : option Z :=
  match s with
  | EmptyString => Some acc
  | String c s' =>
      d ← digit_of c;
      let acc' := acc * 10 + d in
      if acc' <? u64_modulus then parse_digits acc' s' else None
  end.

(** [str::parse::<u64>]: an optional plus sign and at least one digit, without
    overflow. *)
Definition str_parse_u64 (s : string) : option Z :=
  match s with
  | EmptyString => None
  | String "+"%char EmptyString => None
  | String "+"%char s' => parse_digits 0 s'
  | _ => parse_digits 0 s
  end.

(** [u64::to_string]; twenty digits are enough for a [u64]. *)
Fixpoint print_digits (fuel : nat) (z : Z) (acc : string) : string :=
  match fuel with
  | O => acc
  | S fuel' =>
      let acc' := String (ascii_of_nat (Z.to_nat (48 + z `mod` 10))) acc in
      if z <? 10 then acc' else print_digits fuel' (z / 10) acc'
  end.

Definition u64_to_string (z : Z) : string := print_digits 20 z EmptyString.

(** ** Errors *)

Inductive BroadcasterClientError :=
| IncorrectFeedVersion (expected : Z) (got : string)
| IncorrectChainId (expected : Z) (got : string)
| MissingChainId
| MissingFeedServerVersion
| InvalidConfig (s : string)
| Connection (s : string)
| WebSocket (s : string)
| InvalidSignature (seq_num : Z) (reason : string)
| ChannelSendError (m : BroadcastFeedMessage)
| InvalidMessage (s : string).

Definition is_fatal (e : BroadcasterClientError) : bool :=
  match e with
  | IncorrectFeedVersion _ _ | IncorrectChainId _ _ | MissingChainId | MissingFeedServerVersion
  | InvalidConfig _ => true
  | _ => false
  end.

(** ** HTTP headers

    A value is text, or bytes that [to_str] refuses (kept as their debug
    rendering). *)
Inductive header_value := HeaderText (s : string) | HeaderOpaque (debug : string).

Definition to_str {E} (v : header_value) (e : string → E) : result string E :=
  match v with HeaderText s => Ok s | HeaderOpaque d => Err (e d) end.

(** What [handle_connection] takes from a request, and its answer. *)
Record upgrade_request := {
  req_client_version : option header_value;
  req_requested_seq_num : option header_value;
}.

Record response_headers := {
  hdr_feed_server_version : option header_value;
  hdr_chain_id : option header_value;
}.

Inductive upgrade_answer :=
| BadRequest
| Upgraded (h : response_headers) (seq_num : Z) (compression_accepted : bool).

Definition header_u64 (v : option header_value) : option Z :=
  match v with Some (HeaderText s) => str_parse_u64 s | _ => None end.

(** The service of [handle_connection].  [upgrade] is what the WebSocket library
    makes of the request: [None] when it refuses it, and otherwise whether
    compression was negotiated. *)
Definition handle_upgrade (config : WsBroadcastServerConfig) (chain_id : Z) (upgrade : option bool)
    (req : upgrade_request) : upgrade_answer :=
  let seq_num := default 0 (header_u64 (req_requested_seq_num req)) in
  let version_ok :=
    match header_u64 (req_client_version req) with
    | Some v => FEED_CLIENT_VERSION <=? v
    | None => false
    end in
  if require_version config && negb version_ok then BadRequest
  else
    match upgrade with
    | None => BadRequest
    | Some compression_accepted =>
        Upgraded {| hdr_feed_server_version := Some (HeaderText (u64_to_string FEED_SERVER_VERSION));
                    hdr_chain_id := Some (HeaderText (u64_to_string chain_id)) |}
                 seq_num compression_accepted
    end.

(** Whether [handle_connection] goes on to serve the upgraded client, and from
    which sequence number. *)
Definition handle_connection (config : WsBroadcastServerConfig) (chain_id : Z) (upgrade : option bool)
    (req : upgrade_request) : option Z :=
  match handle_upgrade config chain_id upgrade req with
  | BadRequest => None
  | Upgraded _ seq_num compression_accepted =>
      if require_compression config && negb compression_accepted then None else Some seq_num
  end.

(** ** The client *)

Section client.
Context (verify_signature : Z → list Address → BroadcastFeedMessage → result unit string).
Context (broadcast_from_slice : bytes → result BroadcastMessage string).
Open Scope cas_scope.

Record BroadcasterClient := {
  bc_config : BroadcasterClientConfig Address;
  websocket_url : string;
  bc_chain_id : Z;
  next_seq_num : Z;
  first_reconnect_attempt : bool;
}.

Definition new_with_verifier (config : BroadcasterClientConfig Address) (websocket_url : string)
    (chain_id current_message_count : Z) : BroadcasterClient := {|
  bc_config := config; websocket_url := websocket_url; bc_chain_id := chain_id;
  next_seq_num := current_message_count; first_reconnect_attempt := true |}.

Definition set_first (c : BroadcasterClient) (b : bool) : BroadcasterClient := {|
  bc_config := bc_config c; websocket_url := websocket_url c; bc_chain_id := bc_chain_id c;
  next_seq_num := next_seq_num c; first_reconnect_attempt := b |}.

Definition set_next (c : BroadcasterClient) (n : Z) : BroadcasterClient := {|
  bc_config := bc_config c; websocket_url := websocket_url c; bc_chain_id := bc_chain_id c;
  next_seq_num := n; first_reconnect_attempt := first_reconnect_attempt c |}.

(** What the network does with one connection attempt: how the URL parses (its
    scheme), whether the scheme can be replaced, whether an HTTP client can be
    built, the answer to the preflight request, and the outcome of the
    WebSocket connection ([None] when it times out). *)
Record attempt := {
  at_url : result string string;
  at_set_scheme : bool;
  at_http_client : result unit string;
  at_preflight : result (Z * response_headers) string;
  at_connect : option (result unit string);
}.

Definition SWITCHING_PROTOCOLS : Z := 101.

(** A required header: present, text, a number, and the expected one. *)
Definition check_header (v : option header_value) (missing : BroadcasterClientError)
    (incorrect : string → BroadcasterClientError) (expected : Z) : result unit BroadcasterClientError :=
  let? value := ok_or v missing in
  let? s := to_str value incorrect in
  let? n := ok_or (str_parse_u64 s) (incorrect s) in
  if n =? expected then Ok tt else Err (incorrect (u64_to_string n)).

Definition validate_preflight_headers (c : BroadcasterClient) (scheme : string) (a : attempt)
    : result unit BroadcasterClientError :=
  if negb (bool_decide (scheme = "ws") || bool_decide (scheme = "wss"))
  then Err (Connection "unsupported websocket scheme for preflight")
  else if negb (at_set_scheme a)
  then Err (Connection "failed to convert websocket url to preflight url")
  else
    let? _ := map_err Connection (at_http_client a) in
    let? '(status, h) := map_err Connection (at_preflight a) in
    if negb (status =? SWITCHING_PROTOCOLS) then Err (Connection "preflight websocket request returned status")
    else
      let? _ :=
        if require_feed_server_version (bc_config c)
        then check_header (hdr_feed_server_version h) MissingFeedServerVersion
               (IncorrectFeedVersion FEED_SERVER_VERSION) FEED_SERVER_VERSION
        else Ok tt in
      if require_chain_id (bc_config c)
      then check_header (hdr_chain_id h) MissingChainId
             (IncorrectChainId (bc_chain_id c)) (bc_chain_id c)
      else Ok tt.

(** The request the client sends, to the preflight and to the connection. *)
Definition connect_request (next_seq_num : Z) : upgrade_request := {|
  req_client_version := Some (HeaderText (u64_to_string FEED_CLIENT_VERSION));
  req_requested_seq_num := Some (HeaderText (u64_to_string next_seq_num)) |}.

Definition connect (c : BroadcasterClient) (a : attempt) : result BroadcasterClient BroadcasterClientError :=
  if bool_decide (websocket_url c = "") then Err (InvalidConfig "empty websocket url")
  else
    let? scheme := map_err InvalidConfig (at_url a) in
    let? _ := validate_preflight_headers c scheme a in
    match at_connect a with
    | None => Err (Connection "connection timed out")
    | Some (Err e) => Err (Connection e)
    | Some (Ok _) => Ok (set_first c true)
    end.

(** [process_message], whose verification task does not panic.  The submission channel accepts [room] more messages
    before its receiver is gone ([None]: for good). *)
Fixpoint send_all (room : option nat) (msgs : list BroadcastFeedMessage)
    : list BroadcastFeedMessage * result unit BroadcasterClientError :=
  match msgs with
  | [] => ([], Ok tt)
  | m :: msgs' =>
      match room with
      | Some O => ([], Err (ChannelSendError m))
      | _ =>
          let '(sent, r) := send_all (Nat.pred <$> room) msgs' in
          (m :: sent, r)
      end
  end.

Definition verified_messages (c : BroadcasterClient) (msg : BroadcastMessage) : list BroadcastFeedMessage :=
  filter (λ m, is_ok (verify_signature (bc_chain_id c) (trusted_sequencer_addresses (bc_config c)) m) = true)
         (omap id (messages msg)).

Definition process_message (c : BroadcasterClient) (room : option nat) (payload : bytes)
    : BroadcasterClient * list BroadcastFeedMessage * result unit BroadcasterClientError :=
  match broadcast_from_slice payload with
  | Err e => (c, [], Err (InvalidMessage e))
  | Ok msg =>
      if negb (version msg =? MESSAGE_VERSION) then (c, [], Err (InvalidMessage "unsupported message version"))
      else
        let verified := verified_messages c msg in
        let verified_next_seq_num := (λ m, u64_add (msg_sequence_number m) 1) <$> last verified in
        match send_all room verified with
        | (sent, Err e) => (c, sent, Err e)
        | (sent, Ok _) =>
            (match verified_next_seq_num with Some next => set_next c next | None => c end, sent, Ok tt)
        end
  end.

(** [retry_connect]: the attempts it makes, the time slept before each, and the
    client when one succeeds; [None] while it is still trying.  [seqs] are the
    sequence numbers requested. *)
Fixpoint retry_connect (c : BroadcasterClient) (wait : Z) (attempts : list attempt)
    : option (BroadcasterClient * list attempt) * list Z :=
  match attempts with
  | [] => (None, [])
  | a :: attempts' =>
      match connect c a with
      | Ok c' => (Some (c', attempts'), [wait])
      | Err _ =>
          let wait' := if wait <? retry_connect_max_backoff (bc_config c)
                       then wait + retry_connect_backoff_step (bc_config c) else wait in
          let '(r, waits) := retry_connect c wait' attempts' in
          (r, wait :: waits)
      end
  end.

(** ** The read loop *)

Inductive opcode := OpText | OpBinary | OpClose | OpOther.

Inductive read_event :=
| ReadTimeout
| StreamEnded
| FrameReceived (op : opcode) (payload : bytes) (room : option nat).

Record read_state := {
  rs_client : BroadcasterClient;
  rs_backoff : Z;
  rs_attempts : list attempt;
  rs_sent : list BroadcastFeedMessage;
  rs_requests : list Z;
}.

(** The reconnection path; [None] while it is still trying. *)
Definition reconnect (s : read_state) : option read_state :=
  let c := rs_client s in
  let backoff := if first_reconnect_attempt c then rs_backoff s
                 else exponential_backoff (rs_backoff s) (reconnect_maximum_backoff (bc_config c)) in
  match retry_connect (set_first c false) 0 (rs_attempts s) with
  | (None, _) => None
  | (Some (c', attempts'), waits) =>
      Some {| rs_client := c'; rs_backoff := backoff; rs_attempts := attempts'; rs_sent := rs_sent s;
              rs_requests := rs_requests s ++ [next_seq_num c'] |}
  end.

Definition read_step (s : read_state) (ev : read_event) : option read_state :=
  match ev with
  | FrameReceived OpOther _ _ => Some s
  | FrameReceived OpText payload room | FrameReceived OpBinary payload room =>
      let '(c', sent, _) := process_message (rs_client s) room payload in
      Some {| rs_client := c'; rs_backoff := reconnect_initial_backoff (bc_config (rs_client s));
              rs_attempts := rs_attempts s; rs_sent := rs_sent s ++ sent; rs_requests := rs_requests s |}
  | ReadTimeout | StreamEnded | FrameReceived OpClose _ _ => reconnect s
  end.

Fixpoint run_read_loop (s : read_state) (evs : list read_event) : option read_state :=
  match evs with
  | [] => Some s
  | ev :: evs' => s' ← read_step s ev; run_read_loop s' evs'
  end.

(** [start]: the first connection, with its error if it is fatal; [None] while
    it is still trying. *)
Fixpoint start_connect (c : BroadcasterClient) (backoff : Z) (attempts : list attempt)
    : option (result (BroadcasterClient * list attempt) BroadcasterClientError) :=
  match attempts with
  | [] => None
  | a :: attempts' =>
      match connect c a with
      | Ok c' => Some (Ok (c', attempts'))
      | Err e =>
          if is_fatal e then Some (Err e)
          else start_connect c (exponential_backoff backoff (reconnect_maximum_backoff (bc_config c))) attempts'
      end
  end.

Definition run_feed_client (c : BroadcasterClient) (attempts : list attempt) (evs : list read_event)
    : option (result read_state BroadcasterClientError) :=
  r ← start_connect c (reconnect_initial_backoff (bc_config c)) attempts;
  match r with
  | Err e => Some (Err e)
  | Ok (c', attempts') =>
      s ← run_read_loop {| rs_client := c'; rs_backoff := reconnect_initial_backoff (bc_config c');
                           rs_attempts := attempts'; rs_sent := [];
                           rs_requests := [next_seq_num c'] |} evs;
      Some (Ok s)
  end.
End client.

(** ** Decimal round trip *)

Lemma digit_of_print z : 0 ≤ z → digit_of (ascii_of_nat (Z.to_nat (48 + z `mod` 10))) = Some (z `mod` 10).
Proof.
  intros Hz. pose proof (Z.mod_pos_bound z 10 ltac:(lia)) as Hm. unfold digit_of.
  rewrite nat_ascii_embedding by lia. rewrite Z2Nat.id by lia.
  replace (48 + z `mod` 10 - 48) with (z `mod` 10) by lia.
  destruct (0 <=? z `mod` 10) eqn:E1; [|apply Z.leb_gt in E1; lia].
  destruct (z `mod` 10 <=? 9) eqn:E2; [done|apply Z.leb_gt in E2; lia].
Qed.

(** The digits printed for [z] are read back, whatever follows them. *)
Lemma parse_print_digits fuel z acc k :
  0 ≤ z < 10 ^ Z.of_nat fuel → z < u64_modulus →
  (∀ acc0, 0 ≤ acc0 → parse_digits acc0 acc = k acc0) →
  parse_digits 0 (print_digits fuel z acc) = k z.
Proof.
  revert z acc k. induction fuel as [|fuel IH]; intros z acc k Hz Hu Hk.
  { simpl in *. rewrite Hk by lia. f_equal. lia. }
  cbn [print_digits]. set (acc' := String _ acc).
  assert (Hacc : ∀ a0, 0 ≤ a0 → a0 * 10 + z `mod` 10 < u64_modulus → parse_digits a0 acc' = k (a0 * 10 + z `mod` 10)).
  { intros a0 Ha Hb. unfold acc'. cbn [parse_digits]. rewrite digit_of_print by lia. simpl.
    apply Z.ltb_lt in Hb. rewrite Hb. apply Hk. pose proof (Z.mod_pos_bound z 10). lia. }
  pose proof (Z.div_mod z 10 ltac:(lia)). pose proof (Z.mod_pos_bound z 10 ltac:(lia)).
  destruct (z <? 10) eqn:E.
  - apply Z.ltb_lt in E. rewrite Hacc; [|lia|rewrite Z.mod_small by lia; unfold u64_modulus; lia].
    f_equal. by rewrite Z.mod_small by lia.
  - apply Z.ltb_ge in E.
    assert (Hd : 0 ≤ z / 10 < 10 ^ Z.of_nat fuel).
    { split; [apply Z.div_pos; lia|]. apply Z.div_lt_upper_bound; [lia|].
      rewrite Nat2Z.inj_succ, Z.pow_succ_r in Hz by lia. lia. }
    rewrite (IH (z / 10) acc' (λ a0, if a0 * 10 + z `mod` 10 <? u64_modulus
                                     then k (a0 * 10 + z `mod` 10) else None)); [|lia|lia|].
    + replace (z / 10 * 10 + z `mod` 10) with z by lia. by apply Z.ltb_lt in Hu; rewrite Hu.
    + intros a0 Ha. destruct (_ <? _) eqn:Eb; [apply Z.ltb_lt in Eb; by apply Hacc|].
      unfold acc'. cbn [parse_digits]. rewrite digit_of_print by lia. simpl. by rewrite Eb.
Qed.

Lemma print_digits_head fuel z acc :
  0 ≤ z → ∃ d s, print_digits (S fuel) z acc = String (ascii_of_nat (Z.to_nat (48 + d))) s ∧ 0 ≤ d < 10.
Proof.
  revert z acc. induction fuel as [|fuel IH]; intros z acc Hz.
  - cbn [print_digits]. pose proof (Z.mod_pos_bound z 10).
    exists (z `mod` 10), acc. split; [by destruct (z <? 10)|lia].
  - cbn [print_digits]. destruct (z <? 10).
    + pose proof (Z.mod_pos_bound z 10). exists (z `mod` 10), acc. split; [done|lia].
    + apply IH. apply Z.div_pos; lia.
Qed.

Lemma parse_print_u64 z : is_u64 z → str_parse_u64 (u64_to_string z) = Some z.
Proof.
  intros Hz. unfold u64_to_string.
  assert (E : parse_digits 0 (print_digits 20 z EmptyString) = Some z).
  { apply (parse_print_digits 20 z EmptyString Some); [|apply Hz|done].
    unfold is_u64, u64_modulus in Hz. lia. }
  destruct (print_digits_head 19 z EmptyString) as (d & s & Ep & Hd); [apply Hz|].
  rewrite Ep in *. unfold str_parse_u64.
  assert (H : d = 0 ∨ d = 1 ∨ d = 2 ∨ d = 3 ∨ d = 4 ∨ d = 5 ∨ d = 6 ∨ d = 7 ∨ d = 8 ∨ d = 9) by lia.
  repeat (destruct H as [-> |H]; [exact E|]). subst d. exact E.
Qed.

#[global] Opaque u64_to_string.

(** ** Handshake *)

Lemma check_header_spec z missing incorrect expected :
  is_u64 z →
  check_header (Some (HeaderText (u64_to_string z))) missing incorrect expected =
  if z =? expected then Ok tt else Err (incorrect (u64_to_string z)).
Proof. intros Hz. unfold check_header. simpl. by rewrite parse_print_u64. Qed.

(** ** Processing *)

Section proofs.
Context (verify_signature : Z → list Address → BroadcastFeedMessage → result unit string).
Context (broadcast_from_slice : bytes → result BroadcastMessage string).

Abbreviation process := (process_message verify_signature broadcast_from_slice).
Abbreviation step := (read_step verify_signature broadcast_from_slice).
Abbreviation run := (run_read_loop verify_signature broadcast_from_slice).

Lemma send_all_spec room msgs sent r :
  send_all room msgs = (sent, r) →
  sent `prefix_of` msgs ∧
  (r = Ok tt ∧ sent = msgs ∨ ∃ m n, r = Err (ChannelSendError m) ∧ room = Some n ∧ length sent = n ∧ (n < length msgs)%nat).
Proof.
  revert room sent. induction msgs as [|m msgs IH]; intros room sent E; simpl in E.
  { simplify_eq. split; [done|by left]. }
  destruct room as [ [|n]|]; simpl in E.
  - simplify_eq. split; [apply prefix_nil|]. right. eexists m, 0%nat. split_and!; simpl; try done. lia.
  - destruct (send_all (Some n) msgs) as [sent' r'] eqn:E'. simplify_eq.
    destruct (IH _ _ E') as [Hp [ [-> ->]|(m' & k & -> & Hk & <- & Hlt)] ].
    + split; [done|by left].
    + split; [by apply prefix_cons|]. right. simplify_eq. eexists m', _. split_and!; simpl; try done. lia.
  - destruct (send_all None msgs) as [sent' r'] eqn:E'. simplify_eq.
    destruct (IH _ _ E') as [Hp [ [-> ->]|(m' & k & -> & Hk & _)] ]; [|done].
    split; [done|by left].
Qed.

Lemma send_all_open msgs : send_all None msgs = (msgs, Ok tt).
Proof. induction msgs as [|m msgs IH]; simpl; [done|]. by rewrite IH. Qed.

(** What a payload carries for a client: its verified messages, when it parses
    as a supported broadcast. *)
Definition payload_messages (c : BroadcasterClient) (payload : bytes) : list BroadcastFeedMessage :=
  match broadcast_from_slice payload with
  | Ok msg => if version msg =? MESSAGE_VERSION then verified_messages verify_signature c msg else []
  | Err _ => []
  end.

(** The sequence number to resume from after [sent], starting from [start]. *)
Definition resume_point (start : Z) (sent : list BroadcastFeedMessage) : Z :=
  match last sent with Some m => u64_add (msg_sequence_number m) 1 | None => start end.

(** Clients that differ in their position only. *)
Definition same_client (c c' : BroadcasterClient) : Prop :=
  bc_config c' = bc_config c ∧ websocket_url c' = websocket_url c ∧ bc_chain_id c' = bc_chain_id c.

Lemma payload_messages_same c c' payload :
  same_client c c' → payload_messages c' payload = payload_messages c payload.
Proof. intros (E1 & _ & E3). unfold payload_messages, verified_messages. by rewrite E1, E3. Qed.

Lemma process_same c room payload c' sent r :
  process c room payload = (c', sent, r) →
  same_client c c' ∧ first_reconnect_attempt c' = first_reconnect_attempt c.
Proof.
  unfold process_message. intros H. destruct (broadcast_from_slice payload); [|by simplify_eq].
  destruct (negb _); [by simplify_eq|]. destruct (send_all _ _) as [? [] ]; [|by simplify_eq].
  destruct (last _); simplify_eq; done.
Qed.

Lemma process_open c payload :
  ∃ r, process c None payload =
    (match last (payload_messages c payload) with
     | Some m => set_next c (u64_add (msg_sequence_number m) 1)
     | None => c
     end, payload_messages c payload, r).
Proof.
  unfold process_message, payload_messages. destruct (broadcast_from_slice payload) as [msg|e]; [|by eexists].
  destruct (version msg =? MESSAGE_VERSION); simpl; [|by eexists]. rewrite send_all_open.
  destruct (last (verified_messages _ c msg)); by eexists.
Qed.

Lemma connect_ok c a c' : connect c a = Ok c' → c' = set_first c true.
Proof.
  unfold connect. intros H. case_bool; [done|]. split_ok. destruct (at_connect a) as [ [ [] |]|]; by simplify_eq.
Qed.

Lemma retry_connect_ok c wait attempts c' rest waits :
  retry_connect c wait attempts = (Some (c', rest), waits) → c' = set_first c true.
Proof.
  revert wait waits. induction attempts as [|a attempts IH]; intros wait waits H; simpl in H; [done|].
  destruct (connect c a) as [c1|e] eqn:E.
  - simplify_eq. by eapply connect_ok.
  - destruct (retry_connect c _ attempts) as [r w] eqn:Er. simplify_eq. by eapply IH.
Qed.

Lemma start_connect_ok c b attempts c' rest :
  start_connect c b attempts = Some (Ok (c', rest)) → c' = set_first c true.
Proof.
  revert b. induction attempts as [|a attempts IH]; intros b H; simpl in H; [done|].
  destruct (connect c a) as [c1|e] eqn:E.
  - simplify_eq. by eapply connect_ok.
  - destruct (is_fatal e); [done|]. by eapply IH.
Qed.

Lemma reconnect_spec s s' :
  reconnect s = Some s' →
  same_client (rs_client s) (rs_client s') ∧ rs_sent s' = rs_sent s ∧
  first_reconnect_attempt (rs_client s') = true ∧
  next_seq_num (rs_client s') = next_seq_num (rs_client s) ∧
  rs_requests s' = rs_requests s ++ [next_seq_num (rs_client s)] ∧
  rs_backoff s' = (if first_reconnect_attempt (rs_client s) then rs_backoff s
                   else exponential_backoff (rs_backoff s) (reconnect_maximum_backoff (bc_config (rs_client s)))).
Proof.
  unfold reconnect. destruct (retry_connect _ _ _) as [ [ [c' rest]|] waits] eqn:E; [|done].
  intros ?. simplify_eq/=. apply retry_connect_ok in E as ->. done.
Qed.

Definition frame_messages (c : BroadcasterClient) (ev : read_event) : list BroadcastFeedMessage :=
  match ev with
  | FrameReceived OpText payload _ | FrameReceived OpBinary payload _ => payload_messages c payload
  | _ => []
  end.

(** The submission channel never closes. *)
Definition channel_open_at (ev : read_event) : Prop :=
  match ev with FrameReceived _ _ (Some _) => False | _ => True end.

Lemma resume_point_app start l1 l2 :
  resume_point start (l1 ++ l2) =
  match last l2 with Some m => u64_add (msg_sequence_number m) 1 | None => resume_point start l1 end.
Proof. unfold resume_point. rewrite last_app. by destruct (last l2). Qed.

(** The events after which the client connects again. *)
Definition connection_lost (ev : read_event) : bool :=
  match ev with
  | ReadTimeout | StreamEnded | FrameReceived OpClose _ _ => true
  | FrameReceived _ _ _ => false
  end.

(** The numbers requested when the connection is lost at the given events: each time
    one past the last message of the frames that came before, [sent] being the
    messages of earlier frames. *)
Fixpoint resume_requests (c : BroadcasterClient) (sent : list BroadcastFeedMessage) (evs : list read_event) : list Z :=
  match evs with
  | [] => []
  | ev :: evs' =>
      (if connection_lost ev then [resume_point (next_seq_num c) sent] else []) ++
      resume_requests c (sent ++ frame_messages c ev) evs'
  end.

Record client_run_inv (c0 : BroadcasterClient) (s : read_state) : Prop := {
  cr_same : same_client c0 (rs_client s);
  cr_next : next_seq_num (rs_client s) = resume_point (next_seq_num c0) (rs_sent s);
}.

Lemma reconnect_run_inv c0 s s' :
  client_run_inv c0 s → reconnect s = Some s' →
  client_run_inv c0 s' ∧ rs_sent s' = rs_sent s ∧
  rs_requests s' = rs_requests s ++ [resume_point (next_seq_num c0) (rs_sent s)].
Proof.
  intros [ (E1 & E2 & E3) Hn] ((F1 & F2 & F3) & Es & _ & En & Er & _)%reconnect_spec.
  split_and!; [split; [repeat split|]|..]; congruence.
Qed.

Lemma frame_run_inv c0 s payload op :
  op = OpText ∨ op = OpBinary → client_run_inv c0 s →
  ∃ s', step s (FrameReceived op payload None) = Some s' ∧
        rs_sent s' = rs_sent s ++ payload_messages c0 payload ∧ client_run_inv c0 s' ∧
        rs_requests s' = rs_requests s.
Proof.
  intros Hop [Hs Hn]. destruct (process_open (rs_client s) payload) as [r Er].
  pose proof (process_same _ _ _ _ _ _ Er) as [Hs' _]. pose proof (payload_messages_same _ _ payload Hs) as Em.
  exists {| rs_client := match last (payload_messages (rs_client s) payload) with
                         | Some m => set_next (rs_client s) (u64_add (msg_sequence_number m) 1)
                         | None => rs_client s end;
            rs_backoff := reconnect_initial_backoff (bc_config (rs_client s)); rs_attempts := rs_attempts s;
            rs_sent := rs_sent s ++ payload_messages (rs_client s) payload; rs_requests := rs_requests s |}.
  split_and!; simpl.
  - destruct Hop as [-> | ->]; simpl; by rewrite Er.
  - by rewrite Em.
  - split; simpl.
    + destruct Hs as (?&?&?), Hs' as (?&?&?). repeat split; congruence.
    + rewrite resume_point_app, <- Hn. by destruct (last _).
  - done.
Qed.

Lemma run_inv c0 s evs s' :
  Forall channel_open_at evs → client_run_inv c0 s → run s evs = Some s' →
  rs_sent s' = rs_sent s ++ mjoin (frame_messages c0 <$> evs) ∧ client_run_inv c0 s' ∧
  rs_requests s' = rs_requests s ++ resume_requests c0 (rs_sent s) evs.
Proof.
  intros Ho. revert s. induction Ho as [|ev evs Hev Ho IH]; intros s Hi H; simpl in H.
  { simplify_eq. simpl. by rewrite !app_nil_r. }
  destruct (step s ev) as [s1|] eqn:E; simpl in H; [|done].
  assert (Hs1 : rs_sent s1 = rs_sent s ++ frame_messages c0 ev ∧ client_run_inv c0 s1 ∧
    rs_requests s1 = rs_requests s ++
      (if connection_lost ev then [resume_point (next_seq_num c0) (rs_sent s)] else [])).
  { destruct ev as [| |op payload room]; [..|destruct op; (destruct room; [done|])].
    1,2,5: simpl in E; simpl; rewrite app_nil_r; apply (reconnect_run_inv c0) in E as (? & ? & ?); [by split_and!|done].
    - destruct (frame_run_inv c0 s payload OpText) as (s2 & E2 & ? & ? & ?); [by left|done|].
      rewrite E2 in E. simplify_eq. by rewrite app_nil_r.
    - destruct (frame_run_inv c0 s payload OpBinary) as (s2 & E2 & ? & ? & ?); [by right|done|].
      rewrite E2 in E. simplify_eq. by rewrite app_nil_r.
    - simpl in *. simplify_eq. by rewrite !app_nil_r. }
  destruct Hs1 as (Es1 & Hi1 & Er1). destruct (IH s1 Hi1 H) as (Es' & Hi' & Er'). split_and!; [|done|].
  - rewrite Es', Es1. simpl. by rewrite (assoc_L (++)).
  - rewrite Er', Er1, Es1. simpl. by rewrite (assoc_L (++)).
Qed.

(** What the client forwards. *)
Lemma run_feed_client_spec c attempts evs s :
  Forall channel_open_at evs →
  run_feed_client verify_signature broadcast_from_slice c attempts evs = Some (Ok s) →
  rs_sent s = mjoin (frame_messages c <$> evs) ∧
  next_seq_num (rs_client s) = resume_point (next_seq_num c) (rs_sent s) ∧
  rs_requests s = next_seq_num c :: resume_requests c [] evs.
Proof.
  unfold run_feed_client. intros Ho H.
  destruct (start_connect _ _ _) as [ [ [c1 rest]|e]|] eqn:E; simpl in H; [|done..].
  apply start_connect_ok in E as ->. destruct (run _ evs) as [s1|] eqn:Er; simpl in H; [|done].
  simplify_eq. by apply (run_inv c) in Er as (Es & [_ Hn] & Hr).
Qed.

(** C13. The client forwards exactly the verified messages of the frames it
    receives, in order, across any number of reconnections; its position is
    always one past the last message forwarded (or the configured message count
    before the first); and the numbers it requests are the configured count at
    first and then, each time the connection is lost, one past the last message
    forwarded up to that moment, so a server that serves from the requested number
    leaves no gap. *)
Theorem feed_client_forwards c attempts evs s :
  Forall channel_open_at evs →
  run_feed_client verify_signature broadcast_from_slice c attempts evs = Some (Ok s) →
  rs_sent s = mjoin (frame_messages c <$> evs) ∧
  (∀ m, m ∈ rs_sent s →
     verify_signature (bc_chain_id c) (trusted_sequencer_addresses (bc_config c)) m = Ok tt) ∧
  next_seq_num (rs_client s) = resume_point (next_seq_num c) (rs_sent s) ∧
  rs_requests s = next_seq_num c :: resume_requests c [] evs.
Proof.
  intros Ho (Es & Hn & Hr)%run_feed_client_spec; [|done]. split_and!; [done| |done|done].
  rewrite Es. intros m Hm.
  apply list_elem_of_join in Hm as (l & Hm & (ev & -> & _)%list_elem_of_fmap).
  assert (∃ p, m ∈ payload_messages c p) as [p Hp]
    by (destruct ev as [| | [] p ?]; try (by apply elem_of_nil in Hm); by exists p).
  unfold payload_messages in Hp. destruct (broadcast_from_slice p); [|by apply elem_of_nil in Hp].
  case_bool; [|by apply elem_of_nil in Hp]. apply list_elem_of_filter in Hp as [Hv _].
  by destruct (verify_signature _ _ m) as [ []|].
Qed.

(** [process_message] on every branch: a payload that is not a supported
    broadcast changes nothing; otherwise a prefix of the verified messages is
    submitted, all of them unless the channel closes, and the position moves past
    the last verified message only when all were submitted. *)
Theorem process_message_spec c room payload c' sent r :
  process c room payload = (c', sent, r) →
  sent `prefix_of` payload_messages c payload ∧
  match r with
  | Ok _ => sent = payload_messages c payload ∧ next_seq_num c' = resume_point (next_seq_num c) sent
  | Err e => c' = c ∧
      (sent = [] ∧ payload_messages c payload = [] ∨
       room = Some (length sent) ∧ (length sent < length (payload_messages c payload))%nat)
  end.
Proof.
  unfold process_message, payload_messages. intros H.
  destruct (broadcast_from_slice payload) as [msg|e]; [|simplify_eq; split; [done|]; auto].
  destruct (version msg =? MESSAGE_VERSION); simpl in H; [|simplify_eq; split; [done|]; auto].
  destruct (send_all room _) as [sent' r'] eqn:E.
  destruct (send_all_spec _ _ _ _ E) as [Hp [ [-> ->]|(m & n & -> & -> & <- & Hlt)] ].
  - simplify_eq. split; [done|]. split; [done|]. unfold resume_point. by destruct (last _).
  - simplify_eq. split; [done|]. split; [done|]. by right.
Qed.

(** The reconnection backoff never grows: [connect] raises
    [first_reconnect_attempt] on every success, so the branch that sleeps and
    doubles the backoff is never taken and every lost connection is retried at
    once. *)
Theorem reconnect_never_backs_off c attempts evs s :
  run_feed_client verify_signature broadcast_from_slice c attempts evs = Some (Ok s) →
  first_reconnect_attempt (rs_client s) = true ∧
  rs_backoff s = reconnect_initial_backoff (bc_config c).
Proof.
  unfold run_feed_client. intros H.
  destruct (start_connect _ _ _) as [ [ [c1 rest]|e]|] eqn:E; simpl in H; [|done..].
  apply start_connect_ok in E as ->. destruct (run _ evs) as [s1|] eqn:Er; simpl in H; [|done].
  simplify_eq. revert Er. set (s0 := {| rs_client := _ |}). 
  assert (Hs0 : bc_config (rs_client s0) = bc_config c ∧ first_reconnect_attempt (rs_client s0) = true ∧
                rs_backoff s0 = reconnect_initial_backoff (bc_config c)) by done.
  clearbody s0. revert s0 Hs0. induction evs as [|ev evs IH]; intros s0 (H1 & H2 & H3) H; simpl in H.
  { by simplify_eq. }
  destruct (step s0 ev) as [s1|] eqn:E; simpl in H; [|done]. apply (IH s1); [|done].
  assert (Hrec : reconnect s0 = Some s1 → bc_config (rs_client s1) = bc_config c ∧
    first_reconnect_attempt (rs_client s1) = true ∧ rs_backoff s1 = reconnect_initial_backoff (bc_config c)).
  { intros ((F1 & _) & _ & F2 & _ & _ & F3)%reconnect_spec. rewrite H2 in F3. split_and!; congruence. }
  destruct ev as [| |op payload room]; [by apply Hrec..|]. destruct op; simpl in E; try by apply Hrec.
  3: by simplify_eq.
  all: destruct (process_message _ _ _ _ _) as [ [c' sent] r] eqn:Ep; simplify_eq/=;
    apply process_same in Ep as [ (Ec & _) Ef]; rewrite Ec, Ef, H1; done.
Qed.
End proofs.

(** C28. Client and server agree on the handshake.  Once the WebSocket upgrade
    succeeds, the server of this service serves the client from exactly the
    sequence number it requested, unless it requires compression that was not
    negotiated, and answers with headers that pass the client's
    preflight, whatever it requires, if and only if it does not check the chain
    or both are on the same chain. *)
Theorem handshake_interoperates server_config chain_id c n compression a :
  is_u64 chain_id → is_u64 n → at_set_scheme a = true → at_http_client a = Ok tt →
  ∃ h, handle_upgrade server_config chain_id (Some compression) (connect_request n) = Upgraded h n compression ∧
    handle_connection server_config chain_id (Some compression) (connect_request n) =
      (if require_compression server_config && negb compression then None else Some n) ∧
    (at_preflight a = Ok (SWITCHING_PROTOCOLS, h) →
     (validate_preflight_headers c "wss" a = Ok tt ↔
      (require_chain_id (bc_config c) = true → bc_chain_id c = chain_id))).
Proof.
  intros Hc Hn Hs Hh. unfold handle_connection, handle_upgrade, connect_request. simpl.
  rewrite !parse_print_u64 by (done || by apply (bool_decide_unpack _)).
  rewrite andb_false_r. simpl. eexists. split; [done|]. split; [done|]. intros Hp.
  unfold validate_preflight_headers. rewrite Hs, Hh, Hp. simpl.
  rewrite !check_header_spec by (done || by apply (bool_decide_unpack _)). simpl.
  destruct (require_feed_server_version (bc_config c)), (require_chain_id (bc_config c)); simpl; try done.
  all: destruct (chain_id =? bc_chain_id c) eqn:E; [apply Z.eqb_eq in E|apply Z.eqb_neq in E].
  all: split; intros H; try done; exfalso; apply E; symmetry; by apply H.
Qed.

(** A fatal error stops the client only on its first connection: [start]
    returns it, but once connected [retry_connect] goes on whatever the error,
    and sleeps at most one step more than the configured maximum between two
    attempts. *)
Theorem retry_ignores_fatal c attempts wait b :
  attempts ≠ [] → (∀ a, a ∈ attempts → ∃ e, connect c a = Err e ∧ is_fatal e = true) →
  0 ≤ retry_connect_backoff_step (bc_config c) →
  wait ≤ retry_connect_max_backoff (bc_config c) + retry_connect_backoff_step (bc_config c) →
  (∃ e, start_connect c b attempts = Some (Err e)) ∧
  (retry_connect c wait attempts).1 = None ∧
  length (retry_connect c wait attempts).2 = length attempts ∧
  ∀ w, w ∈ (retry_connect c wait attempts).2 →
    w ≤ retry_connect_max_backoff (bc_config c) + retry_connect_backoff_step (bc_config c).
Proof.
  intros Hne Hf Hstep Hw. split.
  { destruct attempts as [|a attempts]; [done|]. destruct (Hf a) as (e & E & Ef); [by left|].
    exists e. simpl. by rewrite E, Ef. }
  clear Hne. revert wait Hw. induction attempts as [|a attempts IH]; intros wait Hw; simpl.
  { split_and!; try done. intros w H. by apply elem_of_nil in H. }
  destruct (Hf a) as (e & E & _); [by left|]. rewrite E.
  set (wait' := if wait <? _ then _ else _).
  destruct (IH ltac:(intros; apply Hf; by right) wait') as (H1 & H2 & H3).
  { unfold wait'. case_bool; lia. }
  destruct (retry_connect c wait' attempts) as [r waits]. simpl in *. split_and!; [done|by f_equal|].
  intros w [-> |?]%elem_of_cons; [done|by apply H3].
Qed.

(** ** A concrete feed *)

Definition toy_client_config : BroadcasterClientConfig Address := {|
  reconnect_initial_backoff := 10 ^ 9; reconnect_maximum_backoff := 64 * 10 ^ 9; timeout := 20 * 10 ^ 9;
  retry_connect_max_backoff := 15 * 10 ^ 9; retry_connect_backoff_step := 500 * 10 ^ 6;
  enable_compression := true; require_feed_server_version := true; require_chain_id := true;
  trusted_sequencer_addresses := [] |}.

Definition toy_broadcaster_client : BroadcasterClient :=
  new_with_verifier toy_client_config "wss://feed" 42161 7.

Definition toy_headers (chain : Z) : response_headers := {|
  hdr_feed_server_version := Some (HeaderText (u64_to_string 2));
  hdr_chain_id := Some (HeaderText (u64_to_string chain)) |}.

Definition toy_attempt (chain : Z) : attempt := {|
  at_url := Ok "wss"%string; at_set_scheme := true; at_http_client := Ok tt;
  at_preflight := Ok (101, toy_headers chain); at_connect := Some (Ok tt) |}.

Definition toy_frame_msg (n : Z) : BroadcastFeedMessage := {|
  msg_sequence_number := n; feed_msg := {| message := None; delayed_messages_read := 0 |};
  signature := []; block_metadata := []; cumulative_sum_msg_size := 0; block_hash := None |}.

(** Odd messages carry a bad signature; a payload is its messages' numbers. *)
Definition toy_verify (_ : Z) (_ : list Address) (m : BroadcastFeedMessage) : result unit string :=
  if Z.even (msg_sequence_number m) then Ok tt else Err "bad signature"%string.

Definition toy_from_slice (b : bytes) : result BroadcastMessage string :=
  match b with
  | [] => Err "empty"%string
  | _ => Ok {| version := 1; messages := (λ x, Some (toy_frame_msg (u8_to_Z x))) <$> b;
               confirmed_sequence_number_message := None |}
  end.

Definition toy_read_events : list read_event := [
  FrameReceived OpText [Byte.x07; Byte.x08] None; StreamEnded;
  FrameReceived OpText [] None; FrameReceived OpBinary [Byte.x09; Byte.x0a; Byte.x0c] None; ReadTimeout ].

Lemma feed_client_forwards_witness :
  ∃ s, run_feed_client toy_verify toy_from_slice toy_broadcaster_client
         [toy_attempt 42161; toy_attempt 42161; toy_attempt 42161] toy_read_events = Some (Ok s) ∧
       rs_requests s = [7; 9; 13] ∧ msg_sequence_number <$> rs_sent s = [8; 10; 12] ∧
       rs_sent s = mjoin (frame_messages toy_verify toy_from_slice toy_broadcaster_client <$> toy_read_events) ∧
       rs_requests s = 7 :: resume_requests toy_verify toy_from_slice toy_broadcaster_client [] toy_read_events.
Proof.
  eexists. split; [vm_compute; reflexivity|]. split; [vm_compute; reflexivity|].
  split; [vm_compute; reflexivity|].
  match goal with |- rs_sent ?s = _ ∧ _ =>
    destruct (feed_client_forwards toy_verify toy_from_slice toy_broadcaster_client
      [toy_attempt 42161; toy_attempt 42161; toy_attempt 42161] toy_read_events s) as (H1 & _ & _ & H2) end.
  - repeat constructor.
  - vm_compute; reflexivity.
  - split; [exact H1|exact H2].
Defined.

Lemma process_message_spec_witness :
  ∃ c' sent r, process_message toy_verify toy_from_slice toy_broadcaster_client (Some 1%nat)
      [Byte.x08; Byte.x0a] = (c', sent, r) ∧
    sent `prefix_of` payload_messages toy_verify toy_from_slice toy_broadcaster_client [Byte.x08; Byte.x0a].
Proof.
  eexists _, _, _. split; [vm_compute; reflexivity|].
  refine (proj1 (process_message_spec toy_verify toy_from_slice toy_broadcaster_client (Some 1%nat)
    [Byte.x08; Byte.x0a] _ _ _ _)). vm_compute; reflexivity.
Defined.

Lemma reconnect_never_backs_off_witness :
  ∃ s, run_feed_client toy_verify toy_from_slice toy_broadcaster_client
         [toy_attempt 42161; toy_attempt 42161; toy_attempt 42161] [StreamEnded; StreamEnded] = Some (Ok s) ∧
       first_reconnect_attempt (rs_client s) = true.
Proof.
  eexists. split; [vm_compute; reflexivity|].
  refine (proj1 (reconnect_never_backs_off toy_verify toy_from_slice toy_broadcaster_client
    [toy_attempt 42161; toy_attempt 42161; toy_attempt 42161] [StreamEnded; StreamEnded] _ _)).
  vm_compute; reflexivity.
Defined.

Lemma handshake_interoperates_witness :
  ∃ h, handle_upgrade default_WsBroadcastServerConfig 42161 (Some true) (connect_request 7) = Upgraded h 7 true.
Proof.
  destruct (handshake_interoperates default_WsBroadcastServerConfig 42161 toy_broadcaster_client 7 true
    (toy_attempt 42161)) as (h & H & _); try (vm_compute; done). exists h. exact H.
Defined.

Lemma retry_ignores_fatal_witness :
  (retry_connect toy_broadcaster_client 0 [toy_attempt 1; toy_attempt 1]).1 = None.
Proof.
  refine (proj1 (proj2 (retry_ignores_fatal toy_broadcaster_client [toy_attempt 1; toy_attempt 1] 0 0 _ _ _ _))).
  - done.
  - intros a Ha. apply elem_of_cons in Ha as [-> |Ha]; [|apply list_elem_of_singleton in Ha as ->];
      eexists; (split; [vm_compute; reflexivity|reflexivity]).
  - vm_compute. discriminate.
  - vm_compute. discriminate.
Defined.
