(* ===== verification/FeedLifecycle.v ===== *)
(** * The feed server's lifecycle

    The rest of [src/src/rollups/nitro/feed/ws_server.rs]: [start], [stop] and the
    accept loop, the keep-alive of [run_ws_client], and the number of connected
    clients; with the accessors of [broadcaster.rs].  What a client is sent is in
    [Feed]. *)

From S2P Require Import Prelude Bytes Slice Config Rollup NitroTypes Feed FeedTheorems FeedClient.

(** ** Keep-alive

    One turn of the loop of [run_ws_client].  Times are those of [Instant]; a
    broadcast is what [client_recv] makes of it. *)

Inductive recv_outcome := RecvSkipped | RecvSent | RecvSendError | RecvSendTimeout | RecvEncodeError | RecvLagged | RecvClosed.

Inductive ws_event :=
| WsCancelled
| WsPing (now : Z) (w : write_result)
| WsRecv (r : recv_outcome)
| WsFrame (now : Z)
| WsCloseFrame
| WsStreamEnded.

(** Why the loop ends; [EncodeFailed] leaves the function with an error, before
    [client_count] is decremented. *)
Inductive ws_exit :=
| Cancelled | ClientTimeout | PingWriteTimeout | SendError | SendTimeout | Lagged | BroadcastClosed
| CloseFrame | StreamEnded | EncodeFailed.

#[export] Instance ws_exit_eq_dec : EqDecision ws_exit.
Proof. solve_decision. Defined.

(** The new [last_heard], or the reason to leave. *)
Definition ws_turn (client_timeout : Z) (ev : ws_event) (last_heard : Z) : Z + ws_exit :=
  match ev with
  | WsCancelled => inr Cancelled
  | WsPing now w =>
      if client_timeout <? now - last_heard then inr ClientTimeout
      else match w with WriteTimeout => inr PingWriteTimeout | _ => inl last_heard end
  | WsRecv r =>
      match r with
      | RecvSkipped | RecvSent => inl last_heard
      | RecvSendError => inr SendError
      | RecvSendTimeout => inr SendTimeout
      | RecvEncodeError => inr EncodeFailed
      | RecvLagged => inr Lagged
      | RecvClosed => inr BroadcastClosed
      end
  | WsFrame now => inl now
  | WsCloseFrame => inr CloseFrame
  | WsStreamEnded => inr StreamEnded
  end.

Fixpoint ws_loop (client_timeout : Z) (evs : list ws_event) (last_heard : Z) : Z + ws_exit :=
  match evs with
  | [] => inl last_heard
  | ev :: evs' =>
      match ws_turn client_timeout ev last_heard with
      | inl heard => ws_loop client_timeout evs' heard
      | inr reason => inr reason
      end
  end.

Definition event_time (ev : ws_event) : option Z :=
  match ev with WsPing now _ | WsFrame now => Some now | _ => None end.

(** The frames that count as a sign of life. *)
Definition heard_at (ev : ws_event) : option Z := match ev with WsFrame now => Some now | _ => None end.

Lemma ws_loop_app timeout evs1 evs2 h :
  ws_loop timeout (evs1 ++ evs2) h =
    match ws_loop timeout evs1 h with inl h' => ws_loop timeout evs2 h' | inr r => inr r end.
Proof.
  revert h. induction evs1 as [|ev evs1 IH]; intros h; simpl; [done|].
  destruct (ws_turn timeout ev h); [apply IH|done].
Qed.

(** When the client was last heard: the time of the last frame of the trace, or else
    that of the connection. *)
Definition last_frame (connected : Z) (evs : list ws_event) : Z :=
  default connected (last (omap heard_at evs)).

Lemma last_frame_app connected evs1 evs2 :
  last_frame connected (evs1 ++ evs2) = last_frame (last_frame connected evs1) evs2.
Proof. unfold last_frame. rewrite omap_app, last_app. by destruct (last (omap heard_at evs2)). Qed.

Lemma ws_turn_heard timeout ev h h' : ws_turn timeout ev h = inl h' → h' = last_frame h [ev].
Proof.
  destruct ev as [|now w|r|now| |]; simpl; try done.
  - destruct (_ <? _); [done|]. by destruct w; intros [= <-].
  - by destruct r; intros [= <-].
  - by intros [= <-].
Qed.

(** The variable [last_heard] is the time of the last frame. *)
Lemma ws_loop_heard timeout evs h h' : ws_loop timeout evs h = inl h' → h' = last_frame h evs.
Proof.
  revert h. induction evs as [|ev evs IH]; intros h; simpl; [by intros [= <-]|].
  destruct (ws_turn timeout ev h) as [h1|] eqn:E; [|done]. apply ws_turn_heard in E as ->.
  intros ->%IH. change (ev :: evs) with ([ev] ++ evs). by rewrite last_frame_app.
Qed.

Lemma ws_loop_timeout timeout evs h :
  ws_loop timeout evs h = inr ClientTimeout →
  ∃ before now w after h', evs = before ++ WsPing now w :: after ∧
    ws_loop timeout before h = inl h' ∧ timeout < now - h'.
Proof.
  revert h. induction evs as [|ev evs IH]; intros h; simpl; [done|].
  destruct (ws_turn timeout ev h) as [h1|r] eqn:E.
  - intros (before & now & w & after & h' & -> & Hb & Hlt)%IH.
    exists (ev :: before), now, w, after, h'. simpl. by rewrite E.
  - intros [= ->]. destruct ev as [|now w|r|now| |]; simpl in E; try done.
    + destruct (Z.ltb_spec timeout (now - h)); [|by destruct w].
      exists [], now, w, evs, h. by split_and!.
    + by destruct r.
Qed.

Lemma ws_loop_ping timeout before now w after h h' :
  ws_loop timeout (before ++ WsPing now w :: after) h = inl h' → now - last_frame h before ≤ timeout.
Proof.
  rewrite ws_loop_app. destruct (ws_loop timeout before h) as [h1|] eqn:E; [|done].
  apply ws_loop_heard in E as ->. simpl. destruct (Z.ltb_spec timeout (now - last_frame h before)); [done|lia].
Qed.

(** C36. Keep-alive, over any trace of a client's loop, with the client last heard at
    its last frame (or when it connected).  A client the server still keeps was heard
    at most [client_timeout] before every ping of the trace; so, when the timer ticks
    at least once per [ping] interval and nothing was heard since its last tick, the
    silence is at most [client_timeout] plus [ping]; and the timer ends the connection
    exactly when a ping comes more than [client_timeout] after the last frame before
    it. *)
Theorem keepalive_bounds timeout ping connected evs :
  (∀ h, ws_loop timeout evs connected = inl h → ∀ before p w after,
     evs = before ++ WsPing p w :: after →
     p - last_frame connected before ≤ timeout ∧
     ∀ now, omap heard_at after = [] → now ≤ p + ping → now - last_frame connected evs ≤ timeout + ping) ∧
  (ws_loop timeout evs connected = inr ClientTimeout ↔
   ∃ before p w after h, evs = before ++ WsPing p w :: after ∧ ws_loop timeout before connected = inl h ∧
     timeout < p - last_frame connected before).
Proof.
  split.
  - intros h Hl before p w after ->. pose proof (ws_loop_ping _ _ _ _ _ _ _ Hl) as Hp. split; [done|].
    intros now Ha Hnow. rewrite last_frame_app.
    assert (E : last_frame (last_frame connected before) (WsPing p w :: after) = last_frame connected before).
    { change (WsPing p w :: after) with ([WsPing p w] ++ after). rewrite last_frame_app.
      unfold last_frame at 1. by rewrite Ha. }
    rewrite E. lia.
  - split.
    + intros (before & p & w & after & h & -> & Hb & Hlt)%ws_loop_timeout. exists before, p, w, after, h.
      split_and!; [done|done|]. by rewrite <- (ws_loop_heard _ _ _ _ Hb).
    + intros (before & p & w & after & h & -> & Hb & Hlt). rewrite ws_loop_app, Hb. simpl.
      rewrite (ws_loop_heard _ _ _ _ Hb). apply Z.ltb_lt in Hlt. by rewrite Hlt.
Qed.

(** With the default fifteen and five seconds, nothing heard since second 3. *)
Lemma keepalive_bounds_witness :
  let evs := [WsFrame 3; WsPing 5 WriteOk; WsPing 10 WriteOk; WsRecv RecvSent; WsPing 15 WriteError] in
  ws_loop 15 evs 0 = inl 3 ∧ last_frame 0 evs = 3 ∧ 19 - 3 ≤ 15 + 5.
Proof.
  intros evs. split; [by vm_compute|]. split; [by vm_compute|].
  destruct (keepalive_bounds 15 5 0 evs) as [H _].
  destruct (H 3 ltac:(by vm_compute) [WsFrame 3; WsPing 5 WriteOk; WsPing 10 WriteOk; WsRecv RecvSent] 15 WriteError []
              ltac:(by vm_compute)) as [_ H'].
  apply (H' 19); [by vm_compute|lia].
Defined.

(** ** Connected clients *)

Definition active (c : ws_client) : bool :=
  match phase c with Subscribed | Live => true | Closed => false end.

Definition active_clients (f : feed_server) : nat := size (filter (λ kc, active kc.2 = true) (clients f)).

(** [get_cached_message_count]. *)
Definition get_cached_message_count (f : feed_server) : nat := length (backlog f).

Definition encode_failed (a : feed_action) : bool :=
  match a with ClientSnapshot _ EncodeError | ClientRecv _ EncodeError => true | _ => false end.

(** The broadcasts that could not be encoded. *)
Definition encode_failures (acts : list feed_action) : nat := length (filter (λ a, encode_failed a = true) acts).

(** The clients counted without [id]. *)
Definition others (m : gmap nat ws_client) (id : nat) : nat :=
  size (filter (λ kc, active kc.2 = true) (delete id m)).

Lemma active_insert (m : gmap nat ws_client) id c :
  size (filter (λ kc, active kc.2 = true) (<[id := c]> m)) = ((if active c then 1 else 0) + others m id)%nat.
Proof.
  unfold others. rewrite <- insert_delete_eq. rewrite map_filter_insert. simpl.
  destruct (active c) eqn:E.
  - rewrite decide_True by done. rewrite map_size_insert_None; [done|].
    apply map_lookup_filter_None. left. by rewrite lookup_delete_eq.
  - rewrite decide_False by done. by rewrite delete_delete_eq.
Qed.

Lemma active_split (m : gmap nat ws_client) id :
  size (filter (λ kc, active kc.2 = true) m) =
    ((if from_option active false (m !! id) then 1 else 0) + others m id)%nat.
Proof.
  destruct (m !! id) as [c|] eqn:E; simpl.
  - rewrite <- (insert_id m id c E) at 1. apply active_insert.
  - unfold others. by rewrite delete_id.
Qed.

(** What a step does to the difference between the counter and the clients. *)
Definition leaked (f : feed_server) : Z := client_count f - Z.of_nat (active_clients f).

Lemma leaked_set_client f id c d :
  leaked (set_client f id c d) =
    leaked f + d - (if active c then 1 else 0) + (if from_option active false (clients f !! id) then 1 else 0).
Proof.
  unfold leaked, active_clients, set_client. simpl. rewrite active_insert, (active_split (clients f) id).
  destruct (active c), (from_option active false (clients f !! id)); lia.
Qed.

Lemma feed_step_leaked ring a f f' :
  feed_step ring a f = Some f' →
  leaked f' = leaked f ∨ encode_failed a = true ∧ leaked f' = leaked f + 1.
Proof.
  intros H. destruct a as [op| | |id s|id w|id w|id]; simpl in H.
  - destruct (inflight f); simplify_eq. by left.
  - destruct (inflight f) as [[bm []]|]; simplify_eq. by left.
  - destruct (inflight f) as [[bm []]|]; simplify_eq. by left.
  - destruct (clients f !! id) eqn:E; simplify_eq. left. unfold client_subscribe.
    rewrite leaked_set_client, E. simpl. lia.
  - destruct (clients f !! id) as [c|] eqn:E; simpl in H; [|done]. case_decide as Hd; [|done].
    apply (inj Some) in H. subst f'. destruct Hd as [Hph _]. unfold client_snapshot.
    destruct (last _); [destruct w|]; rewrite leaked_set_client, E; unfold active; simpl; rewrite Hph; simpl;
      first [left; lia|right; split; [done|lia] ].
  - destruct (clients f !! id) as [c|] eqn:E; simpl in H; [|done]. case_decide as Hd; [|done].
    destruct Hd as [Hph _]. unfold client_recv in H.
    destruct (_ <? _)%nat; [|destruct (channel f !! rx c); [destruct (should_send _ _); [destruct w|]|done] ].
    all: apply (inj Some) in H; subst f'; rewrite leaked_set_client, E; unfold active; simpl; rewrite Hph; simpl.
    all: first [left; lia|right; split; [done|lia] ].
  - destruct (clients f !! id) as [c|] eqn:E; simpl in H; [|done]. case_decide as Hph; [|done].
    apply (inj Some) in H. subst f'. left. rewrite leaked_set_client, E. unfold active. simpl. rewrite Hph. simpl. lia.
Qed.

Lemma feed_exec_leaked ring acts f f' :
  feed_exec ring acts f = Some f' → leaked f ≤ leaked f' ≤ leaked f + Z.of_nat (encode_failures acts).
Proof.
  revert f. induction acts as [|a acts IH]; intros f; simpl.
  { intros [= <-]. unfold encode_failures. simpl. lia. }
  destruct (feed_step ring a f) as [f1|] eqn:E; simpl; [|done]. intros Hb%IH.
  unfold encode_failures in *. rewrite filter_cons.
  apply feed_step_leaked in E as [E|[Ha E] ].
  - case_decide; simpl; lia.
  - rewrite decide_True by done. simpl. lia.
Qed.

(** [client_count] counts the connected clients: after any interleaving of
    broadcasts and client steps it is their number, plus at most one for each
    broadcast that could not be encoded for a client; so it is never negative, and
    zero once the clients are gone if every message could be encoded. *)
Theorem client_count_exact ring acts f :
  feed_exec ring acts feed_new = Some f →
  Z.of_nat (active_clients f) ≤ client_count f ≤ Z.of_nat (active_clients f + encode_failures acts).
Proof.
  intros H%feed_exec_leaked. assert (E0 : leaked feed_new = 0) by done. rewrite E0 in H. unfold leaked in H. lia.
Qed.

Definition two_clients : list feed_action :=
  [ClientSubscribe 0 0; ClientSubscribe 1 3; ClientSnapshot 0 WriteOk; ClientSnapshot 1 WriteOk; ClientStop 0].

Definition two_clients_feed : feed_server := default feed_new (feed_exec 8 two_clients feed_new).

Lemma client_count_exact_witness :
  active_clients two_clients_feed = 1%nat ∧ encode_failures two_clients = 0%nat ∧
  Z.of_nat (active_clients two_clients_feed) ≤ client_count two_clients_feed ≤
    Z.of_nat (active_clients two_clients_feed + encode_failures two_clients).
Proof.
  split; [by vm_compute|]. split; [by vm_compute|].
  apply (client_count_exact 8 two_clients two_clients_feed). by vm_compute.
Defined.

(** ** Start, stop and the accept loop

    A start binds a listener and spawns an accept loop that owns a cancellation
    token; a connection is handed to a task that shares the token.  The branches of
    [select!] are polled in random order, so a loop whose token is cancelled may
    still accept before it leaves. *)

Record ServerRunState := {
  cancel : nat;
  listener_addr_of : string;
}.

(** [connections] has the token of each connection's task, [heard] its [last_heard]. *)
Record ws_server := {
  run_state : option ServerRunState;
  next_token : nat;
  cancelled : gset nat;
  loops : gset nat;
  connections : gmap nat nat;
  heard : gmap nat Z;
  feed_of : feed_server;
}.

Definition server_new : ws_server :=
  {| run_state := None; next_token := 0; cancelled := ∅; loops := ∅; connections := ∅; heard := ∅;
     feed_of := feed_new |}.

(** [WsBroadcastServer::start]; [bound] is the answer of [TcpListener::bind] and
    [local_addr]. *)
Definition server_start (bound : result string string) (s : ws_server) : ws_server * result string string :=
  match bound with
  | Err e => (s, Err e)
  | Ok addr =>
      ({| run_state := Some {| cancel := next_token s; listener_addr_of := addr |};
          next_token := S (next_token s); cancelled := cancelled s; loops := {[next_token s]} ∪ loops s;
          connections := connections s; heard := heard s; feed_of := feed_of s |}, Ok addr)
  end.

Definition server_stop (s : ws_server) : ws_server :=
  match run_state s with
  | None => s
  | Some r =>
      {| run_state := None; next_token := next_token s; cancelled := {[cancel r]} ∪ cancelled s;
         loops := loops s; connections := connections s; heard := heard s; feed_of := feed_of s |}
  end.

Definition server_started (s : ws_server) : bool := match run_state s with Some _ => true | None => false end.

Definition server_listener_addr (s : ws_server) : option string := listener_addr_of <$> run_state s.

(** The accept loop of token [t] accepts a connection, [id], or leaves. *)
Definition accept (t id : nat) (s : ws_server) : option ws_server :=
  if decide (t ∈ loops s ∧ connections s !! id = None) then
    Some {| run_state := run_state s; next_token := next_token s; cancelled := cancelled s; loops := loops s;
            connections := <[id := t]> (connections s); heard := heard s; feed_of := feed_of s |}
  else None.

Definition accept_leave (t : nat) (s : ws_server) : option ws_server :=
  if decide (t ∈ loops s ∧ t ∈ cancelled s) then
    Some {| run_state := run_state s; next_token := next_token s; cancelled := cancelled s;
            loops := loops s ∖ {[t]}; connections := connections s; heard := heard s; feed_of := feed_of s |}
  else None.

Definition set_feed (s : ws_server) (f : feed_server) (h : gmap nat Z) : ws_server :=
  {| run_state := run_state s; next_token := next_token s; cancelled := cancelled s; loops := loops s;
     connections := connections s; heard := h; feed_of := f |}.

(** A step of the feed.  A client exists only for an accepted connection; its backlog
    and the end of its loop are below. *)
Definition server_feed (ring : nat) (a : feed_action) (s : ws_server) : option ws_server :=
  let allowed := match a with
                 | ClientSubscribe id _ => bool_decide (is_Some (connections s !! id))
                 | ClientSnapshot _ _ | ClientStop _ => false
                 | _ => true
                 end in
  if allowed then f ← feed_step ring a (feed_of s); Some (set_feed s f (heard s)) else None.

(** The backlog is sent, and [last_heard] is the time after it. *)
Definition server_snapshot (ring : nat) (id : nat) (w : write_result) (now : Z) (s : ws_server) : option ws_server :=
  f ← feed_step ring (ClientSnapshot id w) (feed_of s);
  Some (set_feed s f (<[id := now]> (heard s))).

(** A turn of the loop of [run_ws_client] other than a broadcast: the arm of
    [cancel.cancelled()] is ready only when the token of the connection is cancelled. *)
Definition client_turn (ring : nat) (client_timeout : Z) (id : nat) (ev : ws_event) (s : ws_server)
    : option ws_server :=
  t ← connections s !! id;
  last_heard ← heard s !! id;
  c ← clients (feed_of s) !! id;
  let ready := match ev with
               | WsCancelled => bool_decide (t ∈ cancelled s)
               | WsRecv _ => false
               | _ => true
               end in
  if bool_decide (phase c = Live) && ready then
    match ws_turn client_timeout ev last_heard with
    | inl h => Some (set_feed s (feed_of s) (<[id := h]> (heard s)))
    | inr _ => f ← feed_step ring (ClientStop id) (feed_of s); Some (set_feed s f (heard s))
    end
  else None.

Inductive server_action :=
| SStart (bound : result string string)
| SStop
| SAccept (t id : nat)
| SLeave (t : nat)
| SFeed (a : feed_action)
| SSnapshot (id : nat) (w : write_result) (now : Z)
| STurn (id : nat) (ev : ws_event).

Section server.
Context (ring : nat) (client_timeout : Z).
Implicit Types (s : ws_server).

Definition server_step (a : server_action) (s : ws_server) : option ws_server :=
  match a with
  | SStart bound => Some (server_start bound s).1
  | SStop => Some (server_stop s)
  | SAccept t id => accept t id s
  | SLeave t => accept_leave t s
  | SFeed a => server_feed ring a s
  | SSnapshot id w now => server_snapshot ring id w now s
  | STurn id ev => client_turn ring client_timeout id ev s
  end.

Inductive server_reachable : ws_server → Prop :=
| server_reachable_new : server_reachable server_new
| server_reachable_step a s s' : server_reachable s → server_step a s = Some s' → server_reachable s'.

Fixpoint server_exec (acts : list server_action) (s : ws_server) : option ws_server :=
  match acts with
  | [] => Some s
  | a :: acts' => s' ← server_step a s; server_exec acts' s'
  end.

Definition is_start (a : server_action) : bool := match a with SStart _ => true | _ => false end.

(** What the server does by itself: an accept loop leaves, a backlog is written, a
    client's loop leaves because its token is cancelled.  Nothing here depends on what
    a client does, on a timer or on a failing write. *)
Definition own_step (a : server_action) : Prop :=
  match a with SLeave _ | SSnapshot _ WriteOk _ | STurn _ WsCancelled => True | _ => False end.

(** *** The invariant *)

(** What a feed step does to one client. *)
Lemma feed_step_client a f f' id c' :
  feed_step ring a f = Some f' → clients f' !! id = Some c' →
  clients f !! id = Some c' ∨
  (∃ q, a = ClientSubscribe id q) ∧ phase c' = Subscribed ∧ sink_failed c' = false ∨
  (∃ w, a = ClientSnapshot id w) ∧ is_Some (clients f !! id) ∧ phase c' ≠ Subscribed ∨
  ∃ c, clients f !! id = Some c ∧ phase c = Live ∧ phase c' ≠ Subscribed.
Proof.
  intros H. destruct a as [op| | |id' q|id' w|id' w|id']; simpl in H.
  1-3: destruct (inflight f) as [ [bm [] ]|]; simplify_eq; by left.
  all: destruct (clients f !! id') as [c|] eqn:E; simpl in H; try done; try (case_decide as Hd; [|done]).
  - simplify_eq. simpl. intros [ [<- <-]|[_ ?] ]%lookup_insert_Some; [|by left]. right; left. eauto.
  - apply (inj Some) in H. subst f'. unfold client_snapshot.
    destruct (last _); [destruct w|]; simpl; intros [ [<- <-]|[_ ?] ]%lookup_insert_Some; try (by left).
    all: right; right; left; rewrite E; eauto.
  - unfold client_recv in H. destruct Hd as [Hph _].
    destruct (_ <? _)%nat; [|destruct (channel f !! rx c); [destruct (should_send _ _); [destruct w|]|done] ].
    all: apply (inj Some) in H; subst f'; simpl; intros [ [<- <-]|[_ ?] ]%lookup_insert_Some; try (by left).
    all: do 3 right; exists c; by split_and!.
  - apply (inj Some) in H. subst f'. simpl. intros [ [<- <-]|[_ ?] ]%lookup_insert_Some; [|by left].
    do 3 right. exists c. by split_and!.
Qed.

(** Tokens are issued in order; the running token is not cancelled; a connection's
    loop is there until its token is cancelled; every client was accepted, and is heard
    of once its backlog was sent. *)
Record server_inv (s : ws_server) : Prop := {
  si_loops t : t ∈ loops s → (t < next_token s)%nat;
  si_cancelled t : t ∈ cancelled s → (t < next_token s)%nat;
  si_running r : run_state s = Some r → cancel r ∈ loops s ∧ cancel r ∉ cancelled s;
  si_tokens id t : connections s !! id = Some t → t ∈ loops s ∨ t ∈ cancelled s;
  si_clients id c : clients (feed_of s) !! id = Some c →
    is_Some (connections s !! id) ∧ (phase c = Subscribed → sink_failed c = false) ∧
    (phase c = Live → is_Some (heard s !! id));
}.

(** A change of the feed and of the times heard keeps the rest. *)
Lemma set_feed_inv s f h :
  server_inv s →
  (∀ id c, clients f !! id = Some c → is_Some (connections s !! id) ∧
     (phase c = Subscribed → sink_failed c = false) ∧ (phase c = Live → is_Some (h !! id))) →
  server_inv (set_feed s f h).
Proof. intros [] Hc. by split. Qed.

Lemma server_inv_feed a s f :
  server_inv s → feed_step ring a (feed_of s) = Some f →
  (∀ id q, a = ClientSubscribe id q → is_Some (connections s !! id)) →
  ∀ h, (∀ id, is_Some (heard s !! id) → is_Some (h !! id)) → (∀ id w, a = ClientSnapshot id w → is_Some (h !! id)) →
  server_inv (set_feed s f h).
Proof.
  intros Hi Ef Hsub h Hh Hsn. apply set_feed_inv; [done|]. intros id c Hc.
  destruct (feed_step_client a _ _ id c Ef Hc) as [Ho|[ [ [q ->] [Hp Hs] ]|[ [ [w ->] [ [c0 Hc0] Hp] ]|(c0 & Hc0 & Hl & Hp)] ] ].
  - destruct (si_clients s Hi id c Ho) as (? & ? & Hhe). split_and!; [done|done|]. intros Hl. by apply Hh, Hhe.
  - split_and!; [by eapply Hsub|done|congruence].
  - destruct (si_clients s Hi id c0 Hc0) as (? & _ & _). split_and!; [done|done|]. intros _. by eapply Hsn.
  - destruct (si_clients s Hi id c0 Hc0) as (? & _ & Hhe). split_and!; [done|done|]. intros _. by apply Hh, Hhe.
Qed.

Lemma server_step_inv a s s' : server_inv s → server_step a s = Some s' → server_inv s'.
Proof.
  intros Hi Hstep. destruct Hi as [Hl Hc Hr Ht Hcl] eqn:Ei. clear Ei.
  destruct a as [bound| |t id|t|a|id w now|id ev]; simpl in Hstep.
  - destruct bound as [addr|e]; simplify_eq/=; [|done]. split; simpl; try done.
    + intros t. rewrite elem_of_union, elem_of_singleton. intros [-> |Hin%Hl]; lia.
    + intros t Hin%Hc. lia.
    + intros r [= <-]. simpl. split; [set_solver|]. intros Hin%Hc. lia.
    + intros id t [Hin|Hin]%Ht; [left; set_solver|by right].
  - unfold server_stop in Hstep. destruct (run_state s) as [r|] eqn:Er; simplify_eq; [|done].
    destruct (Hr r eq_refl) as [Hin _]. split; simpl; try done.
    + intros t. rewrite elem_of_union, elem_of_singleton. intros [-> |Hin'%Hc]; [by apply Hl|done].
    + intros id t [?|?]%Ht; [by left|right; set_solver].
  - unfold accept in Hstep. case_decide as Hd; simplify_eq. split; simpl; try done.
    + intros id' t' [ [_ <-]|[_ ?%Ht] ]%lookup_insert_Some; [left; apply Hd|done].
    + intros id' c Hc'. destruct (Hcl id' c Hc') as (H1 & H2 & H3). split_and!; try done.
      rewrite lookup_insert_is_Some'. by right.
  - unfold accept_leave in Hstep. case_decide as Hd; simplify_eq. destruct Hd as [Hin Hcan]. split; simpl; try done.
    + intros t' Hin'. apply Hl. set_solver.
    + intros r Er. destruct (Hr r Er) as [H1 H2]. split; [|done].
      apply elem_of_difference. split; [done|]. rewrite elem_of_singleton. intros E. by rewrite E in H2.
    + intros id t' [?|?]%Ht; [|by right]. destruct (decide (t' = t)) as [-> |]; [by right|left; set_solver].
  - unfold server_feed in Hstep. destruct (match a with ClientSubscribe _ _ => _ | _ => _ end) eqn:Ea; [|done].
    destruct (feed_step ring a (feed_of s)) as [f|] eqn:Ef; simplify_eq/=.
    apply (server_inv_feed a); try done.
    + intros id q ->. by apply bool_decide_eq_true in Ea.
    + intros id w ->. done.
  - unfold server_snapshot in Hstep. destruct (feed_step ring _ (feed_of s)) as [f|] eqn:Ef; simplify_eq/=.
    apply (server_inv_feed (ClientSnapshot id w)); try done.
    + intros id' Hid'. rewrite lookup_insert_is_Some'. by right.
    + intros id' w' [= -> ->]. rewrite lookup_insert_eq. by eexists.
  - unfold client_turn in Hstep. destruct (connections s !! id); cbn [mbind option_bind] in Hstep; [|done].
    destruct (heard s !! id) as [h0|] eqn:Eh; cbn [mbind option_bind] in Hstep; [|done].
    destruct (clients (feed_of s) !! id); cbn [mbind option_bind] in Hstep; [|done]. destruct (_ && _); [|done].
    destruct (ws_turn _ _ _).
    + simplify_eq. apply set_feed_inv; [done|]. intros id' c Hc'. destruct (Hcl id' c Hc') as (H1 & H2 & H3).
      split_and!; try done. intros Hlv. rewrite lookup_insert_is_Some'. right. by apply H3.
    + destruct (feed_step ring _ (feed_of s)) as [f|] eqn:Ef; cbn [mbind option_bind] in Hstep; [|done]. simplify_eq.
      by apply (server_inv_feed (ClientStop id)).
Qed.

Lemma server_inv_reachable s : server_reachable s → server_inv s.
Proof. induction 1; [by split|by eapply server_step_inv]. Qed.

(** *** Runs *)

Lemma server_exec_app acts1 acts2 s s1 :
  server_exec acts1 s = Some s1 → server_exec (acts1 ++ acts2) s = server_exec acts2 s1.
Proof.
  revert s. induction acts1 as [|a acts1 IH]; intros s; simpl; [by intros [= ->]|].
  destruct (server_step a s) as [s'|]; simpl; [apply IH|done].
Qed.

Lemma server_exec_reachable acts s s' :
  server_reachable s → server_exec acts s = Some s' → server_reachable s'.
Proof.
  revert s. induction acts as [|a acts IH]; intros s Hs; simpl; [by intros [= <-]|].
  destruct (server_step a s) as [s1|] eqn:E; simpl; [|done]. apply IH. by eapply server_reachable_step.
Qed.

(** Steps of the feed and of the clients leave the tokens, loops and connections. *)
Definition same_loops (s s' : ws_server) : Prop :=
  run_state s' = run_state s ∧ cancelled s' = cancelled s ∧ loops s' = loops s ∧ connections s' = connections s.

Lemma client_steps_same a s s' :
  match a with SFeed _ | SSnapshot _ _ _ | STurn _ _ => True | _ => False end →
  server_step a s = Some s' → same_loops s s'.
Proof.
  intros Ha H. destruct a as [| | | |a|id w now|id ev]; try done; simpl in H.
  - unfold server_feed in H. destruct (match a with ClientSubscribe _ _ => _ | _ => _ end); [|done].
    destruct (feed_step _ _ _); by simplify_eq/=.
  - unfold server_snapshot in H. destruct (feed_step _ _ _); by simplify_eq/=.
  - unfold client_turn in H. destruct (connections s !! id); cbn [mbind option_bind] in H; [|done].
    destruct (heard s !! id); cbn [mbind option_bind] in H; [|done]. destruct (clients (feed_of s) !! id); cbn [mbind option_bind] in H; [|done].
    destruct (_ && _); [|done]. destruct (ws_turn _ _ _); [by simplify_eq|].
    destruct (feed_step _ _ _); by simplify_eq/=.
Qed.

(** Every accept loop has been cancelled. *)
Definition loops_cancelled (s : ws_server) : Prop := ∀ t, t ∈ loops s → t ∈ cancelled s.

Lemma loops_cancelled_step a s s' :
  is_start a = false → loops_cancelled s → server_step a s = Some s' → loops_cancelled s'.
Proof.
  intros Ha Hc Hstep. destruct a as [bound| |t id|t|a|id w now|id ev]; simpl in Ha, Hstep; [done| | | |..].
  - unfold server_stop in Hstep. destruct (run_state s); simplify_eq; [|done].
    intros t Ht. apply elem_of_union. right. by apply Hc.
  - unfold accept in Hstep. case_decide; by simplify_eq.
  - unfold accept_leave in Hstep. case_decide; simplify_eq. intros t' Ht'. apply Hc. simpl in Ht'. set_solver.
  - destruct (client_steps_same (SFeed a) s s' I Hstep) as (_ & E1 & E2 & _). unfold loops_cancelled. by rewrite E1, E2.
  - destruct (client_steps_same (SSnapshot id w now) s s' I Hstep) as (_ & E1 & E2 & _). unfold loops_cancelled. by rewrite E1, E2.
  - destruct (client_steps_same (STurn id ev) s s' I Hstep) as (_ & E1 & E2 & _). unfold loops_cancelled. by rewrite E1, E2.
Qed.

Lemma loops_cancelled_exec acts s s' :
  Forall (λ a, is_start a = false) acts → loops_cancelled s → server_exec acts s = Some s' → loops_cancelled s'.
Proof.
  intros Hf. revert s. induction Hf as [|a acts Ha Hf IH]; intros s Hc; simpl; [by intros [= <-]|].
  destruct (server_step a s) as [s1|] eqn:E; simpl; [|done]. apply IH. by eapply loops_cancelled_step.
Qed.

(** Without an accept loop nothing is accepted until the next start. *)
Lemma no_loops_stable acts s s' :
  loops s = ∅ → Forall (λ a, is_start a = false) acts → server_exec acts s = Some s' →
  loops s' = ∅ ∧ connections s' = connections s.
Proof.
  revert s. induction acts as [|a acts IH]; intros s Hl Hf; simpl; [by intros [= <-]|].
  apply Forall_cons in Hf as [Ha Hf]. destruct (server_step a s) as [s1|] eqn:E; simpl; [|done].
  assert (H1 : loops s1 = ∅ ∧ connections s1 = connections s).
  { destruct a as [bound| |t id|t|a|id w now|id ev]; simpl in Ha; [done| | | |..].
    - simpl in E. unfold server_stop in E. by destruct (run_state s); simplify_eq.
    - simpl in E. unfold accept in E. case_decide as Hd; simplify_eq. destruct Hd as [Hd _]. rewrite Hl in Hd. set_solver.
    - simpl in E. unfold accept_leave in E. case_decide as Hd; simplify_eq. destruct Hd as [Hd _]. rewrite Hl in Hd. set_solver.
    - apply client_steps_same in E as (_ & _ & -> & ->); done.
    - apply client_steps_same in E as (_ & _ & -> & ->); done.
    - apply client_steps_same in E as (_ & _ & -> & ->); done. }
  destruct H1 as [H1 <-]. by apply IH.
Qed.

(** Every loop whose token is cancelled can leave. *)
Lemma loops_leave s :
  loops_cancelled s →
  ∃ acts s', Forall own_step acts ∧ server_exec acts s = Some s' ∧
    loops s' = ∅ ∧ feed_of s' = feed_of s ∧ connections s' = connections s ∧ cancelled s' = cancelled s.
Proof.
  unfold loops_cancelled. remember (loops s) as L eqn:EL. revert s EL.
  induction L as [|t L Ht IH] using set_ind_L; intros s EL Hc; [by exists [], s|].
  assert (Hstep : accept_leave t s =
    Some {| run_state := run_state s; next_token := next_token s; cancelled := cancelled s;
            loops := loops s ∖ {[t]}; connections := connections s; heard := heard s; feed_of := feed_of s |}).
  { unfold accept_leave. rewrite decide_True; [done|]. rewrite <- EL. split; [set_solver|]. apply Hc. set_solver. }
  set (s1 := {| run_state := _ |}) in Hstep.
  destruct (IH s1) as (acts & s' & Hf & Hx & Hl & Hfeed & Hcon & Hcan).
  { subst s1. simpl. rewrite <- EL. set_solver. }
  { intros t' Ht'. apply Hc. set_solver. }
  exists (SLeave t :: acts), s'. simpl. rewrite Hstep. simpl. split_and!; try done. by apply Forall_cons.
Qed.

(** A live client whose token is cancelled leaves by that arm. *)
Lemma cancelled_client_leaves s id c t h :
  connections s !! id = Some t → t ∈ cancelled s → heard s !! id = Some h →
  clients (feed_of s) !! id = Some c → phase c = Live →
  server_step (STurn id WsCancelled) s = Some (set_feed s (set_client (feed_of s) id (close c) (-1)) (heard s)).
Proof.
  intros Hcon Hcan Hh Hc Hp. simpl. unfold client_turn. rewrite Hcon, Hh, Hc. simpl.
  rewrite !bool_decide_eq_true_2 by done. simpl. rewrite Hc. simpl. by rewrite decide_True by done.
Qed.

Lemma active_close f id c n :
  clients f !! id = Some c → active c = true → active_clients f = S n →
  active_clients (set_client f id (close c) (-1)) = n.
Proof.
  intros Hc Ha Hn. unfold active_clients in *. simpl. rewrite active_insert. unfold active at 1. simpl.
  rewrite (active_split _ id), Hc in Hn. simpl in Hn. rewrite Ha in Hn. lia.
Qed.

(** One active client fewer, by the server's own steps. *)
Lemma active_client_leaves s n :
  server_reachable s → (∀ id t, connections s !! id = Some t → t ∈ cancelled s) →
  active_clients (feed_of s) = S n →
  ∃ acts s', Forall own_step acts ∧ server_exec acts s = Some s' ∧ active_clients (feed_of s') = n ∧ same_loops s s'.
Proof.
  intros Hr Hcan Hn. destruct (map_choose (filter (λ kc, active kc.2 = true) (clients (feed_of s)))) as (id & c & Hc).
  { intros E. unfold active_clients in Hn. by rewrite E in Hn. }
  apply map_lookup_filter_Some in Hc as [Hc Ha]. simpl in Ha.
  destruct (si_clients s (server_inv_reachable s Hr) id c Hc) as ([t Ht] & Hsub & Hheard).
  destruct (phase c) eqn:Ep; [| |unfold active in Ha; by rewrite Ep in Ha].
  - set (s1 := set_feed s (client_snapshot (feed_of s) id c WriteOk) (<[id := 0]> (heard s))).
    assert (Hs1 : server_step (SSnapshot id WriteOk 0) s = Some s1).
    { simpl. unfold server_snapshot. simpl. rewrite Hc. simpl.
      rewrite decide_True; [done|]. split; [done|]. simpl. by rewrite Hsub. }
    assert (Hc1 : ∃ c1, clients (feed_of s1) !! id = Some c1 ∧ phase c1 = Live ∧ active_clients (feed_of s1) = S n).
    { simpl. unfold client_snapshot. destruct (last (get_since _ _)).
      all: eexists; simpl; rewrite lookup_insert_eq; split_and!; [done|done|].
      all: unfold active_clients in *; simpl; rewrite active_insert; unfold active at 1; simpl.
      all: rewrite (active_split _ id), Hc in Hn; simpl in Hn; rewrite Ha in Hn; lia. }
    destruct Hc1 as (c1 & Hc1 & Hp1 & Hn1).
    pose proof (cancelled_client_leaves s1 id c1 t 0 Ht (Hcan id t Ht) (lookup_insert_eq _ _ _) Hc1 Hp1) as Hs2.
    exists [SSnapshot id WriteOk 0; STurn id WsCancelled], (set_feed s1 (set_client (feed_of s1) id (close c1) (-1)) (heard s1)).
    split; [by repeat constructor|]. split; [cbn [server_exec mbind option_bind]; by rewrite Hs1; cbn [mbind option_bind]; rewrite Hs2|].
    split; [|done]. apply active_close; [done|unfold active; by rewrite Hp1|done].
  - destruct (Hheard eq_refl) as [h Hh].
    pose proof (cancelled_client_leaves s id c t h Ht (Hcan id t Ht) Hh Hc Ep) as Hs1.
    exists [STurn id WsCancelled], (set_feed s (set_client (feed_of s) id (close c) (-1)) (heard s)).
    split; [by repeat constructor|]. split; [cbn [server_exec mbind option_bind]; by rewrite Hs1|].
    split; [|done]. by apply active_close.
Qed.

Lemma clients_leave s :
  server_reachable s → (∀ id t, connections s !! id = Some t → t ∈ cancelled s) →
  ∃ acts s', Forall own_step acts ∧ server_exec acts s = Some s' ∧ active_clients (feed_of s') = 0%nat ∧ same_loops s s'.
Proof.
  remember (active_clients (feed_of s)) as n eqn:En. revert s En.
  induction n as [|n IH]; intros s En Hr Hcan; [by exists [], s|].
  destruct (active_client_leaves s n Hr Hcan) as (acts1 & s1 & H1 & Hx1 & Hn1 & E1); [done|].
  destruct E1 as (F1 & F2 & F3 & F4).
  destruct (IH s1) as (acts2 & s2 & H2 & Hx2 & Hn2 & G1 & G2 & G3 & G4);
    [done|by eapply server_exec_reachable|by rewrite F2, F4|].
  exists (acts1 ++ acts2), s2. split; [by apply Forall_app|]. split; [by rewrite (server_exec_app _ _ _ s1)|].
  split; [done|]. unfold same_loops. split_and!; congruence.
Qed.


End server.

Definition one_start : list server_action :=
  [SStart (Ok "0.0.0.0:9642"%string); SAccept 0 7; SFeed (ClientSubscribe 7 0); SSnapshot 7 WriteOk 100;
   SAccept 0 8; SFeed (ClientSubscribe 8 0); STurn 7 (WsFrame 103)].

Definition one_start_server : ws_server := default server_new (server_exec 8 15 one_start server_new).


(** A second start without a stop loses the first token: its accept loop can no
    longer be cancelled. *)
Lemma restart_leaks_loop :
  ∃ s, server_exec 8 15 [SStart (Ok "127.0.0.1:1"%string); SStart (Ok "127.0.0.1:2"%string); SStop] server_new = Some s ∧
    0%nat ∈ loops s ∧ ∀ acts s', Forall (λ a, is_start a = false) acts → server_exec 8 15 acts s = Some s' →
      0%nat ∈ loops s'.
Proof.
  eexists. split; [reflexivity|]. simpl. split; [set_solver|].
  match goal with |- context [server_exec _ _ _ ?st] => assert (H0 : 0%nat ∈ loops st ∧ 0%nat ∉ cancelled st ∧ run_state st = None);
    [simpl; set_solver|generalize st H0] end.
  clear. intros s Hs acts s' Hf. revert s Hs. induction acts as [|a acts IH]; intros s (Hl & Hc & Hr); simpl.
  { by intros [= <-]. }
  apply Forall_cons in Hf as [Ha Hf]. destruct (server_step 8 15 a s) as [s1|] eqn:E; simpl; [|done]. apply IH; [done|].
  destruct a as [bound| |t id|t|a|id w now|id ev]; simpl in Ha; [done| | | |..].
  - simpl in E. unfold server_stop in E. rewrite Hr in E. by simplify_eq.
  - simpl in E. unfold accept in E. case_decide; by simplify_eq.
  - simpl in E. unfold accept_leave in E. case_decide as Hd; simplify_eq. simpl. split_and!; [|done|done].
    apply elem_of_difference. split; [done|]. rewrite elem_of_singleton. intros <-. by destruct Hd.
  - apply client_steps_same in E as (-> & -> & -> & _); done.
  - apply client_steps_same in E as (-> & -> & -> & _); done.
  - apply client_steps_same in E as (-> & -> & -> & _); done.
Qed.
