(* ===== verification/Relay.v ===== *)
(** * The feed relay

    [src/src/rollups/nitro/feed/relay.rs]: the loop that hands what the streamer
    finalized to the feed server, and confirms what L1 finalized.  The last
    theorem joins it to the streamer before it and the feed server after it. *)

From S2P Require Import Prelude Bytes Slice Config Rollup MockRollup Streamer StreamerProofs StreamerRun StreamerTheorems.
From S2P Require Import NitroTypes NitroVerify Rlp RlpInstance Batch NitroPayload Nitro NitroTheorems.
From S2P Require Import Feed FeedTheorems FeedClient.

(** What the loop's [select!] wakes up on: [EspressoRecv] carries the message
    received and those [try_recv] drained after it. *)
Inductive relay_event :=
| L1Changed (finalized : Z)
| L1SenderDropped
| ClientExited (r : result unit BroadcasterClientError)
| ClientJoinError
| EspressoRecv (first_msg : BroadcastFeedMessage) (drained : list BroadcastFeedMessage)
| EspressoClosed.

Inductive FeedRelayError :=
| RelayBroadcaster (e : string)
| RelayClient (e : BroadcasterClientError)
| RelayJoin.

Inductive relay_outcome :=
| RelayBroadcast (op : broadcast_op)
| RelayReturn (r : result unit FeedRelayError).

Definition relay_step (ev : relay_event) : relay_outcome :=
  match ev with
  | L1Changed finalized => RelayBroadcast (Confirm finalized)
  | L1SenderDropped => RelayReturn (Ok tt)
  | ClientExited r => RelayReturn (map_err RelayClient r)
  | ClientJoinError => RelayReturn (Err RelayJoin)
  | EspressoRecv first_msg drained => RelayBroadcast (FeedMessages (first_msg :: drained))
  | EspressoClosed => RelayReturn (Ok tt)
  end.

(** The broadcasts of the loop, and how it returned if it did. *)
Fixpoint relay_loop (evs : list relay_event) : list broadcast_op * option (result unit FeedRelayError) :=
  match evs with
  | [] => ([], None)
  | ev :: evs' =>
      match relay_step ev with
      | RelayReturn r => ([], Some r)
      | RelayBroadcast op => let '(ops, r) := relay_loop evs' in (op :: ops, r)
      end
  end.

(** [start]: the broadcaster is started first. *)
Definition relay_run (started : result unit string) (evs : list relay_event)
    : list broadcast_op * option (result unit FeedRelayError) :=
  match started with
  | Err e => ([], Some (Err (RelayBroadcaster e)))
  | Ok _ => relay_loop evs
  end.

(** The messages the loop took from the channel before it returned. *)
Definition op_msgs (op : broadcast_op) : list BroadcastFeedMessage :=
  match op with FeedMessages msgs => msgs | Confirm _ => [] end.

(** ** The feed server under a sequence of broadcasts *)

Inductive feed_by (ring : nat) : list broadcast_op → feed_server → Prop :=
| feed_by_new : feed_by ring [] feed_new
| feed_by_broadcast op ops f f' :
    feed_by ring ops f → feed_step ring (BroadcastBegin op) f = Some f' → feed_by ring (ops ++ [op]) f'
| feed_by_step a ops f f' :
    (∀ op, a ≠ BroadcastBegin op) → feed_by ring ops f → feed_step ring a f = Some f' → feed_by ring ops f'.

Lemma flat_op op : flat (op_message op) = op_msgs op.
Proof. destruct op; [apply flat_some|done]. Qed.

Lemma feed_by_history ring ops f :
  feed_by ring ops f → feed_reachable ring f ∧ history f = mjoin (op_msgs <$> ops).
Proof.
  induction 1 as [|op ops f f' Hf [IHr IHh] Hst|a ops f f' Ha Hf [IHr IHh] Hst].
  - split; [constructor|done].
  - split; [by eapply feed_reachable_step|].
    simpl in Hst. destruct (inflight f) eqn:E; simplify_eq.
    rewrite fmap_app, join_app, <- IHh. unfold history, inflight_msgs. rewrite E. simpl.
    by rewrite flat_op, !app_nil_r.
  - split; [by eapply feed_reachable_step|]. rewrite <- IHh.
    destruct a as [op| | |id s|id w|id w|id]; [by destruct (Ha op)|..].
    1,2: simpl in Hst; destruct (inflight f) as [ [bm []]|] eqn:E; simplify_eq;
       unfold history, inflight_msgs; rewrite E; simpl;
       by rewrite ?channel_msgs_app, ?channel_msgs_one, ?app_nil_r.
    all: apply client_step_same in Hst; [|done]; by apply same_feed_views in Hst as (? & _ & _).
Qed.

Lemma mjoin_prefix {A} (l1 l2 : list (list A)) : l1 `prefix_of` l2 → mjoin l1 `prefix_of` mjoin l2.
Proof. intros [k ->]. rewrite join_app. by apply prefix_app_r. Qed.

(** ** The whole feed *)

Section end_to_end.
Context {A : AlloyRlp} {B : Brotli} {K : Crypto} {J : NitroJson} {JL : NitroJsonLaws J}.
Context (hash : BroadcastFeedMessage → Z → result B256 string).
Context {C : Type} {SD : Sender C BroadcastFeedMessage} {SL : SenderLaws SD}.

(** From the streamer to a subscriber: whatever the streamer, the relay and
    the clients do, if the relay broadcasts what it takes from the streamer's
    channel, every subscriber receives only messages the streamer sent, strictly
    ordered, each at most once; and one that has caught up has received every
    message broadcast from the one it asked for on that has not been confirmed. *)
Theorem subscriber_end_to_end cfg rcfg (c0 : C) (st : loop_state (Nitro hash) C) started evs ring f id c :
  reachable (R:=Nitro hash) cfg rcfg c0 st → delivered c0 = [] →
  mjoin (op_msgs <$> (relay_run started evs).1) `prefix_of` delivered (sender_of st) →
  feed_by ring (relay_run started evs).1 f → clients f !! id = Some c →
  ssorted seq (received c) ∧
  (∀ m, m ∈ received c → m ∈ delivered (sender_of st)) ∧
  (phase c = Live → sink_failed c = false → rx c = length (channel f) → inflight f = None →
   ∀ m, m ∈ mjoin (op_msgs <$> (relay_run started evs).1) → requested c ≤ seq m →
     m ∈ received c ∨ is_confirmed f (seq m)).
Proof.
  intros Hr E0 Hp [Hf Hh]%feed_by_history Hc.
  destruct (reachable_inv _ _ _ _ Hr) as [_ _ _ _ _ _ (hist & Hd & Hs & Hb)].
  assert (Hd' : @delivered C BroadcastFeedMessage SD (sender_of st) = hist).
  { etrans; [exact Hd|]. change (@delivered C BroadcastFeedMessage SD c0 ++ hist = hist). by rewrite E0. }
  rewrite <- Hh in Hp. rewrite Hd' in Hp |- *. clear Hd Hd'.
  assert (Ho : ordered f).
  { split.
    - destruct Hp as [l ->]. by apply ssorted_app in Hs as (? & _).
    - intros m Hm. pose proof (Hb m (prefix_elem _ _ _ Hp Hm)) as H. simpl in H. lia. }
  pose proof (fi_clients _ (feed_inv_reachable _ _ Hf Ho) _ _ Hc) as Hi.
  split_and!.
  - apply Hi.
  - intros m Hm. eapply prefix_elem, prefix_elem; [exact Hp|apply appended_history|]. by apply Hi.
  - intros Hph Hsf Hrx Hin m Hm Hq. rewrite <- Hh in Hm. by eapply caught_up_receives_all.
Qed.
End end_to_end.

(** ** A concrete feed: messages 5 to 7, from the block to a subscriber *)

Definition begun (acts : list feed_action) : list broadcast_op :=
  omap (λ a, match a with BroadcastBegin op => Some op | _ => None end) acts.

Lemma feed_by_exec ring acts ops f f' :
  feed_by ring ops f → feed_exec ring acts f = Some f' → feed_by ring (ops ++ begun acts) f'.
Proof.
  revert ops f. induction acts as [|a acts IH]; intros ops f Hf H; simpl in H.
  { simplify_eq. simpl. by rewrite app_nil_r. }
  destruct (feed_step ring a f) as [f1|] eqn:E; simpl in H; [|done].
  destruct a; simpl; try (eapply IH; [eapply feed_by_step; [|done..]; done|done]).
  change (op :: begun acts) with ([op] ++ begun acts). rewrite (assoc_L (++)).
  eapply IH; [|done]. by eapply feed_by_broadcast.
Qed.

Definition relayed_state : loop_state SmallNitro (bounded_chan BroadcastFeedMessage) :=
  (handle_event (R:=SmallNitro) (SD:=small_sender) failing_reader
     (handle_event (R:=SmallNitro) (SD:=small_sender) failing_reader small_start
        (EvFinalized (R:=SmallNitro) 4)).1
     (EvTransactions (R:=SmallNitro) [[small_tx]] 10)).1.

Lemma relayed_state_reachable :
  reachable (R:=SmallNitro) (SD:=small_sender) small_cfg small_rollup_config small_chan relayed_state.
Proof.
  apply reachable_step; [|done]. apply reachable_step; [|split; by vm_compute].
  apply reachable_init. split; by vm_compute.
Qed.

Definition relay_events : list relay_event :=
  [EspressoRecv (signed_message 5) [signed_message 6]; L1Changed 5; EspressoRecv (signed_message 7) []].

Definition relay_actions : list feed_action := [
  BroadcastBegin (FeedMessages [signed_message 5; signed_message 6]); BroadcastAppend; BroadcastSend;
  BroadcastBegin (Confirm 5); BroadcastAppend; BroadcastSend;
  ClientSubscribe 0 5; BroadcastBegin (FeedMessages [signed_message 7]); ClientSnapshot 0 WriteOk;
  BroadcastAppend; BroadcastSend; ClientRecv 0 WriteOk ].

Definition relayed_feed : feed_server := default feed_new (feed_exec 8 relay_actions feed_new).

Definition relayed_client : ws_client :=
  default {| requested := 0; phase := Closed; rx := 0; last_sent_seq := None; sink_failed := true; out := [] |}
          (clients relayed_feed !! 0%nat).

Lemma subscriber_end_to_end_witness :
  msg_sequence_number <$> received relayed_client = [6; 7] ∧ ssorted seq (received relayed_client).
Proof.
  split; [by vm_compute|].
  refine (proj1 (subscriber_end_to_end (JL:=small_json_laws) feed_hash (SD:=small_sender) (SL:=bounded_sender_laws)
    small_cfg small_rollup_config small_chan relayed_state (Ok tt) relay_events 8 relayed_feed 0 relayed_client _ _ _ _ _)).
  - exact relayed_state_reachable.
  - reflexivity.
  - exists []. by vm_compute.
  - apply (feed_by_exec 8 relay_actions [] feed_new); [constructor|by vm_compute].
  - by vm_compute.
Defined.
