(* ===== verification/FeedWire.v ===== *)
(** * The feed on the wire

    The JSON of [FeedJson] put to use: the encoding of the messages inside the
    transactions, the frames the feed server writes and the feed client reads, and
    one service fed by the feed of another. *)

From S2P Require Import Prelude Bytes Slice Config Json JsonSyntax Rollup MockRollup Streamer StreamerProofs StreamerRun StreamerTheorems.
From S2P Require Import NitroTypes GoBigInt NitroVerify Rlp RlpInstance Batch FeedJson WireText NitroPayload Nitro NitroTheorems.
From S2P Require Import Feed FeedTheorems FeedClient Relay.
From Stdlib Require Import Strings.Byte.

Section wire.
Context {W : WireText} {T : U256Text} {JT : JsonText}.

(** [serde_json::to_vec] and [from_slice] on the header and on feed messages. *)
Definition serde_json_feed (nitro_v3_9_9 : bool) : NitroJson := {|
  header_to_vec h := json_print (ser_nitro_header h);
  header_from_slice b := let? v := json_parse b in de_nitro_header v;
  message_to_vec m := let? v := ser_feed_message nitro_v3_9_9 m in json_print v;
  message_from_slice b := let? v := json_parse b in de_struct (feed_de nitro_v3_9_9) v;
|}.

(** The text of a frame: [serde_json::to_string] in the server, [from_slice] in the
    client. *)
Definition write_frame (nitro_v3_9_9 : bool) (bm : BroadcastMessage) : result bytes string :=
  let? v := ser_broadcast nitro_v3_9_9 bm in json_print v.

Definition read_frame (nitro_v3_9_9 : bool) (b : bytes) : result BroadcastMessage string :=
  let? v := json_parse b in de_struct (broadcast_de nitro_v3_9_9) v.

Context {WL : WireTextLaws W} {TL : U256TextLaws} {JTL : JsonTextLaws JT}.

(** The laws the transaction builder relies on hold of the fields' JSON. *)
Lemma serde_json_feed_laws nitro_v3_9_9 hb :
  json_print (JString "V1") = Ok hb → (length hb ≤ 64)%nat → NitroJsonLaws (serde_json_feed nitro_v3_9_9).
Proof.
  intros Hh Hl. split; simpl.
  - exists hb. by rewrite Hh, (print_parse _ _ Hh).
  - intros m b [Hm Hf]. destruct (feed_message_wire nitro_v3_9_9 nitro_v3_9_9 m Hm Hf) as (v & -> & _ & Hd).
    intros Hb. by rewrite (print_parse _ _ Hb).
  - intros b m. destruct (json_parse b) as [v|]; [|done]. apply feed_de_u64.
Qed.

Lemma frame_roundtrip written read bm b :
  wire_broadcast bm → write_frame written bm = Ok b → read_frame read b = Ok (skip_sizes bm).
Proof.
  intros Hw. unfold write_frame, read_frame. destruct (broadcast_wire written read bm Hw) as (v & -> & Hd).
  intros Hb. by rewrite (print_parse _ _ Hb).
Qed.

(** The base fee that does not fit, if there is one. *)
Lemma fee_cases m :
  fee_fits m ∨ ∃ im h fee, message (feed_msg m) = Some im ∧ header im = Some h ∧ l1_base_fee h = Some fee ∧ ¬ is_u64 fee.
Proof.
  unfold fee_fits. destruct (message (feed_msg m)) as [im|] eqn:Em; [|by left].
  destruct (header im) as [h|] eqn:Eh; [|left; naive_solver]. destruct (l1_base_fee h) as [fee|] eqn:Ef; [|left; naive_solver].
  destruct (decide (is_u64 fee)); [left; naive_solver|right; eauto 10].
Qed.

(** C15. The JSON of a feed message: every message within the ranges of its types is
    written, under the field names of either build of the service, and is read back by
    either build as it was, less its size, exactly when its base fee fits 64 bits; a
    message with a larger base fee is written and then refused. *)
Theorem feed_message_json written read m :
  typed_feed_message m →
  ∃ v, ser_feed_message written m = Ok v ∧
    (fee_fits m → de_struct (feed_de read) v = Ok (skip_size m)) ∧
    (¬ fee_fits m → is_ok (de_struct (feed_de read) v) = false).
Proof.
  intros Hm. destruct (fee_cases m) as [Hf|(im & h & fee & H1 & H2 & H3 & H4)].
  - destruct (feed_message_wire written read m Hm Hf) as (v & Es & _ & Hd). by exists v.
  - destruct (feed_message_refused written read m im h fee Hm H1 H2 H3 H4) as (v & Es & Hd). exists v.
    split_and!; try done. intros Hf. by destruct H4, (Hf im h fee H1 H2 H3).
Qed.

(** A message whose base fee does not fit 64 bits sinks its transaction: the
    builder puts it into a payload with other messages, and the reader refuses the
    payload, so that none of them comes back. *)
Theorem big_fee_sinks_transaction nitro_v3_9_9 hb verify msgs p rest pre m post b :
  json_print (JString "V1") = Ok hb → (length hb ≤ 64)%nat →
  let J := serde_json_feed nitro_v3_9_9 in
  build_espresso_tx_payload (J:=J) msgs = (p, rest) → msgs = pre ++ m :: post ++ rest →
  Forall wire_message pre → typed_feed_message m → ¬ fee_fits m → message_to_vec (NitroJson:=J) m = Ok b →
  is_ok (parse_nitro_hotshot_payload (J:=J) p verify) = false.
Proof.
  intros Hh Hl J Hb Em Hw Hm Hf Hv. pose proof (serde_json_feed_laws nitro_v3_9_9 hb Hh Hl) as JL.
  apply (parse_built_refused (JL:=JL) verify msgs p rest pre m post b); try done.
  destruct (fee_cases m) as [?|(im & h & fee & H1 & H2 & H3 & H4)]; [done|].
  destruct (feed_message_refused nitro_v3_9_9 nitro_v3_9_9 m im h fee Hm H1 H2 H3 H4) as (v & Es & Hd).
  unfold J in Hv |- *. simpl in Hv |- *. rewrite Es in Hv. by rewrite (print_parse _ _ Hv).
Qed.

(** ** The frames of a subscriber *)

Definition wire_op (op : broadcast_op) : Prop :=
  match op with FeedMessages msgs => Forall wire_message msgs | Confirm k => is_u64 k end.

Definition wire_frame (bm : BroadcastMessage) : Prop := version bm = 1 ∧ wire_broadcast bm.

Lemma wire_op_message op : wire_op op → wire_frame (op_message op).
Proof.
  intros H. split; [by destruct op|]. destruct op as [msgs|k]; split; simpl; try lia; try done.
  - intros m (m' & [= <-] & Hm)%list_elem_of_fmap. by apply (proj1 (Forall_forall _ _) H).
  - intros m Hm. by apply elem_of_nil in Hm.
  - by intros c [= <-].
Qed.

Lemma wire_messages_frame msgs :
  (∀ m, m ∈ msgs → wire_message m) →
  wire_frame {| version := 1; messages := Some <$> msgs; confirmed_sequence_number_message := None |}.
Proof. intros H. apply (wire_op_message (FeedMessages msgs)). by apply Forall_forall. Qed.

(** Everything the server holds and has sent is of the wire. *)
Record wire_feed (f : feed_server) : Prop := {
  wf_backlog m : m ∈ backlog f → wire_message m;
  wf_channel bm : bm ∈ channel f → wire_frame bm;
  wf_inflight bm b : inflight f = Some (bm, b) → wire_frame bm;
  wf_out id c bm : clients f !! id = Some c → bm ∈ out c → wire_frame bm;
}.

Lemma wire_feed_client f id c d :
  wire_feed f → (∀ bm, bm ∈ out c → wire_frame bm) → wire_feed (set_client f id c d).
Proof.
  intros [H1 H2 H3 H4] Hc. split; simpl; try done. intros id' c' bm Hl.
  apply lookup_insert_Some in Hl as [ [_ <-]|[_ Hl] ]; [apply Hc|by eapply H4].
Qed.

Lemma wire_feed_step ring a f f' :
  wire_feed f → (∀ op, a = BroadcastBegin op → wire_op op) → feed_step ring a f = Some f' → wire_feed f'.
Proof.
  intros Hw Ha. pose proof Hw as [H1 H2 H3 H4]. destruct a as [op| | |id r|id w|id w|id]; simpl.
  - destruct (inflight f) eqn:E; [done|]. intros [= <-]. specialize (Ha op eq_refl). split; simpl; try done.
    + intros m. destruct op as [msgs|k]; simpl; [apply H1|]. intros [_ Hm]%list_elem_of_filter. by apply H1.
    + intros bm b [= <- _]. by apply wire_op_message.
  - destruct (inflight f) as [ [bm []]|] eqn:E; [done| |done]. intros [= <-].
    destruct (H3 bm false eq_refl) as [_ Hbm]. split; simpl; try done.
    + intros m [Hm|Hm]%elem_of_append; [by apply H1|]. apply (wb_messages _ Hbm). by apply elem_of_flat.
    + intros bm' b [= <- _]. by apply (H3 bm false).
  - destruct (inflight f) as [ [bm []]|] eqn:E; [|done|done]. intros [= <-]. split; simpl; try done.
    intros bm' [Hb| ->%list_elem_of_singleton]%elem_of_app; [by apply H2|by apply (H3 bm true)].
  - destruct (clients f !! id); [done|]. intros [= <-]. apply wire_feed_client; [done|]. intros bm Hb. by apply elem_of_nil in Hb.
  - destruct (clients f !! id) as [c|] eqn:Ec; simpl; [|done]. case_decide; [|done]. intros [= <-].
    unfold client_snapshot. destruct (last _) as [t|]; [destruct w|]; apply wire_feed_client; try done; simpl;
      intros bm; rewrite ?app_nil_r; try (by apply (H4 id c bm)).
    intros [Hb| ->%list_elem_of_singleton]%elem_of_app; [by eapply H4|]. apply wire_messages_frame.
    intros m [_ Hm]%list_elem_of_filter. by apply H1.
  - destruct (clients f !! id) as [c|] eqn:Ec; simpl; [|done]. case_decide; [|done]. unfold client_recv.
    destruct (_ <? _)%nat; [intros [= <-]; apply wire_feed_client; [done|]; intros bm; by apply (H4 id c bm)|].
    destruct (channel f !! rx c) as [bm|] eqn:Er; [|done].
    destruct (should_send bm (last_sent_seq c)); [destruct w|]; intros [= <-]; apply wire_feed_client; try done; simpl;
      intros bm'; rewrite ?app_nil_r; try (by apply (H4 id c bm')).
    intros [Hb| ->%list_elem_of_singleton]%elem_of_app; [by eapply H4|]. apply H2. by eapply list_elem_of_lookup_2.
  - destruct (clients f !! id) as [c|] eqn:Ec; simpl; [|done]. case_decide; [|done]. intros [= <-].
    apply wire_feed_client; [done|]. intros bm. by apply (H4 id c bm).
Qed.

Lemma feed_by_wire ring ops f : feed_by ring ops f → Forall wire_op ops → wire_feed f.
Proof.
  induction 1 as [|op ops f f' Hf IH Hst|a ops f f' Ha Hf IH Hst]; intros Hops.
  - split; simpl; try (intros x Hx; by apply elem_of_nil in Hx); done.
  - apply Forall_app in Hops as [Hops Hop]. apply Forall_cons in Hop as [Hop _]. eapply wire_feed_step; [by apply IH| |exact Hst].
    intros op' Eop. injection Eop as <-. exact Hop.
  - eapply wire_feed_step; [by apply IH| |exact Hst]. intros op ->. by destruct (Ha op).
Qed.

(** ** One service behind another *)

Context (verify_signature : Z → list Address → BroadcastFeedMessage → result unit string).

(** The client of the other service keeps a message. *)
Definition client_keeps (c : BroadcasterClient) (m : BroadcastFeedMessage) : Prop :=
  is_ok (verify_signature (bc_chain_id c) (trusted_sequencer_addresses (bc_config c)) m) = true.

#[export] Instance client_keeps_dec c m : Decision (client_keeps c m).
Proof. unfold client_keeps. apply _. Defined.

(** A frame that arrives as it was written. *)
Definition arrives (written : bool) (bm : BroadcastMessage) (ev : read_event) : Prop :=
  ∃ b, write_frame written bm = Ok b ∧ ev = FrameReceived OpText b None.

Lemma omap_skip_sizes (l : list (option BroadcastFeedMessage)) :
  omap id (fmap (M:=option) skip_size <$> l) = skip_size <$> omap id l.
Proof. induction l as [|[m|] l IH]; csimpl; [done| |done]. by rewrite IH. Qed.

Lemma arrived_messages written read c bm ev :
  wire_frame bm → arrives written bm ev →
  frame_messages verify_signature (read_frame read) c ev = filter (client_keeps c) (skip_size <$> flat bm).
Proof.
  intros [Hv Hw] (b & Hb & ->). simpl. unfold payload_messages.
  rewrite (frame_roundtrip written read bm b Hw Hb). unfold MESSAGE_VERSION. simpl. rewrite Hv. simpl.
  unfold verified_messages. simpl. by rewrite omap_skip_sizes.
Qed.

(** C14. From one feed server to the feed client of the next service: whatever the
    server's clients and broadcasts do, if the messages broadcast are within their
    types and their base fees fit 64 bits, a feed client that reads the frames of a
    subscriber, of this build or the other, forwards exactly the messages that
    subscriber was sent whose signatures verify, in order. *)
Theorem feed_hop ring ops f id sub written read c attempts evs s :
  feed_by ring ops f → Forall wire_op ops → clients f !! id = Some sub →
  Forall2 (arrives written) (out sub) evs →
  run_feed_client verify_signature (read_frame read) c attempts evs = Some (Ok s) →
  rs_sent s = filter (client_keeps c) (skip_size <$> received sub).
Proof.
  intros Hf Hops Hc Hev Hrun. pose proof (wf_out _ (feed_by_wire _ _ _ Hf Hops) id sub) as Hout.
  apply run_feed_client_spec in Hrun as [-> _].
  - unfold received, channel_msgs.
    assert (Hall : ∀ bm, bm ∈ out sub → wire_frame bm) by (intros bm; by apply Hout). clear Hout Hc.
    induction Hev as [|bm ev bms evs Ha Hev IH]; [done|]. csimpl.
    rewrite (arrived_messages written read c bm ev (Hall bm ltac:(by left)) Ha), IH by (intros bm' Hb; apply Hall; by right).
    by rewrite fmap_app, filter_app.
  - clear Hout Hrun. induction Hev as [|bm ev bms evs (b & _ & ->) Hev IH]; [by apply Forall_nil|].
    by apply Forall_cons.
Qed.
End wire.

(** ** A concrete hop *)

(** The frames of the subscriber of [Relay], as JSON text of the other build. *)
Definition hop_events : list read_event :=
  (λ bm, FrameReceived OpText (default [] (ok (write_frame (W:=base64_text) (T:=decimal_u256) (JT:=json_text) false bm))) None)
    <$> out relayed_client.

Lemma hop_arrives bms :
  forallb (λ bm, is_ok (write_frame (W:=base64_text) (T:=decimal_u256) (JT:=json_text) false bm)) bms = true →
  Forall2 (arrives (W:=base64_text) (T:=decimal_u256) (JT:=json_text) false) bms
    ((λ bm, FrameReceived OpText (default [] (ok (write_frame (W:=base64_text) (T:=decimal_u256) (JT:=json_text) false bm))) None) <$> bms).
Proof.
  induction bms as [|bm bms IH]; [by constructor|]. cbn [forallb]. intros [Hb H]%andb_true_iff.
  apply Forall2_cons. split; [|by apply IH]. unfold arrives.
  destruct (write_frame false bm) as [b|]; [by exists b|done].
Qed.

Definition hop_verify (_ : Z) (_ : list Address) (m : BroadcastFeedMessage) : result unit string :=
  if decide (msg_sequence_number m = 7) then Ok tt else Err "signature"%string.

Definition hop_run : option (result read_state BroadcasterClientError) :=
  run_feed_client hop_verify (read_frame (W:=base64_text) (T:=decimal_u256) (JT:=json_text) true)
    toy_broadcaster_client [toy_attempt 42161] hop_events.

Lemma feed_hop_witness :
  ∃ s, hop_run = Some (Ok s) ∧ msg_sequence_number <$> rs_sent s = [7] ∧
    rs_sent s = filter (client_keeps hop_verify toy_broadcaster_client) (skip_size <$> received relayed_client).
Proof.
  destruct hop_run as [ [s|]|] eqn:E; [|exfalso; revert E; by vm_compute..].
  exists s. split; [done|].
  assert (Hs : rs_sent s = filter (client_keeps hop_verify toy_broadcaster_client) (skip_size <$> received relayed_client)).
  { apply (feed_hop (WL:=base64_text_laws) (TL:=decimal_u256_laws) (JTL:=json_text_laws)
             hop_verify 8 (begun relay_actions) relayed_feed 0 relayed_client false true
             toy_broadcaster_client [toy_attempt 42161] hop_events s).
    - apply (feed_by_exec 8 relay_actions [] feed_new); [constructor|by vm_compute].
    - apply Forall_cons. split; [|apply Forall_cons; split; [|apply Forall_cons; split; [|by apply Forall_nil] ] ].
      + repeat (apply Forall_cons; split; [apply signed_message_wire; split; by vm_compute|]). by apply Forall_nil.
      + split; by vm_compute.
      + repeat (apply Forall_cons; split; [apply signed_message_wire; split; by vm_compute|]). by apply Forall_nil.
    - by vm_compute.
    - apply (hop_arrives (out relayed_client)). by vm_compute.
    - exact E. }
  split; [|exact Hs]. rewrite Hs. by vm_compute.
Defined.

(** ** A message with everything, and one with a base fee of [2^64] *)

Definition full_message (fee : Z) : BroadcastFeedMessage := {|
  msg_sequence_number := 8;
  feed_msg := {| message := Some {|
      header := Some {| kind := 3; poster := replicate 20 x0a; block_number := 1000; timestamp := 1700000000;
                        request_id := Some (replicate 32 x01); l1_base_fee := Some fee |};
      l2msg := [x01; x02]; legacy_batch_gas_cost := Some 7;
      batch_data_stats := Some {| stats_length := 100; non_zeros := 60 |} |};
    delayed_messages_read := 2 |};
  signature := replicate 65 x01; block_metadata := [x05]; cumulative_sum_msg_size := 99;
  block_hash := Some (replicate 32 x02);
|}.

Lemma full_message_typed fee : is_U256 fee → typed_feed_message (full_message fee).
Proof.
  intros Hf. split; simpl; [split; by vm_compute..| |by intros h [= <-] ].
  intros im [= <-]. split; simpl; [|by vm_compute|intros c [= <-]; split; by vm_compute|].
  - intros h Eh. apply (inj Some) in Eh as <-. split.
    + split; by vm_compute.
    + done.
    + split; by vm_compute.
    + split; by vm_compute.
    + intros id Ei. apply (inj Some) in Ei as <-. done.
    + intros fee' Ei. apply (inj Some) in Ei as <-. exact Hf.
  - intros st [= <-]. split; split; by vm_compute.
Qed.

Lemma big_fee_U256 : is_U256 (2 ^ 64).
Proof. split; by vm_compute. Qed.

Lemma big_fee_unfit : ¬ fee_fits (full_message (2 ^ 64)).
Proof. intros H. destruct (H _ _ _ eq_refl eq_refl eq_refl) as [_ Hlt]. by vm_compute in Hlt. Qed.

Lemma feed_message_json_witness :
  typed_feed_message (full_message 1000) ∧
  ∃ v, ser_feed_message (W:=base64_text) (T:=decimal_u256) true (full_message 1000) = Ok v ∧
    de_struct (feed_de (W:=base64_text) (T:=decimal_u256) false) v = Ok (skip_size (full_message 1000)).
Proof.
  split; [apply full_message_typed; split; by vm_compute|].
  destruct (feed_message_json (WL:=base64_text_laws) (TL:=decimal_u256_laws) true false (full_message 1000)) as (v & Es & Hd & _).
  - apply full_message_typed. split; by vm_compute.
  - exists v. split; [exact Es|]. apply Hd. intros im h fee [= <-] [= <-] [= <-]. split; by vm_compute.
Defined.

Definition sink_json : NitroJson := serde_json_feed (W:=base64_text) (T:=decimal_u256) (JT:=json_text) true.

Definition sink_header : bytes := default [] (ok (header_to_vec (NitroJson:=sink_json) V1)).

Definition sink_message : bytes := default [] (ok (message_to_vec (NitroJson:=sink_json) (full_message (2 ^ 64)))).

Lemma big_fee_sinks_transaction_witness :
  is_ok (parse_nitro_hotshot_payload (J:=sink_json)
    (build_espresso_tx_payload (J:=sink_json) [signed_message 5; full_message (2 ^ 64)]).1 (λ _, Ok tt)) = false.
Proof.
  apply (big_fee_sinks_transaction (WL:=base64_text_laws) (TL:=decimal_u256_laws)
           (JTL:=json_text_laws) true sink_header (λ _, Ok tt)
           [signed_message 5; full_message (2 ^ 64)] _ [] [signed_message 5] (full_message (2 ^ 64)) [] sink_message).
  - by vm_compute.
  - simpl. lia.
  - by vm_compute.
  - done.
  - apply Forall_cons. split; [apply signed_message_wire; split; by vm_compute|by apply Forall_nil].
  - apply full_message_typed, big_fee_U256.
  - exact big_fee_unfit.
  - by vm_compute.
Defined.
