(* ===== verification/L1Monitor.v ===== *)
(** * The L1 monitor

    [src/src/rollups/nitro/l1_monitor.rs]: the startup scan for the latest
    [EspressoCertificateVerified] event, the batch cursor, and the loop that
    publishes the L1-finalized message index. *)

From S2P Require Import Prelude Bytes Slice Config Rollup NitroTypes.

(** ** The events *)

Record EspressoCertificateVerified := {
  hotshotBlock : Z;
  delayedMessageRead : Z;
  messageCount : Z;
}.

(** [MonitorPanic] is the panic of [U256::to::<u64>] on a value that does not
    fit. *)
Inductive L1MonitorError :=
| Contract (s : string)
| Transport (s : string)
| BlockNotFound
| CheckpointNotFound (max : Z)
| MonitorPanic.

Definition U256_to_u64 (z : Z) : result Z L1MonitorError :=
  if (0 <=? z) && (z <? u64_modulus) then Ok z else Err MonitorPanic.

Section monitor.
Context {Log : Type} (decode_log : Log → result EspressoCertificateVerified string).
Open Scope cas_scope.

(** The trait [LogScanner]: the logs of the inbox's event from one block to
    another, both included. *)
Record LogScanner := {
  get_block_number : result Z L1MonitorError;
  get_logs : Z → Z → result (list Log) L1MonitorError;
}.

Definition checkpoint_of (log : Log) : result (CasCheckpoint BatchCursor) L1MonitorError :=
  let? event := map_err Contract (decode_log log) in
  let? hotshot_height := U256_to_u64 (hotshotBlock event) in
  let? delayed_message_read := U256_to_u64 (delayedMessageRead event) in
  let? message_count := U256_to_u64 (messageCount event) in
  Ok {| batch_cursor := {| last_batch_delayed_messages_read := delayed_message_read;
                           next_batch_start_pos := message_count |};
        checkpoint_hotshot_height := hotshot_height |}.

(** The loop; [None] when the fuel runs out.  The second component is the list
    of the ranges asked for. *)
Fixpoint scan_loop (fuel : nat) (scanner : LogScanner) (log_scan_step max_blocks earliest_allowed to_block : Z)
    : option (result (CasCheckpoint BatchCursor) L1MonitorError) * list (Z * Z) :=
  match fuel with
  | O => (None, [])
  | S fuel' =>
      let from_block := Z.max (saturating_sub to_block log_scan_step) earliest_allowed in
      match get_logs scanner from_block to_block with
      | Err e => (Some (Err e), [(from_block, to_block)])
      | Ok logs =>
          match last logs with
          | Some log => (Some (checkpoint_of log), [(from_block, to_block)])
          | None =>
              if from_block =? earliest_allowed then
                (Some (if 0 <? max_blocks then Err (CheckpointNotFound max_blocks)
                       else Ok {| batch_cursor := default_BatchCursor; checkpoint_hotshot_height := 0 |}),
                 [(from_block, to_block)])
              else
                let '(r, ranges) := scan_loop fuel' scanner log_scan_step max_blocks earliest_allowed
                                      (saturating_sub from_block 1) in
                (r, (from_block, to_block) :: ranges)
          end
      end
  end.

Definition earliest_allowed_block (latest_block max_blocks : Z) : Z :=
  if 0 <? max_blocks then saturating_sub latest_block (max_blocks - 1) else 0.

(** One turn per block of the scanned range is enough. *)
Definition scan_for_latest_checkpoint (scanner : LogScanner) (log_scan_step max_blocks : Z)
    : option (result (CasCheckpoint BatchCursor) L1MonitorError) * list (Z * Z) :=
  match get_block_number scanner with
  | Err e => (Some (Err e), [])
  | Ok latest_block =>
      scan_loop (S (Z.to_nat latest_block)) scanner log_scan_step max_blocks
        (earliest_allowed_block latest_block max_blocks) latest_block
  end.

(** ** The batch cursor

    [NitroBatchCursorFetcher::fetch_batch_cursor], and the same two calls of
    [fetch_latest_batch_cursor_on_fresh_deployment]: [try_join!] returns the
    error of the call that fails. *)
Definition fetch_message_count (call : result Z string) : result Z L1MonitorError :=
  let? r := map_err Contract call in U256_to_u64 r.

Definition fetch_delayed_messages_read (call : result Z string) : result Z L1MonitorError :=
  let? r := map_err Contract call in U256_to_u64 r.

Definition fetch_batch_cursor (reported_count delayed_read : result Z string)
    : result BatchCursor L1MonitorError :=
  let? msg_count := fetch_message_count reported_count in
  let? delayed := fetch_delayed_messages_read delayed_read in
  Ok {| next_batch_start_pos := msg_count; last_batch_delayed_messages_read := delayed |}.

(** ** Finality *)

Record monitor_state := {
  last_finalized_block : Z;
  last_logged_msg_count : option Z;
}.

Definition monitor_init : monitor_state := {| last_finalized_block := 0; last_logged_msg_count := None |}.

(** A tick: what the node answers for the finalized block, and for the message
    count at a block.  The result is the index sent to the watch channel. *)
Record monitor_input := {
  finalized_answer : result (option Z) string;
  count_at : Z → result Z L1MonitorError;
}.

(** [None]: the task panicked. *)
Definition monitor_step (s : monitor_state) (i : monitor_input) : option (monitor_state * option Z) :=
  match finalized_answer i with
  | Err _ | Ok None => Some (s, None)
  | Ok (Some finalized_block) =>
      if finalized_block <=? last_finalized_block s then Some (s, None)
      else
        match count_at i finalized_block with
        | Err MonitorPanic => None
        | Err _ => Some (s, None)
        | Ok count =>
            Some ({| last_finalized_block := finalized_block; last_logged_msg_count := Some count |},
                  Some (saturating_sub count 1))
        end
  end.

(** The indices published over a list of ticks. *)
Fixpoint monitor_run (s : monitor_state) (inputs : list monitor_input) : list Z :=
  match inputs with
  | [] => []
  | i :: inputs' =>
      match monitor_step s i with
      | None => []
      | Some (s', None) => monitor_run s' inputs'
      | Some (s', Some idx) => idx :: monitor_run s' inputs'
      end
  end.
End monitor.

Arguments LogScanner : clear implicits.

(** ** The scan *)

Section scan.
Context {Log : Type} (decode_log : Log → result EspressoCertificateVerified string).
Context (chain : Z → list Log).

(** The logs of the blocks from [a] to [b], in chain order. *)
Definition logs_between (a b : Z) : list Log := mjoin (chain <$> seqZ a (b - a + 1)).

(** A node that answers every range with the logs of its blocks, in order. *)
Definition serves_logs (scanner : LogScanner Log) : Prop :=
  ∀ a b, 0 ≤ a ≤ b → get_logs scanner a b = Ok (logs_between a b).

Lemma logs_between_split a b c :
  a ≤ b → b ≤ c + 1 → logs_between a c = logs_between a (b - 1) ++ logs_between b c.
Proof.
  intros H1 H2. unfold logs_between.
  replace (c - a + 1) with ((b - 1 - a + 1) + (c - b + 1)) by lia.
  rewrite seqZ_app, fmap_app, join_app by lia. by replace (a + (b - 1 - a + 1)) with b by lia.
Qed.

Lemma logs_between_empty a b : b < a → logs_between a b = [].
Proof. intros H. unfold logs_between. by rewrite seqZ_nil by lia. Qed.

(** The answer for the blocks from [earliest] to [latest]. *)
Definition latest_checkpoint (max_blocks earliest latest : Z)
    : result (CasCheckpoint BatchCursor) L1MonitorError :=
  match last (logs_between earliest latest) with
  | Some log => checkpoint_of decode_log log
  | None => if 0 <? max_blocks then Err (CheckpointNotFound max_blocks)
            else Ok {| batch_cursor := default_BatchCursor; checkpoint_hotshot_height := 0 |}
  end.

(** Windows that go back from [to] without a gap, none past [earliest] and none
    longer than a step. *)
Fixpoint windows (step earliest to : Z) (ranges : list (Z * Z)) : Prop :=
  match ranges with
  | [] => True
  | (a, b) :: ranges' =>
      b = to ∧ earliest ≤ a ≤ b ∧ b - a ≤ step ∧ (ranges' ≠ [] → b - a = step) ∧
      windows step earliest (a - 1) ranges'
  end.

Lemma scan_loop_spec fuel scanner step max_blocks earliest to :
  serves_logs scanner → 0 ≤ step → 0 ≤ earliest ≤ to → to - earliest < Z.of_nat fuel →
  (scan_loop decode_log fuel scanner step max_blocks earliest to).1 =
    Some (latest_checkpoint max_blocks earliest to) ∧
  windows step earliest to (scan_loop decode_log fuel scanner step max_blocks earliest to).2.
Proof.
  intros Hsv Hstep. revert to. induction fuel as [|fuel IH]; intros to He Hfuel; [lia|].
  cbn [scan_loop]. set (from := Z.max _ _).
  assert (Hfrom : earliest ≤ from ≤ to ∧ to - from ≤ step ∧ (from ≠ earliest → to - from = step))
    by (unfold from, saturating_sub; lia).
  rewrite Hsv by lia. unfold latest_checkpoint.
  rewrite (logs_between_split earliest from to), last_app by lia.
  destruct (last (logs_between from to)) as [log|]; [split; [done|]; simpl; split_and!; try done; lia|].
  destruct (from =? earliest) eqn:E.
  - apply Z.eqb_eq in E. rewrite logs_between_empty by lia. simpl. split; [done|]. split_and!; try done; lia.
  - apply Z.eqb_neq in E. replace (saturating_sub from 1) with (from - 1) by (unfold saturating_sub; lia).
    destruct (IH (from - 1) ltac:(lia) ltac:(lia)) as [IH1 IH2].
    destruct (scan_loop _ _ _ _ _ _ _) as [r ranges]. simpl in *. split; [done|].
    split_and!; try done; lia.
Qed.

(** C27. The startup scan finishes and finds the latest certificate: on a node
    that serves its logs it returns the checkpoint of the last event within the
    allowed range of blocks, the default checkpoint when the whole chain holds
    none, and [CheckpointNotFound] when a bounded range holds none.  The windows
    it asks for tile the range downwards without gap or overlap; one that is not
    the last spans [log_scan_step + 1] blocks. *)
Theorem scan_finds_latest scanner step max_blocks latest :
  serves_logs scanner → get_block_number scanner = Ok latest → is_u64 latest → 0 ≤ step → 0 ≤ max_blocks →
  let scan := scan_for_latest_checkpoint decode_log scanner step max_blocks in
  scan.1 = Some (latest_checkpoint max_blocks (earliest_allowed_block latest max_blocks) latest) ∧
  windows step (earliest_allowed_block latest max_blocks) latest scan.2.
Proof.
  intros Hsv Hn Hl Hstep Hm. simpl. unfold scan_for_latest_checkpoint. rewrite Hn.
  assert (0 ≤ earliest_allowed_block latest max_blocks ≤ latest).
  { unfold earliest_allowed_block, saturating_sub, is_u64 in *. case_bool; lia. }
  apply scan_loop_spec; try done. unfold is_u64 in *. lia.
Qed.
End scan.

Definition toy_l1_chain (b : Z) : list Z := if b =? 37 then [1; 2] else if b =? 12 then [3] else [].

Definition toy_l1_scanner : LogScanner Z := {|
  get_block_number := Ok 100;
  get_logs a b := Ok (logs_between toy_l1_chain a b);
|}.

Definition toy_decode (l : Z) : result EspressoCertificateVerified string :=
  Ok {| hotshotBlock := 1000 + l; delayedMessageRead := l; messageCount := 10 * l |}.

Lemma scan_finds_latest_witness :
  scan_for_latest_checkpoint toy_decode toy_l1_scanner 20 0 =
    (Some (Ok {| batch_cursor := {| last_batch_delayed_messages_read := 2; next_batch_start_pos := 20 |};
                 checkpoint_hotshot_height := 1002 |}), [(80, 100); (59, 79); (38, 58); (17, 37)]) ∧
  windows 20 0 100 (scan_for_latest_checkpoint toy_decode toy_l1_scanner 20 0).2.
Proof.
  split; [vm_compute; reflexivity|].
  refine (proj2 (scan_finds_latest toy_decode toy_l1_chain toy_l1_scanner 20 0 100 _ _ _ _ _)).
  - intros a b _. reflexivity.
  - reflexivity.
  - split; [discriminate|reflexivity].
  - discriminate.
  - discriminate.
Defined.

(** ** Finality *)

(** Every count answered is the chain's at that block. *)
Definition counts_from (count : Z → Z) (i : monitor_input) : Prop :=
  ∀ b n, count_at i b = Ok n → n = count b.

Lemma monitor_step_spec s i s' sent :
  monitor_step s i = Some (s', sent) →
  match sent with
  | None => s' = s
  | Some idx => last_finalized_block s < last_finalized_block s' ∧
      finalized_answer i = Ok (Some (last_finalized_block s')) ∧
      ∃ n, count_at i (last_finalized_block s') = Ok n ∧ idx = saturating_sub n 1
  end.
Proof.
  unfold monitor_step. intros H. destruct (finalized_answer i) as [ [b|]|e] eqn:E; [|by simplify_eq..].
  case_bool; [by simplify_eq|]. destruct (count_at i b) as [n|[] ] eqn:En; simplify_eq; try done.
  simpl. split; [done|]. eauto.
Qed.

(** What a run publishes. *)
Lemma finalized_run count s inputs :
  (∀ a b, a ≤ b → count a ≤ count b) → Forall (counts_from count) inputs →
  StronglySorted Z.le (monitor_run s inputs) ∧
  ∀ idx, idx ∈ monitor_run s inputs →
    ∃ i b, i ∈ inputs ∧ finalized_answer i = Ok (Some b) ∧ last_finalized_block s < b ∧
           idx = saturating_sub (count b) 1.
Proof.
  intros Hmono Hin. revert s. induction Hin as [|i inputs Hi Hin IH]; intros s; simpl.
  { split; [constructor|]. intros idx H. by apply elem_of_nil in H. }
  destruct (monitor_step s i) as [ [s' sent]|] eqn:E; [|split; [constructor|]; intros idx H; by apply elem_of_nil in H].
  apply monitor_step_spec in E. destruct (IH s') as [IH1 IH2]. destruct sent as [idx|].
  - destruct E as (Hlt & Hf & n & Hn & ->). apply Hi in Hn as ->. split.
    + constructor; [done|]. apply Forall_forall. intros y Hy.
      destruct (IH2 y Hy) as (j & b & _ & _ & Hb & ->). specialize (Hmono (last_finalized_block s') b ltac:(lia)).
      unfold saturating_sub. lia.
    + intros y [-> |Hy]%elem_of_cons.
      * exists i, (last_finalized_block s'). split_and!; try done. by left.
      * destruct (IH2 y Hy) as (j & b & ? & ? & ? & ->). exists j, b. split_and!; try done; [by right|lia].
  - subst s'. split; [done|]. intros y Hy. destruct (IH2 y Hy) as (j & b & ? & ? & ? & ->).
    exists j, b. split_and!; try done. by right.
Qed.

(** The index published to the streamer and the feed only moves forward and
    never runs ahead of finality: each value is one less than the number of
    messages the chain had at a block the node reported as finalized, and on a
    chain whose count never decreases the values never decrease. *)
Theorem finalized_index_monotone count s inputs :
  (∀ a b, a ≤ b → count a ≤ count b) → Forall (counts_from count) inputs →
  StronglySorted Z.le (monitor_run s inputs) ∧
  ∀ idx, idx ∈ monitor_run s inputs →
    ∃ i b, i ∈ inputs ∧ finalized_answer i = Ok (Some b) ∧ last_finalized_block s < b ∧
           idx = saturating_sub (count b) 1.
Proof. apply finalized_run. Qed.

Definition toy_count (b : Z) : Z := b / 10.

Definition toy_monitor_inputs : list monitor_input :=
  (λ a, {| finalized_answer := a; count_at b := Ok (toy_count b) |}) <$>
    [Ok (Some 100); Err "rpc"%string; Ok (Some 90); Ok None; Ok (Some 150)].

Lemma finalized_index_monotone_witness :
  monitor_run monitor_init toy_monitor_inputs = [9; 14] ∧
  StronglySorted Z.le (monitor_run monitor_init toy_monitor_inputs).
Proof.
  split; [vm_compute; reflexivity|].
  refine (proj1 (finalized_index_monotone toy_count monitor_init toy_monitor_inputs _ _)).
  - intros a b H. unfold toy_count. apply Z.div_le_mono; lia.
  - unfold toy_monitor_inputs. repeat (constructor; [intros b n [= <-]; reflexivity|]). constructor.
Defined.
