(* ===== verification/System.v ===== *)
(** * The running service

    The tasks of [run] ([src/src/main.rs]) with the channels between them, as one
    transition system: the poller, the bounded channel of ranges, the streamer, the
    bounded channel to the relay, the relay and the feed server with its clients,
    the L1 monitor and its watch channel, and the requests of the DA server.  A step
    is one turn of one task; reachability takes every interleaving. *)

From S2P Require Import Prelude Bytes Slice Config Rollup MockRollup Streamer StreamerProofs StreamerRun StreamerTheorems Poller StreamerChain.
From S2P Require Import NitroTypes NitroVerify Rlp RlpInstance Batch NitroPayload Nitro NitroTheorems.
From S2P Require Import Feed FeedTheorems FeedClient Relay L1Monitor.
From Stdlib Require Import Strings.Byte.

(** ** Channels *)

(** The receiving end of a bounded channel. *)
Definition chan_recv {M} (n : nat) (c : bounded_chan M) : bounded_chan M :=
  {| chan_capacity := chan_capacity c; chan_pending := drop n (chan_pending c);
     chan_history := chan_history c; chan_closed := chan_closed c |}.

(** [watch::channel]: the value, and whether each receiver has yet to see it.
    [sent] is the history of the values. *)
Record watch_chan := {
  watch_value : Z;
  streamer_unseen : bool;
  relay_unseen : bool;
  watch_sent : list Z;
}.

Definition watch_new : watch_chan :=
  {| watch_value := 0; streamer_unseen := false; relay_unseen := false; watch_sent := [] |}.

Definition watch_send (v : Z) (w : watch_chan) : watch_chan :=
  {| watch_value := v; streamer_unseen := true; relay_unseen := true; watch_sent := watch_sent w ++ [v] |}.

Definition watch_streamer_sees (w : watch_chan) : watch_chan :=
  {| watch_value := watch_value w; streamer_unseen := false; relay_unseen := relay_unseen w; watch_sent := watch_sent w |}.

Definition watch_relay_sees (w : watch_chan) : watch_chan :=
  {| watch_value := watch_value w; streamer_unseen := streamer_unseen w; relay_unseen := false; watch_sent := watch_sent w |}.

(** A range on its way from the poller to the streamer: its blocks and height. *)
Definition range : Type := list (list Transaction) * Z.

Section system.
Context {A : AlloyRlp} {B : Brotli} {J : NitroJson} {K : Crypto}.
Context (hash : BroadcastFeedMessage → Z → result B256 string).
Context (cfg : StreamerConfig) (rcfg : RollupConfig (NitroConfig Address)) (adv : AdvancedConfig) (ring : nat).

#[local] Abbreviation N := (Nitro hash).
#[local] Abbreviation chan := (bounded_chan BroadcastFeedMessage).

#[local] Instance feed_sender : Sender chan (@FeedMessage N) := bounded_sender.

(** [sys_holding] is the range whose [send] waits for room; [sys_taken] is the
    height up to which the streamer has taken blocks and [sys_ops] the broadcasts
    begun, both for the statements only. *)
Record system := {
  sys_started : bool;
  sys_poller : poller;
  sys_holding : option range;
  sys_ranges : list range;
  sys_loop : loop_state N chan;
  sys_monitor : monitor_state;
  sys_watch : watch_chan;
  sys_requests : list bytes;
  sys_replies : list (bytes * VerificationResult);
  sys_feed : feed_server;
  sys_taken : Z;
  sys_ops : list broadcast_op;
}.

(** [mpsc::channel] of the streamer to the relay. *)
Definition finalization_chan : chan :=
  {| chan_capacity := espresso_finalized_message_channel_capacity adv; chan_pending := []; chan_history := [];
     chan_closed := false |}.

Definition sys_init : system := {|
  sys_started := false; sys_poller := poller_init cfg (starting_hotshot_height cfg); sys_holding := None;
  sys_ranges := []; sys_loop := run_init (R:=N) cfg rcfg 0 finalization_chan; sys_monitor := monitor_init;
  sys_watch := watch_new; sys_requests := []; sys_replies := []; sys_feed := feed_new;
  sys_taken := starting_hotshot_height cfg; sys_ops := [] |}.

(** ** Steps *)

Inductive sys_action :=
| StreamerStart
| PollTurn (i : poll_input)
| PollSend
| TakeRange (reader : EspressoReader)
| MonitorTick (i : monitor_input)
| StreamerFinalized (reader : EspressoReader)
| RetryFires (reader : EspressoReader)
| StoreRequest (data : bytes)
| ServeRequest (reader : EspressoReader) (cursor : option (result BatchCursor string))
| RelayConfirms
| RelayBroadcasts (n : nat)
| FeedTurn (a : feed_action).

(** What a step changes of the record. *)
Definition with_poller (s : system) (p : poller) (holding : option range) (ranges : list range) : system :=
  {| sys_started := sys_started s; sys_poller := p; sys_holding := holding; sys_ranges := ranges;
     sys_loop := sys_loop s; sys_monitor := sys_monitor s; sys_watch := sys_watch s; sys_requests := sys_requests s;
     sys_replies := sys_replies s; sys_feed := sys_feed s; sys_taken := sys_taken s; sys_ops := sys_ops s |}.

Definition with_streamer (s : system) (started : bool) (l : loop_state N chan) (w : watch_chan) (ranges : list range)
    (taken : Z) : system :=
  {| sys_started := started; sys_poller := sys_poller s; sys_holding := sys_holding s; sys_ranges := ranges;
     sys_loop := l; sys_monitor := sys_monitor s; sys_watch := w; sys_requests := sys_requests s;
     sys_replies := sys_replies s; sys_feed := sys_feed s; sys_taken := taken; sys_ops := sys_ops s |}.

Definition with_requests (s : system) (requests : list bytes) (replies : list (bytes * VerificationResult)) : system :=
  {| sys_started := sys_started s; sys_poller := sys_poller s; sys_holding := sys_holding s; sys_ranges := sys_ranges s;
     sys_loop := sys_loop s; sys_monitor := sys_monitor s; sys_watch := sys_watch s; sys_requests := requests;
     sys_replies := replies; sys_feed := sys_feed s; sys_taken := sys_taken s; sys_ops := sys_ops s |}.

Definition with_monitor (s : system) (m : monitor_state) (w : watch_chan) : system :=
  {| sys_started := sys_started s; sys_poller := sys_poller s; sys_holding := sys_holding s; sys_ranges := sys_ranges s;
     sys_loop := sys_loop s; sys_monitor := m; sys_watch := w; sys_requests := sys_requests s;
     sys_replies := sys_replies s; sys_feed := sys_feed s; sys_taken := sys_taken s; sys_ops := sys_ops s |}.

Definition with_feed (s : system) (l : loop_state N chan) (w : watch_chan) (f : feed_server) (ops : list broadcast_op)
    : system :=
  {| sys_started := sys_started s; sys_poller := sys_poller s; sys_holding := sys_holding s; sys_ranges := sys_ranges s;
     sys_loop := l; sys_monitor := sys_monitor s; sys_watch := w; sys_requests := sys_requests s;
     sys_replies := sys_replies s; sys_feed := f; sys_taken := sys_taken s; sys_ops := ops |}.

(** The streamer's loop takes one event. *)
Definition streamer_turn (reader : EspressoReader) (s : system) (ev : event N) : loop_state N chan :=
  (handle_event (R:=N) reader (sys_loop s) ev).1.

(** The relay begins a broadcast; it takes [n] messages from its channel. *)
Definition relay_begins (s : system) (n : nat) (w : watch_chan) (ev : relay_event) : option system :=
  match relay_step ev with
  | RelayReturn _ => None
  | RelayBroadcast op =>
      f ← feed_step ring (BroadcastBegin op) (sys_feed s);
      let l := sys_loop s in
      Some (with_feed s {| streamer_of := streamer_of l; retry_of := retry_of l; sender_of := chan_recv n (sender_of l) |}
              w f (sys_ops s ++ [op]))
  end.

Definition sys_step (a : sys_action) (s : system) : option system :=
  match a with
  | StreamerStart =>
      if sys_started s then None
      else Some (with_streamer s true (run_init (R:=N) cfg rcfg (watch_value (sys_watch s)) finalization_chan)
                   (sys_watch s) (sys_ranges s) (sys_taken s))
  | PollTurn i =>
      match sys_started s, sys_holding s with
      | true, None =>
          match poll_once cfg (namespace_id rcfg) i (sys_poller s) with
          | (p, Slept _) => Some (with_poller s p None (sys_ranges s))
          | (p, Sent txns h) => Some (with_poller s p (Some (txns, h)) (sys_ranges s))
          | (_, ChannelClosed) => None
          end
      | _, _ => None
      end
  | PollSend =>
      r ← sys_holding s;
      if (length (sys_ranges s) <? hotshot_transaction_channel_capacity adv)%nat
      then Some (with_poller s (sys_poller s) None (sys_ranges s ++ [r])) else None
  | TakeRange reader =>
      match sys_ranges s with
      | [] => None
      | (txns, h) :: ranges =>
          Some (with_streamer s (sys_started s) (streamer_turn reader s (EvTransactions (R:=N) txns h)) (sys_watch s)
                  ranges (h + zlen txns))
      end
  | MonitorTick i =>
      match monitor_step (sys_monitor s) i with
      | None => None
      | Some (m, None) => Some (with_monitor s m (sys_watch s))
      | Some (m, Some idx) => Some (with_monitor s m (watch_send idx (sys_watch s)))
      end
  | StreamerFinalized reader =>
      if sys_started s && streamer_unseen (sys_watch s) then
        Some (with_streamer s true (streamer_turn reader s (EvFinalized (R:=N) (watch_value (sys_watch s))))
                (watch_streamer_sees (sys_watch s)) (sys_ranges s) (sys_taken s))
      else None
  | RetryFires reader =>
      if (0 <? timers (retry_of (sys_loop s)))%nat then
        Some (with_streamer s (sys_started s) (streamer_turn reader s (EvRetry (R:=N))) (sys_watch s) (sys_ranges s) (sys_taken s))
      else None
  | StoreRequest data =>
      if (length (sys_requests s) <? verification_channel_capacity adv)%nat
      then Some (with_requests s (sys_requests s ++ [data]) (sys_replies s)) else None
  | ServeRequest reader cursor =>
      match sys_started s, sys_requests s with
      | true, data :: requests =>
          match (handle_event (R:=N) reader (sys_loop s) (EvVerify (R:=N) data cursor)).2 with
          | Some r => Some (with_requests s requests (sys_replies s ++ [(data, r)]))
          | None => None
          end
      | _, _ => None
      end
  | RelayConfirms =>
      if relay_unseen (sys_watch s)
      then relay_begins s 0 (watch_relay_sees (sys_watch s)) (L1Changed (watch_value (sys_watch s))) else None
  | RelayBroadcasts n =>
      match take (S n) (chan_pending (sender_of (sys_loop s))) with
      | [] => None
      | first_msg :: drained => relay_begins s (S (length drained)) (sys_watch s) (EspressoRecv first_msg drained)
      end
  | FeedTurn a =>
      match a with
      | BroadcastBegin _ => None
      | _ => f ← feed_step ring a (sys_feed s); Some (with_feed s (sys_loop s) (sys_watch s) f (sys_ops s))
      end
  end.

Fixpoint sys_exec (acts : list sys_action) (s : system) : option system :=
  match acts with
  | [] => Some s
  | a :: acts' => s' ← sys_step a s; sys_exec acts' s'
  end.

(** ** Reachability over one chain

    Whenever the node answers, it answers from the chain (a verifying reader, say);
    heights, counts and cursors are [u64]s, as their types have it. *)

Context (chain : Z → list Transaction).

Definition honest (reader : EspressoReader) : Prop := answers reader (namespace_id rcfg) chain.

Definition action_ok (a : sys_action) : Prop :=
  match a with
  | PollTurn i => sane_height (poll_reader i) ∧ honest (poll_reader i)
  | TakeRange reader | StreamerFinalized reader | RetryFires reader => honest reader
  | MonitorTick i => ∀ b n, count_at i b = Ok n → is_u64 n
  | ServeRequest _ cursor => ∀ c, cursor = Some (Ok c) → is_u64 (last_batch_delayed_messages_read c)
  | _ => True
  end.

Inductive sys_reachable : system → Prop :=
| sys_reachable_init : sys_reachable sys_init
| sys_reachable_step a s s' : sys_reachable s → action_ok a → sys_step a s = Some s' → sys_reachable s'.

Lemma sys_exec_reachable acts s s' :
  sys_reachable s → Forall action_ok acts → sys_exec acts s = Some s' → sys_reachable s'.
Proof.
  intros Hr Hok. revert s Hr. induction Hok as [|a acts Ha Hok IH]; intros s Hr H; simpl in H; [by simplify_eq|].
  destruct (sys_step a s) as [s1|] eqn:E; simpl in H; [|done]. apply (IH s1); [|done]. by eapply sys_reachable_step.
Qed.
End system.

Arguments sys_started {A B J K hash} s : assert.
Arguments sys_poller {A B J K hash} s : assert.
Arguments sys_holding {A B J K hash} s : assert.
Arguments sys_ranges {A B J K hash} s : assert.
Arguments sys_loop {A B J K hash} s : assert.
Arguments sys_monitor {A B J K hash} s : assert.
Arguments sys_watch {A B J K hash} s : assert.
Arguments sys_requests {A B J K hash} s : assert.
Arguments sys_replies {A B J K hash} s : assert.
Arguments sys_feed {A B J K hash} s : assert.
Arguments sys_taken {A B J K hash} s : assert.
Arguments sys_ops {A B J K hash} s : assert.
