(* ===== verification/SystemTheorems.v ===== *)
(** * What the running service guarantees

    The invariant of every reachable state of the transition system of [System],
    under every interleaving of the tasks, and its consequences: what the streamer
    knows of the chain, what a batch that was verified stands for and what a
    subscriber of the feed receives. *)

From S2P Require Import Prelude Bytes Slice Config Rollup MockRollup Streamer StreamerProofs StreamerRun StreamerTheorems Poller StreamerChain.
From S2P Require Import NitroTypes NitroVerify Rlp RlpInstance Batch NitroPayload Nitro NitroTheorems.
From S2P Require Import Feed FeedTheorems FeedClient Relay L1Monitor System.
From Stdlib Require Import Strings.Byte.

(** ** A broadcast into a bounded channel *)

Section accepted.
Context {M : Type}.
Implicit Types (c : bounded_chan M).

(** What the channel looks like once [msgs] were accepted. *)
Record accepted c (msgs : list M) c' : Prop := {
  acc_history : chan_history c' = chan_history c ++ msgs;
  acc_pending : chan_pending c' = chan_pending c ++ msgs;
  acc_capacity : chan_capacity c' = chan_capacity c;
  acc_closed : chan_closed c' = chan_closed c;
  acc_bound : (length (chan_pending c) ≤ chan_capacity c → length (chan_pending c') ≤ chan_capacity c')%nat;
}.

Lemma accepted_nil c : accepted c [] c.
Proof. by split; rewrite ?app_nil_r. Qed.

Lemma accepted_trans c1 c2 c3 l1 l2 : accepted c1 l1 c2 → accepted c2 l2 c3 → accepted c1 (l1 ++ l2) c3.
Proof.
  intros [H1 H2 H3 H4 H5] [G1 G2 G3 G4 G5]. split; [| | | |by intros ?%H5%G5].
  - by rewrite G1, H1, (assoc_L (++)).
  - by rewrite G2, H2, (assoc_L (++)).
  - by rewrite G3.
  - by rewrite G4.
Qed.

Lemma accepted_send c m c' : bounded_try_send c m = (c', SendOk) → accepted c [m] c'.
Proof.
  unfold bounded_try_send. destruct (chan_closed c) eqn:E; [done|].
  destruct (Nat.leb_spec (chan_capacity c) (length (chan_pending c))); [done|].
  intros [= <-]. split; simpl; rewrite ?length_app; simpl; (done || lia).
Qed.

Lemma refused_send c m c' r : bounded_try_send c m = (c', r) → r ≠ SendOk → c' = c.
Proof. unfold bounded_try_send. intros H ?. case_bool; by simplify_eq. Qed.
End accepted.

Section bounded.
Context {R : Rollup} {L : RollupLaws R}.
#[local] Instance entry_sender : Sender (bounded_chan (@FeedMessage R)) FeedMessage := bounded_sender.
Implicit Types (c : bounded_chan (@FeedMessage R)) (s : Streamer R).

Lemma broadcast_accepted es s r c s' r' c' :
  broadcast_loop s r c es = (s', r', c') →
  ∃ sent, sent `prefix_of` es ∧ accepted c (convert_entry_to_feed_message <$> sent) c'.
Proof.
  revert s c. induction es as [|e es IH]; intros s c H; simpl in H.
  { simplify_eq. exists []. split; [done|apply accepted_nil]. }
  destruct (bounded_try_send c _) as [c1 q] eqn:E. destruct q.
  - destruct (IH _ _ H) as (sent & Hp & Ha). exists (e :: sent). split; [by apply prefix_cons|].
    eapply (accepted_trans c c1 c' [_]); [by apply accepted_send|done].
  - simplify_eq. apply refused_send in E as ->; [|done]. exists []. split; [apply prefix_nil|apply accepted_nil].
  - simplify_eq. apply refused_send in E as ->; [|done]. exists []. split; [apply prefix_nil|apply accepted_nil].
Qed.

(** The entries sent are entries of the queue. *)
Lemma try_broadcast_accepted s r c s' r' c' :
  try_broadcast_feed_message s r c = (s', r', c') → streamer_inv s → is_u64 (last_broadcast_position s) →
  ∃ sent, (∀ e, e ∈ sent → e ∈ queue s) ∧ accepted c (convert_entry_to_feed_message <$> sent) c'.
Proof.
  unfold try_broadcast_feed_message. intros (sent & Hp & Ha)%broadcast_accepted Hi Hl.
  exists sent. split; [|done]. intros e He.
  assert (Hu : ∀ e, e ∈ queue s → is_u64 (sequence_number e)).
  { intros x Hx. apply (inv_keys s Hi). unfold view. rewrite lookup_union_is_Some. left.
    rewrite queue_index_elem; [eauto|by apply inv_sorted|done]. }
  destruct (find_contiguous_spec (queue s) _ (inv_sorted _ Hi) Hu Hl) as (_ & Hin & _).
  apply Hin. by eapply prefix_elem.
Qed.
End bounded.

(** ** The invariant *)

(** The ranges [rs] are the blocks [a, b) of the chain, in order and each tagged
    with its first height. *)
Fixpoint tiles (chain : Z → list Transaction) (a : Z) (rs : list range) (b : Z) : Prop :=
  match rs with
  | [] => a = b
  | (txns, h) :: rs' => ∃ c, h = a ∧ a < c ∧ is_u64 c ∧ txns = chain_blocks chain a c ∧ tiles chain c rs' b
  end.

Lemma tiles_app chain a rs1 rs2 c : tiles chain a (rs1 ++ rs2) c ↔ ∃ b, tiles chain a rs1 b ∧ tiles chain b rs2 c.
Proof.
  revert a. induction rs1 as [|[txns h] rs1 IH]; intros a; simpl.
  { split; [by exists a|by intros (b & -> & ?)]. }
  setoid_rewrite IH. naive_solver.
Qed.

(** What is confirmed to the clients was broadcast as a confirmation. *)
Lemma feed_by_confirmations ring ops f k : feed_by ring ops f → k ∈ confirmations f → Confirm k ∈ ops.
Proof.
  intros Hf. induction Hf as [|op ops f f' Hf IH Hst|a ops f f' Ha Hf IH Hst].
  - intros Hk. by apply elem_of_nil in Hk.
  - simpl in Hst. destruct (inflight f) eqn:E; simplify_eq. unfold confirmations in *. rewrite E, app_nil_r in IH. simpl.
    rewrite omap_app, elem_of_app. intros [Hk|Hk]; apply elem_of_app; [left; by apply IH|right].
    destruct op as [msgs|k']; [by apply elem_of_nil in Hk|].
    apply list_elem_of_singleton in Hk as ->. by left.
  - assert (E : confirmations f' = confirmations f); [|by rewrite E].
    destruct a as [op| | |id r|id w|id w|id]; [by destruct (Ha op)|..].
    1,2: simpl in Hst; destruct (inflight f) as [ [bm []]|] eqn:E; simplify_eq; unfold confirmations; rewrite E; simpl;
      by rewrite ?app_nil_r.
    all: apply client_step_same in Hst; [|done]; by apply same_feed_views in Hst as (_ & _ & ?).
Qed.

Section invariant.
Context {A : AlloyRlp} {B : Brotli} {J : NitroJson} {K : Crypto} {JL : NitroJsonLaws J}.
Context (hash : BroadcastFeedMessage → Z → result B256 string).
Context (cfg : StreamerConfig) (rcfg : RollupConfig (NitroConfig Address)) (adv : AdvancedConfig) (ring : nat).
Context (chain : Z → list Transaction).

#[local] Abbreviation N := (Nitro hash).
#[local] Abbreviation chan := (bounded_chan BroadcastFeedMessage).
#[local] Abbreviation start := (starting_hotshot_height cfg).
#[local] Abbreviation init_chan := (finalization_chan adv).
#[local] Abbreviation sys := (system hash).
#[local] Instance entries_sender : Sender chan (@FeedMessage N) := bounded_sender.
#[local] Instance entries_sender_laws : SenderLaws entries_sender := bounded_sender_laws.
Implicit Types (s : system hash) (e : NitroRollupQueueEntry).

(** The entry is a message of the blocks [a, b). *)
Definition chain_entry (a b : Z) (e : NitroRollupQueueEntry) : Prop := in_blocks (R:=N) chain rcfg a b e.

(** What a successful reply says: the batch parses, and message by message it is
    a stretch of messages of the chain that starts at the reported position. *)
Definition certified (b : Z) (data : bytes) (r : VerificationResult) : Prop :=
  ∃ batch delayed covered, parse_batch data = Ok batch ∧ length covered = length batch ∧
    ssorted sequence_number covered ∧ batch_matches delayed batch covered ∧
    Forall (chain_entry start b) covered ∧
    (∃ e, head covered = Some e ∧ sequence_number e = start_message_position r) ∧
    start_espresso_block r = min_or_zero (hotshot_height <$> covered).

(** The channels are within their capacities. *)
Record within_capacity s : Prop := {
  wc_ranges : (length (sys_ranges s) ≤ hotshot_transaction_channel_capacity adv)%nat;
  wc_requests : (length (sys_requests s) ≤ verification_channel_capacity adv)%nat;
  wc_pending : (length (chan_pending (sender_of (sys_loop s))) ≤ espresso_finalized_message_channel_capacity adv)%nat;
}.

Record sys_inv s : Prop := {
  si_loop : loop_inv (R:=N) cfg rcfg init_chan (sys_loop s);
  si_chain : chain_inv (R:=N) chain cfg rcfg start (sys_taken s) (streamer_of (sys_loop s));
  si_stopped : sys_started s = false →
    sys_loop s = run_init (R:=N) cfg rcfg 0 init_chan ∧ sys_holding s = None ∧ sys_ranges s = [] ∧
    sys_taken s = start;
  si_tiles : tiles chain (sys_taken s) (sys_ranges s ++ option_list (sys_holding s)) (from_block (sys_poller s));
  si_cursor : is_u64 (from_block (sys_poller s));
  si_watched : watch_value (sys_watch s) ∈ 0 :: watch_sent (sys_watch s);
  si_sent : Forall is_u64 (watch_sent (sys_watch s));
  si_finalized : finalized_idx (streamer_of (sys_loop s)) ∈ 0 :: watch_sent (sys_watch s);
  si_capacity : chan_capacity (sender_of (sys_loop s)) = espresso_finalized_message_channel_capacity adv;
  si_bounds : within_capacity s;
  si_history : chan_history (sender_of (sys_loop s)) =
    mjoin (op_msgs <$> sys_ops s) ++ chan_pending (sender_of (sys_loop s));
  si_messages m : m ∈ chan_history (sender_of (sys_loop s)) →
    ∃ e, chain_entry start (sys_taken s) e ∧ m = convert_entry_to_feed_message (Rollup:=N) e;
  si_feed : feed_by ring (sys_ops s) (sys_feed s);
  si_confirms k : Confirm k ∈ sys_ops s → k ∈ 0 :: watch_sent (sys_watch s);
  si_replies data r : (data, r) ∈ sys_replies s → success r = true → certified (sys_taken s) data r;
}.

Hypothesis start_u64 : is_u64 start.

Lemma sys_inv_init : sys_inv (sys_init hash cfg rcfg adv).
Proof.
  split; simpl; try done.
  - by apply run_init_inv.
  - apply chain_inv_start; [done|]. split; by vm_compute.
  - by left.
  - by left.
  - split; simpl; lia.
  - intros m Hm. by apply elem_of_nil in Hm.
  - constructor.
  - intros k Hk. by apply elem_of_nil in Hk.
  - intros data r Hr. by apply elem_of_nil in Hr.
Qed.

Lemma certified_mono b b' data r : certified b data r → b ≤ b' → certified b' data r.
Proof.
  intros (batch & d & covered & H1 & H2 & H3 & H4 & H5 & H6 & H7) Hb. exists batch, d, covered. split_and!; try done.
  eapply Forall_impl; [exact H5|]. intros e He. by eapply in_blocks_mono.
Qed.

(** The watch channel only grows. *)
Lemma watch_u64 s v : sys_inv s → v ∈ 0 :: watch_sent (sys_watch s) → is_u64 v.
Proof.
  intros Hi [->|Hv]%elem_of_cons; [split; by vm_compute|].
  by eapply (proj1 (Forall_forall _ _) (si_sent _ Hi)).
Qed.

(** ** The streamer's turns *)

(** What a turn of the streamer does: it accepts blocks up to [b] and sends
    messages of them. *)
Record turn s (l : loop_state N chan) (b : Z) : Prop := {
  turn_loop : loop_inv (R:=N) cfg rcfg init_chan l;
  turn_chain : chain_inv (R:=N) chain cfg rcfg start b (streamer_of l);
  turn_le : sys_taken s ≤ b;
  turn_finalized : finalized_idx (streamer_of l) ∈ 0 :: watch_sent (sys_watch s);
  turn_sent : ∃ sent, (∀ e, e ∈ sent → chain_entry start b e) ∧
    accepted (M:=BroadcastFeedMessage) (sender_of (sys_loop s)) (convert_entry_to_feed_message (Rollup:=N) <$> sent) (sender_of l);
}.

Lemma sys_inv_turn s l w ranges b :
  sys_inv s → turn s l b →
  watch_value w = watch_value (sys_watch s) → watch_sent w = watch_sent (sys_watch s) →
  tiles chain b (ranges ++ option_list (sys_holding s)) (from_block (sys_poller s)) →
  (length ranges ≤ hotshot_transaction_channel_capacity adv)%nat →
  sys_inv (with_streamer hash s true l w ranges b).
Proof.
  intros Hi [Hl Hc Hle Hf (sent & Hin & [E1 E2 E3 E4 E5])] Ev Es Ht Hr.
  pose proof Hi as [_ _ _ _ Hcur Hw Hs _ Hcap [_ Hwr Hwp] Hh Hm Hfeed Hconf Hrep].
  split; simpl; rewrite ?Ev, ?Es; try done.
  - by rewrite E3.
  - split; simpl; [done|done|]. rewrite <- Hcap, <- E3. apply E5. by rewrite Hcap.
  - by rewrite E1, E2, Hh, (assoc_L (++)).
  - intros m. rewrite E1. intros [Hm'|(e & -> & He)%list_elem_of_fmap]%elem_of_app.
    + destruct (Hm m Hm') as (e & He & ->). exists e. split; [by eapply in_blocks_mono|done].
    + exists e. split; [by apply Hin|done].
  - intros data r Hdr Hok. eapply certified_mono; [by apply Hrep|done].
Qed.

(** The broadcast at the end of a turn. *)
Lemma turn_broadcast s st r c b st' r' c' :
  try_broadcast_feed_message (R:=N) st r c = (st', r', c') → sender_of (sys_loop s) = c →
  chain_inv (R:=N) chain cfg rcfg start b st → is_u64 (last_broadcast_position st) →
  sys_taken s ≤ b → finalized_idx st ∈ 0 :: watch_sent (sys_watch s) →
  loop_inv (R:=N) cfg rcfg init_chan {| streamer_of := st'; retry_of := r'; sender_of := c' |} →
  turn s {| streamer_of := st'; retry_of := r'; sender_of := c' |} b.
Proof.
  intros E <- Hc Hp Hle Hf Hl.
  destruct (try_broadcast_accepted (R:=N) _ _ _ _ _ _ E (ci_streamer _ _ _ _ _ _ Hc) Hp) as (sent & Hin & Ha).
  pose proof (try_broadcast_view (R:=N) st r (sender_of (sys_loop s))) as Hv. rewrite E in Hv.
  destruct Hv as (Eq & Est & Ec & Er & Ef).
  split; simpl; try done.
  - eapply chain_inv_same; try done. apply (li_streamer _ _ _ _ Hl).
  - by rewrite Ef.
  - exists sent. split; [|done]. intros e He. apply (ci_queue _ _ _ _ _ _ Hc). by apply Hin.
Qed.

Lemma turn_transactions reader s c :
  sys_inv s → sys_taken s < c → is_u64 c →
  turn s (streamer_turn hash reader s (EvTransactions (R:=N) (chain_blocks chain (sys_taken s) c) (sys_taken s))) c.
Proof.
  intros Hi Hc Hu. pose proof (si_chain _ Hi) as Hch. pose proof (si_loop _ Hi) as Hl.
  pose proof (handle_event_inv (R:=N) cfg rcfg init_chan reader (sys_loop s)
    (EvTransactions (R:=N) (chain_blocks chain (sys_taken s) c) (sys_taken s)) Hl I) as Hl'.
  unfold streamer_turn. revert Hl'. simpl. unfold handle_hotshot_transactions.
  rewrite (ci_rollup _ _ _ _ _ _ Hch). set (es := parse_hotshot_transactions _ _ _).
  destruct (filter_messages_rest (streamer_of (sys_loop s)) es) as (Ef & Ep & _).
  destruct (try_broadcast_feed_message _ _ _) as [ [st' r'] c'] eqn:E. intros Hl'.
  eapply turn_broadcast; [exact E|done| | |lia| |exact Hl'].
  - by apply chain_inv_range.
  - rewrite Ep. apply (li_position _ _ _ _ Hl).
  - rewrite Ef. apply (si_finalized _ Hi).
Qed.

Lemma turn_finalization reader s :
  sys_inv s → honest rcfg chain reader →
  turn s (streamer_turn hash reader s (EvFinalized (R:=N) (watch_value (sys_watch s)))) (sys_taken s).
Proof.
  intros Hi Hh. pose proof (watch_u64 _ _ Hi (si_watched _ Hi)) as Hu.
  destruct (handle_finalization_rest reader (streamer_of (sys_loop s)) (watch_value (sys_watch s))) as (_ & _ & Ef & _).
  split; simpl; try done.
  - by apply (handle_event_inv (R:=N) cfg rcfg init_chan reader (sys_loop s) (EvFinalized _) (si_loop _ Hi)).
  - apply chain_inv_finalization; [apply (si_chain _ Hi)|done].
  - rewrite Ef. destruct (Z.max_spec (finalized_idx (streamer_of (sys_loop s))) (watch_value (sys_watch s))) as [ [_ ->]|[_ ->] ].
    + apply (si_watched _ Hi).
    + apply (si_finalized _ Hi).
  - exists []. split; [|apply accepted_nil]. intros e He. by apply elem_of_nil in He.
Qed.

Lemma turn_retry reader s :
  sys_inv s → (0 < timers (retry_of (sys_loop s)))%nat →
  turn s (streamer_turn hash reader s (EvRetry (R:=N))) (sys_taken s).
Proof.
  intros Hi Ht. pose proof (si_loop _ Hi) as Hl.
  pose proof (handle_event_inv (R:=N) cfg rcfg init_chan reader (sys_loop s) (EvRetry (R:=N)) Hl Ht) as Hl'.
  unfold streamer_turn. revert Hl'. simpl. destruct (try_broadcast_feed_message _ _ _) as [ [st' r'] c'] eqn:E. intros Hl'.
  eapply turn_broadcast; [exact E|done|apply (si_chain _ Hi)|apply (li_position _ _ _ _ Hl)|lia|apply (si_finalized _ Hi)|exact Hl'].
Qed.

(** The start of the streamer: it takes the watched value. *)
Lemma turn_start s :
  sys_inv s → sys_started s = false →
  turn s (run_init (R:=N) cfg rcfg (watch_value (sys_watch s)) init_chan) (sys_taken s).
Proof.
  intros Hi Hs. pose proof (watch_u64 _ _ Hi (si_watched _ Hi)) as Hu.
  destruct (si_stopped _ Hi Hs) as (El & _ & _ & Et).
  split; simpl; try done.
  - by apply run_init_inv.
  - rewrite Et. by apply chain_inv_start.
  - apply (si_watched _ Hi).
  - exists []. split; [intros e He; by apply elem_of_nil in He|]. rewrite El. apply accepted_nil.
Qed.

(** ** Every step *)

(** A reply to a request. *)
Lemma reply_certified s data cursor :
  sys_inv s → (∀ c, cursor = Some (Ok c) → is_u64 (last_batch_delayed_messages_read c)) →
  let r := verify_request (R:=N) (streamer_of (sys_loop s)) data cursor in
  success r = true → certified (sys_taken s) data r.
Proof.
  intros Hi Hcur r. subst r. unfold verify_request. simpl.
  destruct (parse_batch data) as [batch|] eqn:Eb; [|done].
  match goal with |- context [nitro_verify_batch_messages _ _ ?c] => set (ctx := c) end.
  assert (Hd : is_u64 (last_batch_delayed_messages_read ctx)).
  { destruct cursor as [ [c|]|]; [by apply Hcur|split; by vm_compute..]. }
  pose proof (inv_sorted _ (li_streamer _ _ _ _ (si_loop _ Hi))) as Hs.
  destruct (verify_cases batch (queue (streamer_of (sys_loop s))) ctx Hs Hd)
    as [(q1 & e & q2 & Eq & He & Hb & Hm & ->)|[-> _] ]; [|done].
  intros _. exists batch, (last_batch_delayed_messages_read ctx), (take (length batch) (e :: q2)).
  pose proof (batch_matches_length _ _ _ Hm) as Hlen.
  assert (Hsub : ∀ x, x ∈ take (length batch) (e :: q2) → x ∈ queue (streamer_of (sys_loop s))).
  { intros x Hx%elem_of_take_sub. rewrite Eq. apply elem_of_app. by right. }
  split_and!; try done.
  - rewrite length_take. lia.
  - rewrite Eq in Hs. apply ssorted_app in Hs as (_ & Hs & _).
    rewrite <- (take_drop (length batch) (e :: q2)) in Hs. by apply ssorted_app in Hs as (? & _).
  - intros i msg Hl. destruct (Hm i msg Hl) as (x & Hx & Hmm). exists x. split; [|done].
    rewrite lookup_take_lt; [done|]. by eapply lookup_lt_Some.
  - apply Forall_forall. intros x Hx. apply (ci_queue _ _ _ _ _ _ (si_chain _ Hi)). by apply Hsub.
  - exists e. destruct batch; [done|]. done.
Qed.

Lemma take_length_take {X} n (l : list X) : take n l = take (length (take n l)) l.
Proof. rewrite length_take. destruct (Nat.min_spec n (length l)) as [ [_ ->]|[? ->] ]; [done|]. by rewrite !take_ge. Qed.

(** What the relay takes. *)
Lemma sys_inv_relay s s' n w ev :
  sys_inv s → watch_value w = watch_value (sys_watch s) → watch_sent w = watch_sent (sys_watch s) →
  (∀ op, relay_step ev = RelayBroadcast op →
     op_msgs op = take n (chan_pending (sender_of (sys_loop s))) ∧
     ∀ k, op = Confirm k → k ∈ 0 :: watch_sent (sys_watch s)) →
  (sys_started s = false → n = 0%nat) →
  relay_begins hash ring s n w ev = Some s' → sys_inv s'.
Proof.
  intros Hi Ev Es Hop Hn. unfold relay_begins. destruct (relay_step ev) as [op|] eqn:E; [|done].
  destruct (feed_step ring (BroadcastBegin op) (sys_feed s)) as [f|] eqn:Ef; [|done]. simpl. intros [= <-].
  pose proof Hi as [Hl Hc Hst Ht Hcur Hw Hs Hf Hcap [Hwr Hwq Hwp] Hh Hm Hfeed Hconf Hrep].
  destruct (Hop op eq_refl) as [Hop1 Hop2].
  split; simpl; rewrite ?Ev, ?Es; try done.
  - destruct Hl. by split.
  - intros H0. destruct (Hst H0) as (El & ?). rewrite El, (Hn H0). done.
  - split; simpl; [done..|]. rewrite length_drop. lia.
  - rewrite fmap_app, join_app. simpl. by rewrite Hop1, app_nil_r, <- (assoc_L (++)), take_drop.
  - by eapply feed_by_broadcast.
  - intros k [Hk|Hk%list_elem_of_singleton]%elem_of_app; [by apply Hconf|by apply Hop2].
Qed.

(** The poller's turn, and the send that waits for room. *)
Lemma sys_inv_poll s i s' :
  sys_inv s → sane_height (poll_reader i) → honest rcfg chain (poll_reader i) →
  sys_step hash cfg rcfg adv ring (PollTurn i) s = Some s' → sys_inv s'.
Proof.
  intros Hi Hsane Hh H. simpl in H. destruct (sys_started s) eqn:Est; [|done].
  destruct (sys_holding s) eqn:Eh; [done|].
  destruct (poll_once cfg (namespace_id rcfg) i (sys_poller s)) as [p o] eqn:Ep.
  pose proof Hi as [Hl Hc Hst Ht Hcur Hw Hs Hf Hcap Hwc Hhi Hm Hfeed Hconf Hrep].
  pose proof (poll_once_spec cfg _ i (sys_poller s) p o Hcur Hsane Ep) as Ho.
  rewrite Eh in Ht. simpl in Ht. rewrite app_nil_r in Ht.
  destruct o as [d|txns h|]; [| |done]; apply (inj Some) in H as <-.
  - split; simpl; rewrite ?Ho; try done; [by rewrite Est|by rewrite app_nil_r|by destruct Hwc; split].
  - destruct Ho as (-> & [Hlt _] & Hu & _ & Hn).
    split; simpl; try done; [by rewrite Est| |by destruct Hwc; split].
    apply tiles_app. exists (from_block (sys_poller s)). split; [done|].
    simpl. exists (from_block p). split_and!; try done. apply Hh in Hn; [done|]. unfold is_u64 in *. lia.
Qed.

Lemma sys_inv_send s s' :
  sys_inv s → sys_step hash cfg rcfg adv ring PollSend s = Some s' → sys_inv s'.
Proof.
  intros Hi H. simpl in H. destruct (sys_holding s) as [r|] eqn:Eh; [|done]. simpl in H.
  destruct (Nat.ltb_spec (length (sys_ranges s)) (hotshot_transaction_channel_capacity adv)) as [Hlt|]; simplify_eq.
  pose proof Hi as [Hl Hc Hst Ht Hcur Hw Hs Hf Hcap [Hwr Hwq Hwp] Hhi Hm Hfeed Hconf Hrep].
  rewrite Eh in Ht. simpl in Ht. split; simpl; try done.
  - intros H0. destruct (Hst H0) as (_ & H1 & _). congruence.
  - by rewrite app_nil_r.
  - split; simpl; [|done..]. rewrite length_app. simpl. lia.
Qed.

(** The streamer takes the oldest range. *)
Lemma sys_inv_take s reader s' :
  sys_inv s → sys_step hash cfg rcfg adv ring (TakeRange reader) s = Some s' → sys_inv s'.
Proof.
  intros Hi H. simpl in H. destruct (sys_ranges s) as [|[txns h] ranges] eqn:Er; [done|]. simplify_eq.
  pose proof (si_tiles _ Hi) as Ht. rewrite Er in Ht. simpl in Ht. destruct Ht as (c & -> & Hlt & Hu & -> & Ht).
  rewrite chain_blocks_length by lia. replace (sys_taken s + (c - sys_taken s)) with c by lia.
  destruct (sys_started s) eqn:Est; [|destruct (si_stopped _ Hi Est) as (_ & _ & H & _); congruence].
  apply sys_inv_turn; try done; [by apply turn_transactions|].
  pose proof (wc_ranges _ (si_bounds _ Hi)) as Hw. rewrite Er in Hw. simpl in Hw. lia.
Qed.

Lemma sys_inv_step a s s' :
  sys_inv s → action_ok rcfg chain a → sys_step hash cfg rcfg adv ring a s = Some s' → sys_inv s'.
Proof.
  intros Hi Hok H. pose proof Hi as [Hl Hc Hst Ht Hcur Hw Hs Hf Hcap Hwc Hhi Hm Hfeed Hconf Hrep].
  destruct a as [|i| |reader|i|reader|reader|data|reader cursor| |n|fa].
  - simpl in H. destruct (sys_started s) eqn:Est; simplify_eq.
    apply sys_inv_turn; try done; [by apply turn_start|apply Hwc].
  - by apply (sys_inv_poll s i); [done|apply Hok..|].
  - by apply (sys_inv_send s).
  - by apply (sys_inv_take s reader).
  - simpl in H, Hok. destruct (monitor_step (sys_monitor s) i) as [ [m [idx|] ]|] eqn:Em; simplify_eq;
      [|by destruct Hwc; split].
    apply monitor_step_spec in Em as (_ & _ & n & Hn & ->).
    assert (is_u64 (saturating_sub n 1)) by (specialize (Hok _ _ Hn); unfold is_u64 in *; u64_arith).
    split; simpl; try done; try (by destruct Hwc; split).
    + right. apply elem_of_app. right. by left.
    + apply Forall_app. split; [done|]. by apply Forall_singleton.
    + apply elem_of_cons in Hf as [->|Hf]; [by left|]. right. apply elem_of_app. by left.
    + intros k [->|Hk]%Hconf%elem_of_cons; [by left|]. right. apply elem_of_app. by left.
  - simpl in H. destruct (sys_started s && streamer_unseen (sys_watch s)) eqn:E; simplify_eq.
    apply sys_inv_turn; try done; [by apply turn_finalization|apply Hwc].
  - simpl in H. destruct (Nat.ltb_spec 0 (timers (retry_of (sys_loop s)))) as [Hlt|]; simplify_eq.
    destruct (sys_started s) eqn:Est; [|destruct (Hst eq_refl) as [El _]; rewrite El in Hlt; simpl in Hlt; lia].
    apply sys_inv_turn; try done; [by apply turn_retry|apply Hwc].
  - simpl in H. destruct (Nat.ltb_spec (length (sys_requests s)) (verification_channel_capacity adv)); simplify_eq.
    split; simpl; try done. destruct Hwc; split; simpl; [done| |done]. rewrite length_app. simpl. lia.
  - simpl in H. destruct (sys_started s) eqn:Est; [|done]. destruct (sys_requests s) as [|data reqs] eqn:Er; [done|].
    simplify_eq. split; simpl; rewrite ?Est; try done.
    + destruct Hwc as [? Hq ?]. split; simpl; [done| |done]. rewrite Er in Hq. simpl in Hq. lia.
    + intros d r [Hdr|[= -> ->]%list_elem_of_singleton]%elem_of_app; [by apply Hrep|by apply reply_certified].
  - simpl in H. destruct (relay_unseen (sys_watch s)); [|done].
    apply (sys_inv_relay s s' 0 (watch_relay_sees (sys_watch s)) (L1Changed (watch_value (sys_watch s)))); try done.
    intros op [= <-]. split; [done|]. by intros k [= <-].
  - simpl in H. destruct (chan_pending (sender_of (sys_loop s))) as [|m rest] eqn:Ep; [done|]. cbn [take] in H.
    eapply sys_inv_relay; [done..| | |done].
    + intros op [= <-]. split; [|done]. simpl. rewrite Ep. cbn [take]. f_equal. apply take_length_take.
    + intros H0. destruct (Hst H0) as [El _]. rewrite El in Ep. done.
  - simpl in H. destruct fa; try done.
    all: match type of H with context [feed_step ?r ?act ?f] => destruct (feed_step r act f) as [f'|] eqn:Ef; [|done] end.
    all: simpl in H; simplify_eq; split; simpl; try done; try (by destruct Hwc; split); (eapply feed_by_step; [|done..]; done).
Qed.

Lemma sys_reachable_inv s : sys_reachable hash cfg rcfg adv ring chain s → sys_inv s.
Proof. induction 1; [apply sys_inv_init|by eapply sys_inv_step]. Qed.

(** ** Consequences *)

Lemma tiles_le a rs b : tiles chain a rs b → a ≤ b.
Proof.
  revert a. induction rs as [|[txns h] rs IH]; intros a; simpl; [lia|].
  intros (c & _ & Hac & _ & _ & Hc%IH). lia.
Qed.

(** The messages of the channel are in order, so the feed's history is. *)
Lemma sys_feed_ordered s : sys_inv s → feed_reachable ring (sys_feed s) ∧ ordered (sys_feed s) ∧
  history (sys_feed s) ++ chan_pending (sender_of (sys_loop s)) = chan_history (sender_of (sys_loop s)).
Proof.
  intros Hi. destruct (feed_by_history _ _ _ (si_feed _ Hi)) as [Hr Hh].
  destruct (li_delivered _ _ _ _ (si_loop _ Hi)) as (hist & Hd & Hs & Hb).
  change (chan_history (sender_of (sys_loop s)) = [] ++ hist) in Hd. simpl in Hd.
  assert (E : history (sys_feed s) ++ chan_pending (sender_of (sys_loop s)) = hist).
  { by rewrite Hh, <- (si_history _ Hi), Hd. }
  split; [done|]. split; [|by rewrite Hd]. rewrite <- E in Hs, Hb. split; [by apply ssorted_app in Hs as (? & _)|].
  intros m Hm. assert (Hin : m ∈ history (sys_feed s) ++ chan_pending (sender_of (sys_loop s))).
  { apply elem_of_app. by left. }
  specialize (Hb m Hin). simpl in Hb. lia.
Qed.

(** What a client received was broadcast, and is a message of the chain. *)
Lemma received_on_chain s id c m :
  sys_inv s → clients (sys_feed s) !! id = Some c → m ∈ received c →
  ∃ e, chain_entry start (sys_taken s) e ∧ m = convert_entry_to_feed_message (Rollup:=N) e.
Proof.
  intros Hi Hc Hm. destruct (sys_feed_ordered _ Hi) as (Hr & Ho & E). apply (si_messages _ Hi). rewrite <- E.
  apply elem_of_app. left. eapply prefix_elem; [apply appended_history|].
  by apply (fi_clients _ (feed_inv_reachable _ _ Hr Ho) _ _ Hc).
Qed.

(** C1. The running service refines the chain, under every interleaving of its
    tasks: above the finalized index what the streamer knows is the first-seen index
    of the blocks it has taken; the blocks after those are in the channel, or held by
    the poller, in order and without a gap, up to the poller's cursor; and the
    finalized index is 0 or one that the L1 monitor published. *)
Theorem running_service_tracks_chain s :
  sys_reachable hash cfg rcfg adv ring chain s →
  start ≤ sys_taken s ≤ from_block (sys_poller s) ∧
  (∀ k, finalized_idx (streamer_of (sys_loop s)) < k →
     view (R:=N) (streamer_of (sys_loop s)) !! k = chain_index (R:=N) chain cfg rcfg start (sys_taken s) !! k) ∧
  tiles chain (sys_taken s) (sys_ranges s ++ option_list (sys_holding s)) (from_block (sys_poller s)) ∧
  finalized_idx (streamer_of (sys_loop s)) ∈ 0 :: watch_sent (sys_watch s).
Proof.
  intros Hi%sys_reachable_inv. pose proof (si_chain _ Hi) as Hc. pose proof (tiles_le _ _ _ (si_tiles _ Hi)).
  split_and!; [apply Hc|done|apply Hc|apply Hi|apply Hi].
Qed.

(** C2. A batch is reported as verified only when it stands for the chain: whatever
    the tasks did before and since, each of its messages agrees with a message that is
    on the HotShot chain, in a block the service has taken, in strictly increasing
    order from the position reported, and the reported block is their least height. *)
Theorem verified_batches_on_chain s data r :
  sys_reachable hash cfg rcfg adv ring chain s → (data, r) ∈ sys_replies s → success r = true →
  certified (sys_taken s) data r.
Proof. intros Hi%sys_reachable_inv. apply (si_replies _ Hi). Qed.

(** A subscriber that has caught up with everything sent. *)
Lemma caught_up_has_all s id c m :
  sys_inv s → clients (sys_feed s) !! id = Some c →
  phase c = Live → sink_failed c = false → rx c = length (channel (sys_feed s)) → inflight (sys_feed s) = None →
  chan_pending (sender_of (sys_loop s)) = [] →
  m ∈ chan_history (sender_of (sys_loop s)) → requested c ≤ seq m →
  m ∈ received c ∨ ∃ idx, idx ∈ watch_sent (sys_watch s) ∧ seq m ≤ idx.
Proof.
  intros Hi Hc Hp Hsf Hx Hin Hpe Hm Hq. destruct (sys_feed_ordered _ Hi) as (Hr & Ho & E).
  rewrite Hpe, app_nil_r in E. rewrite <- E in Hm.
  destruct (caught_up_receives_all ring (sys_feed s) id c m) as [?|(k & Hk & Hle)]; try done; [by left|right].
  apply (feed_by_confirmations _ _ _ _ (si_feed _ Hi)) in Hk. apply (si_confirms _ Hi) in Hk.
  apply elem_of_cons in Hk as [->|Hk]; [|by exists k]. exfalso.
  destruct (li_delivered _ _ _ _ (si_loop _ Hi)) as (hist & Hd & _ & Hb).
  change (chan_history (sender_of (sys_loop s)) = hist) in Hd. rewrite E, Hd in Hm.
  specialize (Hb m Hm). simpl in Hb. lia.
Qed.

(** C6. What the subscribers of the feed see of the chain: each receives messages
    of the HotShot chain only, strictly ordered and each at most once; and a
    subscriber that has caught up when nothing is pending has every message the
    streamer sent from the requested one on, unless the L1 monitor has published it
    as finalized. *)
Theorem subscribers_see_chain s id c :
  sys_reachable hash cfg rcfg adv ring chain s → clients (sys_feed s) !! id = Some c →
  ssorted seq (received c) ∧
  (∀ m, m ∈ received c → ∃ e, chain_entry start (sys_taken s) e ∧ m = convert_entry_to_feed_message (Rollup:=N) e) ∧
  (phase c = Live → sink_failed c = false → rx c = length (channel (sys_feed s)) → inflight (sys_feed s) = None →
   chan_pending (sender_of (sys_loop s)) = [] →
   ∀ m, m ∈ chan_history (sender_of (sys_loop s)) → requested c ≤ seq m →
     m ∈ received c ∨ ∃ idx, idx ∈ watch_sent (sys_watch s) ∧ seq m ≤ idx).
Proof.
  intros Hi%sys_reachable_inv Hc. destruct (sys_feed_ordered _ Hi) as (Hr & Ho & E). split_and!.
  - apply (fi_clients _ (feed_inv_reachable _ _ Hr Ho) _ _ Hc).
  - intros m Hm. by eapply received_on_chain.
  - intros Hp Hsf Hx Hin Hpe m Hm Hq. by eapply caught_up_has_all.
Qed.

(** C7. The feed and the certificates agree.  When the sequencer numbers no two
    messages alike, a successful reply's batch stands message for message for a
    stretch of messages of the chain, in blocks the service has taken, strictly
    ordered from the reported position; and whatever subscriber received a message
    with the number of one of these received that very message, content and all,
    the one the batch's message agrees with. *)
Theorem feed_agrees_with_certificates s data r :
  sys_reachable hash cfg rcfg adv ring chain s → unique_on_chain (R:=N) chain (stack rcfg) →
  (data, r) ∈ sys_replies s → success r = true →
  ∃ batch delayed covered, parse_batch data = Ok batch ∧ length covered = length batch ∧
    ssorted sequence_number covered ∧ Forall (chain_entry start (sys_taken s)) covered ∧
    (∃ e, head covered = Some e ∧ sequence_number e = start_message_position r) ∧
    ∀ i msg, batch !! i = Some msg → ∃ e, covered !! i = Some e ∧
      message_matches delayed batch i msg e ∧
      ∀ id c m, clients (sys_feed s) !! id = Some c → m ∈ received c →
        seq m = sequence_number e → m = convert_entry_to_feed_message (Rollup:=N) e.
Proof.
  intros Hi%sys_reachable_inv Hu Hr Hok.
  destruct (si_replies _ Hi _ _ Hr Hok) as (batch & d & covered & H1 & H2 & H3 & H4 & H5 & H6 & _).
  exists batch, d, covered. split_and!; try done. intros i msg Hmsg.
  destruct (H4 i msg Hmsg) as (e & He & Hmatch). exists e. split_and!; [done|done|].
  intros id c m Hc Hm Hs. destruct (received_on_chain _ _ _ _ Hi Hc Hm) as (e' & [_ He'] & ->). f_equal.
  apply Hu; [done| |exact Hs]. apply list_elem_of_lookup_2 in He.
  apply (proj1 (Forall_forall _ _) H5 e He).
Qed.
End invariant.

(** ** A concrete service *)

Definition run_chain (h : Z) : list Transaction := if h =? 10 then [small_tx] else [].

Definition run_adv : AdvancedConfig := {|
  espresso_finalized_message_channel_capacity := 2; verification_channel_capacity := 1;
  hotshot_transaction_channel_capacity := 1; submitter_input_channel_capacity := 1;
|}.

Definition run_node : EspressoReader := chain_reader run_chain 12.

Definition run_poll : sys_action := PollTurn {| poll_reader := run_node; poll_now := 0; channel_open := true |}.

(** L1 finalizes message 4; the streamer takes two blocks and sends two of its three
    messages, the channel to the relay being full; a batch is verified; the relay and
    a subscriber take what was sent; the streamer is about to retry. *)
Definition run_actions : list sys_action := [
  MonitorTick {| finalized_answer := Ok (Some 100); count_at _ := Ok 5 |};
  StreamerStart; run_poll; PollSend; StreamerFinalized failing_reader; TakeRange failing_reader;
  StoreRequest small_batch; ServeRequest failing_reader (Some (Ok small_cursor));
  RelayConfirms; FeedTurn BroadcastAppend; FeedTurn BroadcastSend; FeedTurn (ClientSubscribe 0 5);
  FeedTurn (ClientSnapshot 0 WriteOk); RelayBroadcasts 10; FeedTurn BroadcastAppend; FeedTurn BroadcastSend;
  FeedTurn (ClientRecv 0 WriteOk) ].

Definition run_exec : option (system (A:=concrete_rlp) (B:=stored_brotli) (J:=small_json) feed_hash) :=
  sys_exec feed_hash small_cfg small_rollup_config run_adv 8 run_actions
    (sys_init feed_hash small_cfg small_rollup_config run_adv).

Definition run_state : system (A:=concrete_rlp) (B:=stored_brotli) (J:=small_json) feed_hash :=
  default (sys_init feed_hash small_cfg small_rollup_config run_adv) run_exec.

Lemma failing_honest rcfg chain : honest rcfg chain failing_reader.
Proof. by intros a b txns _ [=]. Qed.

Lemma run_actions_ok : Forall (action_ok small_rollup_config run_chain) run_actions.
Proof.
  assert (Hn := chain_reader_answers (namespace_id small_rollup_config) run_chain 12 ltac:(split; by vm_compute)).
  repeat (apply Forall_cons; split; [|]); try done; try apply failing_honest; try apply Forall_nil.
  - intros b n [= <-]. split; by vm_compute.
  - intros c [= <-]. split; by vm_compute.
Qed.

Lemma some_default {X} (o : option X) d : bool_decide (is_Some o) = true → o = Some (default d o).
Proof. intros [x ->]%bool_decide_eq_true. done. Qed.

Lemma run_state_reachable : sys_reachable feed_hash small_cfg small_rollup_config run_adv 8 run_chain run_state.
Proof.
  apply (sys_exec_reachable feed_hash small_cfg small_rollup_config run_adv 8 run_chain run_actions
           (sys_init feed_hash small_cfg small_rollup_config run_adv)).
  - constructor.
  - exact run_actions_ok.
  - unfold run_state, run_exec. apply some_default. by vm_compute.
Qed.

Definition run_reply : bytes * VerificationResult := default ([], VerificationResult_failure) (head (sys_replies run_state)).

Lemma run_start_u64 : is_u64 (starting_hotshot_height small_cfg).
Proof. split; by vm_compute. Qed.

Lemma running_service_tracks_chain_witness :
  sys_taken run_state = 12 ∧ 10 ≤ sys_taken run_state ≤ from_block (sys_poller run_state).
Proof.
  split; [by vm_compute|].
  exact (proj1 (running_service_tracks_chain (JL:=small_json_laws) feed_hash small_cfg small_rollup_config run_adv 8
           run_chain run_start_u64 run_state run_state_reachable)).
Defined.

Lemma head_pair_elem {X Y} (l : list (X * Y)) d :
  bool_decide (is_Some (head l)) = true → ((default d (head l)).1, (default d (head l)).2) ∈ l.
Proof. destruct l as [|[x y] l]; [done|]. by left. Qed.

Lemma run_reply_served : (run_reply.1, run_reply.2) ∈ sys_replies run_state.
Proof. unfold run_reply. apply head_pair_elem. by vm_compute. Qed.

Lemma verified_batches_on_chain_witness :
  success run_reply.2 = true ∧ certified (A:=concrete_rlp) (B:=stored_brotli) (J:=small_json) feed_hash small_cfg small_rollup_config run_chain (sys_taken run_state) run_reply.1 run_reply.2.
Proof.
  split; [by vm_compute|].
  apply (verified_batches_on_chain (JL:=small_json_laws) feed_hash small_cfg small_rollup_config run_adv 8 run_chain run_start_u64).
  - exact run_state_reachable.
  - exact run_reply_served.
  - by vm_compute.
Defined.

Definition run_client : ws_client :=
  default {| requested := 0; phase := Closed; rx := 0; last_sent_seq := None; sink_failed := true; out := [] |}
          (clients (sys_feed run_state) !! 0%nat).

Lemma subscribers_see_chain_witness :
  msg_sequence_number <$> received run_client = [5; 6] ∧ ssorted seq (received run_client).
Proof.
  split; [by vm_compute|].
  refine (proj1 (subscribers_see_chain (JL:=small_json_laws) feed_hash small_cfg small_rollup_config run_adv 8 run_chain
    run_start_u64 run_state 0 run_client _ _)).
  - exact run_state_reachable.
  - unfold run_client. apply some_default. by vm_compute.
Defined.

Lemma run_chain_unique : unique_on_chain (R:=SmallNitro) run_chain (stack small_rollup_config).
Proof.
  assert (Hblock : ∀ h e, e ∈ parse_hotshot_transactions (Rollup:=SmallNitro) (stack small_rollup_config) [run_chain h] h →
    e ∈ parse_hotshot_transactions (Rollup:=SmallNitro) (stack small_rollup_config) [[small_tx]] 10).
  { intros h e. unfold run_chain. destruct (Z.eqb_spec h 10) as [->|]; [done|]. intros He. by apply elem_of_nil in He. }
  assert (Hall : ∀ e, on_chain (R:=SmallNitro) run_chain (stack small_rollup_config) e →
    e ∈ parse_hotshot_transactions (Rollup:=SmallNitro) (stack small_rollup_config) [[small_tx]] 10).
  { intros e [_ He]. exact (Hblock _ _ He). }
  assert (Hs : ssorted sequence_number
    (parse_hotshot_transactions (Rollup:=SmallNitro) (stack small_rollup_config) [[small_tx]] 10)).
  { repeat (constructor; [|by repeat constructor]). constructor. }
  intros e e' He%Hall He'%Hall Heq. apply list_elem_of_lookup in He as [i Hi], He' as [j Hj].
  pose proof (ssorted_lookup_inj _ _ _ _ _ _ Hs Hi Hj Heq) as ->. congruence.
Qed.

Lemma feed_agrees_with_certificates_witness :
  ∃ batch delayed covered, parse_batch run_reply.1 = Ok batch ∧ length covered = length batch ∧
    ssorted sequence_number covered ∧
    (∃ e, head covered = Some e ∧ sequence_number e = start_message_position run_reply.2) ∧
    batch_matches delayed batch covered.
Proof.
  destruct (feed_agrees_with_certificates (JL:=small_json_laws) feed_hash small_cfg small_rollup_config run_adv 8 run_chain
    run_start_u64 run_state run_reply.1 run_reply.2) as (batch & d & covered & H1 & H2 & H3 & _ & H4 & H5).
  - exact run_state_reachable.
  - exact run_chain_unique.
  - exact run_reply_served.
  - by vm_compute.
  - exists batch, d, covered. split; [exact H1|]. split; [exact H2|]. split; [exact H3|]. split; [exact H4|].
    intros i msg Hmsg. destruct (H5 i msg Hmsg) as (e & He & Hm & _). exists e. split; [exact He|exact Hm].
Defined.
