(* ===== verification/Delivery.v ===== *)
(** * What the running service can always do

    Progress of the transition system of [System]: from every reachable state the
    tasks have a schedule in which the streamer catches up with the chain, sends the
    run of messages that follows its position, and a subscriber receives them. *)

From S2P Require Import Prelude Bytes Slice Config Rollup MockRollup Streamer StreamerProofs StreamerRun StreamerTheorems Poller StreamerChain.
From S2P Require Import NitroTypes NitroVerify Rlp RlpInstance Batch NitroPayload Nitro NitroTheorems.
From S2P Require Import Feed FeedTheorems FeedClient Relay L1Monitor System SystemTheorems.
From Stdlib Require Import Strings.Byte.

(** ** A broadcast into an open channel *)

Section broadcast.
Context {R : Rollup} {L : RollupLaws R}.
#[local] Instance open_sender : Sender (bounded_chan (@FeedMessage R)) FeedMessage := bounded_sender.
#[local] Instance open_sender_laws : SenderLaws open_sender := bounded_sender_laws.
Implicit Types (c : bounded_chan (@FeedMessage R)) (s : Streamer R).

Definition next_absent s : Prop := ∀ e, e ∈ queue s → sequence_number e ≠ last_broadcast_position s + 1.

(** The messages [sent] were accepted and the position moved over them. *)
Record moved s c (sent : list Entry) s' c' : Prop := {
  mv_numbered : numbered (last_broadcast_position s) sent;
  mv_position : last_broadcast_position s' = last_broadcast_position s + zlen sent;
  mv_accepted : accepted c (convert_entry_to_feed_message <$> sent) c';
}.

Lemma open_broadcast s r c s' r' c' :
  streamer_inv s → is_u64 (last_broadcast_position s) → chan_closed c = false →
  try_broadcast_feed_message s r c = (s', r', c') →
  (next_absent s' ∨ scheduled r' = true) ∧ ∃ sent, moved s c sent s' c'.
Proof.
  intros Hi Hp Ho H.
  destruct (try_broadcast_sends _ _ _ _ _ _ Hi Hp H) as (sent & Hd & Hn & Hin & Hl & Hstop).
  destruct (try_broadcast_accepted _ _ _ _ _ _ H Hi Hp) as (sent' & _ & Ha).
  pose proof (try_broadcast_view s r c) as Hv. rewrite H in Hv. destruct Hv as (Eq & _). split.
  - destruct Hstop as [Hx|[?|(c1 & m & Hc)] ]; [left|by right|].
    + unfold next_absent. by rewrite Eq.
    + pose proof (acc_closed _ _ _ Ha) as Hcl. rewrite Ho in Hcl.
      simpl in Hc. unfold bounded_try_send in Hc. case_bool; simplify_eq; congruence.
  - exists sent. split; [done..|]. replace (convert_entry_to_feed_message <$> sent) with (convert_entry_to_feed_message <$> sent'); [done|].
    pose proof (acc_history _ _ _ Ha) as E. simpl in Hd. rewrite Hd in E. by apply app_inv_head in E.
Qed.

(** With room in the channel and the next message in the queue, something is sent. *)
Lemma room_broadcasts s r c s' r' c' :
  streamer_inv s → is_u64 (last_broadcast_position s) → chan_closed c = false →
  (length (chan_pending c) < chan_capacity c)%nat →
  try_broadcast_feed_message s r c = (s', r', c') →
  next_absent s ∨ last_broadcast_position s < last_broadcast_position s'.
Proof.
  intros Hi Hp Ho Hroom H.
  assert (Hu : ∀ e, e ∈ queue s → is_u64 (sequence_number e)).
  { intros e He. apply (inv_keys s Hi). unfold view. rewrite lookup_union_is_Some. left.
    rewrite queue_index_elem; [eauto|by apply inv_sorted|done]. }
  destruct (find_contiguous_spec (queue s) _ (inv_sorted _ Hi) Hu Hp) as (Hn & _ & Hend).
  unfold try_broadcast_feed_message in H. destruct (find_contiguous_entries_after _ _) as [|e es].
  { left. intros e He. specialize (Hend e He). unfold zlen in Hend. simpl in Hend. lia. }
  right. assert (He : sequence_number e = last_broadcast_position s + 1) by (rewrite (Hn 0%nat e); [lia|done]).
  cbn [broadcast_loop try_send open_sender bounded_sender] in H. unfold bounded_try_send in H. rewrite Ho in H.
  rewrite (proj2 (Nat.leb_gt _ _)) in H by lia.
  eapply (broadcast_loop_spec (SD:=open_sender)) with (p := last_broadcast_position s + 1) in H.
  - destruct H as (sent & rest & _ & _ & -> & _). simpl. unfold zlen. lia.
  - intros i e' Hl. rewrite (Hn (S i) e'); [lia|done].
  - simpl. lia.
Qed.
End broadcast.

Section progress.
Context {A : AlloyRlp} {B : Brotli} {J : NitroJson} {K : Crypto} {JL : NitroJsonLaws J}.
Context (hash : BroadcastFeedMessage → Z → result B256 string).
Context (cfg : StreamerConfig) (rcfg : RollupConfig (NitroConfig Address)) (adv : AdvancedConfig) (ring : nat).
Context (chain : Z → list Transaction).

#[local] Abbreviation N := (Nitro hash).
#[local] Abbreviation start := (starting_hotshot_height cfg).
#[local] Abbreviation reachable_sys := (sys_reachable hash cfg rcfg adv ring chain).
#[local] Abbreviation step := (sys_step hash cfg rcfg adv ring).
#[local] Abbreviation inv := (sys_inv hash cfg rcfg adv ring chain).
Implicit Types (s : system hash).

(** ** Schedules *)

(** Some schedule of the tasks brings [s] to [s']. *)
Definition leads_to s s' : Prop :=
  ∃ acts, Forall (action_ok rcfg chain) acts ∧ sys_exec hash cfg rcfg adv ring acts s = Some s'.

Lemma leads_to_refl s : leads_to s s.
Proof. exists []. split; [constructor|done]. Qed.

Lemma leads_to_step s a s1 s' : action_ok rcfg chain a → step a s = Some s1 → leads_to s1 s' → leads_to s s'.
Proof.
  intros Ha Hs (acts & Hok & Hx). exists (a :: acts). split; [by constructor|]. simpl. by rewrite Hs.
Qed.

Lemma leads_to_one s a s' : step a s = Some s' → action_ok rcfg chain a → leads_to s s'.
Proof. intros Hs Ha. eapply leads_to_step; [done|done|apply leads_to_refl]. Qed.

Lemma leads_to_trans s1 s2 s3 : leads_to s1 s2 → leads_to s2 s3 → leads_to s1 s3.
Proof.
  intros (acts & Hok & Hx). revert s1 Hx. induction Hok as [|a acts Ha Hok IH]; intros s1 Hx H; simpl in Hx; [by simplify_eq|].
  destruct (step a s1) as [s1'|] eqn:E; simpl in Hx; [|done].
  eapply leads_to_step; [done|done|]. by apply IH.
Qed.

Lemma leads_to_reachable s s' : reachable_sys s → leads_to s s' → reachable_sys s'.
Proof. intros Hr (acts & Hok & Hx). by eapply sys_exec_reachable. Qed.

(** ** What a schedule sends *)

#[local] Abbreviation streamer s := (streamer_of (sys_loop s)).
#[local] Abbreviation position s := (last_broadcast_position (streamer_of (sys_loop s))).
#[local] Abbreviation sent_to s := (chan_history (sender_of (sys_loop s))).
#[local] Abbreviation pending s := (chan_pending (sender_of (sys_loop s))).

(** The messages after the position of [s] up to that of [s'] were sent, in order, and
    L1 has published nothing. *)
Definition sends s s' : Prop :=
  sys_watch s' = sys_watch s ∧
  ∃ sent : list NitroRollupQueueEntry, sent_to s' = sent_to s ++ (convert_entry_to_feed_message (Rollup:=N) <$> sent) ∧
    numbered (R:=N) (position s) sent ∧ position s' = position s + zlen sent.

Lemma sends_same s s' : sys_watch s' = sys_watch s → sent_to s' = sent_to s → position s' = position s → sends s s'.
Proof.
  intros Ew E1 E2. split; [done|]. exists []. rewrite E1, E2. split_and!; [by rewrite app_nil_r|by intros i e|]. unfold zlen. simpl. lia.
Qed.

Lemma sends_trans s1 s2 s3 : sends s1 s2 → sends s2 s3 → sends s1 s3.
Proof.
  intros (W1 & l1 & H1 & N1 & P1) (W2 & l2 & H2 & N2 & P2). split; [congruence|]. exists (l1 ++ l2). split_and!.
  - rewrite H2, H1, fmap_app. by rewrite (assoc_L (++)).
  - change (∀ i (e : NitroRollupQueueEntry), (l1 ++ l2) !! i = Some e → sequence_number e = position s1 + 1 + Z.of_nat i).
    intros i e [Hl|[Hge Hl] ]%lookup_app_Some; [exact (N1 _ _ Hl)|].
    etrans; [exact (N2 _ _ Hl)|]. rewrite P1. unfold zlen. lia.
  - rewrite P2, P1. unfold zlen. rewrite length_app. lia.
Qed.

(** Every position passed was sent. *)
Lemma sends_covers s s' k :
  sends s s' → position s < k ≤ position s' → ∃ m, m ∈ sent_to s' ∧ msg_sequence_number m = k.
Proof.
  intros (_ & sent & H & Hn & Hp) Hk. change (position s' = position s + Z.of_nat (length sent)) in Hp.
  destruct (lookup_lt_is_Some_2 sent (Z.to_nat (k - position s - 1))) as [e He]; [lia|].
  exists (convert_entry_to_feed_message (Rollup:=N) e). split.
  - rewrite H. apply elem_of_app. right. apply list_elem_of_fmap. exists e. split; [done|]. by eapply list_elem_of_lookup_2.
  - specialize (Hn _ _ He). simpl in Hn |- *. lia.
Qed.

(** The broadcast has come to an end, or will be retried. *)
Definition settled s : Prop := next_absent (R:=N) (streamer s) ∨ scheduled (retry_of (sys_loop s)) = true.

Hypothesis start_u64 : is_u64 start.

(** The channel to the relay stays open. *)
Lemma turn_open s l b : turn hash cfg rcfg adv chain s l b → chan_closed (sender_of (sys_loop s)) = false →
  chan_closed (sender_of l) = false.
Proof. intros [_ _ _ _ (sent & _ & Ha)] Ho. by rewrite (acc_closed _ _ _ Ha). Qed.

Lemma sys_open s : reachable_sys s → chan_closed (sender_of (sys_loop s)) = false.
Proof.
  induction 1 as [|a s s' Hr IH Hok H]; [done|].
  pose proof (sys_reachable_inv _ _ _ _ _ _ start_u64 _ Hr) as Hi.
  destruct a as [|i| |reader|i|reader|reader|data|reader cursor| |n|fa]; simpl in H.
  - destruct (sys_started s); by simplify_eq.
  - destruct (sys_started s), (sys_holding s); try done.
    destruct (poll_once cfg (namespace_id rcfg) i (sys_poller s)) as [p []]; by simplify_eq.
  - destruct (sys_holding s); simpl in H; [|done]. case_bool; by simplify_eq.
  - pose proof (si_tiles _ _ _ _ _ _ _ Hi) as Ht.
    destruct (sys_ranges s) as [|[txns h] rs]; [done|]. simplify_eq. simpl in Ht |- *.
    destruct Ht as (c & -> & Hc & Hu & -> & _). eapply turn_open; [by eapply turn_transactions|done].
  - destruct (monitor_step (sys_monitor s) i) as [ [m []]|]; by simplify_eq.
  - case_bool; simplify_eq. eapply turn_open; [by eapply turn_finalization|done].
  - destruct (Nat.ltb_spec 0 (timers (retry_of (sys_loop s)))); simplify_eq. eapply turn_open; [by eapply turn_retry|done].
  - case_bool; by simplify_eq.
  - destruct (sys_started s), (sys_requests s); by simplify_eq.
  - destruct (relay_unseen (sys_watch s)); [|done]. unfold relay_begins in H. simpl in H.
    destruct (inflight (sys_feed s)); by simplify_eq/=.
  - destruct (take (S n) _); [done|]. unfold relay_begins in H. simpl in H.
    destruct (inflight (sys_feed s)); by simplify_eq/=.
  - destruct fa; try done; destruct (feed_step _ _ _); by simplify_eq/=.
Qed.

(** A turn of the streamer that ends in a broadcast. *)
Lemma broadcast_settles s st r st' r' c' s' :
  reachable_sys s → streamer_inv (R:=N) st → last_broadcast_position st = position s →
  try_broadcast_feed_message (R:=N) (SD:=bounded_sender) st r (sender_of (sys_loop s)) = (st', r', c') →
  sys_watch s' = sys_watch s → sys_loop s' = {| streamer_of := st'; retry_of := r'; sender_of := c' |} →
  sends s s' ∧ settled s'.
Proof.
  intros Hr Hi Hp H Ew E. pose proof (sys_reachable_inv _ _ _ _ _ _ start_u64 _ Hr) as Hinv.
  destruct (open_broadcast (R:=N) st r (sender_of (sys_loop s)) st' r' c' Hi) as [Hs (sent & [Hn Hl Ha])]; try done.
  { rewrite Hp. apply (li_position _ _ _ _ (si_loop _ _ _ _ _ _ _ Hinv)). }
  { by apply sys_open. }
  unfold sends, settled. rewrite E. simpl. split; [|done]. split; [done|]. exists sent. rewrite <- Hp. split_and!; [|done|done].
  apply (acc_history _ _ _ Ha).
Qed.

Lemma filtered_inv s es :
  inv s → Forall (λ e, is_u64 (sequence_number e)) es → streamer_inv (R:=N) (filter_messages (R:=N) (streamer s) es).
Proof. intros Hi Hu. apply filter_messages_spec; [apply (si_loop _ _ _ _ _ _ _ Hi)|done]. Qed.

Lemma take_settles s reader s' :
  reachable_sys s → step (TakeRange reader) s = Some s' → sends s s' ∧ settled s'.
Proof.
  intros Hr H. simpl in H. destruct (sys_ranges s) as [|[txns h] rs]; [done|]. apply (inj Some) in H.
  pose proof (sys_reachable_inv _ _ _ _ _ _ start_u64 _ Hr) as Hi.
  unfold streamer_turn, handle_event, handle_hotshot_transactions in H.
  set (es := parse_hotshot_transactions _ _ _) in H.
  match type of H with context [try_broadcast_feed_message ?st ?r ?c] =>
    destruct (try_broadcast_feed_message st r c) as [ [st' r'] c'] eqn:E end.
  eapply (broadcast_settles s _ _ st' r' c'); [done| | |exact E|by subst s'|by subst s'].
  - apply filtered_inv; [done|]. apply Forall_forall. intros e He. by eapply (parse_u64 (R:=N)).
  - by destruct (filter_messages_rest (streamer s) es) as (_ & Ep & _).
Qed.

Lemma retry_settles s reader s' :
  reachable_sys s → step (RetryFires reader) s = Some s' →
  sends s s' ∧ settled s' ∧
  ((length (pending s) < chan_capacity (sender_of (sys_loop s)))%nat → next_absent (R:=N) (streamer s) ∨ position s < position s').
Proof.
  intros Hr H. simpl in H. destruct (Nat.ltb_spec 0 (timers (retry_of (sys_loop s)))); [|done].
  pose proof (sys_reachable_inv _ _ _ _ _ _ start_u64 _ Hr) as Hi. pose proof (si_loop _ _ _ _ _ _ _ Hi) as Hl.
  apply (inj Some) in H. unfold streamer_turn, handle_event in H.
  match type of H with context [try_broadcast_feed_message ?st ?r ?c] =>
    destruct (try_broadcast_feed_message st r c) as [ [st' r'] c'] eqn:E end.
  assert (El : sys_loop s' = {| streamer_of := st'; retry_of := r'; sender_of := c' |}) by by subst s'.
  destruct (broadcast_settles s _ _ st' r' c' s' Hr (li_streamer _ _ _ _ Hl) eq_refl E ltac:(by subst s') El) as [Hs Hset].
  split_and!; [done|done|]. intros Hroom. rewrite El. simpl.
  eapply (room_broadcasts (R:=N)); [apply Hl|apply (li_position _ _ _ _ Hl)|by apply sys_open|exact Hroom|exact E].
Qed.

(** ** Draining the channels *)

(** Nothing stands between the poller and the streamer. *)
Definition drained s : Prop := sys_started s = true ∧ sys_ranges s = [] ∧ sys_holding s = None.

Section node.
Context (reader : EspressoReader).
Hypothesis reader_honest : honest rcfg chain reader.
Hypothesis has_room : (1 ≤ hotshot_transaction_channel_capacity adv)%nat.

(** The streamer takes every range in the channel. *)
Lemma drain_ranges s :
  reachable_sys s → sys_started s = true →
  ∃ s', leads_to s s' ∧ sends s s' ∧ (sys_ranges s ≠ [] ∨ settled s → settled s') ∧ sys_started s' = true ∧ sys_ranges s' = [] ∧
    sys_holding s' = sys_holding s ∧ sys_poller s' = sys_poller s ∧ sys_feed s' = sys_feed s.
Proof.
  remember (sys_ranges s) as rs eqn:E. revert s E. induction rs as [|[txns h] rs IH]; intros s E Hr Hst.
  { exists s. split_and!; try done; [apply leads_to_refl|by apply sends_same|]. by intros [?|?]. }
  assert (H1 : step (TakeRange reader) s = Some (with_streamer hash s (sys_started s)
    (streamer_turn hash reader s (EvTransactions (R:=N) txns h)) (sys_watch s) rs (h + zlen txns))).
  { simpl. by rewrite <- E. }
  set (s1 := with_streamer _ _ _ _ _ _ _) in H1.
  destruct (take_settles s reader s1 Hr H1) as [Hs1 Hset1].
  assert (L1 : leads_to s s1) by (eapply leads_to_one; [exact H1|done]).
  destruct (IH s1) as (s2 & L2 & Hs2 & Hset2 & Hrest); [done|by eapply leads_to_reachable|done|].
  exists s2. split; [by eapply leads_to_trans|]. split; [by eapply sends_trans|]. split; [|done].
  intros _. apply Hset2. by right.
Qed.

Lemma drain s :
  reachable_sys s → sys_started s = true →
  ∃ s', leads_to s s' ∧ sends s s' ∧ (is_Some (sys_holding s) ∨ settled s → settled s') ∧ drained s' ∧
    sys_poller s' = sys_poller s ∧ sys_feed s' = sys_feed s.
Proof.
  intros Hr Hst. destruct (drain_ranges s Hr Hst) as (s1 & L1 & S1 & T1 & Hs1 & Hr1 & Hh1 & Hp1 & Hf1).
  destruct (sys_holding s) as [r|] eqn:Eh.
  - set (s2 := with_poller hash s1 (sys_poller s1) None [r]).
    assert (H2 : step PollSend s1 = Some s2).
    { simpl. rewrite Hh1, Hr1. simpl. by rewrite (proj2 (Nat.ltb_lt _ _)) by lia. }
    assert (L2 : leads_to s s2) by (eapply leads_to_trans; [exact L1|by eapply leads_to_one; [exact H2|]]).
    destruct (drain_ranges s2) as (s3 & L3 & S3 & T3 & Hs3 & Hr3 & Hh3 & Hp3 & Hf3); [by eapply leads_to_reachable|done|].
    exists s3. split_and!; try done.
    + by eapply leads_to_trans.
    + eapply sends_trans; [exact S1|]. eapply sends_trans; [|exact S3]. by apply sends_same.
    + intros _. apply T3. by left.
    + by rewrite Hp3.
    + by rewrite Hf3.
  - exists s1. split_and!; try done. intros [ [? ?]|?]; [done|]. apply T1. by right.
Qed.

Lemma drained_taken s : inv s → drained s → sys_taken s = from_block (sys_poller s).
Proof. intros Hi (_ & Hr & Hh). pose proof (si_tiles _ _ _ _ _ _ _ Hi) as Ht. by rewrite Hr, Hh in Ht. Qed.

Lemma advance l s :
  reachable_sys s → drained s → is_u64 l → from_block (sys_poller s) ≤ l →
  block_height reader = Ok l → serves_ranges reader (namespace_id rcfg) l chain →
  ∃ s', leads_to s s' ∧ sends s s' ∧ (from_block (sys_poller s) < l ∨ settled s → settled s') ∧ drained s' ∧
    from_block (sys_poller s') = l ∧ sys_feed s' = sys_feed s.
Proof.
  intros Hr Hd Hl Hle Hbh Hserve. remember (Z.to_nat (l - from_block (sys_poller s))) as n eqn:En.
  revert s Hr Hd Hle En. induction (lt_wf n) as [n _ IH]. intros s Hr Hd Hle En.
  destruct (decide (from_block (sys_poller s) = l)) as [E|E].
  { exists s. split_and!; try done; [apply leads_to_refl|by apply sends_same|]. intros [?|?]; [lia|done]. }
  set (i := {| poll_reader := reader; poll_now := 0; channel_open := true |}).
  pose proof (si_cursor _ _ _ _ _ _ _ (sys_reachable_inv _ _ _ _ _ _ start_u64 _ Hr)) as Hcur.
  destruct (poll_once_healthy cfg (namespace_id rcfg) l chain i (sys_poller s)) as [Hf Ho]; try done.
  assert (Hsane : sane_height reader) by (intros h Hh; rewrite Hbh in Hh; by simplify_eq).
  destruct (poll_once cfg (namespace_id rcfg) i (sys_poller s)) as [p o] eqn:Ep. simpl in Hf, Ho.
  pose proof (poll_once_spec cfg _ i (sys_poller s) p o Hcur Hsane Ep) as Hspec.
  unfold HOTSHOT_RANGE_LIMIT in Hf. destruct o as [d|txns h|]; [lia| |done].
  destruct Hd as (Hst & Hrs & Hh). set (s1 := with_poller hash s p (Some (txns, h)) (sys_ranges s)).
  assert (H1 : step (PollTurn i) s = Some s1) by (simpl; by rewrite Hst, Hh, Ep).
  assert (L1 : leads_to s s1) by (eapply leads_to_one; [exact H1|done]).
  destruct (drain s1) as (s2 & L2 & S2 & T2 & Hd2 & Hp2 & Hf2); [by eapply leads_to_reachable|done|].
  assert (L12 : leads_to s s2) by by eapply leads_to_trans. change (sys_poller s2 = p) in Hp2.
  destruct (IH (Z.to_nat (l - from_block (sys_poller s2)))) with (s := s2) as (s3 & L3 & S3 & T3 & Hd3 & Hb3 & Hf3);
    try done; [rewrite Hp2; lia|by eapply leads_to_reachable|rewrite Hp2; lia|].
  exists s3. split_and!; try done.
  - by eapply leads_to_trans.
  - eapply sends_trans; [|exact S3]. eapply sends_trans; [|exact S2]. by apply sends_same.
  - intros _. apply T3. right. apply T2. left. by eexists.
  - by rewrite Hf3, Hf2.
Qed.

(** ** From the streamer to the feed *)

(** Only the relay and the feed server have moved. *)
Record relayed s s' : Prop := {
  re_drained : drained s → drained s';
  re_poller : sys_poller s' = sys_poller s;
  re_watch : sys_watch s' = sys_watch s;
  re_streamer : streamer s' = streamer s;
  re_retry : retry_of (sys_loop s') = retry_of (sys_loop s);
  re_history : sent_to s' = sent_to s;
  re_clients : clients (sys_feed s') = clients (sys_feed s);
}.

Lemma relayed_refl s : relayed s s.
Proof. done. Qed.

Lemma relayed_trans s1 s2 s3 : relayed s1 s2 → relayed s2 s3 → relayed s1 s3.
Proof. intros [D1 A1 B1 C1 E1 F1 G1] [D2 A2 B2 C2 E2 F2 G2]. split; [by auto|congruence..]. Qed.

(** The feed server takes a step of its own. *)
Lemma feed_turn s a f :
  (∀ op, a ≠ BroadcastBegin op) → feed_step ring a (sys_feed s) = Some f →
  leads_to s (with_feed hash s (sys_loop s) (sys_watch s) f (sys_ops s)).
Proof.
  intros Ha Hf. apply (leads_to_one s (FeedTurn a)); [|done]. simpl. rewrite Hf. destruct a as [op| | | | | |]; [|done..].
  by destruct (Ha op).
Qed.

(** A broadcast in progress can be finished. *)
Lemma finish_broadcast s :
  ∃ s', leads_to s s' ∧ relayed s s' ∧ inflight (sys_feed s') = None ∧ pending s' = pending s.
Proof.
  destruct (inflight (sys_feed s)) as [ [bm b]|] eqn:E; [|exists s; split_and!; [apply leads_to_refl|done..] ].
  assert (Hsend : ∀ s, inflight (sys_feed s) = Some (bm, true) →
    ∃ s', leads_to s s' ∧ relayed s s' ∧ inflight (sys_feed s') = None ∧ pending s' = pending s).
  { clear s E. intros s E. eexists. split.
    - apply (feed_turn s BroadcastSend); [done|]. simpl. rewrite E. reflexivity.
    - done. }
  destruct b; [by apply Hsend|].
  assert (L1 := feed_turn s BroadcastAppend (broadcast_append (sys_feed s) bm)). simpl in L1. rewrite E in L1.
  specialize (L1 ltac:(done) eq_refl). set (s1 := with_feed _ _ _ _ _ _) in L1.
  destruct (Hsend s1 eq_refl) as (s2 & L2 & R2 & H2). exists s2. split; [by eapply leads_to_trans|].
  split; [|done]. by eapply (relayed_trans s s1).
Qed.

(** The relay takes what the streamer has sent. *)
Lemma relay_all s :
  ∃ s', leads_to s s' ∧ relayed s s' ∧ inflight (sys_feed s') = None ∧ pending s' = [].
Proof.
  destruct (finish_broadcast s) as (s1 & L1 & R1 & I1 & P1).
  destruct (pending s1) as [|m ms] eqn:Ep; [by exists s1; rewrite Ep|].
  assert (H2 : ∃ s2, step (RelayBroadcasts (length (m :: ms))) s1 = Some s2 ∧ relayed s1 s2 ∧ pending s2 = []).
  { cbn [sys_step]. rewrite Ep, (take_ge (m :: ms)) by (simpl; lia). unfold relay_begins. cbn [relay_step].
    simpl. rewrite I1. simpl. eexists. split; [reflexivity|]. split; [done|]. simpl. rewrite Ep. apply drop_ge. simpl. lia. }
  destruct H2 as (s2 & H2 & R2 & P2). destruct (finish_broadcast s2) as (s3 & L3 & R3 & I3 & P3).
  exists s3. split_and!; [|by eapply relayed_trans; [exact R1|]; eapply relayed_trans|done|congruence].
  eapply leads_to_trans; [exact L1|]. eapply leads_to_trans; [|exact L3]. by eapply leads_to_one; [exact H2|].
Qed.

Hypothesis feed_room : (1 ≤ espresso_finalized_message_channel_capacity adv)%nat.

(** The streamer sends everything that follows its position, and the feed has it. *)
Lemma flush s :
  reachable_sys s → drained s → settled s →
  ∃ s', leads_to s s' ∧ sends s s' ∧ drained s' ∧ sys_poller s' = sys_poller s ∧
    clients (sys_feed s') = clients (sys_feed s) ∧ next_absent (R:=N) (streamer s') ∧
    inflight (sys_feed s') = None ∧ pending s' = [].
Proof.
  remember (Z.to_nat (u64_modulus - position s)) as n eqn:En. revert s En.
  induction (lt_wf n) as [n _ IH]. intros s En Hr Hd Hset.
  destruct (relay_all s) as (s1 & L1 & R1 & I1 & P1). pose proof (leads_to_reachable _ _ Hr L1) as Hr1.
  assert (S1 : sends s s1) by (apply sends_same; [apply R1|apply R1|by rewrite (re_streamer _ _ R1)]).
  pose proof (re_drained _ _ R1 Hd) as Hd1. pose proof (sys_reachable_inv _ _ _ _ _ _ start_u64 _ Hr1) as Hi1.
  assert (Hdone : next_absent (R:=N) (streamer s1) →
    ∃ s', leads_to s s' ∧ sends s s' ∧ drained s' ∧ sys_poller s' = sys_poller s ∧
      clients (sys_feed s') = clients (sys_feed s) ∧ next_absent (R:=N) (streamer s') ∧
      inflight (sys_feed s') = None ∧ pending s' = []).
  { intros Hn. exists s1. split_and!; try done; apply R1. }
  destruct Hset as [Hn|Hsch]; [apply Hdone; by rewrite (re_streamer _ _ R1)|].
  rewrite <- (re_retry _ _ R1) in Hsch. pose proof (li_retry _ _ _ _ (si_loop _ _ _ _ _ _ _ Hi1)) as Ht.
  unfold retry_inv in Ht. rewrite Hsch in Ht.
  assert (H2 : ∃ s2, step (RetryFires reader) s1 = Some s2 ∧ drained s2 ∧ sys_poller s2 = sys_poller s1 ∧ sys_feed s2 = sys_feed s1).
  { simpl. rewrite Ht. simpl. eexists. split; [reflexivity|]. by destruct Hd1 as (? & ? & ?). }
  destruct H2 as (s2 & H2 & Hd2 & Hp2 & Hf2).
  destruct (retry_settles s1 reader s2 Hr1 H2) as (S2 & T2 & Hroom).
  destruct Hroom as [Hn|Hlt]; [rewrite P1, (si_capacity _ _ _ _ _ _ _ Hi1); simpl; lia|by apply Hdone|].
  assert (L2 : leads_to s s2) by (eapply leads_to_trans; [exact L1|]; by eapply leads_to_one; [exact H2|]).
  pose proof (leads_to_reachable _ _ Hr L2) as Hr2.
  pose proof (li_position _ _ _ _ (si_loop _ _ _ _ _ _ _ (sys_reachable_inv _ _ _ _ _ _ start_u64 _ Hr2))) as Hu.
  rewrite (re_streamer _ _ R1) in Hlt.
  destruct (IH (Z.to_nat (u64_modulus - position s2))) with (s := s2) as (s3 & L3 & S3 & Hd3 & Hp3 & Hc3 & Hrest); try done.
  { unfold is_u64 in Hu. lia. }
  exists s3. split_and!; try done; try apply Hrest.
  - by eapply leads_to_trans.
  - eapply sends_trans; [exact S1|]. by eapply sends_trans.
  - rewrite Hp3, Hp2. apply R1.
  - rewrite Hc3, Hf2. apply R1.
Qed.

(** A new subscriber takes the backlog and is then up to date. *)
Lemma subscribe s id r :
  inflight (sys_feed s) = None → clients (sys_feed s) !! id = None →
  ∃ s' c, leads_to s s' ∧ sys_loop s' = sys_loop s ∧ sys_watch s' = sys_watch s ∧ (drained s → drained s') ∧ sys_poller s' = sys_poller s ∧
    inflight (sys_feed s') = None ∧ clients (sys_feed s') !! id = Some c ∧ requested c = r ∧ phase c = Live ∧
    sink_failed c = false ∧ rx c = length (channel (sys_feed s')).
Proof.
  intros Hi Hc. set (f1 := client_subscribe (sys_feed s) id r).
  assert (L1 := feed_turn s (ClientSubscribe id r) f1). simpl in L1. rewrite Hc in L1.
  specialize (L1 ltac:(done) eq_refl). set (s1 := with_feed _ _ _ _ _ _) in L1.
  set (c1 := {| requested := r; phase := Subscribed; rx := length (channel (sys_feed s)); last_sent_seq := None;
                sink_failed := false; out := [] |}).
  assert (E1 : clients (sys_feed s1) !! id = Some c1) by apply lookup_insert_eq.
  set (s2 := with_feed hash s1 (sys_loop s1) (sys_watch s1) (client_snapshot f1 id c1 WriteOk) (sys_ops s1)).
  assert (L2 : leads_to s1 s2).
  { apply (feed_turn s1 (ClientSnapshot id WriteOk)); [done|]. cbn [feed_step]. rewrite E1. cbn [mbind option_bind].
    by rewrite decide_True. }
  assert (H : ∃ c, sys_feed s2 = set_client f1 id c 0 ∧ requested c = r ∧ phase c = Live ∧ sink_failed c = false ∧
                   rx c = length (channel (sys_feed s))).
  { simpl. unfold client_snapshot. simpl. destruct (last _); eexists; by split. }
  destruct H as (c & Ef & Hrest). exists s2, c. split; [by eapply leads_to_trans|].
  split_and!; try done; try apply Hrest.
  - rewrite Ef. exact Hi.
  - rewrite Ef. apply lookup_insert_eq.
  - rewrite Ef. apply Hrest.
Qed.
End node.

(** C8. The service can always deliver: from every state the running service can reach,
    with a node that is up at a later height [l] and serves the chain, the tasks have a
    schedule, whatever the channels held before, in which the streamer comes to block
    [l], with nothing left in the channel from the poller and its index exact; and then
    every message of the gap-free run after its last position, as far as its queue has
    it, reaches a subscriber that asks for it, unless the
    message was already published as finalized. *)
Theorem service_can_deliver s l reader id r :
  reachable_sys s → sys_started s = true → clients (sys_feed s) !! id = None →
  (1 ≤ hotshot_transaction_channel_capacity adv)%nat → (1 ≤ espresso_finalized_message_channel_capacity adv)%nat →
  is_u64 l → from_block (sys_poller s) < l →
  honest rcfg chain reader → block_height reader = Ok l → serves_ranges reader (namespace_id rcfg) l chain →
  ∃ s' c, leads_to s s' ∧ sys_taken s' = l ∧ sys_ranges s' = [] ∧ sys_holding s' = None ∧
    (∀ k, finalized_idx (streamer s') < k →
       view (R:=N) (streamer s') !! k = chain_index (R:=N) chain cfg rcfg start l !! k) ∧
    clients (sys_feed s') !! id = Some c ∧ requested c = r ∧
    ∀ k, r ≤ k → position s < k →
      (∀ j, position s < j ≤ k → ∃ e, e ∈ queue (streamer s') ∧ sequence_number e = j) →
      (∃ m, m ∈ received c ∧ seq m = k) ∨ ∃ idx, idx ∈ watch_sent (sys_watch s) ∧ k ≤ idx.
Proof.
  intros Hr Hst Hid Hroom Hfeed Hl Hlt Hh Hbh Hserve.
  destruct (drain reader Hh Hroom s Hr Hst) as (s1 & L1 & S1 & _ & Hd1 & Hp1 & Hf1).
  pose proof (leads_to_reachable _ _ Hr L1) as Hr1.
  destruct (advance reader Hh Hroom l s1) as (s2 & L2 & S2 & T2 & Hd2 & Hb2 & Hf2); try done; [rewrite Hp1; lia|].
  pose proof (leads_to_reachable _ _ Hr1 L2) as Hr2.
  destruct (flush reader Hh Hroom Hfeed s2 Hr2 Hd2) as (s3 & L3 & S3 & Hd3 & Hp3 & Hc3 & Hn3 & I3 & P3).
  { apply T2. left. by rewrite Hp1. }
  destruct (subscribe s3 id r I3) as (s4 & c & L4 & El & Ew & Hd4 & Hp4 & I4 & Hc & Hq & Hlive & Hsf & Hx); [by rewrite Hc3, Hf2, Hf1|].
  assert (L : leads_to s s4) by (repeat (eapply leads_to_trans; [eassumption|]); apply leads_to_refl).
  pose proof (sys_reachable_inv _ _ _ _ _ _ start_u64 _ (leads_to_reachable _ _ Hr L)) as Hi.
  assert (Ht : sys_taken s4 = l) by (rewrite (drained_taken _ Hi (Hd4 Hd3)), Hp4, Hp3; done).
  assert (Hs : sends s s3) by (eapply sends_trans; [exact S1|]; by eapply sends_trans).
  exists s4, c. destruct (Hd4 Hd3) as (_ & Hrs & Hho). split_and!; try done.
  { rewrite <- Ht. apply (ci_index _ _ _ _ _ _ (si_chain _ _ _ _ _ _ _ Hi)). }
  intros k Hrk Hk Hall. rewrite El in Hall.
  assert (Hle : k ≤ position s3).
  { destruct (Z.le_gt_cases k (position s3)); [done|]. exfalso.
    destruct Hs as (_ & sent & _ & _ & Hp). destruct (Hall (position s3 + 1)) as (e & He & Ee); [|by apply (Hn3 e He)].
    rewrite Hp. unfold zlen in *. lia. }
  destruct (sends_covers s s3 k Hs) as (m & Hm & <-); [lia|].
  destruct (caught_up_has_all hash cfg rcfg adv ring chain s4 id c m Hi Hc Hlive Hsf Hx I4) as [?|?];
    [by rewrite El|by rewrite El|by rewrite Hq|left; by exists m|right].
  destruct Hs as [Ew3 _]. by rewrite <- Ew3, <- Ew.
Qed.
End progress.

Lemma service_can_deliver_witness :
  ∃ s' c, leads_to feed_hash small_cfg small_rollup_config run_adv 8 run_chain run_state s' ∧ sys_taken s' = 50 ∧
    clients (sys_feed s') !! 1%nat = Some c ∧ requested c = 7.
Proof.
  destruct (service_can_deliver (JL:=small_json_laws) feed_hash small_cfg small_rollup_config run_adv 8 run_chain
    run_start_u64 run_state 50 (chain_reader run_chain 50) 1 7) as (s' & c & H1 & H2 & _ & _ & _ & H3 & H4 & _).
  - exact run_state_reachable.
  - by vm_compute.
  - by vm_compute.
  - simpl. lia.
  - simpl. lia.
  - split; by vm_compute.
  - by vm_compute.
  - apply chain_reader_answers. split; by vm_compute.
  - done.
  - by intros a b _ _ _.
  - exists s', c. done.
Defined.
