(* ===== verification/L1Provider.v ===== *)
(** * The L1 provider

    The rest of [src/src/rollups/nitro/l1_monitor.rs]: [NitroL1Monitor] over its
    RPC provider, the contract reads, and [create_l1_monitor] of [nitro.rs].  The
    RPC node answers by instant, since the chain moves between two calls. *)

From S2P Require Import Prelude Bytes Slice Config Rollup NitroTypes L1Monitor.

(** [BlockNumberOrTag], as far as it is used. *)
Inductive BlockTag := Latest | BlockNumber (n : Z).

(** The WebSocket transport and the contract calls of [alloy]. *)
Class L1Rpc (Log : Type) := {
  pubsub_connect : nat → string → result unit string;
  call_bridge : nat → Address → result Address string;
  call_sequencerReportedSubMessageCount : nat → Address → BlockTag → result Z string;
  call_totalDelayedMessagesRead : nat → Address → BlockTag → result Z string;
  eth_blockNumber : nat → result Z string;
  eth_getLogs : nat → Address → Z → Z → result (list Log) string;
  eth_getFinalizedBlock : nat → result (option Z) string;
}.

Record L1MonitorConfig := {
  ws_url : string;
  cfg_sequencer_inbox_address : Address;
  cfg_log_scan_step : Z;
  cfg_max_l1_blocks_to_scan_on_startup : Z;
  cfg_l1_finalized_poll_interval_ms : Z;
}.

Record NitroL1Monitor := {
  mon_sequencer_inbox_address : Address;
  mon_bridge_address : Address;
  mon_log_scan_step : Z;
  mon_max_l1_blocks_to_scan_on_startup : Z;
  mon_l1_finalized_poll_interval_ms : Z;
}.

Record NitroBatchCursorFetcher := {
  fetcher_bridge_address : Address;
  fetcher_sequencer_inbox_address : Address;
}.

Section provider.
Context {Log : Type} {Rpc : L1Rpc Log} (decode_log : Log → result EspressoCertificateVerified string).
Open Scope cas_scope.

Definition read_bridge_address (t : nat) (sequencer_inbox : Address) : result Address L1MonitorError :=
  map_err Contract (call_bridge t sequencer_inbox).

Definition NitroL1Monitor_new (t : nat) (config : L1MonitorConfig) : result NitroL1Monitor L1MonitorError :=
  let? _ := map_err Transport (pubsub_connect t (ws_url config)) in
  let? bridge_addr := read_bridge_address t (cfg_sequencer_inbox_address config) in
  Ok {| mon_sequencer_inbox_address := cfg_sequencer_inbox_address config;
        mon_bridge_address := bridge_addr;
        mon_log_scan_step := cfg_log_scan_step config;
        mon_max_l1_blocks_to_scan_on_startup := cfg_max_l1_blocks_to_scan_on_startup config;
        mon_l1_finalized_poll_interval_ms := cfg_l1_finalized_poll_interval_ms config |}.

(** [Nitro::create_l1_monitor]. *)
Definition create_l1_monitor (t : nat) (config : NitroConfig Address) : result NitroL1Monitor L1MonitorError :=
  NitroL1Monitor_new t
    {| ws_url := l1_ws_url config; cfg_sequencer_inbox_address := sequencer_inbox_address config;
       cfg_log_scan_step := log_scan_step config;
       cfg_max_l1_blocks_to_scan_on_startup := max_l1_blocks_to_scan_on_startup config;
       cfg_l1_finalized_poll_interval_ms := l1_finalized_poll_interval_ms config |}.

Definition monitor_message_count (m : NitroL1Monitor) (t : nat) (tag : BlockTag) : result Z L1MonitorError :=
  fetch_message_count (call_sequencerReportedSubMessageCount t (mon_bridge_address m) tag).

Definition monitor_delayed_messages_read (m : NitroL1Monitor) (t : nat) (tag : BlockTag) : result Z L1MonitorError :=
  fetch_delayed_messages_read (call_totalDelayedMessagesRead t (mon_sequencer_inbox_address m) tag).

Definition create_cursor_fetcher (m : NitroL1Monitor) : NitroBatchCursorFetcher :=
  {| fetcher_bridge_address := mon_bridge_address m;
     fetcher_sequencer_inbox_address := mon_sequencer_inbox_address m |}.

(** The two calls of a cursor run concurrently and are answered at instants of
    their own, [t1] and [t2]. *)
Definition fetcher_batch_cursor (f : NitroBatchCursorFetcher) (t1 t2 : nat) : result BatchCursor L1MonitorError :=
  fetch_batch_cursor (call_sequencerReportedSubMessageCount t1 (fetcher_bridge_address f) Latest)
    (call_totalDelayedMessagesRead t2 (fetcher_sequencer_inbox_address f) Latest).

Definition fetch_latest_batch_cursor_on_fresh_deployment (m : NitroL1Monitor) (t1 t2 : nat)
    : result BatchCursor L1MonitorError :=
  let? message_count := monitor_message_count m t1 Latest in
  let? delayed_read := monitor_delayed_messages_read m t2 Latest in
  Ok {| next_batch_start_pos := message_count; last_batch_delayed_messages_read := delayed_read |}.

(** [impl LogScanner for RootProvider]. *)
Definition provider_scanner (t : nat) (inbox : Address) : LogScanner Log := {|
  get_block_number := map_err Transport (eth_blockNumber t);
  get_logs a b := map_err Transport (eth_getLogs t inbox a b);
|}.

Definition fetch_latest_checkpoint_on_startup (m : NitroL1Monitor) (t : nat)
    : option (result (CasCheckpoint BatchCursor) L1MonitorError) :=
  (scan_for_latest_checkpoint decode_log (provider_scanner t (mon_sequencer_inbox_address m))
     (mon_log_scan_step m) (mon_max_l1_blocks_to_scan_on_startup m)).1.

(** A tick of [NitroL1Monitor::start] at an instant. *)
Definition tick_input (m : NitroL1Monitor) (t : nat) : monitor_input := {|
  finalized_answer := eth_getFinalizedBlock t;
  count_at b := monitor_message_count m t (BlockNumber b);
|}.

Definition monitor_start (m : NitroL1Monitor) (ticks : list nat) : list Z :=
  monitor_run monitor_init (tick_input m <$> ticks).

(** ** A chain *)

(** The contracts' state at every block, and the head and the finalized block at
    every instant. *)
Record l1_chain := {
  inbox_bridge : Address;
  count_of : Z → Z;
  delayed_of : Z → Z;
  head_at : nat → Z;
  final_at : nat → Z;
}.

Record l1_ok (c : l1_chain) : Prop := {
  count_mono a b : a ≤ b → count_of c a ≤ count_of c b;
  genesis_message b : 1 ≤ count_of c b;
}.

(** Whatever the node answers is the chain's. *)
Record answers_from (c : l1_chain) (inbox : Address) : Prop := {
  from_bridge t a : call_bridge t inbox = Ok a → a = inbox_bridge c;
  from_count t n : call_sequencerReportedSubMessageCount t (inbox_bridge c) Latest = Ok n → n = count_of c (head_at c t);
  from_count_at t b n : call_sequencerReportedSubMessageCount t (inbox_bridge c) (BlockNumber b) = Ok n → n = count_of c b;
  from_delayed t n : call_totalDelayedMessagesRead t inbox Latest = Ok n → n = delayed_of c (head_at c t);
  from_final t b : eth_getFinalizedBlock t = Ok (Some b) → b = final_at c t;
}.

Lemma monitor_new_ok t config m c :
  answers_from c (sequencer_inbox_address config) → create_l1_monitor t config = Ok m →
  mon_bridge_address m = inbox_bridge c ∧ mon_sequencer_inbox_address m = sequencer_inbox_address config.
Proof.
  intros Hc. unfold create_l1_monitor, NitroL1Monitor_new, read_bridge_address. simpl.
  destruct (pubsub_connect _ _) as [[]|]; [|done]. simpl. destruct (call_bridge _ _) as [a|] eqn:E; [|done]. simpl.
  intros [= <-]. split; [|done]. by apply (from_bridge c _ Hc) in E.
Qed.

Lemma U256_to_u64_ok z z' : U256_to_u64 z = Ok z' → z' = z ∧ is_u64 z.
Proof.
  unfold U256_to_u64, is_u64. destruct (Z.leb_spec 0 z), (Z.ltb_spec z u64_modulus); simpl; try done.
  intros [= <-]. lia.
Qed.

(** The cursor fetched for a batch and the cursor of a fresh deployment are the
    same function of the two answers. *)
Lemma fresh_cursor_eq m t1 t2 :
  fetch_latest_batch_cursor_on_fresh_deployment m t1 t2 = fetcher_batch_cursor (create_cursor_fetcher m) t1 t2.
Proof. done. Qed.

Lemma cursor_of_chain c m t1 t2 cur :
  answers_from c (mon_sequencer_inbox_address m) → mon_bridge_address m = inbox_bridge c →
  fetcher_batch_cursor (create_cursor_fetcher m) t1 t2 = Ok cur →
  next_batch_start_pos cur = count_of c (head_at c t1) ∧
  last_batch_delayed_messages_read cur = delayed_of c (head_at c t2) ∧
  is_u64 (next_batch_start_pos cur) ∧ is_u64 (last_batch_delayed_messages_read cur).
Proof.
  intros Hc Hb. unfold fetcher_batch_cursor, fetch_batch_cursor, fetch_message_count, fetch_delayed_messages_read.
  simpl. rewrite Hb. destruct (call_sequencerReportedSubMessageCount t1 _ _) as [n|] eqn:En; [|done]. simpl.
  destruct (U256_to_u64 n) as [n'|] eqn:Eu; [|done].
  destruct (call_totalDelayedMessagesRead t2 _ _) as [d|] eqn:Ed; [|done]. simpl.
  destruct (U256_to_u64 d) as [d'|] eqn:Eud; [|done]. intros [= <-]. simpl.
  apply U256_to_u64_ok in Eu as [-> Hn]. apply U256_to_u64_ok in Eud as [-> Hd].
  split_and!; [by apply (from_count c _ Hc)|by apply (from_delayed c _ Hc)|done|done].
Qed.

Lemma monitor_counts c m t :
  answers_from c (mon_sequencer_inbox_address m) → mon_bridge_address m = inbox_bridge c →
  counts_from (count_of c) (tick_input m t).
Proof.
  intros Hc Hb b n. simpl. unfold monitor_message_count, fetch_message_count. rewrite Hb.
  destruct (call_sequencerReportedSubMessageCount _ _ _) eqn:E; [|done]. simpl.
  intros [-> _]%U256_to_u64_ok. by apply (from_count_at c _ Hc) in E.
Qed.

(** C34. A fresh start on L1: with a monitor made for the configured inbox, the
    cursor a fresh deployment starts from, and every cursor fetched later, reads
    the message count of the head block of one call and the delayed count of the
    head block of the other, a single block's state when the head does not move in
    between; it fits [u64].  Whenever the monitor ticks, before or after that, the
    indices it publishes never decrease, and each is the last message of the block
    that is final at its tick; so it stays below the start position as long as
    finality has not passed the head block the cursor was read at, and nothing the
    deployment starts with is taken for finalized before. *)
Theorem fresh_start_above_finality c config t0 m t1 t2 cur ticks :
  l1_ok c → answers_from c (sequencer_inbox_address config) →
  create_l1_monitor t0 config = Ok m →
  fetch_latest_batch_cursor_on_fresh_deployment m t1 t2 = Ok cur →
  next_batch_start_pos cur = count_of c (head_at c t1) ∧
  last_batch_delayed_messages_read cur = delayed_of c (head_at c t2) ∧
  is_u64 (next_batch_start_pos cur) ∧ is_u64 (last_batch_delayed_messages_read cur) ∧
  fetcher_batch_cursor (create_cursor_fetcher m) t1 t2 = Ok cur ∧
  StronglySorted Z.le (monitor_start m ticks) ∧
  ∀ idx, idx ∈ monitor_start m ticks →
    ∃ t, t ∈ ticks ∧ 0 ≤ idx ∧ idx = count_of c (final_at c t) - 1 ∧
      (final_at c t ≤ head_at c t1 → idx < next_batch_start_pos cur).
Proof.
  intros Hok Hc Hm Hcur. destruct (monitor_new_ok t0 config m c Hc Hm) as [Hb Hi]. rewrite <- Hi in Hc.
  rewrite fresh_cursor_eq in Hcur. destruct (cursor_of_chain c m t1 t2 cur Hc Hb Hcur) as (Hn & Hd & Hn64 & Hd64).
  destruct (finalized_run (count_of c) monitor_init (tick_input m <$> ticks)) as [Hs Hidx].
  { apply (count_mono c Hok). }
  { apply Forall_fmap, Forall_true. intros t. by apply monitor_counts. }
  split_and!; [done..|]. intros idx Hin. destruct (Hidx idx Hin) as (i & b & Hini & Hf & _ & ->).
  apply list_elem_of_fmap in Hini as (t & -> & Htin). simpl in Hf. apply (from_final c _ Hc) in Hf as ->.
  pose proof (genesis_message c Hok (final_at c t)). exists t. unfold saturating_sub. split_and!; [done|lia|lia|].
  intros Hle%(count_mono c Hok). rewrite Hn. lia.
Qed.
End provider.

(** ** A concrete L1 *)

(** Three messages and two delayed messages per block; the head moves by one block
    per instant, and finality is ten blocks behind. *)
Definition toy_l1 : l1_chain := {|
  inbox_bridge := [];
  count_of b := 1 + Z.max 0 (3 * b);
  delayed_of b := Z.max 0 (2 * b);
  head_at t := 100 + Z.of_nat t;
  final_at t := 90 + Z.of_nat t;
|}.

Lemma toy_l1_ok : l1_ok toy_l1.
Proof. split; simpl; intros; lia. Qed.

Definition toy_rpc : L1Rpc Z := {|
  pubsub_connect _ _ := Ok tt;
  call_bridge _ _ := Ok [];
  call_sequencerReportedSubMessageCount t _ tag :=
    Ok (count_of toy_l1 match tag with Latest => head_at toy_l1 t | BlockNumber b => b end);
  call_totalDelayedMessagesRead t _ tag :=
    Ok (delayed_of toy_l1 match tag with Latest => head_at toy_l1 t | BlockNumber b => b end);
  eth_blockNumber t := Ok (head_at toy_l1 t);
  eth_getLogs _ _ _ _ := Ok [];
  eth_getFinalizedBlock t := Ok (Some (final_at toy_l1 t));
|}.

Lemma toy_rpc_answers inbox : answers_from (Rpc:=toy_rpc) toy_l1 inbox.
Proof. split; simpl; intros; by simplify_eq. Qed.

Definition toy_l1_config : NitroConfig Address := {|
  legacy_signer_addresses := []; chain_id := 412346;
  feed := {| client := default_BroadcasterClientConfig; server := default_BroadcasterConfig;
             web_socket_url := "ws://feed"; current_message_count := 0 |};
  l1_http_url := "http://l1"; l1_ws_url := "ws://l1"; sequencer_inbox_address := [];
  log_scan_step := 10000; max_l1_blocks_to_scan_on_startup := 0; l1_finalized_poll_interval_ms := 12000 |}.

Definition toy_monitor : NitroL1Monitor := {|
  mon_sequencer_inbox_address := []; mon_bridge_address := []; mon_log_scan_step := 10000;
  mon_max_l1_blocks_to_scan_on_startup := 0; mon_l1_finalized_poll_interval_ms := 12000 |}.

Lemma fresh_start_above_finality_witness :
  fetch_latest_batch_cursor_on_fresh_deployment (Rpc:=toy_rpc) toy_monitor 3 3 =
    Ok {| last_batch_delayed_messages_read := 206; next_batch_start_pos := 310 |} ∧
  monitor_start (Rpc:=toy_rpc) toy_monitor [4%nat; 5%nat; 13%nat; 15%nat] = [282; 285; 309; 315] ∧
  ∀ idx, idx ∈ monitor_start (Rpc:=toy_rpc) toy_monitor [4%nat; 5%nat; 13%nat] → idx < 310.
Proof.
  split; [by vm_compute|]. split; [by vm_compute|]. intros idx Hidx.
  destruct (fresh_start_above_finality (Rpc:=toy_rpc) toy_l1 toy_l1_config 0 toy_monitor 3 3
    {| last_batch_delayed_messages_read := 206; next_batch_start_pos := 310 |}
    [4%nat; 5%nat; 13%nat] toy_l1_ok (toy_rpc_answers _)) as (_ & _ & _ & _ & _ & _ & H).
  - by vm_compute.
  - by vm_compute.
  - destruct (H idx Hidx) as (t & Ht & _ & _ & Hlt). apply Hlt. apply list_elem_of_In in Ht. simpl in *. lia.
Defined.

(** When a block arrives between the two calls the cursor is the state of no block:
    the count is that of block 103 and the delayed count that of block 104. *)
Lemma cursor_may_tear :
  ∃ cur, fetch_latest_batch_cursor_on_fresh_deployment (Rpc:=toy_rpc) toy_monitor 3 4 = Ok cur ∧
    ∀ b, ¬ (next_batch_start_pos cur = count_of toy_l1 b ∧ last_batch_delayed_messages_read cur = delayed_of toy_l1 b).
Proof. eexists. split; [by vm_compute|]. simpl. intros b. lia. Qed.
