(* ===== verification/Submitter.v ===== *)
(** * The submitter

    [src/src/submitter/submitter.rs]: messages are drained from a channel, turned
    into transactions by [tx_ctor] and submitted by spawned tasks, at most
    [max_in_flight] of them at a time; a task resubmits its transaction until the
    node reports it.

    The main loop and the tasks interleave: a step is a message arriving, a turn
    of the main loop up to the semaphore, the acquisition of a permit with the
    spawn, or one answer of the node to one task.  [batches] and [enqueued] record
    the history of the channel. *)

From S2P Require Import Prelude Bytes Slice Config Rollup Poller.

(** ** One task *)

Section task.
Context (config : SubmitterConfig).

(** The transaction is being submitted, or polled for with the number of failed
    polls so far.  The backoff is the next sleep. *)
Inductive task_phase :=
| Submitting (backoff : Z)
| Polling (poll_attempts : Z) (backoff : Z).

Definition task_init : task_phase := Submitting (from_millis (sub_initial_backoff_ms config)).

(** The node's answer to the task's next call, and what the task does with it;
    [None] when it completes and releases its permit. *)
Definition task_step (t : task_phase) (answer : bool) : option task_phase :=
  let grow b := exponential_backoff b (from_millis (sub_max_backoff_ms config)) in
  match t with
  | Submitting backoff =>
      if answer then Some (Polling 0 (from_millis (sub_initial_backoff_ms config)))
      else Some (Submitting (grow backoff))
  | Polling poll_attempts backoff =>
      if answer then None
      else
        let poll_attempts := poll_attempts + 1 in
        if max_finalization_poll_retries config <=? poll_attempts then Some task_init
        else Some (Polling poll_attempts (grow backoff))
  end.

Fixpoint task_run (t : task_phase) (answers : list bool) : option task_phase :=
  match answers with
  | [] => Some t
  | a :: answers' => match task_step t a with Some t' => task_run t' answers' | None => None end
  end.
End task.

(** ** The submitter *)

Section submitter.
Context {M Tx : Type} (config : SubmitterConfig) (tx_ctor : list M → list Tx).

(** Where the main loop is: at its top, waiting for a permit for a transaction,
    or returned with [ChannelClosed]. *)
Inductive main_phase := LoopTop | Acquiring (tx : Tx) | Returned.

Record submitter_state := {
  unsubmitted_msgs : list M;
  channel_closed : bool;
  unsubmitted_txs : list Tx;
  main : main_phase;
  permits : nat;
  spawned : list Tx;
  tasks : gmap nat task_phase;
  batches : list (list M);
  enqueued : list M;
}.

Definition submitter_new : submitter_state := {|
  unsubmitted_msgs := []; channel_closed := false; unsubmitted_txs := []; main := LoopTop;
  permits := max_in_flight config; spawned := []; tasks := ∅; batches := []; enqueued := [] |}.

(** A turn of the loop, up to the semaphore.  It blocks ([None]) when there is
    nothing to submit and nothing in an open channel. *)
Definition loop_turn (s : submitter_state) : option submitter_state :=
  let set_main m msgs txs bs :=
    {| unsubmitted_msgs := msgs; channel_closed := channel_closed s; unsubmitted_txs := txs; main := m;
       permits := permits s; spawned := spawned s; tasks := tasks s; batches := bs; enqueued := enqueued s |} in
  match unsubmitted_txs s, unsubmitted_msgs s with
  | [], [] => if channel_closed s then Some (set_main Returned [] [] (batches s)) else None
  | txs, pending_msgs =>
      let '(txs', bs) :=
        match pending_msgs with
        | [] => (txs, batches s)
        | _ => (txs ++ tx_ctor pending_msgs, batches s ++ [pending_msgs])
        end in
      match txs' with
      | [] => Some (set_main LoopTop [] [] bs)
      | tx :: rest => Some (set_main (Acquiring tx) [] rest bs)
      end
  end.

Inductive submitter_action :=
| Enqueue (m : M)
| CloseChannel
| LoopTurn
| AcquirePermit
| TaskAnswer (id : nat) (answer : bool).

Definition submitter_step (s : submitter_state) (a : submitter_action) : option submitter_state :=
  match a, main s with
  | Enqueue m, _ =>
      if channel_closed s then None
      else Some {| unsubmitted_msgs := unsubmitted_msgs s ++ [m]; channel_closed := false;
                   unsubmitted_txs := unsubmitted_txs s; main := main s; permits := permits s;
                   spawned := spawned s; tasks := tasks s; batches := batches s;
                   enqueued := enqueued s ++ [m] |}
  | CloseChannel, _ =>
      Some {| unsubmitted_msgs := unsubmitted_msgs s; channel_closed := true;
              unsubmitted_txs := unsubmitted_txs s; main := main s; permits := permits s;
              spawned := spawned s; tasks := tasks s; batches := batches s; enqueued := enqueued s |}
  | LoopTurn, LoopTop => loop_turn s
  | AcquirePermit, Acquiring tx =>
      match permits s with
      | O => None
      | S permits' =>
          Some {| unsubmitted_msgs := unsubmitted_msgs s; channel_closed := channel_closed s;
                  unsubmitted_txs := unsubmitted_txs s; main := LoopTop; permits := permits';
                  spawned := spawned s ++ [tx];
                  tasks := <[length (spawned s) := task_init config]> (tasks s);
                  batches := batches s; enqueued := enqueued s |}
      end
  | TaskAnswer id answer, _ =>
      t ← tasks s !! id;
      let set_tasks p ts :=
        {| unsubmitted_msgs := unsubmitted_msgs s; channel_closed := channel_closed s;
           unsubmitted_txs := unsubmitted_txs s; main := main s; permits := p; spawned := spawned s;
           tasks := ts; batches := batches s; enqueued := enqueued s |} in
      match task_step config t answer with
      | Some t' => Some (set_tasks (permits s) (<[id := t']> (tasks s)))
      | None => Some (set_tasks (S (permits s)) (delete id (tasks s)))
      end
  | _, _ => None
  end.

Inductive submitter_reachable : submitter_state → Prop :=
| submitter_reachable_new : submitter_reachable submitter_new
| submitter_reachable_step s a s' :
    submitter_reachable s → submitter_step s a = Some s' → submitter_reachable s'.

Fixpoint submitter_exec (acts : list submitter_action) (s : submitter_state) : option submitter_state :=
  match acts with
  | [] => Some s
  | a :: acts' => s' ← submitter_step s a; submitter_exec acts' s'
  end.

(** ** Invariant *)

Definition acquiring (m : main_phase) : list Tx := match m with Acquiring tx => [tx] | _ => [] end.

Record submitter_inv (s : submitter_state) : Prop := {
  si_permits : (size (tasks s) + permits s = max_in_flight config)%nat;
  si_tasks id : is_Some (tasks s !! id) → (id < length (spawned s))%nat;
  si_txs : mjoin (tx_ctor <$> batches s) = spawned s ++ acquiring (main s) ++ unsubmitted_txs s;
  si_msgs : enqueued s = mjoin (batches s) ++ unsubmitted_msgs s;
  si_returned : main s = Returned → unsubmitted_txs s = [] ∧ unsubmitted_msgs s = [] ∧ channel_closed s = true;
}.

Lemma loop_turn_inv s s' : main s = LoopTop → submitter_inv s → loop_turn s = Some s' → submitter_inv s'.
Proof.
  intros Hm [H1 H2 H3 H4 H5] H. unfold loop_turn in H. rewrite Hm in H3. simpl in H3.
  destruct (unsubmitted_msgs s) as [|m msgs].
  - destruct (unsubmitted_txs s) as [|tx txs].
    + destruct (channel_closed s) eqn:Ec; [|done]. apply (inj Some) in H. subst s'. by split.
    + apply (inj Some) in H. subst s'. by split.
  - assert (E : mjoin (tx_ctor <$> (batches s ++ [m :: msgs])) =
                spawned s ++ unsubmitted_txs s ++ tx_ctor (m :: msgs)).
    { rewrite fmap_app, join_app, H3. simpl. by rewrite app_nil_r, (assoc_L (++)). }
    assert (E' : enqueued s = mjoin (batches s ++ [m :: msgs]) ++ []).
    { rewrite H4, join_app. simpl. by rewrite !app_nil_r. }
    assert (H' : Some s' = match unsubmitted_txs s ++ tx_ctor (m :: msgs) with
      | [] => Some {| unsubmitted_msgs := []; channel_closed := channel_closed s; unsubmitted_txs := [];
                      main := LoopTop; permits := permits s; spawned := spawned s; tasks := tasks s;
                      batches := batches s ++ [m :: msgs]; enqueued := enqueued s |}
      | tx :: rest => Some {| unsubmitted_msgs := []; channel_closed := channel_closed s;
                      unsubmitted_txs := rest; main := Acquiring tx; permits := permits s;
                      spawned := spawned s; tasks := tasks s;
                      batches := batches s ++ [m :: msgs]; enqueued := enqueued s |}
      end) by (rewrite <- H; by destruct (unsubmitted_txs s)).
    clear H. destruct (unsubmitted_txs s ++ tx_ctor (m :: msgs)) as [|tx rest];
      apply (inj Some) in H'; subst s'; split; try done; simpl; by rewrite E.
Qed.

Lemma submitter_step_inv s a s' : submitter_inv s → submitter_step s a = Some s' → submitter_inv s'.
Proof.
  intros Hi H. destruct a as [m| | | |id answer]; simpl in H.
  - destruct (channel_closed s) eqn:Ec; [done|]. simplify_eq. destruct Hi as [H1 H2 H3 H4 H5].
    split; try done; simpl. + by rewrite H4, (assoc_L (++)). + intros Hr. destruct (H5 Hr) as (_ & _ & ?). congruence.
  - simplify_eq. destruct Hi as [H1 H2 H3 H4 H5]. split; try done; simpl. intros Hr. by destruct (H5 Hr) as (? & ? & _).
  - destruct (main s) eqn:Em; try done. by eapply loop_turn_inv.
  - destruct (main s) as [|tx|] eqn:Em; try done. destruct Hi as [H1 H2 H3 H4 H5].
    destruct (permits s) as [|p] eqn:Ep; [done|]. simplify_eq. split; try done; simpl.
    + rewrite map_size_insert_None; [lia|]. destruct (tasks s !! length (spawned s)) eqn:E; [|done].
      specialize (H2 _ (mk_is_Some _ _ E)). lia.
    + intros id. rewrite length_app. simpl. destruct (decide (id = length (spawned s))) as [-> |Hne]; [lia|].
      rewrite lookup_insert_ne by done. intros Hs. specialize (H2 id Hs). lia.
    + rewrite H3, Em. simpl. by rewrite <- (assoc_L (++)).
  - destruct (tasks s !! id) as [t|] eqn:Et; simpl in H; [|done]. destruct Hi as [H1 H2 H3 H4 H5].
    destruct (task_step config t answer) as [t'|]; simplify_eq; split; try done; simpl.
    + rewrite map_size_insert_Some by done. done.
    + intros id'. destruct (decide (id' = id)) as [-> |Hne]; [intros _; eauto|]. rewrite lookup_insert_ne by done. apply H2.
    + rewrite map_size_delete_Some by done.
      assert (size (tasks s) ≠ 0)%nat; [|lia]. apply (map_size_ne_0_lookup_2 _ id). eauto.
    + intros id' [t' Ht']. apply lookup_delete_Some in Ht' as [_ Ht']. eauto.
Qed.

Lemma submitter_inv_reachable s : submitter_reachable s → submitter_inv s.
Proof.
  induction 1 as [|s a s' Hr IH Hst]; [|by eapply submitter_step_inv].
  split; try done. intros id [t Ht]. simpl in Ht. by rewrite lookup_empty in Ht.
Qed.
End submitter.

(** ** Theorems *)

Section theorems.
Context {M Tx : Type} (config : SubmitterConfig) (tx_ctor : list M → list Tx).

Lemma submitter_exec_reachable acts s s' :
  submitter_reachable config tx_ctor s → submitter_exec config tx_ctor acts s = Some s' →
  submitter_reachable config tx_ctor s'.
Proof.
  revert s. induction acts as [|a acts IH]; intros s Hr H; simpl in H; [by simplify_eq|].
  destruct (submitter_step config tx_ctor s a) as [s1|] eqn:E; simpl in H; [|done].
  apply (IH s1); [|done]. by eapply submitter_reachable_step.
Qed.

(** C25. Bounded, first-in first-out and lossless: at most [max_in_flight]
    transactions are in flight; the messages that arrived are, in order, those of
    the batches handed to [tx_ctor] and those still in the channel; and the
    transactions built from the batches are, in order, those spawned, the one
    waiting for a permit and those still queued.  When the loop returns, all of
    them have been spawned. *)
Theorem submitter_fifo s :
  submitter_reachable config tx_ctor s →
  (size (tasks s) ≤ max_in_flight config)%nat ∧
  enqueued s = mjoin (batches s) ++ unsubmitted_msgs s ∧
  mjoin (tx_ctor <$> batches s) = spawned s ++ acquiring (main s) ++ unsubmitted_txs s ∧
  (main s = Returned → enqueued s = mjoin (batches s) ∧ mjoin (tx_ctor <$> batches s) = spawned s).
Proof.
  intros Hr. destruct (submitter_inv_reachable _ _ _ Hr) as [H1 H2 H3 H4 H5].
  split_and!; [lia|done|done|]. intros Hm. destruct (H5 Hm) as (E1 & E2 & _).
  rewrite H4, H3, Hm, E1, E2. simpl. by rewrite !app_nil_r.
Qed.

(** C26. The submitter never deadlocks: unless it has returned, or has nothing to
    submit and waits on an open, empty channel, either the main loop can move, or
    every permit is held by a task and every such task moves with the node's next
    answer. *)
Theorem submitter_deadlock_free s :
  submitter_reachable config tx_ctor s → (0 < max_in_flight config)%nat → main s ≠ Returned →
  (main s = LoopTop ∧ unsubmitted_txs s = [] ∧ unsubmitted_msgs s = [] ∧ channel_closed s = false) ∨
  (∃ a s', (a = LoopTurn ∨ a = AcquirePermit) ∧ submitter_step config tx_ctor s a = Some s') ∨
  (size (tasks s) = max_in_flight config ∧
   ∀ id answer, is_Some (tasks s !! id) → is_Some (submitter_step config tx_ctor s (TaskAnswer id answer))).
Proof.
  intros Hr Hpos Hm. destruct (submitter_inv_reachable _ _ _ Hr) as [H1 _ _ _ _].
  destruct (main s) as [|tx|] eqn:Em; [| |done].
  - assert (Hl : is_Some (loop_turn tx_ctor s) ∨ (unsubmitted_txs s = [] ∧ unsubmitted_msgs s = [] ∧ channel_closed s = false)).
    { unfold loop_turn. destruct (unsubmitted_txs s), (unsubmitted_msgs s), (channel_closed s); auto;
        left; simpl; try (case_match; eauto); eauto. }
    destruct Hl as [ [s' Hs']|Hl]; [|by left]. right; left. exists LoopTurn, s'. split; [by left|].
    simpl. by rewrite Em.
  - destruct (permits s) as [|p] eqn:Ep.
    + right; right. split; [lia|]. intros id answer [t Ht]. simpl. rewrite Ht. simpl.
      destruct (task_step config t answer); eauto.
    + right; left. eexists AcquirePermit, _. split; [by right|]. simpl. by rewrite Em, Ep.
Qed.
End theorems.

Section tasks.
Context (config : SubmitterConfig).

Lemma task_run_app t l1 l2 :
  task_run config t (l1 ++ l2) = match task_run config t l1 with Some t' => task_run config t' l2 | None => None end.
Proof.
  revert t. induction l1 as [|a l1 IH]; intros t; simpl; [done|]. destruct (task_step config t a); [apply IH|done].
Qed.

(** The [k]-th failed poll: the task goes on polling below the maximum, and goes
    back to submitting at it. *)
Lemma task_polls k b n :
  0 ≤ n → n + Z.of_nat k < max_finalization_poll_retries config →
  ∃ b', task_run config (Polling n b) (replicate k false) = Some (Polling (n + Z.of_nat k) b').
Proof.
  revert n b. induction k as [|k IH]; intros n b Hn Hk.
  { exists b. simpl. do 2 f_equal. lia. }
  cbn [replicate task_run task_step]. destruct (max_finalization_poll_retries config <=? n + 1) eqn:E.
  { apply Z.leb_le in E. lia. }
  destruct (IH (n + 1) (exponential_backoff b (from_millis (sub_max_backoff_ms config)))) as [b' E']; [lia..|].
  exists b'. rewrite E'. do 2 f_equal. lia.
Qed.

(** A task completes as soon as the node accepts its transaction and then
    reports it, whatever happened before; after an accepted submission it polls
    exactly [max_finalization_poll_retries] times before it resubmits; and the
    answer it completes on is the node reporting the transaction. *)
Theorem task_completes t before after b retries :
  max_finalization_poll_retries config = Z.of_nat (S retries) →
  task_run config t (before ++ [true; true] ++ after) = None ∧
  (∃ b', task_run config (Polling 0 b) (replicate retries false) = Some (Polling (Z.of_nat retries) b')) ∧
  task_run config (Polling 0 b) (replicate (S retries) false) = Some (task_init config) ∧
  ∀ answers, task_run config t answers = None →
    ∃ l1 l2 n b', answers = l1 ++ true :: l2 ∧ task_run config t l1 = Some (Polling n b').
Proof.
  intros Hr. split_and!.
  - rewrite task_run_app. destruct (task_run config t before) as [ [b1|n b1]|]; done.
  - apply (task_polls retries b 0); lia.
  - replace (S retries) with (retries + 1)%nat by lia. rewrite replicate_add, task_run_app.
    destruct (task_polls retries b 0) as [b' ->]; [lia..|]. cbn [replicate task_run task_step].
    destruct (max_finalization_poll_retries config <=? 0 + Z.of_nat retries + 1) eqn:E; [done|].
    apply Z.leb_gt in E. lia.
  - intros answers. revert t. induction answers as [|a answers IH]; intros t H; simpl in H; [done|].
    destruct (task_step config t a) as [t'|] eqn:E.
    + destruct (IH t' H) as (l1 & l2 & n & b' & -> & E'). exists (a :: l1), l2, n, b'. split; [done|].
      simpl. by rewrite E.
    + destruct t as [b1|n b1]; simpl in E; [by destruct a|]. destruct a.
      * by exists [], answers, n, b1.
      * case_bool; done.
Qed.
End tasks.

(** ** A concrete run: two messages batched, one permit *)

Definition toy_submitter_config : SubmitterConfig := {|
  max_in_flight := 1; finalization_wait_ms := 5000; sub_initial_backoff_ms := 100;
  sub_max_backoff_ms := 10000; max_finalization_poll_retries := 5 |}.

Definition toy_ctor (msgs : list Z) : list (list Z) := (λ m, [m]) <$> msgs.

Definition toy_submitter_actions : list (submitter_action (M:=Z)) :=
  [Enqueue 1; Enqueue 2; LoopTurn; AcquirePermit; Enqueue 3; LoopTurn; TaskAnswer 0 true].

Definition toy_submitter : submitter_state (M:=Z) (Tx:=list Z) :=
  default (submitter_new toy_submitter_config)
    (submitter_exec toy_submitter_config toy_ctor toy_submitter_actions (submitter_new toy_submitter_config)).

Lemma toy_submitter_reachable : submitter_reachable toy_submitter_config toy_ctor toy_submitter.
Proof.
  apply (submitter_exec_reachable _ _ toy_submitter_actions (submitter_new toy_submitter_config));
    [constructor|vm_compute; reflexivity].
Qed.

Lemma submitter_fifo_witness :
  spawned toy_submitter = [ [1] ] ∧ unsubmitted_txs toy_submitter = [ [3] ] ∧
  mjoin (toy_ctor <$> batches toy_submitter) =
    spawned toy_submitter ++ acquiring (main toy_submitter) ++ unsubmitted_txs toy_submitter.
Proof.
  split; [vm_compute; reflexivity|]. split; [vm_compute; reflexivity|].
  apply (submitter_fifo toy_submitter_config toy_ctor toy_submitter toy_submitter_reachable).
Defined.

Lemma submitter_deadlock_free_witness :
  permits toy_submitter = 0%nat ∧
  ((main toy_submitter = LoopTop ∧ unsubmitted_txs toy_submitter = [] ∧
    unsubmitted_msgs toy_submitter = [] ∧ channel_closed toy_submitter = false) ∨
   (∃ a s', (a = LoopTurn ∨ a = AcquirePermit) ∧
      submitter_step toy_submitter_config toy_ctor toy_submitter a = Some s') ∨
   (size (tasks toy_submitter) = max_in_flight toy_submitter_config ∧
    ∀ id answer, is_Some (tasks toy_submitter !! id) →
      is_Some (submitter_step toy_submitter_config toy_ctor toy_submitter (TaskAnswer id answer)))).
Proof.
  split; [vm_compute; reflexivity|].
  apply (submitter_deadlock_free toy_submitter_config toy_ctor toy_submitter toy_submitter_reachable).
  - vm_compute. lia.
  - vm_compute. discriminate.
Defined.

Lemma task_completes_witness :
  task_run toy_submitter_config (task_init toy_submitter_config) ([false; true; false] ++ [true; true] ++ []) = None.
Proof.
  refine (proj1 (task_completes toy_submitter_config (task_init toy_submitter_config) [false; true; false] [] 0 4 _)).
  reflexivity.
Defined.
