(* ===== verification/DaError.v ===== *)
(** * Errors of the DA API

    [src/src/da_api/error.rs]: the error type, its JSON-RPC codes and HTTP
    statuses, and the recognition of Nitro's error messages. *)

From S2P Require Import Prelude Bytes.
From Stdlib Require Import Strings.String.
#[global] Open Scope Z_scope.

Definition NITRO_ERR_MESSAGE_TOO_LARGE : string := "message too large for current DA backend".
Definition NITRO_ERR_FALLBACK_REQUESTED : string := "DA provider requests fallback to next writer".

(** The payloads that carry another library's error keep its message. *)
Inductive DaApiError :=
| CertificateSerializationFailed (msg : string)
| InvalidParams (msg : string)
| CertificateValidation (msg : string)
| InvalidRequest (msg : string)
| InvalidHeaderByte (b : u8)
| InvalidCertificateLength (len : nat)
| InvalidSequencerMessageLength (expected got : nat)
| ChannelError (msg : string)
| InvalidCasSignature
| UnsupportedDaType (b : bytes)
| DecoderError (msg : string)
| DownstreamDa (msg : string)
| ZkCircuit (msg : string)
| Signing (msg : string)
| Serialization (msg : string)
| Configuration (msg : string)
| StorageUnavailable (msg : string)
| Rpc (msg : string)
| HexDecode (msg : string)
| Io (msg : string)
| Json (msg : string)
| ParsingError (msg : string)
| DynamicBatchingResize
| FallbackRequested (msg : string).

#[export] Instance DaApiError_eq_dec : EqDecision DaApiError.
Proof. solve_decision. Defined.

Definition jsonrpc_code (e : DaApiError) : Z :=
  match e with
  | InvalidParams _ | InvalidHeaderByte _ | InvalidSequencerMessageLength _ _
  | InvalidCertificateLength _ | CertificateValidation _ | InvalidCasSignature
  | UnsupportedDaType _ | DecoderError _ => -32602
  | Json _ | HexDecode _ | ParsingError _ => -32700
  | InvalidRequest _ => -32600
  | _ => -32603
  end.

Definition OK : Z := 200.
Definition BAD_REQUEST : Z := 400.
Definition BAD_GATEWAY : Z := 502.
Definition INTERNAL_SERVER_ERROR : Z := 500.

(** The status of [IntoResponse for DaApiError]. *)
Definition error_status (e : DaApiError) : Z :=
  match e with
  | InvalidParams _ | DynamicBatchingResize => BAD_REQUEST
  | DownstreamDa _ => BAD_GATEWAY
  | _ => INTERNAL_SERVER_ERROR
  end.

Record JsonRpcError := {
  code : Z;
  rpc_message : string;
}.

(** [str::contains]. *)
Fixpoint contains (haystack needle : string) : bool :=
  String.prefix needle haystack ||
  match haystack with
  | EmptyString => false
  | String.String _ rest => contains rest needle
  end.

(** [From<JsonRpcError> for DaApiError] *)
Definition from_jsonrpc_error (err : JsonRpcError) : DaApiError :=
  if contains (rpc_message err) NITRO_ERR_MESSAGE_TOO_LARGE then DynamicBatchingResize
  else if contains (rpc_message err) NITRO_ERR_FALLBACK_REQUESTED then FallbackRequested (rpc_message err)
  else DownstreamDa (rpc_message err).

Lemma prefix_append needle rest : String.prefix needle (needle +:+ rest) = true.
Proof.
  induction needle as [|c needle IH]; [by destruct rest|]. simpl.
  destruct (Ascii.ascii_dec c c); done.
Qed.

(** A needle is found wherever it sits. *)
Lemma contains_middle before needle after : contains (before +:+ needle +:+ after) needle = true.
Proof.
  induction before as [|c before IH].
  - change (EmptyString +:+ needle +:+ after) with (needle +:+ after).
    pose proof (prefix_append needle after) as Hp.
    destruct (needle +:+ after); cbn [contains]; by rewrite Hp.
  - change (String.String c before +:+ needle +:+ after)
      with (String.String c (before +:+ needle +:+ after)).
    set (h := before +:+ needle +:+ after) in *. cbn [contains]. rewrite IH. by rewrite orb_true_r.
Qed.
