(* ===== verification/EspressoClient.v ===== *)
(** * The Espresso clients

    [src/src/espresso_client/]: the query-service client of [client.rs] and the
    two implementations of [EspressoReader] of [light_client.rs].  The network
    and the [light-client] crate are parameters whose answers depend on the
    instant at which they are asked. *)

From S2P Require Import Prelude Bytes Slice Config Rollup MockRollup Streamer StreamerProofs StreamerRun.
From S2P Require Import StreamerTheorems Poller FeedClient DaError.

Definition NOT_FOUND : Z := 404.

(** [StatusCode::is_success]. *)
Definition is_success (status : Z) : bool := (200 <=? status) && (status <? 300).

(** An [anyhow::Error]: the typed [NotFound], or any other error with its text. *)
Inductive AnyError :=
| NotFound
| OtherError (msg : string).

(** [format!("{e:#}")]. *)
Definition error_text (e : AnyError) : string :=
  match e with
  | NotFound => "resource not yet available (404)"
  | OtherError msg => msg
  end.

(** What [poll_hotshot_blocks] takes for a 404. *)
Definition is_not_found (e : AnyError) : bool :=
  match e with
  | NotFound => true
  | OtherError msg => contains msg "error 404"
  end.

(** [LightClientError::Verification]. *)
Definition Verification (e : AnyError) : LightClientError := LcVerification (is_not_found e) (error_text e).

(** ** The query-service client *)

(** The proof that comes with the transactions of a block is never read. *)
Record NamespaceTransactionsInRange := {
  transactions : list Transaction;
}.

Record LimitsData := {
  small_object_range_limit : Z;
  large_object_range_limit : Z;
}.

(** [reqwest], [Url::join] and [serde_json], and the formatting of a namespace
    and of a status code, which are not under [src]. *)
Class QueryNet (Body Commitment TransactionQueryData : Type) := {
  http_get : nat → string → result (Z * Body) string;
  http_post : nat → string → Transaction → result (Z * Body) string;
  url_join : string → string → result string string;
  show_namespace : Z → string;
  show_commitment : Commitment → string;
  show_status : Z → string;
  json_height : Body → result Z string;
  json_limits : Body → result LimitsData string;
  json_ranges : Body → result (list NamespaceTransactionsInRange) string;
  json_commitment : Body → result Commitment string;
  json_transaction : Body → result TransactionQueryData string;
}.

Section client.
Context {Body Commitment TransactionQueryData : Type} {Net : QueryNet Body Commitment TransactionQueryData}.
Implicit Types (c : EspressoClientConfig) (t : nat).
Open Scope cas_scope.

Definition get {A} t (json : Body → result A string) (url : string) : result A AnyError :=
  let? '(status, body) := map_err OtherError (http_get t url) in
  if negb (is_success status) then
    if status =? NOT_FOUND then Err NotFound
    else Err (OtherError ("request failed with status " +:+ show_status status))
  else map_err OtherError (json body).

Definition post {A} t (json : Body → result A string) (url : string) (tx : Transaction) : result A AnyError :=
  let? '(status, body) := map_err OtherError (http_post t url tx) in
  if negb (is_success status) then Err (OtherError ("request failed with status " +:+ show_status status))
  else map_err OtherError (json body).

Definition submit_transaction c t (tx : Transaction) : result Commitment AnyError :=
  let? url := map_err OtherError (url_join (base_url c) "submit/submit") in
  post t json_commitment url tx.

Definition fetch_limits c t : result LimitsData AnyError :=
  let? url := map_err OtherError (url_join (base_url c) "availability/limits") in
  get t json_limits url.

Definition fetch_latest_hotshot_block_height c t : result Z AnyError :=
  let? url := map_err OtherError (url_join (base_url c) "status/block-height") in
  get t json_height url.

Definition range_path (namespace start end_ : Z) : string :=
  "availability/block/" +:+ u64_to_string start +:+ "/" +:+ u64_to_string end_ +:+
  "/namespace/" +:+ show_namespace namespace.

Definition fetch_namespace_transactions_in_range c t (namespace start end_ : Z)
    : result (list NamespaceTransactionsInRange) AnyError :=
  let? limits := fetch_limits c t in
  if large_object_range_limit limits <? u64_sub end_ start then
    Err (OtherError ("requested block range exceeds maximum allowed " +:+
                     u64_to_string (large_object_range_limit limits)))
  else
    let? url := map_err OtherError (url_join (base_url c) (range_path namespace start end_)) in
    get t json_ranges url.

Definition fetch_transaction_by_hash c t (tx_hash : Commitment) : result TransactionQueryData AnyError :=
  let? url := map_err OtherError
    (url_join (base_url c) ("availability/transaction/hash/" +:+ show_commitment tx_hash +:+ "/noproof")) in
  get t json_transaction url.

(** [UnverifiedEspressoReader]. *)
Definition UnverifiedEspressoReader c t : EspressoReader := {|
  block_height := map_err Verification (fetch_latest_hotshot_block_height c t);
  namespace_transactions_in_range namespace start end_ :=
    let? ranges := map_err Verification (fetch_namespace_transactions_in_range c t namespace start end_) in
    Ok (transactions <$> ranges);
|}.

End client.

(** ** The verifying reader *)

Definition usize_try_from (h : Z) : result Z LightClientError :=
  if h <? u64_modulus then Ok h else Err (LcHeightOverflow h).

(** The [light-client] crate: opening the storage, the fallback client over the
    query nodes, and a light client rooted in a genesis. *)
Class LightClientCrate (Genesis Storage Server LightClient : Type) := {
  storage_connect : option string → result Storage string;
  fallback_build : list string → Z → result Server string;
  from_genesis_with_options : Storage → Server → Genesis → nat → LightClient;
  lc_block_height : LightClient → nat → result Z AnyError;
  fetch_namespaces_in_range : LightClient → nat → Z → Z → Z → result (list (list Transaction)) AnyError;
}.

Section light.
Context {Genesis Storage Server LightClient : Type} {LCC : LightClientCrate Genesis Storage Server LightClient}.
Open Scope cas_scope.

Definition LightClientEspressoReader_new (gen : Genesis) (query_urls : list string) (db : option string)
    (num_stake_tables : nat) (fallback_delay : Z) : result LightClient LightClientError :=
  let? storage := map_err LcStorage (storage_connect db) in
  let? server := map_err (λ e, LcClient ("fallback client: " +:+ e)) (fallback_build query_urls fallback_delay) in
  Ok (from_genesis_with_options storage server gen num_stake_tables).

Definition LightClientEspressoReader (inner : LightClient) (t : nat) : EspressoReader := {|
  block_height := map_err Verification (lc_block_height inner t);
  namespace_transactions_in_range namespace start end_ :=
    let? start_usize := usize_try_from start in
    let? end_usize := usize_try_from end_ in
    map_err Verification (fetch_namespaces_in_range inner t start_usize end_usize namespace);
|}.
End light.

(** ** What the unverified reader answers *)

Section unverified.
Context {Body Commitment TransactionQueryData : Type} {Net : QueryNet Body Commitment TransactionQueryData}.
Context (c : EspressoClientConfig).
Implicit Types (t : nat).

(** The service answers [GET base/path] with a success and the JSON of [v]. *)
Definition answers_get {A} t (path : string) (json : Body → result A string) (v : A) : Prop :=
  ∃ url status body, url_join (base_url c) path = Ok url ∧ http_get t url = Ok (status, body) ∧
    is_success status = true ∧ json body = Ok v.

(** The service answers [GET base/path] with a 404. *)
Definition answers_404 t (path : string) : Prop :=
  ∃ url body, url_join (base_url c) path = Ok url ∧ http_get t url = Ok (NOT_FOUND, body).

Lemma get_ok {A} t path (json : Body → result A string) v :
  match map_err OtherError (url_join (base_url c) path) with Ok url => get t json url | Err e => Err e end = Ok v ↔
  answers_get t path json v.
Proof.
  unfold answers_get, get. split.
  - destruct (url_join _ _) as [url|]; simpl; [|done].
    destruct (http_get t url) as [[status body]|] eqn:Eg; simpl; [|done].
    destruct (is_success status) eqn:Es; simpl; [|by destruct (status =? NOT_FOUND)].
    destruct (json body) eqn:Ej; simpl; [|done]. intros [= ->]. eauto 10.
  - intros (url & status & body & -> & Hg & Hs & Hj). simpl. by rewrite Hg; simpl; rewrite Hs; simpl; rewrite Hj.
Qed.

Lemma get_404 {A} t path (json : Body → result A string) :
  answers_404 t path →
  match map_err OtherError (url_join (base_url c) path) with Ok url => get t json url | Err e => Err e end =
    Err NotFound.
Proof. intros (url & body & -> & Hg). unfold get. simpl. by rewrite Hg. Qed.

Lemma unverified_height t h :
  block_height (UnverifiedEspressoReader c t) = Ok h ↔ answers_get t "status/block-height" json_height h.
Proof.
  rewrite <- get_ok. simpl. unfold fetch_latest_hotshot_block_height.
  destruct (match map_err _ _ with Ok _ => _ | Err _ => _ end); simpl; split; intros [= ->]; done.
Qed.

(** A range is answered exactly when the limit allows it and the service answers
    the request for it. *)
Lemma unverified_range t ns a b txns :
  0 ≤ a ≤ b → b < u64_modulus →
  namespace_transactions_in_range (UnverifiedEspressoReader c t) ns a b = Ok txns ↔
  ∃ lim rs, answers_get t "availability/limits" json_limits lim ∧ b - a ≤ large_object_range_limit lim ∧
    answers_get t (range_path ns a b) json_ranges rs ∧ txns = transactions <$> rs.
Proof.
  intros Hab Hb. simpl. unfold fetch_namespace_transactions_in_range, fetch_limits.
  assert (u64_sub b a = b - a) as -> by u64_arith.
  setoid_rewrite <- get_ok. split.
  - destruct (match map_err _ (url_join _ "availability/limits") with Ok _ => _ | Err _ => _ end) as [lim|]; simpl; [|done].
    destruct (Z.ltb_spec (large_object_range_limit lim) (b - a)); simpl; [done|].
    destruct (match map_err _ (url_join _ (range_path ns a b)) with Ok _ => _ | Err _ => _ end) as [rs|] eqn:E; simpl; [|done].
    intros [= <-]. exists lim, rs. by split_and!.
  - intros (lim & rs & -> & Hl & Hr & ->).
    destruct (Z.ltb_spec (large_object_range_limit lim) (b - a)); [lia|]. by rewrite Hr.
Qed.

(** The service is up at height [l]: it allows the ranges the streamer asks for
    and answers with the blocks of [chain]. *)
Record query_service_up t (ns l : Z) (chain : Z → list Transaction) : Prop := {
  up_height : answers_get t "status/block-height" json_height l;
  up_limits : ∃ lim, answers_get t "availability/limits" json_limits lim ∧
                HOTSHOT_RANGE_LIMIT ≤ large_object_range_limit lim;
  up_ranges a b : 0 ≤ a < b → b ≤ l → b - a ≤ HOTSHOT_RANGE_LIMIT →
    ∃ rs, answers_get t (range_path ns a b) json_ranges rs ∧ transactions <$> rs = chain_blocks chain a b;
}.

Lemma query_service_healthy t ns l chain now :
  is_u64 l → query_service_up t ns l chain →
  healthy ns l chain {| poll_reader := UnverifiedEspressoReader c t; poll_now := now; channel_open := true |}.
Proof.
  intros Hl [Hh (lim & Hlim & Hmax) Hr]. split_and!; [by apply unverified_height| |done].
  intros a b Hab Hb Hsize. destruct (Hr a b Hab Hb Hsize) as (rs & Hrs & <-).
  apply unverified_range; [lia|unfold is_u64 in *; lia|]. exists lim, rs. by split_and!; try lia.
Qed.
End unverified.

Section unverified_poller.
Context {Body Commitment TransactionQueryData : Type} {Net : QueryNet Body Commitment TransactionQueryData}.
Context (c : EspressoClientConfig) (config : StreamerConfig) (ns : Z).

(** An iteration of the poller over the unverified reader, at an instant and a
    clock value. *)
Definition query_input (instant : nat * Z) : poll_input :=
  {| poll_reader := UnverifiedEspressoReader c instant.1; poll_now := instant.2; channel_open := true |}.

(** Over the HTTP query service the poller catches up: if at every instant the
    service reports height [l], allows ranges of [HOTSHOT_RANGE_LIMIT] blocks and
    answers them, the cursor reaches [l] within one iteration per
    [HOTSHOT_RANGE_LIMIT] blocks, and what is handed to the streamer is the chain,
    block for block. *)
Theorem query_service_catches_up l chain instants start :
  is_u64 start → is_u64 l → start ≤ l →
  Forall (λ i : nat * Z, query_service_up c i.1 ns l chain) instants →
  l - start ≤ HOTSHOT_RANGE_LIMIT * zlen instants →
  let '(p, sent) := poll_hotshot_blocks config ns (query_input <$> instants) (poller_init config start) in
  from_block p = l ∧ concat sent.*1 = chain_blocks chain start l.
Proof.
  intros Hs Hl Hle Hup Hn.
  assert (Hin : Forall (healthy ns l chain) (query_input <$> instants)).
  { apply Forall_fmap. eapply Forall_impl; [exact Hup|]. intros [t now] Hi. by apply query_service_healthy. }
  pose proof (poll_run_catches_up config ns l chain _ (poller_init config start) Hs Hl Hle Hin) as Hc.
  pose proof (healthy_tiles config ns l chain _ (poller_init config start) Hs Hl Hle Hin) as Ht.
  destruct (poll_hotshot_blocks _ _ _ _) as [p sent]; simpl in *.
  assert (from_block p = l) as Hf by (apply Hc; unfold zlen in *; by rewrite length_fmap).
  rewrite Hf in Ht. by destruct Ht.
Qed.

(** A node that announces a height before it has the blocks: a 404 is not an
    error, the poller asks again after the initial delay and its backoff does not
    grow. *)
Lemma lagging_node_is_retried i p l lim :
  is_u64 (from_block p) → is_u64 l → from_block p < l →
  answers_get c i.1 "status/block-height" json_height l →
  answers_get c i.1 "availability/limits" json_limits lim →
  HOTSHOT_RANGE_LIMIT ≤ large_object_range_limit lim →
  answers_404 c i.1 (range_path ns (from_block p) (Z.min (from_block p + HOTSHOT_RANGE_LIMIT) l)) →
  let '(p', o) := poll_once config ns (query_input i) p in
  o = Slept (from_millis (initial_backoff_ms config)) ∧ from_block p' = from_block p ∧ backoff p' = backoff p.
Proof.
  intros Hp Hl Hlt Hh%unverified_height Hlim Hmax H404. unfold poll_once. cbn [query_input poll_reader].
  rewrite Hh. destruct (Z.leb_spec l (from_block p)); [lia|].
  assert (Z.min (saturating_add (from_block p) HOTSHOT_RANGE_LIMIT) l =
          Z.min (from_block p + HOTSHOT_RANGE_LIMIT) l) as ->
    by (unfold is_u64, HOTSHOT_RANGE_LIMIT in *; u64_arith).
  set (b := Z.min _ _) in *. simpl. unfold fetch_namespace_transactions_in_range, fetch_limits.
  apply get_ok in Hlim. rewrite Hlim.
  assert (u64_sub b (from_block p) = b - from_block p) as ->
    by (unfold b, is_u64, HOTSHOT_RANGE_LIMIT in *; u64_arith).
  destruct (Z.ltb_spec (large_object_range_limit lim) (b - from_block p));
    [unfold b, HOTSHOT_RANGE_LIMIT in *; lia|].
  by rewrite (get_404 c i.1 _ _ H404).
Qed.

(** A service whose limit is below [HOTSHOT_RANGE_LIMIT] refuses every full range,
    so a poller that is a full range behind never moves. *)
Lemma small_limit_stalls instants p :
  is_u64 (from_block p) → from_block p + HOTSHOT_RANGE_LIMIT < u64_modulus →
  Forall (λ i : nat * Z, ∃ l lim, is_u64 l ∧ from_block p + HOTSHOT_RANGE_LIMIT ≤ l ∧
     answers_get c i.1 "status/block-height" json_height l ∧
     answers_get c i.1 "availability/limits" json_limits lim ∧
     large_object_range_limit lim < HOTSHOT_RANGE_LIMIT) instants →
  from_block (poll_hotshot_blocks config ns (query_input <$> instants) p).1 = from_block p ∧
  (poll_hotshot_blocks config ns (query_input <$> instants) p).2 = [].
Proof.
  intros Hp Hb. remember (from_block p) as f eqn:Ef. revert p Ef.
  induction instants as [|i instants IH]; intros p -> Hin; [done|].
  apply Forall_cons in Hin as [(l & lim & Hl & Hle & Hh & Hlim & Hsmall) Hin].
  csimpl. assert (H1 : ∃ p1 d, poll_once config ns (query_input i) p = (p1, Slept d) ∧ from_block p1 = from_block p).
  { unfold poll_once. cbn [query_input poll_reader]. apply unverified_height in Hh. rewrite Hh.
    destruct (Z.leb_spec l (from_block p)); [unfold HOTSHOT_RANGE_LIMIT in *; lia|].
    assert (Z.min (saturating_add (from_block p) HOTSHOT_RANGE_LIMIT) l = from_block p + HOTSHOT_RANGE_LIMIT) as ->
      by (unfold is_u64, HOTSHOT_RANGE_LIMIT in *; u64_arith).
    simpl. unfold fetch_namespace_transactions_in_range, fetch_limits. apply get_ok in Hlim. rewrite Hlim.
    assert (u64_sub (from_block p + HOTSHOT_RANGE_LIMIT) (from_block p) = HOTSHOT_RANGE_LIMIT) as ->
      by (unfold is_u64, HOTSHOT_RANGE_LIMIT in *; u64_arith).
    apply Z.ltb_lt in Hsmall. rewrite Hsmall. cbn [map_err]. unfold Verification.
    destruct (is_not_found _); by eexists _, _. }
  destruct H1 as (p1 & d & -> & Hf). by apply IH.
Qed.
End unverified_poller.

(** ** A concrete query service *)

Inductive toy_body :=
| BodyHeight (h : Z)
| BodyLimits (limits : LimitsData)
| BodyRanges (rs : list NamespaceTransactionsInRange).

(** A service at height 2 that knows the three ranges below it; anything else is
    a 404. *)
Definition toy_routes (chain : Z → list Transaction) : list (string * toy_body) :=
  [("q/status/block-height", BodyHeight 2);
   ("q/availability/limits", BodyLimits {| small_object_range_limit := 500; large_object_range_limit := 100 |})] ++
  ((λ ab : Z * Z,
     ("q/availability/block/" +:+ u64_to_string ab.1 +:+ "/" +:+ u64_to_string ab.2 +:+ "/namespace/ns",
      BodyRanges ((λ b, {| transactions := b |}) <$> chain_blocks chain ab.1 ab.2))) <$> [(0, 1); (0, 2); (1, 2)]).

Definition toy_get (chain : Z → list Transaction) (url : string) : result (Z * toy_body) string :=
  match list_find (λ r, r.1 = url) (toy_routes chain) with
  | Some (_, (_, body)) => Ok (200, body)
  | None => Ok (404, BodyHeight 0)
  end.

Definition toy_net (chain : Z → list Transaction) : QueryNet toy_body Z Z := {|
  http_get _ := toy_get chain;
  http_post _ _ _ := Err "refused"%string;
  url_join base path := Ok (base +:+ path);
  show_namespace _ := "ns";
  show_commitment _ := "TX";
  show_status _ := "500 Internal Server Error";
  json_height b := match b with BodyHeight h => Ok h | _ => Err "not a height"%string end;
  json_limits b := match b with BodyLimits l => Ok l | _ => Err "not limits"%string end;
  json_ranges b := match b with BodyRanges rs => Ok rs | _ => Err "not ranges"%string end;
  json_commitment _ := Err "not a commitment"%string;
  json_transaction _ := Err "not a transaction"%string;
|}.

Definition toy_client : EspressoClientConfig := {| base_url := "q/"; client_timeout_secs := 30 |}.

Lemma toy_service_up t ns : query_service_up (Net:=toy_net mock_chain) toy_client t ns 2 mock_chain.
Proof.
  split.
  - exists "q/status/block-height"%string, 200, (BodyHeight 2). by split_and!.
  - eexists. split; [eexists _, _, _; split_and!; by vm_compute|]. by vm_compute.
  - intros a b Ha Hb _. exists ((λ b, {| transactions := b |}) <$> chain_blocks mock_chain a b).
    assert (a = 0 ∧ b = 1 ∨ a = 0 ∧ b = 2 ∨ a = 1 ∧ b = 2) as [[-> ->]|[[-> ->]|[-> ->] ] ] by lia;
      (split; [eexists _, _, _; split_and!; by vm_compute|by vm_compute]).
Qed.

Lemma query_service_catches_up_witness :
  let out := poll_hotshot_blocks mock_config 7
    (query_input (Net:=toy_net mock_chain) toy_client <$> [(0%nat, 0); (1%nat, 5)]) (poller_init mock_config 0) in
  from_block out.1 = 2 ∧ concat out.2.*1 = chain_blocks mock_chain 0 2.
Proof.
  pose proof (query_service_catches_up (Net:=toy_net mock_chain) toy_client mock_config 7 2 mock_chain
                [(0%nat, 0); (1%nat, 5)] 0) as H.
  intros out. unfold out. destruct (poll_hotshot_blocks _ _ _ _) as [p sent]. apply H.
  - split; by vm_compute.
  - split; by vm_compute.
  - by vm_compute.
  - repeat (apply Forall_cons; split; [apply toy_service_up|]). by apply Forall_nil.
  - by vm_compute.
Defined.
