(* ===== verification/DevNode.v ===== *)
(** * The development node of the tests

    [src/src/espresso_e2e/espresso_dev_node.rs]: the Docker stack the tests share, who
    may start and stop it, and the wait for its first block.  Docker, the clock and the
    node are inputs.  [fixture] is the state all tests of a process share; its steps
    interleave as the tests do. *)

From S2P Require Import Prelude Bytes Slice Config Rollup MockRollup Streamer Poller FeedClient EspressoClient.
From Stdlib Require Import Strings.Ascii.

Definition ESPRESSO_SEQUENCER_API_PORT : Z := 41000.

(** ** [EspressoClient::new] *)

Section client.
Context (url_parse : string → result string string) (client_build : Z → result unit string).
Open Scope cas_scope.

Definition ends_with_slash (s : string) : bool :=
  match last (String.list_ascii_of_string s) with Some c => bool_decide (c = "/"%char) | None => false end.

(** The base URL gets a slash at its end; the errors are the panics of the two
    [expect]s. *)
Definition EspressoClient_new (base_url : string) (client_timeout_secs : Z) : result EspressoClientConfig string :=
  let base_url := if ends_with_slash base_url then base_url else base_url +:+ "/" in
  let? url := url_parse base_url in
  let? _ := client_build client_timeout_secs in
  Ok {| base_url := url; client_timeout_secs := client_timeout_secs |}.

(** The client of a node that was started or connected to. *)
Definition dev_client : result EspressoClientConfig string :=
  EspressoClient_new ("http://localhost:" +:+ u64_to_string ESPRESSO_SEQUENCER_API_PORT +:+ "/") 30.

Lemma ends_with_slash_app s : ends_with_slash (s +:+ "/") = true.
Proof.
  unfold ends_with_slash. replace (String.list_ascii_of_string (s +:+ "/")) with (String.list_ascii_of_string s ++ ["/"%char]).
  - by rewrite last_snoc, bool_decide_eq_true_2.
  - induction s as [|c s IH]; [done|]. simpl. by rewrite IH.
Qed.

(** What is parsed ends in a slash, so that a path joined to it is appended. *)
Lemma EspressoClient_new_slash s secs c :
  EspressoClient_new s secs = Ok c → ∃ s', ends_with_slash s' = true ∧ url_parse s' = Ok (base_url c).
Proof.
  unfold EspressoClient_new. set (s' := if ends_with_slash s then s else _).
  destruct (url_parse s') as [url|] eqn:E; [|done]. destruct (client_build secs); [|done]. intros H.
  apply Ok_inj in H as <-. exists s'. split; [|done]. unfold s'. destruct (ends_with_slash s) eqn:Es; [done|].
  apply ends_with_slash_app.
Qed.
End client.

(** ** The Docker commands *)

Inductive docker_command :=
| ComposePs
| ComposeDown (remove_orphans : bool)
| ComposeUp
| ComposeLogs.

Definition DOCKER_MISSING : string := "failed to run docker compose - is docker running?".

(** [str::trim().is_empty()] of the output. *)
Definition is_blank (s : string) : bool :=
  forallb (λ c, bool_decide (c ∈ [" "; "009"; "010"; "011"; "012"; "013"]%char)) (String.list_ascii_of_string s).

Section compose.
(** The exit status and output of a command, or that it could not be run. *)
Context (run_docker : docker_command → result (bool * string) string).

(** [start] up to the client: the commands run, and the panic if there is one.  The
    outcome of [down] before the start and of [logs] is not looked at. *)
Definition bring_up : list docker_command * result unit string :=
  match run_docker ComposePs with
  | Err _ => ([ComposePs], Err DOCKER_MISSING)
  | Ok (ok, stdout) =>
      if ok && negb (is_blank stdout) then ([ComposePs], Ok tt)
      else
        match run_docker ComposeUp with
        | Err _ => ([ComposePs; ComposeDown true; ComposeUp], Err DOCKER_MISSING)
        | Ok (true, _) => ([ComposePs; ComposeDown true; ComposeUp], Ok tt)
        | Ok (false, _) => ([ComposePs; ComposeDown true; ComposeUp; ComposeLogs], Err "docker compose up failed"%string)
        end
  end.

(** A running stack is not touched. *)
Lemma bring_up_running stdout :
  run_docker ComposePs = Ok (true, stdout) → is_blank stdout = false → bring_up = ([ComposePs], Ok tt).
Proof. intros E Hb. unfold bring_up. by rewrite E, Hb. Qed.

(** It is taken down only on the way to a start. *)
Lemma bring_up_down b : ComposeDown b ∈ bring_up.1 → ComposeUp ∈ bring_up.1.
Proof.
  unfold bring_up. destruct (run_docker ComposePs) as [ [ok stdout]|]; [|set_solver].
  destruct (ok && negb (is_blank stdout)); [set_solver|]. destruct (run_docker ComposeUp) as [ [ [] ?]|]; set_solver.
Qed.
End compose.

(** ** The wait *)

Definition READY_TIMEOUT : Z := 120 * 10 ^ 9.
Definition READY_POLL : Z := from_millis 100.

Inductive wait_outcome := NodeReady | NodeTimedOut | NodeWaiting.

(** [wait_until_ready], by the instant of each turn of its loop and what the node
    answers then; [NodeWaiting] when the turns are used up. *)
Fixpoint wait_until_ready (owned : bool) (deadline : Z) (turns : list (Z * result Z AnyError))
    : list docker_command * wait_outcome :=
  match turns with
  | [] => ([], NodeWaiting)
  | (now, answer) :: turns' =>
      if deadline <=? now then (if owned then [ComposeDown false] else [], NodeTimedOut)
      else
        match answer with
        | Ok height => if 0 <? height then ([], NodeReady) else wait_until_ready owned deadline turns'
        | Err _ => wait_until_ready owned deadline turns'
        end
  end.

(** Turn [i] comes no sooner than [i] sleeps after the first. *)
Definition paced (t0 : Z) (turns : list (Z * result Z AnyError)) : Prop :=
  ∀ i turn, turns !! i = Some turn → t0 + Z.of_nat i * READY_POLL ≤ turn.1.

Lemma wait_waiting owned deadline turns :
  (wait_until_ready owned deadline turns).2 = NodeWaiting → Forall (λ turn, turn.1 < deadline) turns.
Proof.
  induction turns as [|[now answer] turns IH]; intros H; [constructor|]. simpl in H.
  destruct (Z.leb_spec deadline now); [done|]. constructor; [done|]. apply IH.
  destruct answer as [height|]; [|done]. by destruct (0 <? height).
Qed.

(** The wait ends: after twelve hundred sleeps it has seen a block or given up, and a
    node it reports ready had a block before the deadline. *)
Theorem wait_ends owned t0 turns :
  paced t0 turns → (1200 < length turns)%nat →
  (wait_until_ready owned (t0 + READY_TIMEOUT) turns).2 ≠ NodeWaiting.
Proof.
  intros Hp Hl Hw%wait_waiting. destruct (lookup_lt_is_Some_2 turns 1200 Hl) as [turn Ht].
  pose proof (Forall_lookup_1 _ _ _ _ Hw Ht) as Hlt. specialize (Hp _ _ Ht).
  unfold READY_TIMEOUT, READY_POLL, from_millis in *. lia.
Qed.

Theorem wait_ready owned deadline turns :
  (wait_until_ready owned deadline turns).2 = NodeReady →
  (wait_until_ready owned deadline turns).1 = [] ∧ ∃ now height, (now, Ok height) ∈ turns ∧ now < deadline ∧ 0 < height.
Proof.
  induction turns as [|[now answer] turns IH]; [done|]. simpl. destruct (Z.leb_spec deadline now); [by destruct owned|].
  destruct answer as [height|].
  - destruct (Z.ltb_spec 0 height); [intros _|intros (E & n & h & Hin & ?)%IH].
    + split; [done|]. exists now, height. split; [by left|done].
    + split; [done|]. exists n, h. split; [by right|done].
  - intros (E & n & h & Hin & ?)%IH. split; [done|]. exists n, h. split; [by right|done].
Qed.

(** ** The tests that share the stack *)

(** [owned]: the node holds the permit of the semaphore.  [stopped] is whether its
    [stop] was called, for the statements only. *)
Record EspressoDevNode := {
  owned : bool;
  ready : bool;
  stopped : bool;
}.

(** [permit_of] is the node that holds the one permit. *)
Record fixture := {
  permit_of : option nat;
  stack_up : bool;
  nodes : gmap nat EspressoDevNode;
}.

Definition fixture_new (running : bool) : fixture := {| permit_of := None; stack_up := running; nodes := ∅ |}.

Inductive fixture_action :=
| FxStart (i : nat) (outcome : result unit string) (left_running : bool)
| FxConnect (i : nat)
| FxReady (i : nat)
| FxTimeout (i : nat)
| FxStop (i : nat)
| FxDrop (i : nat).

(** [Drop]: a node with the permit stops the stack and gives the permit back. *)
Definition drop_node (f : fixture) (i : nat) (n : EspressoDevNode) : fixture :=
  if owned n then {| permit_of := None; stack_up := false; nodes := delete i (nodes f) |}
  else {| permit_of := permit_of f; stack_up := stack_up f; nodes := delete i (nodes f) |}.

Definition set_node (f : fixture) (up : bool) (i : nat) (n : EspressoDevNode) : fixture :=
  {| permit_of := permit_of f; stack_up := up; nodes := <[i := n]> (nodes f) |}.

(** [start] takes the permit, runs [bring_up] with this outcome and keeps the permit
    if it did not panic; a failed start may leave anything running.  [docker] can be
    run when the stack is stopped (otherwise [stop] panics).  A wait that times
    out stops the stack and panics, which drops the node. *)
Definition fixture_step (f : fixture) (a : fixture_action) : option fixture :=
  match a with
  | FxStart i outcome left_running =>
      match permit_of f, nodes f !! i with
      | None, None =>
          match outcome with
          | Ok _ => Some {| permit_of := Some i; stack_up := true;
                            nodes := <[i := {| owned := true; ready := false; stopped := false |}]> (nodes f) |}
          | Err _ => Some {| permit_of := None; stack_up := left_running; nodes := nodes f |}
          end
      | _, _ => None
      end
  | FxConnect i =>
      match nodes f !! i with
      | None => Some (set_node f (stack_up f) i {| owned := false; ready := false; stopped := false |})
      | Some _ => None
      end
  | FxReady i =>
      n ← nodes f !! i;
      if ready n then None else Some (set_node f (stack_up f) i {| owned := owned n; ready := true; stopped := stopped n |})
  | FxTimeout i => n ← nodes f !! i; if ready n then None else Some (drop_node f i n)
  | FxStop i => n ← nodes f !! i; Some (set_node f false i {| owned := owned n; ready := ready n; stopped := true |})
  | FxDrop i => n ← nodes f !! i; Some (drop_node f i n)
  end.

(** A node that does not own the stack does not stop it. *)
Definition stops_own (f : fixture) (a : fixture_action) : Prop :=
  match a with FxStop i => ∀ n, nodes f !! i = Some n → owned n = true | _ => True end.

Inductive fixture_reachable (running : bool) : fixture → Prop :=
| fixture_reachable_new : fixture_reachable running (fixture_new running)
| fixture_reachable_step f a f' :
    fixture_reachable running f → stops_own f a → fixture_step f a = Some f' → fixture_reachable running f'.

Record fixture_inv (f : fixture) : Prop := {
  fx_owner i n : nodes f !! i = Some n → owned n = true → permit_of f = Some i;
  fx_up i n : nodes f !! i = Some n → owned n = true → stopped n = false → stack_up f = true;
}.

Lemma drop_node_inv f i n : fixture_inv f → nodes f !! i = Some n → fixture_inv (drop_node f i n).
Proof.
  intros [H1 H2] Hi. unfold drop_node. destruct (owned n) eqn:Eo; split; simpl; intros j m [Hne Hj]%lookup_delete_Some Ho.
  - pose proof (H1 _ _ Hi Eo). pose proof (H1 _ _ Hj Ho). congruence.
  - pose proof (H1 _ _ Hi Eo). pose proof (H1 _ _ Hj Ho). congruence.
  - by eapply H1.
  - by eapply H2.
Qed.

Lemma fixture_step_inv f a f' : fixture_inv f → stops_own f a → fixture_step f a = Some f' → fixture_inv f'.
Proof.
  intros Hi Hok H. pose proof Hi as [H1 H2]. destruct a as [i outcome b|i|i|i|i|i]; simpl in H, Hok.
  - destruct (permit_of f) eqn:Ep; [done|]. destruct (nodes f !! i) eqn:En; [done|].
    destruct outcome; simplify_eq; split; simpl.
    + intros j m [ [<- _]|[_ Hj] ]%lookup_insert_Some Ho; [done|]. by specialize (H1 _ _ Hj Ho).
    + done.
    + intros j m Hj Ho. by specialize (H1 _ _ Hj Ho).
    + intros j m Hj Ho. by specialize (H1 _ _ Hj Ho).
  - destruct (nodes f !! i) eqn:En; [done|]. simplify_eq. split; simpl.
    + intros j m [ [_ <-]|[_ Hj] ]%lookup_insert_Some Ho; [done|by eapply H1].
    + intros j m [ [_ <-]|[_ Hj] ]%lookup_insert_Some Ho; [done|by eapply H2].
  - destruct (nodes f !! i) as [n|] eqn:En; simpl in H; [|done]. destruct (ready n); [done|]. simplify_eq. split; simpl.
    + intros j m [ [<- <-]|[_ Hj] ]%lookup_insert_Some Ho; [exact (H1 _ _ En Ho)|exact (H1 _ _ Hj Ho)].
    + intros j m [ [<- <-]|[_ Hj] ]%lookup_insert_Some Ho; [exact (H2 _ _ En Ho)|exact (H2 _ _ Hj Ho)].
  - destruct (nodes f !! i) as [n|] eqn:En; simpl in H; [|done]. destruct (ready n); [done|]. simplify_eq. by apply drop_node_inv.
  - destruct (nodes f !! i) as [n|] eqn:En; simpl in H; [|done]. simplify_eq. specialize (Hok n eq_refl). split; simpl.
    + intros j m [ [<- <-]|[_ Hj] ]%lookup_insert_Some Ho; [exact (H1 _ _ En Ho)|exact (H1 _ _ Hj Ho)].
    + intros j m [ [<- <-]|[Hne Hj] ]%lookup_insert_Some Ho; [done|]. pose proof (H1 _ _ En Hok). pose proof (H1 _ _ Hj Ho). congruence.
  - destruct (nodes f !! i) as [n|] eqn:En; simpl in H; [|done]. simplify_eq. by apply drop_node_inv.
Qed.

(** The stack belongs to one test at a time: however the tests interleave, at most one
    node owns it, and it is up for as long as the owner has not stopped it. *)
Theorem stack_is_exclusive running f i n :
  fixture_reachable running f → nodes f !! i = Some n → owned n = true →
  (∀ j m, nodes f !! j = Some m → owned m = true → j = i) ∧ (stopped n = false → stack_up f = true).
Proof.
  intros Hr. assert (Hi : fixture_inv f).
  { induction Hr as [|f a f' Hr IH Hok H]; [split; intros j m; simpl; by rewrite lookup_empty|by eapply fixture_step_inv]. }
  intros Hn Ho. split; [|by eapply (fx_up _ Hi)]. intros j m Hj Hm.
  pose proof (fx_owner _ Hi _ _ Hn Ho). pose proof (fx_owner _ Hi _ _ Hj Hm). congruence.
Qed.

(** It takes an owner: [stop] on a node that only connected takes the stack from the
    node that owns it. *)
Example connected_stop_takes_stack :
  (f ← fixture_step (fixture_new false) (FxStart 0 (Ok tt) true);
   f ← fixture_step f (FxReady 0); f ← fixture_step f (FxConnect 1); f ← fixture_step f (FxStop 1);
   Some (stack_up f, stopped <$> nodes f !! 0%nat)) = Some (false, Some false).
Proof. vm_compute. reflexivity. Qed.
