(* ===== verification/WsProxy.v ===== *)
(** * WebSocket egress

    [src/src/ws_proxy_connect.rs]: how the L1 provider and the feed client open
    their WebSocket connections, through the enclave's proxy or directly.  Sockets
    and TLS are the operations of a small monad that records them; whether an
    operation succeeds is up to the network. *)

From S2P Require Import Prelude Bytes.

(** ** The network *)

Inductive net_op :=
| TcpConnect (host : string) (port : Z)
| HttpConnect (host : string) (port : Z)
| TlsConnect (server_name : string)
| ClientAsyncTls (url : string)
| YawcHandshake (url : string).

#[export] Instance net_op_eq_dec : EqDecision net_op.
Proof. solve_decision. Defined.

(** A computation adds to the trace of operations; the network answers each
    operation knowing the ones before. *)
Definition net (A : Type) : Type := list net_op → result A string * list net_op.

Definition network : Type := list net_op → net_op → result unit string.

Definition net_ret {A} (a : A) : net A := λ tr, (Ok a, tr).

Definition net_lift {A} (r : result A string) : net A := λ tr, (r, tr).

Definition net_bind {A B} (m : net A) (k : A → net B) : net B := λ tr,
  match m tr with
  | (Ok a, tr') => k a tr'
  | (Err e, tr') => (Err e, tr')
  end.

Definition net_map_err {A} (f : string → string) (m : net A) : net A := λ tr,
  let '(r, tr') := m tr in (map_err f r, tr').

Notation "'let!' x := e 'in' k" := (net_bind e (λ x, k))
  (at level 200, x name, e at level 100, k at level 200) : cas_scope.

(** The [url] crate, the request builder of the WebSocket library and the DNS
    name parser of [rustls]. *)
Class UrlCrate := {
  Url : Type;
  url_parse : string → result Url string;
  url_str : Url → string;
  host_str : Url → option string;
  port_or_known_default : Url → option Z;
  scheme : Url → string;
  into_client_request : string → result unit string;
  ServerName_try_from : string → result unit string;
}.

Section egress.
Context {U : UrlCrate} (answer : network) (env_var : string → option string).
Open Scope cas_scope.

Definition do_op (op : net_op) : net unit := λ tr, (answer tr op, tr ++ [op]).

(** ** Choosing the proxy *)

Definition proxy_vars (is_secure : bool) : list string :=
  if is_secure then ["HTTPS_PROXY"; "https_proxy"] else ["HTTP_PROXY"; "http_proxy"].

Fixpoint find_map {A B} (f : A → option B) (l : list A) : option B :=
  match l with
  | [] => None
  | a :: l' => match f a with Some b => Some b | None => find_map f l' end
  end.

(** [filter(|s| !s.is_empty())] *)
Definition nonempty (o : option string) : option string :=
  s ← o; if decide (s = EmptyString) then None else Some s.

Definition select_proxy (is_secure : bool) (get : string → option string) : option string :=
  find_map (λ k, nonempty (get k)) (proxy_vars is_secure).

(** ** Opening connections *)

Definition open_tcp (target_host : string) (target_port : Z) (is_secure : bool) : net unit :=
  match select_proxy is_secure env_var with
  | None => do_op (TcpConnect target_host target_port)
  | Some proxy_url =>
      let! proxy := net_lift (url_parse proxy_url) in
      let! proxy_host := net_lift (ok_or (host_str proxy) "proxy url missing host"%string) in
      let! proxy_port := net_lift (ok_or (port_or_known_default proxy) "proxy url missing port"%string) in
      let! _ := do_op (TcpConnect proxy_host proxy_port) in
      do_op (HttpConnect target_host target_port)
  end.

(** [WsProxyConnect::connect]. *)
Definition connect (ws_url : string) : net unit :=
  let! url := net_lift (url_parse ws_url) in
  let! host := net_lift (ok_or (host_str url) "ws url missing host"%string) in
  let! port := net_lift (ok_or (port_or_known_default url) "ws url missing port"%string) in
  if bool_decide (scheme url = "ws"%string) || bool_decide (scheme url = "wss"%string) then
    let! _ := open_tcp host port (bool_decide (scheme url = "wss"%string)) in
    let! _ := net_lift (into_client_request ws_url) in
    do_op (ClientAsyncTls ws_url)
  else net_lift (Err ("unsupported scheme " +:+ scheme url)).

Definition connect_yawc (url : Url) : net unit :=
  let! host := net_lift (ok_or (host_str url) "ws url missing host"%string) in
  let! port := net_lift (ok_or (port_or_known_default url) "ws url missing port"%string) in
  let! _ := net_map_err (λ e, "open_tcp failed: " +:+ e)
              (open_tcp host port (bool_decide (scheme url = "wss"%string))) in
  let! _ :=
    (if decide (scheme url = "ws"%string) then net_ret tt
     else if decide (scheme url = "wss"%string) then
       let! _ := net_lift (ServerName_try_from host) in
       do_op (TlsConnect host)
     else net_lift (Err ("unsupported scheme " +:+ scheme url))) in
  do_op (YawcHandshake (url_str url)).

(** ** What goes over the wire *)

(** Where a connection for [url] may go: straight to its host without a proxy, and
    to the proxy only with one. *)
Definition dial_target (url : Url) : option (string * Z) :=
  match select_proxy (bool_decide (scheme url = "wss"%string)) env_var with
  | None => h ← host_str url; p ← port_or_known_default url; Some (h, p)
  | Some proxy_url =>
      u ← ok (url_parse proxy_url); h ← host_str u; p ← port_or_known_default u; Some (h, p)
  end.

(** An operation allowed for [url]: TCP to the dial target, a tunnel to the host
    named in the URL, TLS with that host's name, and the handshake for the URL. *)
Definition allowed (url : Url) (url_string : string) (op : net_op) : Prop :=
  match op with
  | TcpConnect h p => dial_target url = Some (h, p)
  | HttpConnect h p => host_str url = Some h ∧ port_or_known_default url = Some p ∧
                       is_Some (select_proxy (bool_decide (scheme url = "wss"%string)) env_var)
  | TlsConnect name => host_str url = Some name ∧ scheme url = "wss"%string
  | ClientAsyncTls s | YawcHandshake s => s = url_string
  end.

(** A computation whose operations all satisfy [P]. *)
Definition emits {A} (P : net_op → Prop) (m : net A) : Prop :=
  ∀ tr, ∃ ops, (m tr).2 = tr ++ ops ∧ Forall P ops.

Lemma emits_ret {A} P (a : A) : emits P (net_ret a).
Proof. intros tr. exists []. by rewrite app_nil_r. Qed.

Lemma emits_lift {A} P (r : result A string) : emits P (net_lift r).
Proof. intros tr. exists []. by rewrite app_nil_r. Qed.

Lemma emits_op (P : net_op → Prop) op : P op → emits P (do_op op).
Proof. intros H tr. exists [op]. split; [done|]. by apply Forall_singleton. Qed.

Lemma emits_bind {A B} P (m : net A) (k : A → net B) :
  emits P m → (∀ a tr, (∃ tr', (m tr').1 = Ok a ∧ (m tr').2 = tr) → ∃ ops, (k a tr).2 = tr ++ ops ∧ Forall P ops) →
  emits P (net_bind m k).
Proof.
  intros Hm Hk tr. unfold net_bind. destruct (Hm tr) as (ops & Eops & Hops).
  destruct (m tr) as [r tr'] eqn:E. simpl in Eops. subst tr'. destruct r as [a|e]; [|by exists ops].
  destruct (Hk a (tr ++ ops)) as (ops' & Eops' & Hops'); [exists tr; by rewrite E|].
  exists (ops ++ ops'). rewrite Eops', app_assoc. split; [done|]. by apply Forall_app.
Qed.

(** After a pure step the rest runs with its value. *)
Lemma emits_let {A B} P (r : result A string) (k : A → net B) :
  (∀ a, r = Ok a → emits P (k a)) → emits P (net_bind (net_lift r) k).
Proof.
  intros Hk. apply emits_bind; [apply emits_lift|]. intros a tr (tr' & Ha & _). by apply Hk.
Qed.

Lemma emits_seq {A B} P (m : net A) (k : A → net B) :
  emits P m → (∀ a, emits P (k a)) → emits P (net_bind m k).
Proof. intros Hm Hk. apply emits_bind; [done|]. intros a tr _. apply Hk. Qed.

Lemma emits_map_err {A} P f (m : net A) : emits P m → emits P (net_map_err f m).
Proof. intros Hm tr. unfold net_map_err. specialize (Hm tr). by destruct (m tr). Qed.

#[local] Hint Resolve emits_ret emits_lift emits_map_err : core.

Lemma ok_or_Ok {A E} (o : option A) (e : E) a : ok_or o e = Ok a → o = Some a.
Proof. destruct o; simpl; congruence. Qed.

Lemma open_tcp_emits url s host port :
  host_str url = Some host → port_or_known_default url = Some port →
  emits (allowed url s) (open_tcp host port (bool_decide (scheme url = "wss"%string))).
Proof.
  intros Hh Hp. unfold open_tcp. destruct (select_proxy _ env_var) as [proxy_url|] eqn:Es.
  - apply emits_let. intros proxy Hproxy. apply emits_let. intros ph Hph%ok_or_Ok.
    apply emits_let. intros pp Hpp%ok_or_Ok. apply emits_seq.
    + apply emits_op. simpl. unfold dial_target. rewrite Es, Hproxy. simpl. by rewrite Hph; simpl; rewrite Hpp.
    + intros _. apply emits_op. simpl. rewrite Es. by eauto.
  - apply emits_op. simpl. unfold dial_target. rewrite Es, Hh. simpl. by rewrite Hp.
Qed.

Lemma connect_emits url s : url_parse s = Ok url → emits (allowed url s) (connect s).
Proof.
  intros Hu. unfold connect. apply emits_let. intros url' E. rewrite Hu in E. apply Ok_inj in E as <-.
  apply emits_let. intros host Hh%ok_or_Ok. apply emits_let. intros port Hp%ok_or_Ok.
  destruct (_ || _); [|apply emits_lift]. apply emits_seq; [by apply open_tcp_emits|]. intros _.
  apply emits_let. intros _ _. by apply emits_op.
Qed.

Lemma connect_yawc_emits url : emits (allowed url (url_str url)) (connect_yawc url).
Proof.
  unfold connect_yawc. apply emits_let. intros host Hh%ok_or_Ok. apply emits_let. intros port Hp%ok_or_Ok.
  apply emits_seq; [by apply emits_map_err, open_tcp_emits|]. intros _. apply emits_seq.
  - case_decide; [apply emits_ret|]. case_decide; [|apply emits_lift].
    apply emits_let. intros _ _. by apply emits_op.
  - intros _. by apply emits_op.
Qed.

Lemma nonempty_Some o p : nonempty o = Some p ↔ o = Some p ∧ p ≠ EmptyString.
Proof. unfold nonempty. destruct o as [s|]; simpl; [case_decide|]; naive_solver. Qed.

Lemma nonempty_None o : nonempty o = None ↔ o = None ∨ o = Some EmptyString.
Proof. unfold nonempty. destruct o as [s|]; simpl; [case_decide|]; naive_solver. Qed.

(** [select_proxy] is the first of the two variables for the scheme that is set
    and not empty. *)
Lemma select_proxy_spec is_secure (lookup : string → option string) p :
  select_proxy is_secure lookup = Some p ↔
  p ≠ EmptyString ∧
  let upper := if is_secure then "HTTPS_PROXY"%string else "HTTP_PROXY"%string in
  let lower := if is_secure then "https_proxy"%string else "http_proxy"%string in
  (lookup upper = Some p ∨ (lookup upper = None ∨ lookup upper = Some EmptyString) ∧ lookup lower = Some p).
Proof.
  assert (Hpair : ∀ u l, find_map (λ k, nonempty (lookup k)) [u; l] = Some p ↔
    p ≠ EmptyString ∧ (lookup u = Some p ∨ (lookup u = None ∨ lookup u = Some EmptyString) ∧ lookup l = Some p)).
  { intros u l. cbn [find_map]. rewrite <- nonempty_None. destruct (nonempty (lookup u)) as [a|] eqn:Eu.
    - apply nonempty_Some in Eu as [Eu Ha]. rewrite Eu. naive_solver.
    - destruct (nonempty (lookup l)) as [b|] eqn:El.
      + apply nonempty_Some in El as [El Hb]. rewrite El. apply nonempty_None in Eu. naive_solver.
      + apply nonempty_None in El. apply nonempty_None in Eu. naive_solver. }
  unfold select_proxy, proxy_vars. destruct is_secure; apply Hpair.
Qed.

(** C33. Egress from the enclave: whatever the network answers, a connection opened
    for a URL dials nothing but the proxy when one is configured for its scheme,
    and nothing but the host of the URL otherwise; the tunnel asked of the proxy
    leads to that host, and TLS is done with that host's name, never the proxy's.
    The proxy for [wss] is the first non-empty one of [HTTPS_PROXY] and
    [https_proxy]. *)
Theorem egress_through_proxy url s :
  url_parse s = Ok url →
  Forall (allowed url s) (connect s []).2 ∧ Forall (allowed url (url_str url)) (connect_yawc url []).2 ∧
  ∀ proxy_url proxy ph pp,
    scheme url = "wss"%string → proxy_url ≠ EmptyString → env_var "HTTPS_PROXY" = Some proxy_url →
    url_parse proxy_url = Ok proxy → host_str proxy = Some ph → port_or_known_default proxy = Some pp →
    ∀ h p, TcpConnect h p ∈ (connect s []).2 ++ (connect_yawc url []).2 → h = ph ∧ p = pp.
Proof.
  intros Hu.
  destruct (connect_emits url s Hu []) as (ops1 & E1 & H1).
  destruct (connect_yawc_emits url []) as (ops2 & E2 & H2). simpl in E1, E2. rewrite E1, E2.
  split; [done|]. split; [done|].
  intros proxy_url proxy ph pp Hs Hne Henv Hproxy Hph Hpp h p Hin.
  assert (Ht : dial_target url = Some (h, p)).
  { rewrite Forall_forall in H1, H2. apply elem_of_app in Hin as [Hin|Hin]; [by apply (H1 _ Hin)|by apply (H2 _ Hin)]. }
  unfold dial_target in Ht. rewrite Hs, bool_decide_eq_true_2 in Ht by done.
  assert (select_proxy true env_var = Some proxy_url) as Esel by (apply select_proxy_spec; simpl; by auto).
  rewrite Esel, Hproxy in Ht. simpl in Ht. rewrite Hph in Ht. simpl in Ht. rewrite Hpp in Ht. naive_solver.
Qed.

(** The two connectors differ on a scheme that is not a WebSocket one: [connect]
    refuses it before touching the network, [connect_yawc] has already opened a
    connection. *)
Lemma unsupported_scheme url s host port :
  url_parse s = Ok url → host_str url = Some host → port_or_known_default url = Some port →
  scheme url ≠ "ws"%string → scheme url ≠ "wss"%string →
  connect s [] = (Err ("unsupported scheme " +:+ scheme url), []) ∧
  (select_proxy false env_var = None → (connect_yawc url []).2 = [TcpConnect host port]).
Proof.
  intros Hu Hh Hp Hw Hws. split.
  - unfold connect, net_bind, net_lift. rewrite Hu, Hh. simpl. rewrite Hp. simpl.
    by rewrite !bool_decide_eq_false_2 by done.
  - intros Hn. unfold connect_yawc, net_bind, net_lift, net_map_err, open_tcp. rewrite Hh. simpl. rewrite Hp. simpl.
    rewrite bool_decide_eq_false_2 by done. rewrite Hn. unfold do_op. simpl.
    destruct (answer [] (TcpConnect host port)); simpl; [|done].
    by rewrite !decide_False by done.
Qed.

(** A [wss] connection never uses [HTTP_PROXY]. *)
Lemma wss_ignores_http_proxy url host port :
  scheme url = "wss"%string → host_str url = Some host → port_or_known_default url = Some port →
  env_var "HTTPS_PROXY" = None → env_var "https_proxy" = None →
  dial_target url = Some (host, port).
Proof.
  intros Hs Hh Hp H1 H2. unfold dial_target. rewrite Hs, bool_decide_eq_true_2 by done.
  unfold select_proxy, proxy_vars. cbn [find_map]. rewrite H1, H2. simpl. rewrite Hh. simpl. by rewrite Hp.
Qed.
End egress.

(** ** A concrete enclave *)

Record toy_url := { tu_scheme : string; tu_host : string; tu_port : Z }.

Definition toy_urls : list (string * toy_url) :=
  [("wss://l1/", {| tu_scheme := "wss"; tu_host := "l1"; tu_port := 443 |});
   ("http://127.0.0.1:10000", {| tu_scheme := "http"; tu_host := "127.0.0.1"; tu_port := 10000 |})]%string.

Definition toy_url_crate : UrlCrate := {|
  Url := toy_url;
  url_parse s := match list_find (λ r, r.1 = s) toy_urls with
                 | Some (_, (_, u)) => Ok u
                 | None => Err "relative URL without a base"%string
                 end;
  url_str u := (tu_scheme u +:+ "://" +:+ tu_host u)%string;
  host_str u := Some (tu_host u);
  port_or_known_default u := Some (tu_port u);
  scheme := tu_scheme;
  into_client_request _ := Ok tt;
  ServerName_try_from _ := Ok tt;
|}.

Definition enclave_env (v : string) : option string :=
  if decide (v = "HTTPS_PROXY"%string) then Some "http://127.0.0.1:10000"%string else None.

Lemma egress_through_proxy_witness :
  (connect (U:=toy_url_crate) (λ _ _, Ok tt) enclave_env "wss://l1/" []).2 =
    [TcpConnect "127.0.0.1" 10000; HttpConnect "l1" 443; ClientAsyncTls "wss://l1/"] ∧
  ∀ h p, TcpConnect h p ∈ (connect (U:=toy_url_crate) (λ _ _, Ok tt) enclave_env "wss://l1/" []).2 →
    h = "127.0.0.1"%string ∧ p = 10000.
Proof.
  split; [by vm_compute|]. intros h p Hin.
  destruct (egress_through_proxy (U:=toy_url_crate) (λ _ _, Ok tt) enclave_env
              {| tu_scheme := "wss"; tu_host := "l1"; tu_port := 443 |} "wss://l1/") as (_ & _ & H); [by vm_compute|].
  apply (H "http://127.0.0.1:10000"%string {| tu_scheme := "http"; tu_host := "127.0.0.1"; tu_port := 10000 |});
    try done; try (by vm_compute). apply elem_of_app. by left.
Defined.
