(* ===== verification/Startup.v ===== *)
(** * Start-up

    [src/src/secrets.rs] and the configuration part of [main] and [run] of
    [src/src/main.rs]: the secret overrides, the placeholder checks, and where
    the service starts on the chain. *)

From S2P Require Import Prelude Bytes Slice Config Rollup NitroTypes NitroPayload Nitro L1Monitor.

Definition PLACEHOLDER_STR : string := "PLACEHOLDER".
Definition PLACEHOLDER_URL : string := "http://placeholder.invalid/".
Definition ENV_AWS_REGION : string := "AWS_REGION".
Definition ENV_AWS_SECRET_ID : string := "AWS_SECRET_ID".
Definition ENV_OPERATOR_PRIVATE_KEY : string := "OPERATOR_PRIVATE_KEY".

(** A [url::Url] is the string it serialises to. *)
Record SecretOverrides := {
  espresso_base_url : string;
  feed_ws_url : string;
  ov_l1_ws_url : string;
  ov_l1_http_url : string;
  anytrust_endpoint : string;
  ov_starting_hotshot_height : Z;
  ov_is_fresh_deployment : bool;
  operator_private_key : option string;
  log_filter : option string;
}.

Section startup.
Context {Genesis : Type} (stake_table_is_empty : Genesis → bool).
(** [Url::parse], the two shapes of the secret's JSON, and the feature the
    binary is built with. *)
Context (url_parse : string → result string string).
Context (overrides_from_str : string → result SecretOverrides string).
Context (wrapper_from_str : string → result string string).
Context (unverified_reader : bool).
Open Scope cas_scope.

Abbreviation Cfg := (ServiceConfig Genesis Address (NitroConfig Address)).

(** The environment and the secrets manager: a secret may have no string
    payload. *)
Record environment := {
  env_var : string → option string;
  get_secret_value : string → string → result (option string) string;
}.

Definition parse_secret_overrides (secret_str : string) : result SecretOverrides string :=
  match overrides_from_str secret_str with
  | Ok overrides => Ok overrides
  | Err _ =>
      let? parameters := wrapper_from_str secret_str in
      overrides_from_str parameters
  end.

Definition fetch_secret_overrides (env : environment) (tee_type : TeeType)
    : result (option SecretOverrides) string :=
  match env_var env ENV_AWS_REGION, env_var env ENV_AWS_SECRET_ID with
  | None, None => if decide (tee_type = TeeNitro) then Err "not set but Tee type is Nitro" else Ok None
  | Some _, None | None, Some _ => Err "must both be set or both unset"
  | Some region, Some secret_id =>
      let? resp := get_secret_value env region secret_id in
      let? secret_str := ok_or resp "secret has no SecretString payload" in
      let? overrides := parse_secret_overrides secret_str in
      Ok (Some overrides)
  end.

Definition override_provider (overrides : SecretOverrides) (p : DaProviderConfig) : DaProviderConfig :=
  if is_anytrust p
  then {| name := name p; endpoint_url := anytrust_endpoint overrides; is_anytrust := is_anytrust p;
          anytrust_fallback_url := anytrust_fallback_url p |}
  else p.

Definition apply_overrides_nitro (cfg : Cfg) (overrides : SecretOverrides) : result Cfg string :=
  let? base := url_parse (espresso_base_url overrides) in
  let e := espresso_client cfg in
  let s := streamer cfg in
  let r := rollup cfg in
  let n := stack r in
  let f := feed n in
  let d := da_server cfg in
  Ok {| espresso_client :=
          {| ec_client := {| base_url := base; client_timeout_secs := client_timeout_secs (ec_client e) |};
             light_client := light_client e |};
        streamer :=
          {| initial_backoff_ms := initial_backoff_ms s; max_backoff_ms := max_backoff_ms s;
             retry_broadcast_delay_ms := retry_broadcast_delay_ms s; starting_pos := starting_pos s;
             starting_hotshot_height := ov_starting_hotshot_height overrides;
             max_full_queue_entries := max_full_queue_entries s;
             hotshot_stall_warn_ms := hotshot_stall_warn_ms s;
             progress_log_interval_ms := progress_log_interval_ms s |};
        rollup :=
          {| ty := ty r; namespace_id := namespace_id r;
             stack :=
               {| legacy_signer_addresses := legacy_signer_addresses n; chain_id := chain_id n;
                  feed := {| client := client f; server := server f; web_socket_url := feed_ws_url overrides;
                             current_message_count := current_message_count f |};
                  l1_http_url := ov_l1_http_url overrides; l1_ws_url := ov_l1_ws_url overrides;
                  sequencer_inbox_address := sequencer_inbox_address n; log_scan_step := log_scan_step n;
                  max_l1_blocks_to_scan_on_startup := max_l1_blocks_to_scan_on_startup n;
                  l1_finalized_poll_interval_ms := l1_finalized_poll_interval_ms n |} |};
        da_server := {| listen_addr := listen_addr d;
                        da_providers := override_provider overrides <$> da_providers d;
                        calldata_max_size := calldata_max_size d |};
        submitter := submitter cfg; advanced := advanced cfg; key_manager := key_manager cfg;
        is_fresh_deployment := ov_is_fresh_deployment overrides |}.

Definition resolve_operator_private_key (env : environment) (overrides : option SecretOverrides)
    : result string string :=
  match overrides ≫= operator_private_key with
  | Some key => Ok key
  | None => ok_or (env_var env ENV_OPERATOR_PRIVATE_KEY) "operator_private_key not found"
  end.

Definition placeholder_provider (p : DaProviderConfig) : bool :=
  is_anytrust p && bool_decide (endpoint_url p = PLACEHOLDER_STR).

Definition assert_no_placeholders_nitro (cfg : Cfg) : result unit string :=
  if decide (base_url (ec_client (espresso_client cfg)) = PLACEHOLDER_URL)
  then Err "espresso_client.base_url was not overridden"
  else if decide (web_socket_url (feed (stack (rollup cfg))) = PLACEHOLDER_STR)
  then Err "rollup.stack.feed.web_socket_url was not overridden"
  else if decide (l1_ws_url (stack (rollup cfg)) = PLACEHOLDER_STR)
  then Err "rollup.stack.l1_ws_url was not overridden"
  else if decide (l1_http_url (stack (rollup cfg)) = PLACEHOLDER_STR)
  then Err "rollup.stack.l1_http_url was not overridden"
  else
    let? _ := url_parse (l1_http_url (stack (rollup cfg))) in
    if existsb placeholder_provider (da_providers (da_server cfg))
    then Err "da_provider endpoint_url not overridden"
    else if negb unverified_reader && bool_decide (tee_type_cfg (key_manager cfg) = TeeNitro) &&
            stake_table_is_empty (genesis (light_client (espresso_client cfg)))
    then Err "genesis.stake_table is empty"
    else Ok tt.

(** [main] up to the operator key: the configuration the service runs with. *)
Definition load_config (env : environment) (config : Cfg) : result (Cfg * string) string :=
  let? overrides := fetch_secret_overrides env (tee_type_cfg (key_manager config)) in
  let? config := match overrides with
                 | Some o => apply_overrides_nitro config o
                 | None => Ok config
                 end in
  let? _ := assert_no_placeholders_nitro config in
  let? key := resolve_operator_private_key env overrides in
  Ok (config, key).

(** [run] up to [resolve_config_with_checkpoint]: the L1 monitor's two answers. *)
Definition resolve_start (config : Cfg) (checkpoint : result (CasCheckpoint BatchCursor) L1MonitorError)
    (fresh_cursor : result BatchCursor L1MonitorError) : result Cfg L1MonitorError :=
  let? '(cursor, height) :=
    if negb (is_fresh_deployment config) then
      let? c := checkpoint in Ok (batch_cursor c, Some (checkpoint_hotshot_height c))
    else
      let? b := fresh_cursor in Ok (b, None) in
  Ok (resolve_config_with_checkpoint config cursor height).

(** ** What the service runs with *)

(** The settings the service's trust rests on: they are part of the measured
    configuration file. *)
Record trust_anchors := {
  ta_genesis : Genesis;
  ta_namespace : Z;
  ta_chain_id : Z;
  ta_sequencers : list Address;
  ta_legacy_signers : list Address;
  ta_inbox : Address;
  ta_key_manager : KeyManagerConfig Address;
}.

Definition anchors (cfg : Cfg) : trust_anchors := {|
  ta_genesis := genesis (light_client (espresso_client cfg));
  ta_namespace := namespace_id (rollup cfg);
  ta_chain_id := chain_id (stack (rollup cfg));
  ta_sequencers := trusted_sequencer_addresses (client (feed (stack (rollup cfg))));
  ta_legacy_signers := legacy_signer_addresses (stack (rollup cfg));
  ta_inbox := sequencer_inbox_address (stack (rollup cfg));
  ta_key_manager := key_manager cfg |}.

Lemma apply_overrides_spec cfg o cfg' :
  apply_overrides_nitro cfg o = Ok cfg' →
  anchors cfg' = anchors cfg ∧ web_socket_url (feed (stack (rollup cfg'))) = feed_ws_url o ∧
  l1_ws_url (stack (rollup cfg')) = ov_l1_ws_url o ∧ l1_http_url (stack (rollup cfg')) = ov_l1_http_url o ∧
  starting_hotshot_height (streamer cfg') = ov_starting_hotshot_height o ∧
  is_fresh_deployment cfg' = ov_is_fresh_deployment o ∧
  da_providers (da_server cfg') = override_provider o <$> da_providers (da_server cfg).
Proof. unfold apply_overrides_nitro. intros H. split_ok. done. Qed.

Lemma no_placeholders_spec cfg :
  assert_no_placeholders_nitro cfg = Ok tt ↔
  base_url (ec_client (espresso_client cfg)) ≠ PLACEHOLDER_URL ∧
  web_socket_url (feed (stack (rollup cfg))) ≠ PLACEHOLDER_STR ∧
  l1_ws_url (stack (rollup cfg)) ≠ PLACEHOLDER_STR ∧
  l1_http_url (stack (rollup cfg)) ≠ PLACEHOLDER_STR ∧
  is_ok (url_parse (l1_http_url (stack (rollup cfg)))) = true ∧
  (∀ p, p ∈ da_providers (da_server cfg) → is_anytrust p = true → endpoint_url p ≠ PLACEHOLDER_STR) ∧
  (unverified_reader = false → tee_type_cfg (key_manager cfg) = TeeNitro →
   stake_table_is_empty (genesis (light_client (espresso_client cfg))) = false).
Proof.
  unfold assert_no_placeholders_nitro.
  assert (Hp : existsb placeholder_provider (da_providers (da_server cfg)) = false ↔
    ∀ p, p ∈ da_providers (da_server cfg) → is_anytrust p = true → endpoint_url p ≠ PLACEHOLDER_STR).
  { unfold placeholder_provider. split.
    - intros H p Hin Ha He. apply not_true_iff_false in H. apply H, existsb_exists. exists p.
      split; [by apply list_elem_of_In|]. rewrite Ha. by apply bool_decide_eq_true_2.
    - intros H. apply not_true_iff_false. intros (p & Hin%list_elem_of_In & [Ha He]%andb_prop)%existsb_exists.
      apply bool_decide_eq_true in He. by apply (H p). }
  repeat (case_decide; [split; [done|by intros ?; destruct_and!]|]).
  destruct (url_parse (l1_http_url (stack (rollup cfg)))); simpl;
    [|split; [done|by intros ?; destruct_and!]].
  rewrite <- Hp. destruct (existsb _ _); [split; [done|by intros ?; destruct_and!]|].
  destruct unverified_reader; simpl; [split; [intros _; split_and!; done|done]|].
  case_bool_decide as Ht; simpl; [|split; [intros _; by split_and!|done] ].
  destruct (stake_table_is_empty _); split; try done.
  intros (_ & _ & _ & _ & _ & _ & Hg). by specialize (Hg eq_refl Ht).
Qed.

(** What an accepted configuration went through. *)
Lemma load_config_ok env cfg cfg' key :
  load_config env cfg = Ok (cfg', key) →
  ∃ o, fetch_secret_overrides env (tee_type_cfg (key_manager cfg)) = Ok o ∧
    match o with Some o' => apply_overrides_nitro cfg o' = Ok cfg' | None => cfg' = cfg end ∧
    assert_no_placeholders_nitro cfg' = Ok tt ∧ resolve_operator_private_key env o = Ok key ∧
    anchors cfg' = anchors cfg.
Proof.
  unfold load_config. intros H. destruct (fetch_secret_overrides env _) as [o|]; [|done].
  destruct (match o with Some o' => _ | None => _ end) as [c|] eqn:Ea; [|done].
  destruct (assert_no_placeholders_nitro c) as [ []|] eqn:En; [|done].
  destruct (resolve_operator_private_key env o) as [k|] eqn:Ek; [|done]. simplify_eq.
  exists o. destruct o as [o|]; simplify_eq; [|by split_and!].
  split_and!; try done. by apply apply_overrides_spec in Ea as (? & _).
Qed.

Lemma resolve_start_anchors (cfg : Cfg) checkpoint fresh_cursor (cfg' : Cfg) :
  resolve_start cfg checkpoint fresh_cursor = Ok cfg' → anchors cfg' = anchors cfg.
Proof. unfold resolve_start. intros H. destruct (is_fresh_deployment cfg); simpl in H; by split_ok. Qed.

(** The configuration the service starts with: no field still holds its
    placeholder and the L1 URL parses; the settings the trust rests on are those
    of the measured file, whatever the secret says; an enclave never starts
    without the secret, nor, unless built without verification, without a genesis
    stake table; and without a secret the file is used as it is. *)
Theorem startup_config_sound env cfg cfg' key :
  load_config env cfg = Ok (cfg', key) →
  assert_no_placeholders_nitro cfg' = Ok tt ∧ anchors cfg' = anchors cfg ∧
  (tee_type_cfg (key_manager cfg) = TeeNitro →
     (∃ o region secret_id, env_var env ENV_AWS_REGION = Some region ∧
        env_var env ENV_AWS_SECRET_ID = Some secret_id ∧ apply_overrides_nitro cfg o = Ok cfg') ∧
     (unverified_reader = false → stake_table_is_empty (ta_genesis (anchors cfg)) = false)) ∧
  (env_var env ENV_AWS_REGION = None → cfg' = cfg ∧ env_var env ENV_OPERATOR_PRIVATE_KEY = Some key).
Proof.
  intros (o & Ef & Ea & En & Ek & Hanch)%load_config_ok. unfold fetch_secret_overrides in Ef.
  split_and!; [done|done|..].
  - intros Ht. split.
    + destruct (env_var env ENV_AWS_REGION) as [region|], (env_var env ENV_AWS_SECRET_ID) as [sid|]; try done.
      * split_ok. eexists _, region, sid. split_and!; [done..|]. exact Ea.
      * by rewrite decide_True in Ef.
    + apply no_placeholders_spec in En as (_ & _ & _ & _ & _ & _ & Hg). rewrite <- Hanch. intros Hu.
      apply Hg; [done|]. by assert (key_manager cfg' = key_manager cfg) as -> by (by injection Hanch).
  - intros Hr. rewrite Hr in Ef. destruct (env_var env ENV_AWS_SECRET_ID); [done|]. case_decide; [done|].
    inv_ok. split; [done|]. unfold resolve_operator_private_key in Ek. simpl in Ek.
    by destruct (env_var env ENV_OPERATOR_PRIVATE_KEY); simplify_eq/=.
Qed.

(** Where the service starts: the feed is requested from, and the streamer
    keeps messages from, the same position, the batch cursor of the L1 checkpoint
    (or the latest one for a fresh deployment); HotShot is read from the
    checkpoint's height, or from the configured height for a fresh deployment;
    and nothing of the rest of the streamer's settings changes. *)
Theorem startup_position cfg checkpoint fresh_cursor cfg' :
  resolve_start cfg checkpoint fresh_cursor = Ok cfg' →
  starting_pos (streamer cfg') = current_message_count (feed (stack (rollup cfg'))) ∧
  anchors cfg' = anchors cfg ∧
  max_full_queue_entries (streamer cfg') = max_full_queue_entries (streamer cfg) ∧
  if is_fresh_deployment cfg
  then ∃ b, fresh_cursor = Ok b ∧ starting_pos (streamer cfg') = next_batch_start_pos b ∧
         starting_hotshot_height (streamer cfg') = starting_hotshot_height (streamer cfg)
  else ∃ c, checkpoint = Ok c ∧ starting_pos (streamer cfg') = next_batch_start_pos (batch_cursor c) ∧
         starting_hotshot_height (streamer cfg') = checkpoint_hotshot_height c.
Proof.
  unfold resolve_start. intros H. destruct (is_fresh_deployment cfg); simpl in H; split_ok; eauto 10.
Qed.
End startup.

(** ** A concrete start *)

Definition toy_url_parse (s : string) : result string string :=
  if decide (s = "not a url") then Err "relative URL without a base"%string else Ok s.

Definition toy_overrides : SecretOverrides := {|
  espresso_base_url := "https://query.example.com/"; feed_ws_url := "wss://feed"; ov_l1_ws_url := "wss://l1";
  ov_l1_http_url := "https://l1/"; anytrust_endpoint := "http://anytrust"; ov_starting_hotshot_height := 900;
  ov_is_fresh_deployment := true; operator_private_key := Some "0x01"%string; log_filter := None |}.

Definition toy_overrides_from_str (s : string) : result SecretOverrides string :=
  if decide (s = "overrides") then Ok toy_overrides else Err "not overrides"%string.

Definition toy_env : environment := {|
  env_var v := if decide (v = ENV_AWS_REGION) then Some "eu"%string
               else if decide (v = ENV_AWS_SECRET_ID) then Some "cas"%string else None;
  get_secret_value _ _ := Ok (Some "wrapped"%string);
|}.

Definition toy_file_config : ServiceConfig bool Address (NitroConfig Address) := {|
  espresso_client := {| ec_client := {| base_url := PLACEHOLDER_URL; client_timeout_secs := 30 |};
                        light_client := {| genesis := true; fallback_query_urls := []; db_path := None;
                                           num_stake_tables_in_memory := 100; fallback_delay_ms := 300 |} |};
  streamer := default_StreamerConfig;
  rollup := {| ty := RollupNitro; namespace_id := 1;
               stack := {| legacy_signer_addresses := []; chain_id := 412346;
                           feed := {| client := default_BroadcasterClientConfig;
                                      server := default_BroadcasterConfig;
                                      web_socket_url := PLACEHOLDER_STR; current_message_count := 0 |};
                           l1_http_url := PLACEHOLDER_STR; l1_ws_url := PLACEHOLDER_STR;
                           sequencer_inbox_address := []; log_scan_step := 10000;
                           max_l1_blocks_to_scan_on_startup := 0; l1_finalized_poll_interval_ms := 12000 |} |};
  da_server := {| listen_addr := "0.0.0.0:9000";
                  da_providers := [ {| name := "anytrust"; endpoint_url := PLACEHOLDER_STR; is_anytrust := true;
                                       anytrust_fallback_url := None |} ];
                  calldata_max_size := None |};
  submitter := default_SubmitterConfig; advanced := default_AdvancedConfig;
  key_manager := {| tee_verifier_address_cfg := []; attestation_verifier_url := "http://attest";
                    max_register_attempts_cfg := 3; attestation_client_timeout_secs := 300;
                    tee_type_cfg := TeeNitro |};
  is_fresh_deployment := false |}.

Definition toy_load : result (ServiceConfig bool Address (NitroConfig Address) * string) string :=
  load_config negb toy_url_parse toy_overrides_from_str (λ _, Ok "overrides"%string) false toy_env toy_file_config.

Lemma startup_config_sound_witness :
  ∃ cfg', toy_load = Ok (cfg', "0x01"%string) ∧ anchors cfg' = anchors toy_file_config.
Proof.
  eexists. split; [vm_compute; reflexivity|].
  refine (proj1 (proj2 (startup_config_sound negb toy_url_parse toy_overrides_from_str
    (λ _, Ok "overrides"%string) false toy_env toy_file_config _ "0x01"%string _))).
  vm_compute. reflexivity.
Defined.

Lemma startup_position_witness :
  ∃ cfg', resolve_start toy_file_config
      (Ok {| batch_cursor := {| last_batch_delayed_messages_read := 3; next_batch_start_pos := 77 |};
             checkpoint_hotshot_height := 500 |}) (Err BlockNotFound) = Ok cfg' ∧
    starting_hotshot_height (streamer cfg') = 500 ∧
    starting_pos (streamer cfg') = current_message_count (feed (stack (rollup cfg'))).
Proof.
  eexists. split; [vm_compute; reflexivity|]. split; [vm_compute; reflexivity|].
  refine (proj1 (startup_position toy_file_config
    (Ok {| batch_cursor := {| last_batch_delayed_messages_read := 3; next_batch_start_pos := 77 |};
           checkpoint_hotshot_height := 500 |}) (Err BlockNotFound) _ _)).
  vm_compute. reflexivity.
Defined.
