(* ===== verification/ConfigJson.v ===== *)
(** * The configuration file

    The [Deserialize] implementations of the configuration records
    ([src/src/config.rs], [da_api/config.rs], [rollups/nitro/config.rs],
    [rollups/nitro/feed/*.rs], [submitter/submitter.rs], [espresso_client/client.rs])
    and of the secret ([src/src/secrets.rs]) field by field, with their defaults.
    Other crates read an address, a genesis and a URL; they stay parameters.  Which
    of several errors of one document is reported is not kept. *)

From S2P Require Import Prelude Bytes Slice Json Config Rollup NitroTypes NitroPayload Nitro L1Monitor Startup.
Open Scope cas_scope.

(** ** Scalars *)

(** The targets are 64-bit. *)
Definition de_usize (v : Value) : result nat string := let? z := de_u64 v in Ok (Z.to_nat z).

Definition known_field (names : list string) (f : string * Value) : bool := bool_decide (f.1 ∈ names).

(** serde's [Duration]: seconds and nanoseconds, no other field, and a carry that
    has to fit. *)
Definition de_duration (v : Value) : result Z string :=
  let? _ := match v with
            | JObject fields => if forallb (known_field ["secs"; "nanos"]) fields then Ok tt else Err "unknown field"%string
            | _ => Ok tt
            end in
  let? r := collect ["secs"; "nanos"] v in
  let? secs := field de_u64 r 0 in
  let? nanos := field (de_uint (2 ^ 32)) r 1 in
  if secs + nanos / 10 ^ 9 <? 2 ^ 64 then Ok (secs * 10 ^ 9 + nanos) else Err "overflow deserializing Duration"%string.

(** A unit variant: its name, or an object with that key and null. *)
Definition variant_name (v : Value) : option string :=
  match v with
  | JString s => Some s
  | JObject [(s, JNull)] => Some s
  | _ => None
  end.

Definition de_RollupType (v : Value) : result RollupType string :=
  match variant_name v with
  | Some s => if decide (s = "nitro") then Ok RollupNitro else Err "unknown variant"%string
  | None => Err "invalid type"%string
  end.

Definition de_TeeType (v : Value) : result TeeType string :=
  match variant_name v with
  | Some s => if decide (s = "nitro") then Ok TeeNitro
              else if decide (s = "test") then Ok TeeTest else Err "unknown variant"%string
  | None => Err "invalid type"%string
  end.

(** ** Sections with a default for every field *)

Definition de_StreamerConfig (v : Value) : result StreamerConfig string :=
  let d := default_StreamerConfig in
  let? r := collect ["initial_backoff_ms"; "max_backoff_ms"; "retry_broadcast_delay_ms"; "starting_pos";
                     "starting_hotshot_height"; "max_full_queue_entries"; "hotshot_stall_warn_ms";
                     "progress_log_interval_ms"] v in
  let? a0 := field_or (initial_backoff_ms d) de_u64 r 0 in
  let? a1 := field_or (max_backoff_ms d) de_u64 r 1 in
  let? a2 := field_or (retry_broadcast_delay_ms d) de_u64 r 2 in
  let? a3 := field_or (starting_pos d) de_u64 r 3 in
  let? a4 := field_or (starting_hotshot_height d) de_u64 r 4 in
  let? a5 := field_or (max_full_queue_entries d) de_usize r 5 in
  let? a6 := field_or (hotshot_stall_warn_ms d) de_u64 r 6 in
  let? a7 := field_or (progress_log_interval_ms d) de_u64 r 7 in
  Ok {| initial_backoff_ms := a0; max_backoff_ms := a1; retry_broadcast_delay_ms := a2; starting_pos := a3;
        starting_hotshot_height := a4; max_full_queue_entries := a5; hotshot_stall_warn_ms := a6;
        progress_log_interval_ms := a7 |}.

Definition de_AdvancedConfig (v : Value) : result AdvancedConfig string :=
  let d := default_AdvancedConfig in
  let? r := collect ["espresso_finalized_message_channel_capacity"; "verification_channel_capacity";
                     "hotshot_transaction_channel_capacity"; "submitter_input_channel_capacity"] v in
  let? a0 := field_or (espresso_finalized_message_channel_capacity d) de_usize r 0 in
  let? a1 := field_or (verification_channel_capacity d) de_usize r 1 in
  let? a2 := field_or (hotshot_transaction_channel_capacity d) de_usize r 2 in
  let? a3 := field_or (submitter_input_channel_capacity d) de_usize r 3 in
  Ok {| espresso_finalized_message_channel_capacity := a0; verification_channel_capacity := a1;
        hotshot_transaction_channel_capacity := a2; submitter_input_channel_capacity := a3 |}.

Definition de_SubmitterConfig (v : Value) : result SubmitterConfig string :=
  let d := default_SubmitterConfig in
  let? r := collect ["max_in_flight"; "finalization_wait_ms"; "initial_backoff_ms"; "max_backoff_ms";
                     "max_finalization_poll_retries"] v in
  let? a0 := field_or (max_in_flight d) de_usize r 0 in
  let? a1 := field_or (finalization_wait_ms d) de_u64 r 1 in
  let? a2 := field_or (sub_initial_backoff_ms d) de_u64 r 2 in
  let? a3 := field_or (sub_max_backoff_ms d) de_u64 r 3 in
  let? a4 := field_or (max_finalization_poll_retries d) (de_uint (2 ^ 32)) r 4 in
  Ok {| max_in_flight := a0; finalization_wait_ms := a1; sub_initial_backoff_ms := a2; sub_max_backoff_ms := a3;
        max_finalization_poll_retries := a4 |}.

Definition de_DaProviderConfig (v : Value) : result DaProviderConfig string :=
  let? r := collect ["name"; "endpoint_url"; "is_anytrust"; "anytrust_fallback_url"] v in
  let? a0 := field_or ""%string de_string r 0 in
  let? a1 := field_or ""%string de_string r 1 in
  let? a2 := field_or false de_bool r 2 in
  let? a3 := field_or None (de_option de_string) r 3 in
  Ok {| name := a0; endpoint_url := a1; is_anytrust := a2; anytrust_fallback_url := a3 |}.

Definition de_DaApiConfig (v : Value) : result DaApiConfig string :=
  let d := default_DaApiConfig in
  let? r := collect ["listen_addr"; "da_providers"; "calldata_max_size"] v in
  let? a0 := field_or (listen_addr d) de_string r 0 in
  let? a1 := field_or (da_providers d) (de_vec de_DaProviderConfig) r 1 in
  let? a2 := field_or (calldata_max_size d) (de_option de_u64) r 2 in
  Ok {| listen_addr := a0; da_providers := a1; calldata_max_size := a2 |}.

Definition de_WsBroadcastServerConfig (v : Value) : result WsBroadcastServerConfig string :=
  let d := default_WsBroadcastServerConfig in
  let? r := collect ["addr"; "port"; "ping"; "client_timeout"; "write_timeout"; "require_version";
                     "enable_compression"; "require_compression"] v in
  let? a0 := field_or (addr d) de_string r 0 in
  let? a1 := field_or (port d) (de_uint (2 ^ 16)) r 1 in
  let? a2 := field_or (ping d) de_duration r 2 in
  let? a3 := field_or (client_timeout d) de_duration r 3 in
  let? a4 := field_or (write_timeout d) de_duration r 4 in
  let? a5 := field_or (require_version d) de_bool r 5 in
  let? a6 := field_or (ws_enable_compression d) de_bool r 6 in
  let? a7 := field_or (require_compression d) de_bool r 7 in
  Ok {| addr := a0; port := a1; ping := a2; client_timeout := a3; write_timeout := a4; require_version := a5;
        ws_enable_compression := a6; require_compression := a7 |}.

Definition de_BroadcasterConfig (v : Value) : result BroadcasterConfig string :=
  let d := default_BroadcasterConfig in
  let? r := collect ["broadcast_channel_capacity"; "ws_server"] v in
  let? a0 := field_or (broadcast_channel_capacity d) de_usize r 0 in
  let? a1 := field_or (ws_server d) de_WsBroadcastServerConfig r 1 in
  Ok {| broadcast_channel_capacity := a0; ws_server := a1 |}.

Section addressed.
Context {Address : Type} (zero_address : Address) (address_de : Value → result Address string).
Context {Genesis : Type} (genesis_de : Value → result Genesis string).
Context (url_parse : string → result string string).

(** [Url]: a string that parses. *)
Definition de_url (v : Value) : result string string := let? s := de_string v in url_parse s.

Definition de_BroadcasterClientConfig (v : Value) : result (BroadcasterClientConfig Address) string :=
  let d := default_BroadcasterClientConfig (Address:=Address) in
  let? r := collect ["reconnect_initial_backoff"; "reconnect_maximum_backoff"; "timeout"; "retry_connect_max_backoff";
                     "retry_connect_backoff_step"; "enable_compression"; "require_feed_server_version";
                     "require_chain_id"; "trusted_sequencer_addresses"] v in
  let? a0 := field_or (reconnect_initial_backoff d) de_duration r 0 in
  let? a1 := field_or (reconnect_maximum_backoff d) de_duration r 1 in
  let? a2 := field_or (timeout d) de_duration r 2 in
  let? a3 := field_or (retry_connect_max_backoff d) de_duration r 3 in
  let? a4 := field_or (retry_connect_backoff_step d) de_duration r 4 in
  let? a5 := field_or (enable_compression d) de_bool r 5 in
  let? a6 := field_or (require_feed_server_version d) de_bool r 6 in
  let? a7 := field_or (require_chain_id d) de_bool r 7 in
  let? a8 := field_or (trusted_sequencer_addresses d) (de_vec address_de) r 8 in
  Ok {| reconnect_initial_backoff := a0; reconnect_maximum_backoff := a1; timeout := a2;
        retry_connect_max_backoff := a3; retry_connect_backoff_step := a4; enable_compression := a5;
        require_feed_server_version := a6; require_chain_id := a7; trusted_sequencer_addresses := a8 |}.

Definition default_FeedConfig : FeedConfig Address := {|
  client := default_BroadcasterClientConfig; server := default_BroadcasterConfig;
  web_socket_url := ""; current_message_count := 0 |}.

Definition de_FeedConfig (v : Value) : result (FeedConfig Address) string :=
  let d := default_FeedConfig in
  let? r := collect ["client"; "server"; "web_socket_url"; "current_message_count"] v in
  let? a0 := field_or (client d) de_BroadcasterClientConfig r 0 in
  let? a1 := field_or (server d) de_BroadcasterConfig r 1 in
  let? a2 := field_or (web_socket_url d) de_string r 2 in
  let? a3 := field_or (current_message_count d) de_u64 r 3 in
  Ok {| client := a0; server := a1; web_socket_url := a2; current_message_count := a3 |}.

(** The derived [Default]; three fields have a default of their own when they are
    read. *)
Definition default_NitroConfig : NitroConfig Address := {|
  legacy_signer_addresses := []; chain_id := 0; feed := default_FeedConfig; l1_http_url := ""; l1_ws_url := "";
  sequencer_inbox_address := zero_address; log_scan_step := 0; max_l1_blocks_to_scan_on_startup := 0;
  l1_finalized_poll_interval_ms := 0 |}.

Definition de_NitroConfig (v : Value) : result (NitroConfig Address) string :=
  let d := default_NitroConfig in
  let? r := collect ["legacy_signer_addresses"; "chain_id"; "feed"; "l1_http_url"; "l1_ws_url";
                     "sequencer_inbox_address"; "log_scan_step"; "max_l1_blocks_to_scan_on_startup";
                     "l1_finalized_poll_interval_ms"] v in
  let? a0 := field_or (legacy_signer_addresses d) (de_vec address_de) r 0 in
  let? a1 := field_or (chain_id d) de_u64 r 1 in
  let? a2 := field_or (feed d) de_FeedConfig r 2 in
  let? a3 := field_or (l1_http_url d) de_string r 3 in
  let? a4 := field_or (l1_ws_url d) de_string r 4 in
  let? a5 := field_or (sequencer_inbox_address d) address_de r 5 in
  let? a6 := field_or default_log_scan_step de_u64 r 6 in
  let? a7 := field_or 0 de_u64 r 7 in
  let? a8 := field_or default_l1_finalized_poll_interval_ms de_u64 r 8 in
  Ok {| legacy_signer_addresses := a0; chain_id := a1; feed := a2; l1_http_url := a3; l1_ws_url := a4;
        sequencer_inbox_address := a5; log_scan_step := a6; max_l1_blocks_to_scan_on_startup := a7;
        l1_finalized_poll_interval_ms := a8 |}.

(** ** Sections with required fields *)

Definition de_KeyManagerConfig (v : Value) : result (KeyManagerConfig Address) string :=
  let? r := collect ["tee_verifier_address"; "attestation_verifier_url"; "max_register_attempts";
                     "attestation_client_timeout_secs"; "tee_type"] v in
  let? a0 := field address_de r 0 in
  let? a1 := field de_url r 1 in
  let? a2 := field_or default_max_register_attempts (de_uint (2 ^ 8)) r 2 in
  let? a3 := field_or default_attestation_client_timeout_secs de_u64 r 3 in
  let? a4 := field_or TeeNitro de_TeeType r 4 in
  Ok {| tee_verifier_address_cfg := a0; attestation_verifier_url := a1; max_register_attempts_cfg := a2;
        attestation_client_timeout_secs := a3; tee_type_cfg := a4 |}.

Definition de_EspressoClientConfig (v : Value) : result EspressoClientConfig string :=
  let? r := collect ["base_url"; "client_timeout_secs"] v in
  let? a0 := field de_url r 0 in
  let? a1 := field_or default_client_timeout_secs de_u64 r 1 in
  Ok {| base_url := a0; client_timeout_secs := a1 |}.

Definition de_LightClientConfig (v : Value) : result (LightClientConfig Genesis) string :=
  let? r := collect ["genesis"; "fallback_query_urls"; "db_path"; "num_stake_tables_in_memory"; "fallback_delay_ms"] v in
  let? a0 := field genesis_de r 0 in
  let? a1 := field_or [] (de_vec de_url) r 1 in
  let? a2 := field_or None (de_option de_string) r 2 in
  let? a3 := field_or default_num_stake_tables_in_memory de_usize r 3 in
  let? a4 := field_or default_fallback_delay_ms de_u64 r 4 in
  Ok {| genesis := a0; fallback_query_urls := a1; db_path := a2; num_stake_tables_in_memory := a3;
        fallback_delay_ms := a4 |}.

(** The client's fields are flattened: the struct is an object, and what is not its
    own field goes to them. *)
Definition de_EspressoConfig (v : Value) : result (EspressoConfig Genesis) string :=
  match v with
  | JObject fields =>
      let? r := collect ["light_client"] v in
      let? lc := field de_LightClientConfig r 0 in
      let? c := de_EspressoClientConfig (JObject (filter (λ f, f.1 ≠ "light_client"%string) fields)) in
      Ok {| ec_client := c; light_client := lc |}
  | _ => Err "invalid type"%string
  end.

Definition de_RollupConfig {C} (de_stack : Value → result C string) (v : Value) : result (RollupConfig C) string :=
  let? r := collect ["type"; "namespace_id"; "stack"] v in
  let? a0 := field de_RollupType r 0 in
  let? a1 := field de_u64 r 1 in
  let? a2 := field de_stack r 2 in
  Ok {| ty := a0; namespace_id := a1; stack := a2 |}.

Definition de_ServiceConfig {C} (de_stack : Value → result C string) (v : Value)
    : result (ServiceConfig Genesis Address C) string :=
  let? r := collect ["espresso_client"; "streamer"; "rollup"; "da_server"; "submitter"; "advanced"; "key_manager";
                     "is_fresh_deployment"] v in
  let? a0 := field de_EspressoConfig r 0 in
  let? a1 := field_or default_StreamerConfig de_StreamerConfig r 1 in
  let? a2 := field (de_RollupConfig de_stack) r 2 in
  let? a3 := field_or default_DaApiConfig de_DaApiConfig r 3 in
  let? a4 := field_or default_SubmitterConfig de_SubmitterConfig r 4 in
  let? a5 := field_or default_AdvancedConfig de_AdvancedConfig r 5 in
  let? a6 := field de_KeyManagerConfig r 6 in
  let? a7 := field_or false de_bool r 7 in
  Ok {| espresso_client := a0; streamer := a1; rollup := a2; da_server := a3; submitter := a4; advanced := a5;
        key_manager := a6; is_fresh_deployment := a7 |}.

(** ** The secret *)

Definition de_SecretOverrides (v : Value) : result SecretOverrides string :=
  let? r := collect ["espresso_base_url"; "feed_ws_url"; "l1_ws_url"; "l1_http_url"; "anytrust_endpoint";
                     "starting_hotshot_height"; "is_fresh_deployment"; "operator_private_key"; "log_filter"] v in
  let? a0 := field de_string r 0 in
  let? a1 := field de_string r 1 in
  let? a2 := field de_string r 2 in
  let? a3 := field de_url r 3 in
  let? a4 := field de_string r 4 in
  let? a5 := field de_u64 r 5 in
  let? a6 := field de_bool r 6 in
  let? a7 := field_or None (de_option de_string) r 7 in
  let? a8 := field_or None (de_option de_string) r 8 in
  Ok {| espresso_base_url := a0; feed_ws_url := a1; ov_l1_ws_url := a2; ov_l1_http_url := a3; anytrust_endpoint := a4;
        ov_starting_hotshot_height := a5; ov_is_fresh_deployment := a6; operator_private_key := a7; log_filter := a8 |}.

Definition de_Wrapper (v : Value) : result string string :=
  let? r := collect ["parameters"] v in
  field de_string r 0.
End addressed.

(** ** What a read configuration holds *)

Definition is_usize (n : nat) : Prop := Z.of_nat n < u64_modulus.
Definition is_uint (bound z : Z) : Prop := 0 ≤ z < bound.
Definition is_duration (d : Z) : Prop := 0 ≤ d < 2 ^ 64 * 10 ^ 9.

Definition typed_StreamerConfig (s : StreamerConfig) : Prop :=
  Forall is_u64 [initial_backoff_ms s; max_backoff_ms s; retry_broadcast_delay_ms s; starting_pos s;
                 starting_hotshot_height s; hotshot_stall_warn_ms s; progress_log_interval_ms s] ∧
  is_usize (max_full_queue_entries s).

Definition typed_AdvancedConfig (a : AdvancedConfig) : Prop :=
  Forall is_usize [espresso_finalized_message_channel_capacity a; verification_channel_capacity a;
                   hotshot_transaction_channel_capacity a; submitter_input_channel_capacity a].

Definition typed_SubmitterConfig (s : SubmitterConfig) : Prop :=
  is_usize (max_in_flight s) ∧
  Forall is_u64 [finalization_wait_ms s; sub_initial_backoff_ms s; sub_max_backoff_ms s] ∧
  is_uint (2 ^ 32) (max_finalization_poll_retries s).

Definition typed_ws_server (w : WsBroadcastServerConfig) : Prop :=
  is_uint (2 ^ 16) (port w) ∧ Forall is_duration [ping w; client_timeout w; write_timeout w].

Definition typed_feed_client {Address} (c : BroadcasterClientConfig Address) : Prop :=
  Forall is_duration [reconnect_initial_backoff c; reconnect_maximum_backoff c; timeout c; retry_connect_max_backoff c;
                      retry_connect_backoff_step c].

Definition typed_NitroConfig {Address} (n : NitroConfig Address) : Prop :=
  Forall is_u64 [chain_id n; current_message_count (feed n); log_scan_step n; max_l1_blocks_to_scan_on_startup n;
                 l1_finalized_poll_interval_ms n] ∧
  typed_feed_client (client (feed n)) ∧ is_usize (broadcast_channel_capacity (server (feed n))) ∧
  typed_ws_server (ws_server (server (feed n))).

(** Every number is in the range of its Rust type. *)
Record typed_config {Genesis Address} (c : ServiceConfig Genesis Address (NitroConfig Address)) : Prop := {
  typed_streamer : typed_StreamerConfig (streamer c);
  typed_advanced : typed_AdvancedConfig (advanced c);
  typed_submitter : typed_SubmitterConfig (submitter c);
  typed_stack : typed_NitroConfig (stack (rollup c));
  typed_namespace : is_u64 (namespace_id (rollup c));
  typed_timeouts : Forall is_u64 [client_timeout_secs (ec_client (espresso_client c));
                                  fallback_delay_ms (light_client (espresso_client c));
                                  attestation_client_timeout_secs (key_manager c)];
  typed_tables : is_usize (num_stake_tables_in_memory (light_client (espresso_client c)));
  typed_attempts : is_uint (2 ^ 8) (max_register_attempts_cfg (key_manager c));
  typed_calldata n : calldata_max_size (da_server c) = Some n → is_u64 n;
}.

Lemma de_uint_typed bound v z : de_uint bound v = Ok z → is_uint bound z.
Proof. apply de_uint_range. Qed.

Lemma de_u64_typed v z : de_u64 v = Ok z → is_u64 z.
Proof. apply de_uint_range. Qed.

Lemma de_usize_typed v n : de_usize v = Ok n → is_usize n.
Proof. unfold de_usize, is_usize. intros H. split_ok. apply de_u64_typed in E. unfold is_u64 in E. lia. Qed.

Lemma de_duration_typed v d : de_duration v = Ok d → is_duration d.
Proof.
  unfold de_duration, is_duration. generalize (collect ["secs"; "nanos"]%string v) as c. intros c H.
  destruct (match v with JObject _ => _ | _ => _ end) as [u|]; [|done].
  destruct c as [r|]; [|done]. destruct (field de_u64 r 0) as [secs|] eqn:Es; [|done].
  destruct (field _ r 1) as [nanos|] eqn:En; [|done]. case_bool; [|done]. inv_ok.
  assert (Hs : is_u64 secs) by (eapply field_P; [eassumption|apply de_u64_typed]).
  assert (Hn : is_uint (2 ^ 32) nanos) by (eapply field_P; [exact En|apply de_uint_typed]). unfold is_uint in Hn.
  pose proof (Z.mod_pos_bound nanos (10 ^ 9)). pose proof (Z.div_mod nanos (10 ^ 9)). unfold is_u64 in Hs. lia.
Qed.

Create HintDb typed.
#[export] Hint Resolve de_u64_typed de_usize_typed de_duration_typed de_uint_typed : typed.

(** Splits a deserialiser into its fields and types each of them. *)
Ltac typed_fields :=
  split_ok; split_and?; try done; repeat (apply Forall_cons; split); try apply Forall_nil; try done;
  match goal with
  | E : field_or _ _ _ _ = Ok ?x |- _ ?x => eapply (field_or_P _ _ _ _ _ _ E); [done|eauto with typed]
  | E : field _ _ _ = Ok ?x |- _ ?x => eapply (field_P _ _ _ _ _ E); eauto with typed
  | _ => idtac
  end.

Lemma de_StreamerConfig_typed v s : de_StreamerConfig v = Ok s → typed_StreamerConfig s.
Proof. unfold de_StreamerConfig, typed_StreamerConfig. intros H. typed_fields. Qed.

Lemma de_AdvancedConfig_typed v a : de_AdvancedConfig v = Ok a → typed_AdvancedConfig a.
Proof. unfold de_AdvancedConfig, typed_AdvancedConfig. intros H. typed_fields. Qed.

Lemma de_SubmitterConfig_typed v s : de_SubmitterConfig v = Ok s → typed_SubmitterConfig s.
Proof. unfold de_SubmitterConfig, typed_SubmitterConfig. intros H. typed_fields. Qed.

Lemma de_ws_server_typed v w : de_WsBroadcastServerConfig v = Ok w → typed_ws_server w.
Proof. unfold de_WsBroadcastServerConfig, typed_ws_server. intros H. typed_fields. Qed.

Lemma default_ws_server_typed : typed_ws_server default_WsBroadcastServerConfig.
Proof. split; [done|]. by repeat (apply Forall_cons; split). Qed.

Lemma de_server_typed v b : de_BroadcasterConfig v = Ok b → is_usize (broadcast_channel_capacity b) ∧ typed_ws_server (ws_server b).
Proof.
  unfold de_BroadcasterConfig. intros H. typed_fields.
  eapply field_or_P; [eassumption|apply default_ws_server_typed|apply de_ws_server_typed].
Qed.

Section typed.
Context {Address : Type} (zero_address : Address) (address_de : Value → result Address string).
Context {Genesis : Type} (genesis_de : Value → result Genesis string).
Context (url_parse : string → result string string).

Lemma de_client_typed v c : de_BroadcasterClientConfig address_de v = Ok c → typed_feed_client c.
Proof. unfold de_BroadcasterClientConfig, typed_feed_client. intros H. typed_fields. Qed.

Lemma default_client_typed : typed_feed_client (default_BroadcasterClientConfig (Address:=Address)).
Proof. by repeat (apply Forall_cons; split). Qed.

Definition typed_FeedConfig (f : FeedConfig Address) : Prop :=
  is_u64 (current_message_count f) ∧ typed_feed_client (client f) ∧
  is_usize (broadcast_channel_capacity (server f)) ∧ typed_ws_server (ws_server (server f)).

Lemma default_feed_typed : typed_FeedConfig default_FeedConfig.
Proof. split_and!; [done|apply default_client_typed|done|apply default_ws_server_typed]. Qed.

Lemma de_feed_typed v f : de_FeedConfig address_de v = Ok f → typed_FeedConfig f.
Proof.
  unfold de_FeedConfig, typed_FeedConfig. intros H. split_ok.
  match goal with E : field_or _ de_BroadcasterConfig _ _ = Ok ?b |- _ =>
    assert (Hs : is_usize (broadcast_channel_capacity b) ∧ typed_ws_server (ws_server b)) end.
  { eapply (field_or_P (λ b, is_usize (broadcast_channel_capacity b) ∧ typed_ws_server (ws_server b))); [eassumption| |apply de_server_typed].
    split; [done|apply default_ws_server_typed]. }
  split_and!; try apply Hs.
  - eapply field_or_P; [eassumption|done|apply de_u64_typed].
  - eapply field_or_P; [eassumption|apply default_client_typed|apply de_client_typed].
Qed.

Lemma de_NitroConfig_typed v n : de_NitroConfig zero_address address_de v = Ok n → typed_NitroConfig n.
Proof.
  unfold de_NitroConfig, typed_NitroConfig. intros H. split_ok.
  match goal with E : field_or _ (de_FeedConfig _) _ _ = Ok ?f |- _ =>
    assert (Hf : typed_FeedConfig f) by (eapply field_or_P; [eassumption|apply default_feed_typed|apply de_feed_typed]) end.
  destruct Hf as (Hf1 & Hf2 & Hf3 & Hf4). typed_fields.
Qed.

Definition typed_espresso (e : EspressoConfig Genesis) : Prop :=
  is_u64 (client_timeout_secs (ec_client e)) ∧ is_u64 (fallback_delay_ms (light_client e)) ∧
  is_usize (num_stake_tables_in_memory (light_client e)).

Definition typed_rollup (r : RollupConfig (NitroConfig Address)) : Prop :=
  is_u64 (namespace_id r) ∧ typed_NitroConfig (stack r).

Definition typed_key_manager (k : KeyManagerConfig Address) : Prop :=
  is_uint (2 ^ 8) (max_register_attempts_cfg k) ∧ is_u64 (attestation_client_timeout_secs k).

Definition typed_da_server (d : DaApiConfig) : Prop := ∀ n, calldata_max_size d = Some n → is_u64 n.

Lemma de_client_config_typed v c : de_EspressoClientConfig url_parse v = Ok c → is_u64 (client_timeout_secs c).
Proof. unfold de_EspressoClientConfig. intros H. typed_fields. Qed.

Lemma de_light_client_typed v l :
  de_LightClientConfig genesis_de url_parse v = Ok l → is_u64 (fallback_delay_ms l) ∧ is_usize (num_stake_tables_in_memory l).
Proof. unfold de_LightClientConfig. intros H. typed_fields. Qed.

Lemma de_espresso_typed v e : de_EspressoConfig genesis_de url_parse v = Ok e → typed_espresso e.
Proof.
  unfold de_EspressoConfig, typed_espresso. destruct v as [| | | | | |fields]; try done. intros H. split_ok.
  split; [by eapply de_client_config_typed|].
  by eapply (field_P (λ l, is_u64 (fallback_delay_ms l) ∧ is_usize (num_stake_tables_in_memory l)));
    [eassumption|apply de_light_client_typed].
Qed.

Lemma de_rollup_typed v r : de_RollupConfig (de_NitroConfig zero_address address_de) v = Ok r → typed_rollup r.
Proof.
  unfold de_RollupConfig, typed_rollup. intros H. split_ok.
  split; eapply field_P; [eassumption|apply de_u64_typed|eassumption|apply de_NitroConfig_typed].
Qed.

Lemma de_key_manager_typed v k : de_KeyManagerConfig address_de url_parse v = Ok k → typed_key_manager k.
Proof. unfold de_KeyManagerConfig, typed_key_manager. intros H. typed_fields. Qed.

Lemma de_da_server_typed v d : de_DaApiConfig v = Ok d → typed_da_server d.
Proof.
  unfold de_DaApiConfig, typed_da_server. intros H. split_ok. intros n Hn.
  match goal with E : field_or _ (de_option de_u64) _ _ = Ok _ |- _ =>
    eapply (field_or_P (λ o, ∀ n, o = Some n → is_u64 n) _ _ _ _ _ E); [done| |done] end.
  intros w o Ho m ->. by eapply de_u64_typed, de_option_Ok.
Qed.

(** Any document that is accepted gives a configuration whose every number fits its
    Rust type. *)
Lemma de_config_typed v c :
  de_ServiceConfig address_de genesis_de url_parse (de_NitroConfig zero_address address_de) v = Ok c → typed_config c.
Proof.
  unfold de_ServiceConfig. intros H. split_ok.
  repeat match goal with
  | E : field (de_EspressoConfig _ _) _ _ = Ok ?e |- _ =>
      apply (field_P typed_espresso) in E as (? & ? & ?); [|apply de_espresso_typed]
  | E : field (de_RollupConfig _) _ _ = Ok ?e |- _ =>
      apply (field_P typed_rollup) in E as (? & ?); [|apply de_rollup_typed]
  | E : field (de_KeyManagerConfig _ _) _ _ = Ok ?e |- _ =>
      apply (field_P typed_key_manager) in E as (? & ?); [|apply de_key_manager_typed]
  | E : field_or _ de_DaApiConfig _ _ = Ok ?e |- _ =>
      apply (field_or_P typed_da_server) in E; [|done|apply de_da_server_typed]
  end.
  split; simpl; try done; try (by repeat (apply Forall_cons; split)).
  all: eapply field_or_P; [eassumption| |].
  - split; [|done]. by repeat (apply Forall_cons; split).
  - apply de_StreamerConfig_typed.
  - by repeat (apply Forall_cons; split).
  - apply de_AdvancedConfig_typed.
  - split_and!; try done. by repeat (apply Forall_cons; split).
  - apply de_SubmitterConfig_typed.
Qed.
End typed.

(** ** The file as a whole

    [main] reads the file twice: with the stack left as a document, to choose the
    rollup, and again with the chosen rollup's stack.  Here both readings start from
    one parsed document; [serde_json] reads the text each time, and what it accepts of
    a part it ignores (a number out of range, nesting past its limit) may differ. *)
Section readings.
Context {Address : Type} (zero_address : Address) (address_de : Value → result Address string).
Context {Genesis : Type} (genesis_de : Value → result Genesis string).
Context (url_parse : string → result string string).

Abbreviation read := (de_ServiceConfig address_de genesis_de url_parse).

(** The order of the sections of the file does not matter. *)
Lemma sections_in_any_order {C} (de_stack : Value → result C string) fs gs :
  fs ≡ₚ gs → read de_stack (JObject fs) = read de_stack (JObject gs).
Proof. intros H. unfold de_ServiceConfig. by rewrite (collect_permutation _ _ _ H). Qed.

(** A section the file leaves out, or leaves empty, has the defaults; a stack left
    empty has the scan step and the poll interval that are documented, not those of
    the derived [Default]. *)
Lemma empty_sections :
  de_StreamerConfig (JObject []) = Ok default_StreamerConfig ∧
  de_AdvancedConfig (JObject []) = Ok default_AdvancedConfig ∧
  de_SubmitterConfig (JObject []) = Ok default_SubmitterConfig ∧
  de_DaApiConfig (JObject []) = Ok default_DaApiConfig ∧
  de_FeedConfig address_de (JObject []) = Ok default_FeedConfig ∧
  ∃ n, de_NitroConfig zero_address address_de (JObject []) = Ok n ∧
    log_scan_step n = 10000 ∧ l1_finalized_poll_interval_ms n = 12000 ∧ max_l1_blocks_to_scan_on_startup n = 0 ∧
    feed n = default_FeedConfig.
Proof. split_and!; try done. by eexists. Qed.

End readings.

(** ** The secret, and what the start makes of the configuration *)
Section secret.
Context {Address : Type} {Genesis : Type} (url_parse : string → result string string).
(** The text of a document ([serde_json::from_str]). *)
Context (from_str : string → result Value string).

Definition overrides_from_str (s : string) : result SecretOverrides string :=
  let? v := from_str s in de_SecretOverrides url_parse v.

Definition wrapper_from_str (s : string) : result string string :=
  let? v := from_str s in de_Wrapper v.

Abbreviation parse_secret := (parse_secret_overrides overrides_from_str wrapper_from_str).

(** The two shapes of the secret hold the same: overrides that are read from a text are
    read from the text wrapped as the tooling stores it, whatever else the wrapper
    says, as long as it has not all the fields of overrides itself. *)
Theorem secret_shapes_agree text v o wrapped fields :
  from_str text = Ok v → de_SecretOverrides url_parse v = Ok o →
  from_str wrapped = Ok (JObject fields) → de_Wrapper (JObject fields) = Ok text →
  lookup_field fields "espresso_base_url" = None →
  parse_secret text = Ok o ∧ parse_secret wrapped = Ok o.
Proof.
  intros Ht Ho Hw Hp Hk. unfold parse_secret_overrides, overrides_from_str, wrapper_from_str. rewrite Ht, Hw, Hp, Ht, Ho.
  split; [done|]. unfold de_SecretOverrides. destruct (collect _ (JObject fields)) as [r|] eqn:E; [|done].
  apply (absent_field _ _ "espresso_base_url" 0) in E; [|done..]. unfold field at 1. by rewrite E.
Qed.

Abbreviation Cfg := (ServiceConfig Genesis NitroTypes.Address (NitroConfig NitroTypes.Address)).

Lemma overrides_typed s o : overrides_from_str s = Ok o → is_u64 (ov_starting_hotshot_height o).
Proof. unfold overrides_from_str, de_SecretOverrides. intros H. typed_fields. Qed.

Lemma fetched_typed env tee o :
  fetch_secret_overrides overrides_from_str wrapper_from_str env tee = Ok (Some o) → is_u64 (ov_starting_hotshot_height o).
Proof.
  unfold fetch_secret_overrides, parse_secret_overrides. intros H. repeat case_match; split_ok; try done.
  all: by eapply overrides_typed.
Qed.

(** Neither the secret nor the start position takes a number out of its range. *)
Lemma apply_overrides_typed (cfg : Cfg) o cfg' :
  typed_config cfg → is_u64 (ov_starting_hotshot_height o) → apply_overrides_nitro url_parse cfg o = Ok cfg' → typed_config cfg'.
Proof.
  intros [H1 H2 H3 H4 H5 H6 H7 H8 H9] Ho. unfold apply_overrides_nitro. intros H. split_ok. split; simpl; try done.
  destruct H1 as [Hs Hm]. split; [|done]. simpl. by repeat (apply Forall_cons in Hs as [? Hs]; apply Forall_cons; split).
Qed.

Lemma resolve_start_typed (cfg : Cfg) checkpoint fresh_cursor cfg' :
  typed_config cfg →
  (∀ c, checkpoint = Ok c → is_u64 (next_batch_start_pos (batch_cursor c)) ∧ is_u64 (checkpoint_hotshot_height c)) →
  (∀ b, fresh_cursor = Ok b → is_u64 (next_batch_start_pos b)) →
  resolve_start cfg checkpoint fresh_cursor = Ok cfg' → typed_config cfg'.
Proof.
  intros [H1 H2 H3 H4 H5 H6 H7 H8 H9] Hc Hb. unfold resolve_start. intros H.
  assert (∃ cur h, cfg' = resolve_config_with_checkpoint cfg cur h ∧ is_u64 (next_batch_start_pos cur) ∧
    ∀ z, h = Some z → is_u64 z) as (cur & h & -> & Hp & Hh).
  { destruct (is_fresh_deployment cfg); simpl in H.
    - destruct fresh_cursor as [b|]; [|done]. injection H as <-. exists b, None. split_and!; [done|by apply Hb|done].
    - destruct checkpoint as [c|]; [|done]. injection H as <-. destruct (Hc c eq_refl).
      eexists _, (Some _). split_and!; [done..|]. by intros z [= <-]. }
  destruct H1 as [Hs Hm], H4 as [Hn Hr]. split; simpl; try done; (split; [|done]); simpl.
  - repeat (apply Forall_cons in Hs as [? Hs]; apply Forall_cons; split); try done. destruct h; simpl; eauto.
  - by repeat (apply Forall_cons in Hn as [? Hn]; apply Forall_cons; split).
Qed.
End secret.

(** ** Concrete documents *)

Definition toy_address (v : Value) : result Address string :=
  match v with JString "0x00" => Ok [Byte.x00] | _ => Err "address"%string end.

Definition toy_genesis (v : Value) : result bool string := de_bool v.


Definition toy_secret : Value :=
  JObject [("espresso_base_url"%string, JString "https://query/"); ("feed_ws_url"%string, JString "wss://feed");
           ("l1_ws_url"%string, JString "wss://l1"); ("l1_http_url"%string, JString "https://l1/");
           ("anytrust_endpoint"%string, JString "http://anytrust"); ("starting_hotshot_height"%string, JNumber 900);
           ("is_fresh_deployment"%string, JBool true); ("operator_private_key"%string, JString "0x01")].

Definition toy_from_str (s : string) : result Value string :=
  if decide (s = "direct") then Ok toy_secret
  else if decide (s = "wrapped") then Ok (JObject [("parameters"%string, JString "direct")])
  else Err "syntax"%string.

Lemma secret_shapes_agree_witness :
  ∃ o, parse_secret_overrides (overrides_from_str toy_url_parse toy_from_str) (wrapper_from_str toy_from_str) "wrapped" = Ok o ∧
    ov_starting_hotshot_height o = 900 ∧ operator_private_key o = Some "0x01"%string.
Proof.
  eexists. split; [|split].
  - refine (proj2 (secret_shapes_agree toy_url_parse toy_from_str "direct" toy_secret _ "wrapped"
      [("parameters"%string, JString "direct")] _ _ _ _ _)); [reflexivity|vm_compute; reflexivity|reflexivity|reflexivity|reflexivity].
  - reflexivity.
  - reflexivity.
Defined.
