(* ===== verification/Stack.v ===== *)
(** * A whole stack

    The rest of the traits of [src/src/rollups/rollup.rs] that the service's start
    and its submitter run on: [L1Monitor], and what [Rollup] has beside parsing and
    verification.  [Nitro] and the mock of [src/src/espresso_e2e/mock_rollup.rs]
    implement them; the parts of [run] ([src/src/main.rs]) that are generic in the
    rollup are written against them. *)

From S2P Require Import Prelude Bytes Slice Config Rollup NitroTypes Rlp Batch NitroPayload.
From S2P Require Import MockRollup Nitro L1Monitor L1Provider Startup.
Open Scope cas_scope.

(** A call returns a result, panics, or does not return. *)
Inductive call (X E : Type) :=
| Returned (r : result X E)
| Panicked
| NeverReturned.

Arguments Returned {X E}.
Arguments Panicked {X E}.
Arguments NeverReturned {X E}.

Definition then_call {X Y E} (c : call X E) (k : X → call Y E) : call Y E :=
  match c with
  | Returned (Ok x) => k x
  | Returned (Err e) => Returned (Err e)
  | Panicked => Panicked
  | NeverReturned => NeverReturned
  end.

Definition CasCheckpoint_new {C} (cursor : C) (height : Z) : CasCheckpoint C :=
  {| batch_cursor := cursor; checkpoint_hotshot_height := height |}.

(** The trait [L1Monitor]; what is asked of L1 is asked at an instant, and [start]
    publishes what its ticks find. *)
Class L1MonitorOps (M C E : Type) := {
  latest_checkpoint_on_startup : M → nat → call (CasCheckpoint C) E;
  latest_cursor_on_fresh_deployment : M → nat → nat → call C E;
  start_monitor : M → list nat → list Z;
}.

(** The rest of the trait [Rollup], over a configuration [Cfg] of the service. *)
Class RollupStack (R : Rollup) (Cfg : Type) := {
  StackError : Type;
  Monitor : Type;
  monitor_ops :: L1MonitorOps Monitor (@BatchCursorT R) StackError;
  make_l1_monitor : nat → @StackConfig R → call Monitor StackError;
  make_payload : list (@FeedMessage R) → bytes * list (@FeedMessage R);
  resolve_config : Cfg → @BatchCursorT R → option Z → Cfg;
  rollup_type : option RollupType;
}.

Arguments Build_RollupStack R Cfg & _ _ _ _ _ _ _.

Section run.
Context {R : Rollup} {Cfg : Type} {ST : RollupStack R Cfg}.
Context (fresh : Cfg → bool).

(** [run] up to [resolve_config_with_checkpoint]. *)
Definition start_position (config : Cfg) (l1_monitor : Monitor) (t1 t2 : nat) : call Cfg StackError :=
  if negb (fresh config) then
    then_call (latest_checkpoint_on_startup l1_monitor t1) (λ checkpoint,
      Returned (Ok (resolve_config config (batch_cursor checkpoint) (Some (checkpoint_hotshot_height checkpoint)))))
  else
    then_call (latest_cursor_on_fresh_deployment l1_monitor t1 t2) (λ cursor,
      Returned (Ok (resolve_config config cursor None))).

(** The transactions of a batch of messages; [None] is running out of rounds. *)
Fixpoint make_transactions (fuel : nat) (namespace_id : Z) (msgs : list FeedMessage) : option (list Transaction) :=
  match msgs, fuel with
  | [], _ => Some []
  | _, O => None
  | _, S fuel' =>
      let '(payload, msgs') := make_payload msgs in
      match payload with
      | [] => Some []
      | _ :: _ =>
          txes ← make_transactions fuel' namespace_id msgs';
          Some ({| tx_namespace := namespace_id; payload := payload |} :: txes)
      end
  end.
End run.

(** ** Nitro *)
Section nitro.
Context {A : AlloyRlp} {B : Brotli} {J : NitroJson} {K : Crypto} (hash : BroadcastFeedMessage → Z → result B256 string).
Context {Log : Type} {Rpc : L1Rpc Log} (decode_log : Log → result EspressoCertificateVerified string).
Context {Genesis : Type}.

#[local] Abbreviation Cfg := (ServiceConfig Genesis Address (NitroConfig Address)).

Definition nitro_monitor_ops : L1MonitorOps NitroL1Monitor BatchCursor L1MonitorError := {|
  latest_checkpoint_on_startup m t :=
    match fetch_latest_checkpoint_on_startup decode_log m t with
    | Some (Err MonitorPanic) => Panicked
    | Some r => Returned r
    | None => NeverReturned
    end;
  latest_cursor_on_fresh_deployment m t1 t2 :=
    match fetch_latest_batch_cursor_on_fresh_deployment m t1 t2 with
    | Err MonitorPanic => Panicked
    | r => Returned r
    end;
  start_monitor := monitor_start;
|}.

Definition nitro_stack : RollupStack (Nitro hash) Cfg := {|
  StackError := L1MonitorError;
  Monitor := NitroL1Monitor;
  monitor_ops := nitro_monitor_ops;
  make_l1_monitor t config := Returned (create_l1_monitor t config);
  make_payload := build_espresso_tx_payload;
  resolve_config := resolve_config_with_checkpoint;
  rollup_type := Some RollupNitro;
|}.

(** What [main] is instantiated with is what is proved of it: the start position of
    [Startup] and the transactions of [NitroPayload]. *)
Lemma nitro_make_transactions fuel namespace_id msgs :
  make_transactions (ST:=nitro_stack) fuel namespace_id msgs = build_tx_fn fuel namespace_id msgs.
Proof. reflexivity. Qed.

Lemma nitro_start_position (config : Cfg) m t1 t2 :
  start_position (ST:=nitro_stack) is_fresh_deployment config m t1 t2 =
  match fetch_latest_checkpoint_on_startup decode_log m t1 with
  | None => if is_fresh_deployment config
            then match resolve_start config (Err BlockNotFound) (fetch_latest_batch_cursor_on_fresh_deployment m t1 t2) with
                 | Err MonitorPanic => Panicked | r => Returned r end
            else NeverReturned
  | Some checkpoint =>
      match resolve_start config checkpoint (fetch_latest_batch_cursor_on_fresh_deployment m t1 t2) with
      | Err MonitorPanic => Panicked
      | r => Returned r
      end
  end.
Proof.
  unfold start_position, resolve_start. destruct (is_fresh_deployment config); simpl.
  - destruct (fetch_latest_checkpoint_on_startup _ _ _), (fetch_latest_batch_cursor_on_fresh_deployment m t1 t2) as [c|[]]; done.
  - destruct (fetch_latest_checkpoint_on_startup _ _ _) as [ [c|[]]|]; done.
Qed.
End nitro.

(** ** The mock *)

Definition mock_parse_batch (_ : bytes) : result (list unit) string := Ok [].

Definition mock_build_espresso_tx_payload (entries : list MockEntry) : bytes * list MockEntry := ([], entries).

Definition make_entry (seq_num hotshot_height : Z) : MockEntry :=
  {| seq_num := seq_num; mock_hotshot_height := hotshot_height |}.

(** The mock cannot fail, and what it leaves [todo!()] panics. *)
Definition mock_monitor_ops : L1MonitorOps unit unit Empty_set := {|
  latest_checkpoint_on_startup _ _ := Returned (Ok (CasCheckpoint_new tt 0));
  latest_cursor_on_fresh_deployment _ _ _ := Panicked;
  start_monitor _ _ := [];
|}.

Definition mock_stack {Cfg} : RollupStack MockRollup Cfg := {|
  StackError := Empty_set;
  Monitor := unit;
  monitor_ops := mock_monitor_ops;
  make_l1_monitor _ _ := Returned (Ok tt);
  make_payload := mock_build_espresso_tx_payload;
  resolve_config config _ _ := config;
  rollup_type := None;
|}.

Lemma mock_batch_data b : parse_batch_data (Rollup:=MockRollup) b = mock_parse_batch b.
Proof. done. Qed.

(** With the mock the service keeps its configured position, a fresh deployment
    panics, and no transaction is ever submitted. *)
Lemma mock_start_position {Cfg} (fresh : Cfg → bool) config m t1 t2 :
  start_position (ST:=mock_stack) fresh config m t1 t2 = if fresh config then Panicked else Returned (Ok config).
Proof. unfold start_position. by destruct (fresh config). Qed.

Lemma mock_submits_nothing {Cfg} namespace_id msgs :
  make_transactions (ST:=mock_stack (Cfg:=Cfg)) (length msgs) namespace_id msgs = Some [].
Proof. by destruct msgs. Qed.
