(* ===== verification/ConformStreamer.v ===== *)
(** * The repository's streamer and L1 monitor tests

    The tests of [src/src/streamer/streamer_tests.rs], the development node being a
    reader of a chain, and those of [src/src/rollups/nitro/l1_monitor_tests.rs] that
    need no network, as programs over the definitions they test: each is the
    conjunction of its assertions, and it holds. *)

From S2P Require Import Prelude Bytes Slice Config Rollup MockRollup Streamer StreamerProofs StreamerRun StreamerTheorems.
From S2P Require Import Poller NitroTypes Stack L1Monitor.

(** ** The streamer *)

Definition make_streamer_with_cap (starting_pos : Z) (max_full_queue_entries : nat) : Streamer MockRollup :=
  Streamer.new (R:=MockRollup)
    {| initial_backoff_ms := 1; max_backoff_ms := 1; starting_pos := starting_pos; starting_hotshot_height := 1;
       retry_broadcast_delay_ms := 1000; max_full_queue_entries := max_full_queue_entries;
       hotshot_stall_warn_ms := 30000; progress_log_interval_ms := 15000 |}
    {| ty := RollupNitro; namespace_id := 1918988905; stack := tt |}.

Definition make_streamer (starting_pos : Z) : Streamer MockRollup := make_streamer_with_cap starting_pos 1000.

Definition entry_positions (entries : list MockEntry) : list Z := seq_num <$> entries.

Definition queue_positions (s : Streamer MockRollup) : list Z := entry_positions (queue s).

Definition stub_entries (s : Streamer MockRollup) : list (Z * Z) := btree_iter (stubs s).

Definition stub_positions (s : Streamer MockRollup) : list Z := (stub_entries s).*1.

#[local] Open Scope cas_scope.

Definition entries (l : list (Z * Z)) : list MockEntry := (λ p, make_entry p.1 p.2) <$> l.

Definition test_find_contiguous_entries_after : bool :=
  let after q p := entry_positions (find_contiguous_entries_after (R:=MockRollup) (entries q) p) in
  (after [] 0 =! []) &&
  (after [(1, 1); (2, 1); (3, 1)] 0 =! [1; 2; 3]) &&
  (after [(1, 1); (2, 1); (3, 1)] 1 =! [2; 3]) &&
  (after [(2, 1); (4, 1); (5, 1)] 1 =! [2]) &&
  (after [(5, 1); (6, 1)] 3 =! []) &&
  (after [(2, 1); (2, 1); (3, 1)] 1 =! [2]).

Definition test_filter_messages : bool :=
  let s1 := filter_messages (make_streamer 1) (entries [(1, 1); (5, 1); (4, 1); (2, 1); (3, 1)]) in
  let s2 := filter_messages (filter_messages (make_streamer 1) (entries [(5, 1)])) (entries [(5, 1)]) in
  let s3 := filter_messages (filter_messages (make_streamer 5) (entries [(5, 1)])) (entries [(1, 1)]) in
  (queue_positions s1 =! [1; 2; 3; 4; 5]) && (queue_positions s2 =! [5]) && (queue_positions s3 =! [5]).

Definition test_filter_messages_overflows_to_stubs : bool :=
  let s1 := filter_messages (make_streamer_with_cap 1 3) (entries [(1, 10); (2, 10); (3, 11); (4, 12); (5, 13)]) in
  let s2 := filter_messages s1 (entries [(0, 9)]) in
  let s3 := filter_messages (make_streamer_with_cap 1 3) (entries [(2, 20); (4, 22); (6, 24)]) in
  let s4 := filter_messages s3 (entries [(3, 21)]) in
  let s5 := filter_messages s4 (entries [(6, 24)]) in
  let s6 := filter_messages s5 (entries [(3, 21)]) in
  (queue_positions s1 =! [1; 2; 3]) && (stub_positions s1 =! [4; 5]) && (stub_entries s1 =! [(4, 12); (5, 13)]) &&
  (queue_positions s2 =! [1; 2; 3]) && (stub_positions s2 =! [4; 5]) &&
  (queue_positions s3 =! [2; 4; 6]) &&
  (queue_positions s4 =! [2; 3; 4]) && (stub_entries s4 =! [(6, 24)]) &&
  (queue_positions s5 =! [2; 3; 4]) && (stub_entries s5 =! [(6, 24)]) &&
  (queue_positions s6 =! [2; 3; 4]) && (stub_entries s6 =! [(6, 24)]).

Definition test_filter_messages_leaves_stubs_alone : bool :=
  let s1 := filter_messages (make_streamer_with_cap 1 2) (entries [(1, 10); (2, 11); (3, 12); (4, 13)]) in
  let s2 := filter_messages (set_queue s1 []) (entries [(3, 12); (4, 13)]) in
  let s3 := filter_messages s2 (entries [(3, 99)]) in
  (queue_positions s1 =! [1; 2]) && (stub_entries s1 =! [(3, 12); (4, 13)]) &&
  (queue_positions s2 =! []) && (stub_entries s2 =! [(3, 12); (4, 13)]) &&
  (stub_entries s3 =! [(3, 12); (4, 13)]).

(** No node is reached: the reader's address is a closed port. *)
Definition test_out_of_order_seq_overflows_to_stubs_and_finalization_clears : bool :=
  let s1 := filter_messages (make_streamer_with_cap 1 3) (entries [(2, 10); (3, 11); (4, 12); (5, 13); (6, 14)]) in
  let s2 := handle_finalization failing_reader (set_stubs s1 ∅) 4 in
  let s3 := handle_finalization failing_reader (set_stubs s2 (<[6 := 14]> (<[5 := 13]> (stubs s2)))) 5 in
  (queue_positions s1 =! [2; 3; 4]) && (stub_entries s1 =! [(5, 13); (6, 14)]) && (last_broadcast_position s1 =! 0) &&
  (queue_positions s2 =! []) && (finalized_idx s2 =! 4) && (last_broadcast_position s2 =! 4) &&
  (stub_entries s3 =! [(6, 14)]) && (finalized_idx s3 =! 5).

Definition test_handle_finalization_noop_when_not_advancing : bool :=
  let s1 := handle_finalization failing_reader
              (filter_messages (make_streamer_with_cap 1 5) (entries [(2, 10); (3, 11)])) 2 in
  let s2 := handle_finalization failing_reader (handle_finalization failing_reader s1 1) 2 in
  (queue_positions s1 =! [3]) && (finalized_idx s1 =! 2) && (last_broadcast_position s1 =! 2) &&
  (queue_positions s2 =! [3]) && (finalized_idx s2 =! 2) && (last_broadcast_position s2 =! 2).

(** [MockEspressoReader]: what a call finds, by the number of the calls before it. *)
Definition seq_at_height (height : Z) : option Z :=
  if height =? 4 then None
  else if height =? 11 then Some 4
  else if (1 <=? height) && (height <=? 10) then Some height
  else None.

Definition MockEspressoReader (calls : nat) : EspressoReader :=
  chain_reader (λ h, match seq_at_height h with Some seq => [make_mock_espresso_transaction seq] | None => [] end)
    (if (calls =? 0)%nat then 7 else 12).

(** Takes ranges until everything through [10] has been broadcast. *)
Fixpoint drive (st : Streamer MockRollup * BroadcastRetry * bounded_chan MockEntry)
    (ranges : list (list (list Transaction) * Z)) : Streamer MockRollup * BroadcastRetry * bounded_chan MockEntry :=
  match ranges with
  | [] => st
  | (transactions, height) :: ranges' =>
      let '(s, retry, sender) := st in
      if last_broadcast_position s <? 10
      then drive (handle_hotshot_transactions (R:=MockRollup) s transactions height sender retry) ranges'
      else st
  end.

Definition test_dropped_message_recovers_when_resubmitted_out_of_order : bool :=
  let config := {| initial_backoff_ms := 20; max_backoff_ms := 50; starting_hotshot_height := 1; starting_pos := 0;
                   retry_broadcast_delay_ms := 1000; max_full_queue_entries := 1000; hotshot_stall_warn_ms := 30000;
                   progress_log_interval_ms := 15000 |} in
  let inputs := (λ n, {| poll_reader := MockEspressoReader n; poll_now := 0; channel_open := true |}) <$> seq 0 3 in
  let ranges := (poll_hotshot_blocks config 1918988905 inputs (poller_init config 1)).2 in
  let '(s, _, feed) := drive (Streamer.new (R:=MockRollup) config {| ty := RollupNitro; namespace_id := 1918988905; stack := tt |},
                              BroadcastRetry_new, empty_chan) ranges in
  (entry_positions (chan_pending feed) =! seqZ 1 10) && (last_broadcast_position s =! 10).

(** *** With a node

    The development node puts each transaction submitted to it in a block of its own,
    from block 1 on. *)
Definition dev_node (txs : list Transaction) (height : Z) : EspressoReader :=
  chain_reader (λ h, if 1 <=? h then option_list (txs !! Z.to_nat (h - 1)) else []) height.

Definition node_config (starting_pos : Z) (max_full_queue_entries : nat) : StreamerConfig := {|
  initial_backoff_ms := 100; max_backoff_ms := 500; starting_hotshot_height := 1; starting_pos := starting_pos;
  retry_broadcast_delay_ms := 1000; max_full_queue_entries := max_full_queue_entries; hotshot_stall_warn_ms := 30000;
  progress_log_interval_ms := 15000 |}.

(** The streamer takes the ranges the poller found from block 0 on. *)
Definition after_polling (config : StreamerConfig) (readers : list EspressoReader) (sender : bounded_chan MockEntry)
    : Streamer MockRollup :=
  let ranges := (poll_hotshot_blocks config 1918988905 (mock_input <$> readers) (poller_init config 0)).2 in
  let start := Streamer.new (R:=MockRollup) config {| ty := RollupNitro; namespace_id := 1918988905; stack := tt |} in
  (foldl (λ st r, let '(s, retry, sender) := st in handle_hotshot_transactions (R:=MockRollup) s r.1 r.2 sender retry)
     (start, BroadcastRetry_new, sender) ranges).1.1.

(** The feed's receiver is dropped at once. *)
Definition test_poll_hotshot_blocks_and_process : bool :=
  let node := dev_node (make_mock_espresso_transaction <$> seqZ 1 10) in
  let closed := {| chan_capacity := 100; chan_pending := []; chan_history := []; chan_closed := true |} in
  let streamer := after_polling (node_config 1 1000) [node 4; failing_reader; node 8; node 11; node 12] closed in
  let positions := queue_positions streamer in
  negb (positions =! []) && forallb (λ expected_seq, existsb (Z.eqb expected_seq) positions) (seqZ 1 10) &&
  forallb (λ w, w.1 <? w.2) (zip positions (drop 1 positions)).

Definition test_reverse_order_fills_stubs_then_finalization_promotes : bool :=
  let node := dev_node (make_mock_espresso_transaction <$> reverse (seqZ 1 10)) in
  let s1 := after_polling (node_config 4 3) [node 6; node 11] empty_chan in
  let s2 := handle_finalization (node 11) s1 6 in
  let s3 := handle_finalization (node 11) s2 9 in
  (queue_positions s1 =! [4; 5; 6]) && (stub_positions s1 =! [7; 8; 9; 10]) &&
  (queue_positions s2 =! [7; 8; 9]) && (stub_positions s2 =! [10]) && (finalized_idx s2 =! 6) &&
  (last_broadcast_position s2 =! 6) && (queue_positions s3 =! [10]) && (stub_positions s3 =! []).

Example streamer_tests_pass :
  forallb id [test_find_contiguous_entries_after; test_filter_messages; test_filter_messages_overflows_to_stubs;
              test_filter_messages_leaves_stubs_alone;
              test_out_of_order_seq_overflows_to_stubs_and_finalization_clears;
              test_handle_finalization_noop_when_not_advancing;
              test_dropped_message_recovers_when_resubmitted_out_of_order; test_poll_hotshot_blocks_and_process;
              test_reverse_order_fills_stubs_then_finalization_promotes] = true.
Proof. vm_compute. reflexivity. Qed.

(** ** The L1 monitor *)

Definition make_log (hotshot delayed msg_count : Z) : EspressoCertificateVerified :=
  {| hotshotBlock := hotshot; delayedMessageRead := delayed; messageCount := msg_count |}.

(** [MockScanner] answers by the order of the calls; here by the range of the call
    that the test asserts. *)
Definition MockScanner (head : Z) (responses : list ((Z * Z) * list EspressoCertificateVerified))
    : LogScanner EspressoCertificateVerified := {|
  get_block_number := Ok head;
  get_logs a b := Ok (default [] (snd ∘ snd <$> list_find (λ r, r.1 = (a, b)) responses));
|}.

Definition scan (scanner : LogScanner EspressoCertificateVerified) (step max_blocks : Z)
    : option (result (CasCheckpoint BatchCursor) L1MonitorError) * list (Z * Z) :=
  scan_for_latest_checkpoint (Ok (E:=string)) scanner step max_blocks.

Definition scan_returns_event_from_first_window : bool :=
  let '(r, calls) := scan (MockScanner 10000 [((9000, 10000), [make_log 42 7 100])]) 1000 0 in
  match r with
  | Some (Ok cp) =>
      (checkpoint_hotshot_height cp =! 42) && (last_batch_delayed_messages_read (batch_cursor cp) =! 7) &&
      (next_batch_start_pos (batch_cursor cp) =! 100) && (calls =! [(9000, 10000)])
  | _ => false
  end.

Definition scan_walks_backwards_until_event_found : bool :=
  let '(r, calls) := scan (MockScanner 10000 [((9000, 10000), []); ((7999, 8999), []); ((6998, 7998), [make_log 99 3 250])])
                       1000 0 in
  match r with
  | Some (Ok cp) =>
      (checkpoint_hotshot_height cp =! 99) && (next_batch_start_pos (batch_cursor cp) =! 250) &&
      (calls =! [(9000, 10000); (7999, 8999); (6998, 7998)])
  | _ => false
  end.

Definition scan_takes_last_event_in_window : bool :=
  let '(r, _) := scan (MockScanner 5000 [((4000, 5000), [make_log 1 1 1; make_log 2 2 2; make_log 9 9 9])]) 1000 0 in
  match r with
  | Some (Ok cp) => checkpoint_hotshot_height cp =! 9
  | _ => false
  end.

Definition scan_returns_default_when_chain_empty_and_unlimited : bool :=
  let '(r, calls) := scan (MockScanner 1500 [((500, 1500), []); ((0, 499), [])]) 1000 0 in
  match r with
  | Some (Ok cp) =>
      (checkpoint_hotshot_height cp =! 0) && 
      (last_batch_delayed_messages_read (batch_cursor cp) =! last_batch_delayed_messages_read default_BatchCursor) &&
      (next_batch_start_pos (batch_cursor cp) =! next_batch_start_pos default_BatchCursor) && (calls =! [(500, 1500); (0, 499)])
  | _ => false
  end.

Definition scan_returns_checkpoint_not_found_when_limit_hit : bool :=
  let '(r, calls) := scan (MockScanner 10000 [((9000, 10000), []); ((8001, 8999), [])]) 1000 2000 in
  match r with
  | Some (Err (CheckpointNotFound _)) => calls =! [(9000, 10000); (8001, 8999)]
  | _ => false
  end.

Example l1_monitor_tests_pass :
  forallb id [scan_returns_event_from_first_window; scan_walks_backwards_until_event_found;
              scan_takes_last_event_in_window; scan_returns_default_when_chain_empty_and_unlimited;
              scan_returns_checkpoint_not_found_when_limit_hit] = true.
Proof. vm_compute. reflexivity. Qed.
