(* ===== verification/ConformConfig.v ===== *)
(** * The repository's configuration tests

    The tests of [src/src/secrets.rs] but the one against AWS, as programs over
    [ConfigJson] and [Startup].  A JSON text is its document: [from_str] finds the
    document of each text the tests use, and [url_parse] the normal form of their
    URLs. *)

From S2P Require Import Prelude Bytes Slice Json Config Rollup NitroTypes NitroPayload Nitro L1Monitor Startup ConfigJson.
From S2P Require Import DaError.
#[local] Open Scope cas_scope.


Definition test_url_parse (s : string) : result string string :=
  if decide (s ∈ ["not a url"; "PLACEHOLDER"; ""]%string) then Err "relative URL without a base"%string
  else if decide (s = "https://l1.example.com"%string) then Ok "https://l1.example.com/"%string
  else if decide (s = "http://localhost:9000"%string) then Ok "http://localhost:9000/"%string
  else Ok s.

Definition ZERO_ADDRESS : Address := replicate 20 Byte.x00.

Definition test_address (v : Value) : result Address string :=
  match v with
  | JString s => if decide (s = "0x0000000000000000000000000000000000000000"%string) then Ok ZERO_ADDRESS
                 else Err "invalid address"%string
  | _ => Err "invalid type"%string
  end.

(** Of the genesis, whether its stake table is empty. *)
Definition test_genesis (v : Value) : result bool string :=
  match index v "stake_table" with JArray [] => Ok true | JArray _ => Ok false | _ => Err "missing field"%string end.

Definition placeholder_config_json : Value :=
  JObject
    [("espresso_client"%string, JObject
       [("base_url"%string, JString "http://placeholder.invalid/");
        ("light_client"%string, JObject
          [("genesis"%string, JObject
             [("epoch_height"%string, JNumber 100); ("first_epoch_with_dynamic_stake_table"%string, JNumber 1);
              ("stake_table"%string, JArray []); ("chain_id"%string, JNumber 0)])])]);
     ("rollup"%string, JObject
       [("type"%string, JString "nitro"); ("namespace_id"%string, JNumber 1);
        ("stack"%string, JObject
          [("chain_id"%string, JNumber 412346);
           ("feed"%string, JObject [("web_socket_url"%string, JString "PLACEHOLDER"); ("current_message_count"%string, JNumber 0)]);
           ("l1_ws_url"%string, JString "PLACEHOLDER"); ("l1_http_url"%string, JString "PLACEHOLDER");
           ("sequencer_inbox_address"%string, JString "0x0000000000000000000000000000000000000000")])]);
     ("da_server"%string, JObject
       [("listen_addr"%string, JString "0.0.0.0:9000");
        ("da_providers"%string, JArray
          [JObject [("name"%string, JString "anytrust"); ("endpoint_url"%string, JString "PLACEHOLDER");
                    ("is_anytrust"%string, JBool true)];
           JObject [("name"%string, JString "calldata"); ("endpoint_url"%string, JString "");
                    ("is_anytrust"%string, JBool false)]])]);
     ("key_manager"%string, JObject
       [("tee_verifier_address"%string, JString "0x0000000000000000000000000000000000000000");
        ("attestation_verifier_url"%string, JString "http://localhost:9000"); ("tee_type"%string, JString "test")]);
     ("is_fresh_deployment"%string, JBool false)].

(** The fields of the sample secret, which the tests vary. *)
Definition sample_fields : list (string * Value) :=
  [("espresso_base_url"%string, JString "https://query.example.com/");
   ("feed_ws_url"%string, JString "wss://feed.example.com/feed");
   ("l1_ws_url"%string, JString "wss://l1.example.com");
   ("l1_http_url"%string, JString "https://l1.example.com");
   ("anytrust_endpoint"%string, JString "http://anytrust.example.com:9876");
   ("starting_hotshot_height"%string, JNumber 9199257);
   ("is_fresh_deployment"%string, JBool true)].

Definition sample_secret_json : Value := JObject sample_fields.

Definition without (k : string) (fields : list (string * Value)) : list (string * Value) := filter (λ f, f.1 ≠ k) fields.

Definition test_documents : list (string * Value) :=
  [("config"%string, placeholder_config_json);
   ("sample"%string, sample_secret_json);
   ("wrapped"%string, JObject [("parameters"%string, JString "sample")]);
   ("bad url"%string, JObject (without "l1_http_url" sample_fields ++ [("l1_http_url"%string, JString "not a url")]));
   ("no height"%string, JObject (without "starting_hotshot_height" sample_fields));
   ("no fresh"%string, JObject (without "is_fresh_deployment" sample_fields));
   ("three fields"%string, JObject (take 3 sample_fields));
   ("with key"%string, JObject (sample_fields ++ [("operator_private_key"%string, JString "0xabc123")]))].

Definition test_from_str (s : string) : result Value string := ok_or (lookup_field test_documents s) "syntax"%string.

Definition test_parse_secret (s : string) : result SecretOverrides string :=
  parse_secret_overrides (overrides_from_str test_url_parse test_from_str) (wrapper_from_str test_from_str) s.

Definition is_sample (o : SecretOverrides) : bool :=
  (espresso_base_url o =! "https://query.example.com/"%string) && (feed_ws_url o =! "wss://feed.example.com/feed"%string) &&
  (ov_l1_ws_url o =! "wss://l1.example.com"%string) && (ov_l1_http_url o =! "https://l1.example.com/"%string) &&
  (anytrust_endpoint o =! "http://anytrust.example.com:9876"%string) && (ov_starting_hotshot_height o =! 9199257) &&
  ov_is_fresh_deployment o.

Definition parses_secret_json : bool :=
  match test_parse_secret "sample" with Ok o => is_sample o | Err _ => false end.

Definition parses_wrapped_secret_json : bool :=
  match test_parse_secret "wrapped" with Ok o => is_sample o | Err _ => false end.

Definition parsing_fails_when_l1_http_url_malformed : bool := negb (is_ok (test_parse_secret "bad url")).
Definition parsing_fails_when_starting_hotshot_height_missing : bool := negb (is_ok (test_parse_secret "no height")).
Definition parsing_fails_when_is_fresh_deployment_missing : bool := negb (is_ok (test_parse_secret "no fresh")).
Definition parsing_fails_when_field_missing : bool := negb (is_ok (test_parse_secret "three fields")).

Definition operator_private_key_field_is_optional_in_secret : bool :=
  match test_parse_secret "sample" with Ok o => operator_private_key o =! None | Err _ => false end.

Definition parses_operator_private_key_when_present : bool :=
  match test_parse_secret "with key" with Ok o => operator_private_key o =! Some "0xabc123"%string | Err _ => false end.

Definition empty_env : environment := {| env_var _ := None; get_secret_value _ _ := Err "no network"%string |}.

Definition resolve_operator_private_key_prefers_aws_value : bool :=
  let overrides := {| espresso_base_url := "https://x/"; feed_ws_url := "wss://x"; ov_l1_ws_url := "wss://x";
                      ov_l1_http_url := "https://l1.example.com/"; anytrust_endpoint := "http://x";
                      ov_starting_hotshot_height := 0; ov_is_fresh_deployment := true;
                      operator_private_key := Some "0xfromsecret"%string; log_filter := None |} in
  match resolve_operator_private_key empty_env (Some overrides) with
  | Ok key => key =! "0xfromsecret"%string
  | Err _ => false
  end.

Abbreviation TestCfg := (ServiceConfig bool Address (NitroConfig Address)).

Definition test_config : result TestCfg string :=
  de_ServiceConfig test_address test_genesis test_url_parse (de_NitroConfig ZERO_ADDRESS test_address) placeholder_config_json.

(** The default build verifies what it reads. *)
Definition test_assert : TestCfg → result unit string := assert_no_placeholders_nitro id test_url_parse false.

(** The configuration with the overrides of the sample, changed by [f]. *)
Definition overridden (f : SecretOverrides → SecretOverrides) : result TestCfg string :=
  let? cfg := test_config in
  let? overrides := test_parse_secret "sample" in
  apply_overrides_nitro test_url_parse cfg (f overrides).

Definition apply_and_assert_replaces_all_placeholders : bool :=
  match test_config, overridden id with
  | Ok before, Ok cfg =>
      negb (is_ok (test_assert before)) &&
      (base_url (ec_client (espresso_client cfg)) =! "https://query.example.com/"%string) &&
      (web_socket_url (feed (stack (rollup cfg))) =! "wss://feed.example.com/feed"%string) &&
      (l1_ws_url (stack (rollup cfg)) =! "wss://l1.example.com"%string) &&
      (l1_http_url (stack (rollup cfg)) =! "https://l1.example.com/"%string) &&
      (endpoint_url ∘ snd <$> list_find (λ p, is_anytrust p = true) (da_providers (da_server cfg))
         =! Some "http://anytrust.example.com:9876"%string) &&
      (endpoint_url ∘ snd <$> list_find (λ p, name p = "calldata"%string) (da_providers (da_server cfg)) =! Some ""%string) &&
      (starting_hotshot_height (streamer cfg) =! 9199257) && is_fresh_deployment cfg && is_ok (test_assert cfg)
  | _, _ => false
  end.

Definition assert_error (cfg : result TestCfg string) (part : string) : bool :=
  match cfg with
  | Ok cfg => match test_assert cfg with Err e => contains e part | Ok _ => false end
  | Err _ => false
  end.

Definition assert_fails_when_l1_ws_url_left_as_placeholder : bool :=
  assert_error
    (overridden (λ o, {| espresso_base_url := espresso_base_url o; feed_ws_url := feed_ws_url o;
       ov_l1_ws_url := PLACEHOLDER_STR; ov_l1_http_url := ov_l1_http_url o; anytrust_endpoint := anytrust_endpoint o;
       ov_starting_hotshot_height := ov_starting_hotshot_height o; ov_is_fresh_deployment := ov_is_fresh_deployment o;
       operator_private_key := operator_private_key o; log_filter := log_filter o |})) "l1_ws_url".

(** Everything but the HTTP URL of L1 is overridden by hand; the secret that leaves
    that field as it was has the same effect. *)
Definition assert_fails_when_l1_http_url_left_as_placeholder : bool :=
  assert_error
    (overridden (λ o, {| espresso_base_url := espresso_base_url o; feed_ws_url := feed_ws_url o;
       ov_l1_ws_url := ov_l1_ws_url o; ov_l1_http_url := PLACEHOLDER_STR; anytrust_endpoint := anytrust_endpoint o;
       ov_starting_hotshot_height := ov_starting_hotshot_height o; ov_is_fresh_deployment := ov_is_fresh_deployment o;
       operator_private_key := operator_private_key o; log_filter := log_filter o |})) "l1_http_url".

Definition assert_fails_when_base_url_left_as_sentinel : bool := assert_error test_config "espresso_client.base_url".

Example secrets_tests_pass :
  forallb id [parses_secret_json; parses_wrapped_secret_json; parsing_fails_when_l1_http_url_malformed;
              parsing_fails_when_starting_hotshot_height_missing; parsing_fails_when_is_fresh_deployment_missing;
              parsing_fails_when_field_missing; operator_private_key_field_is_optional_in_secret;
              parses_operator_private_key_when_present; resolve_operator_private_key_prefers_aws_value;
              apply_and_assert_replaces_all_placeholders; assert_fails_when_l1_ws_url_left_as_placeholder;
              assert_fails_when_l1_http_url_left_as_placeholder; assert_fails_when_base_url_left_as_sentinel] = true.
Proof. vm_compute. reflexivity. Qed.
