(* ===== verification/ConformNitro.v ===== *)
(** * The repository's Nitro tests

    The tests of [src/src/rollups/nitro/nitro_tests.rs],
    [src/src/rollups/nitro/types.rs] and [src/src/rollups/nitro/batch_parsing.rs] as
    programs over the definitions they test: each is the conjunction of its
    assertions, and it holds.  Keccak, base64 and hexadecimal are the executable
    ones; Brotli stores its input and refuses a stream that starts with [0xff], and
    a recovered signer is the one the test names. *)

From S2P Require Import Prelude Bytes Slice Config Json Rollup MockRollup Streamer StreamerProofs StreamerRun StreamerTheorems.
From S2P Require Import NitroTypes GoBigInt NitroVerify Rlp RlpInstance Batch FeedJson WireText NitroPayload Nitro NitroTheorems.
From S2P Require Import Keccak DaError Startup ConfigJson ConformConfig.
From Stdlib Require Import Strings.Byte.
#[local] Open Scope cas_scope.

(** ** Batch verification *)

Definition text (s : string) : bytes := String.list_byte_of_string s.

Definition make_feed_message (msg : MessageWithMetadata) (pos : Z) : BroadcastFeedMessage := {|
  msg_sequence_number := pos; feed_msg := msg; block_hash := None; signature := []; block_metadata := [];
  cumulative_sum_msg_size := 0 |}.

Definition make_entry_with_l2msg (l2msg : bytes) (delayed_messages_read pos : Z) : NitroRollupQueueEntry := {|
  feed_message := make_feed_message
    {| message := Some {| header := None; l2msg := l2msg; legacy_batch_gas_cost := None; batch_data_stats := None |};
       delayed_messages_read := delayed_messages_read |} pos;
  entry_hotshot_height := 1 |}.

Definition make_entry_no_message (delayed_messages_read pos : Z) : NitroRollupQueueEntry := {|
  feed_message := make_feed_message {| message := None; delayed_messages_read := delayed_messages_read |} pos;
  entry_hotshot_height := 1 |}.

(** The result of verifying [batch] against [queue] at a cursor. *)
Definition verify_at (delayed pos : Z) (batch : list BatchMessage) (queue : list NitroRollupQueueEntry) : VerificationResult :=
  nitro_verify_batch_messages batch queue
    {| last_batch_delayed_messages_read := delayed; next_batch_start_pos := pos |}.

(** The batch is accepted for the positions [first] to [last]. *)
Definition accepted (r : VerificationResult) (first last : Z) : bool :=
  success r && (start_message_position r =! first) && (end_message_position r =! last).

Definition refused (r : VerificationResult) : bool := negb (success r).

Definition test_verify_batch_more_batch_than_streamer : bool :=
  refused (verify_at 0 0 [DelayedMsg; DelayedMsg] [make_entry_no_message 1 0]).

Definition test_verify_batch_l2msg_match : bool :=
  accepted (verify_at 0 0 [L2Msg (text "hello world")] [make_entry_with_l2msg (text "hello world") 0 0]) 0 0.

Definition test_verify_batch_l2msg_mismatch : bool :=
  refused (verify_at 0 0 [L2Msg (text "hello")] [make_entry_with_l2msg (text "world") 0 0]).

Definition test_verify_batch_l2msg_none_message : bool :=
  refused (verify_at 0 0 [L2Msg (text "hello")] [make_entry_no_message 0 0]).

Definition test_verify_batch_delayed_msg_first_entry_valid : bool :=
  accepted (verify_at 5 0 [DelayedMsg] [make_entry_no_message 6 0]) 0 0.

Definition test_verify_batch_delayed_msg_first_entry_invalid : bool :=
  refused (verify_at 5 0 [DelayedMsg] [make_entry_no_message 7 0]).

Definition test_verify_batch_delayed_msg_subsequent_entry_valid : bool :=
  accepted (verify_at 10 0 [L2Msg (text "tx1"); DelayedMsg]
    [make_entry_with_l2msg (text "tx1") 10 0; make_entry_no_message 11 1]) 0 1.

Definition test_verify_batch_delayed_msg_subsequent_entry_invalid : bool :=
  refused (verify_at 10 0 [L2Msg (text "tx1"); DelayedMsg]
    [make_entry_with_l2msg (text "tx1") 10 0; make_entry_no_message 13 1]).

Definition test_verify_batch_mixed_messages : bool :=
  accepted (verify_at 5 0 [DelayedMsg; L2Msg (text "data"); DelayedMsg]
    [make_entry_no_message 6 0; make_entry_with_l2msg (text "data") 6 1; make_entry_no_message 7 2]) 0 2.

Definition test_verify_batch_streamer_has_extra_entries : bool :=
  accepted (verify_at 0 0 [L2Msg (text "tx")]
    [make_entry_with_l2msg (text "tx") 0 0; make_entry_with_l2msg (text "extra") 0 1]) 0 0.

Definition test_verify_batch_nonzero_start_pos : bool :=
  accepted (verify_at 5 10 [DelayedMsg; L2Msg (text "data")]
    [make_entry_with_l2msg (text "old1") 3 8; make_entry_with_l2msg (text "old2") 4 9;
     make_entry_no_message 6 10; make_entry_with_l2msg (text "data") 6 11]) 10 11.

Definition test_verify_batch_nonzero_start_pos_not_found : bool :=
  refused (verify_at 0 50 [L2Msg (text "tx")]
    [make_entry_with_l2msg (text "tx") 0 0; make_entry_with_l2msg (text "tx") 0 1]).

Definition test_verify_batch_l2msg_cannot_advance_delayed_messages_read : bool :=
  refused (verify_at 10 0 [L2Msg (text "A")] [make_entry_with_l2msg (text "A") 15 0]).

Definition test_verify_batch_l2msg_cannot_rewind_delayed_messages_read : bool :=
  refused (verify_at 10 0 [DelayedMsg; L2Msg (text "A"); DelayedMsg]
    [make_entry_no_message 11 0; make_entry_with_l2msg (text "A") 10 1; make_entry_no_message 11 2]).

Definition test_verify_batch_after_delayed_messages_read_matches_segment_count : bool :=
  let r := verify_at 10 0 [DelayedMsg; L2Msg (text "A"); DelayedMsg]
    [make_entry_no_message 11 0; make_entry_with_l2msg (text "A") 11 1; make_entry_no_message 12 2] in
  success r && (after_delayed_messages_read r =! 12).

Example verify_batch_tests_pass :
  forallb id [test_verify_batch_more_batch_than_streamer; test_verify_batch_l2msg_match; test_verify_batch_l2msg_mismatch;
              test_verify_batch_l2msg_none_message; test_verify_batch_delayed_msg_first_entry_valid;
              test_verify_batch_delayed_msg_first_entry_invalid; test_verify_batch_delayed_msg_subsequent_entry_valid;
              test_verify_batch_delayed_msg_subsequent_entry_invalid; test_verify_batch_mixed_messages;
              test_verify_batch_streamer_has_extra_entries; test_verify_batch_nonzero_start_pos;
              test_verify_batch_nonzero_start_pos_not_found; test_verify_batch_l2msg_cannot_advance_delayed_messages_read;
              test_verify_batch_l2msg_cannot_rewind_delayed_messages_read;
              test_verify_batch_after_delayed_messages_read_matches_segment_count] = true.
Proof. vm_compute. reflexivity. Qed.

(** ** A legacy transaction of the Decaf network *)

Definition base64_tx : string :=
  ("AAAAAAAAAEHEFgCdBGJ3Qu/SXKasPsL8JIPqUo0OPWbe8sesRUf8XQ+g8417Wp9HBnkDcLXYYwyN1EJBESKNVlbnhKp2CTDC" +:+
   "AQAAAAAAGZ2LAAAAAAAAA9v5A9j5A9LhA5SksAAAAAAAAAAAAHNlcXVlbmNlcoOdYcyEaZsd8sCAuQOtBPkDqV6DtxsAgwbh" +:+
   "8ICAuQNVYMBgQFJgGWCAkIFSf0hlbGxvIFdvcmxkIHdpdGggemtDb2RleCEAAAAAAAAAYKBSYACQYQA8kIJhAO5WW1A0gBVh" +:+
   "AElXYACA/VtQYQGsVltjTkh7cWDgG2AAUmBBYARSYCRgAP1bYAGBgRyQghaAYQB5V2B/ghaRUFtgIIIQgQNhAJlXY05Ie3Fg" +:+
   "4BtgAFJgImAEUmAkYAD9W1CRkFBWW2AfghEVYQDpV4BgAFJgIGAAIGAfhAFgBRyBAWAghRAVYQDGV1CAW2AfhAFgBRyCAZFQ" +:+
   "W4GBEBVhAOZXYACBVWABAWEA0lZbUFBbUFBQVluBUWABYAFgQBsDgREVYQEHV2EBB2EAT1ZbYQEbgWEBFYRUYQBlVluEYQCf" +:+
   "VltgIGAfghFgAYEUYQFPV2AAgxVhATdXUISCAVFbYAAZYAOFkBscGRZgAYSQGxeEVWEA5lZbYACEgVJgIIEgYB8ZhRaRW4KB" +:+
   "EBVhAX9Xh4UBUYJVYCCUhQGUYAGQkgGRAWEBX1ZbUISCEBVhAZ1XhoQBUWAAGWADh5AbYPgWHBkWgVVbUFBQUGABkIEbAZBV" +:+
   "UFZbYQGagGEBu2AAOWAA8/5ggGBAUjSAFWEAEFdgAID9W1BgBDYQYQArV2AANWDgHIBj4h83zhRhADBXW2AAgP1bYQA4YQBO" +:+
   "VltgQFFhAEWRkGEA3FZbYEBRgJEDkPNbYACAVGEAW5BhASpWW4BgHwFgIICRBAJgIAFgQFGQgQFgQFKAkpGQgYFSYCABgoBU" +:+
   "YQCHkGEBKlZbgBVhANRXgGAfEGEAqVdhAQCAg1QEAoNSkWAgAZFhANRWW4IBkZBgAFJgIGAAIJBbgVSBUpBgAQGQYCABgIMR" +:+
   "YQC3V4KQA2AfFoIBkVtQUFBQUIFWW2AggVJgAIJRgGAghAFSYABbgYEQFWEBCldgIIGGAYEBUWBAhoQBAVIBYQDtVltQYABg" +:+
   "QIKFAQFSYEBgHxlgH4MBFoQBAZFQUJKRUFBWW2ABgYEckIIWgGEBPldgf4IWkVBbYCCCEIEDYQFeV2NOSHtxYOAbYABSYCJg" +:+
   "BFJgJGAA/VtQkZBQVv6iZGlwZnNYIhIgPUNNaLgAeEfMEKhyf+Fa5/V9GJtEMExVO+9xGNgGcDpkc29sY0MACBoAM4NNDYyg" +:+
   "ttRYZiOfsCv8ZOo7/bSzIUbvw6wk6b3IJcBzPfpa5eegUGZnmKumi133toxEHqEAxZpA63c4ljsGRg6sAAA2WemCMsw=")%string.

Definition l2_msg : string :=
  ("BPkDqV6DtxsAgwbh8ICAuQNVYMBgQFJgGWCAkIFSf0hlbGxvIFdvcmxkIHdpdGggemtDb2RleCEAAAAAAAAAYKBSYACQYQA8" +:+
   "kIJhAO5WW1A0gBVhAElXYACA/VtQYQGsVltjTkh7cWDgG2AAUmBBYARSYCRgAP1bYAGBgRyQghaAYQB5V2B/ghaRUFtgIIIQ" +:+
   "gQNhAJlXY05Ie3Fg4BtgAFJgImAEUmAkYAD9W1CRkFBWW2AfghEVYQDpV4BgAFJgIGAAIGAfhAFgBRyBAWAghRAVYQDGV1CA" +:+
   "W2AfhAFgBRyCAZFQW4GBEBVhAOZXYACBVWABAWEA0lZbUFBbUFBQVluBUWABYAFgQBsDgREVYQEHV2EBB2EAT1ZbYQEbgWEB" +:+
   "FYRUYQBlVluEYQCfVltgIGAfghFgAYEUYQFPV2AAgxVhATdXUISCAVFbYAAZYAOFkBscGRZgAYSQGxeEVWEA5lZbYACEgVJg" +:+
   "IIEgYB8ZhRaRW4KBEBVhAX9Xh4UBUYJVYCCUhQGUYAGQkgGRAWEBX1ZbUISCEBVhAZ1XhoQBUWAAGWADh5AbYPgWHBkWgVVb" +:+
   "UFBQUGABkIEbAZBVUFZbYQGagGEBu2AAOWAA8/5ggGBAUjSAFWEAEFdgAID9W1BgBDYQYQArV2AANWDgHIBj4h83zhRhADBX" +:+
   "W2AAgP1bYQA4YQBOVltgQFFhAEWRkGEA3FZbYEBRgJEDkPNbYACAVGEAW5BhASpWW4BgHwFgIICRBAJgIAFgQFGQgQFgQFKA" +:+
   "kpGQgYFSYCABgoBUYQCHkGEBKlZbgBVhANRXgGAfEGEAqVdhAQCAg1QEAoNSkWAgAZFhANRWW4IBkZBgAFJgIGAAIJBbgVSB" +:+
   "UpBgAQGQYCABgIMRYQC3V4KQA2AfFoIBkVtQUFBQUIFWW2AggVJgAIJRgGAghAFSYABbgYEQFWEBCldgIIGGAYEBUWBAhoQB" +:+
   "AVIBYQDtVltQYABgQIKFAQFSYEBgHxlgH4MBFoQBAZFQUJKRUFBWW2ABgYEckIIWgGEBPldgf4IWkVBbYCCCEIEDYQFeV2NO" +:+
   "SHtxYOAbYABSYCJgBFJgJGAA/VtQkZBQVv6iZGlwZnNYIhIgPUNNaLgAeEfMEKhyf+Fa5/V9GJtEMExVO+9xGNgGcDpkc29s" +:+
   "Y0MACBoAM4NNDYygttRYZiOfsCv8ZOo7/bSzIUbvw6wk6b3IJcBzPfpa5eegUGZnmKumi133toxEHqEAxZpA63c4ljsGRg6s" +:+
   "AAA2Wek=")%string.

Definition from_base64 (s : string) : bytes := default [] (ok (base64_decode (WireText:=base64_text) s)).

Definition from_hex (s : string) : bytes := default [] (hex_decode_text (text s)).

Definition sequencer_address : Address := from_hex "0x91B62241cCec21Cebb3AbD24599855c009864e1E".

(** [secp256k1] recovers the sequencer from the signature of the transaction. *)
Definition decaf_crypto : Crypto := {|
  keccak256 := keccak_256;
  recover_address_from_prehash _ _ _ _ := Some sequencer_address;
|}.

(** The configuration of a test: the default with a chain and legacy signers. *)
Definition nitro_config (chain : Z) (signers : list Address) : NitroConfig Address :=
  let c := default_NitroConfig ZERO_ADDRESS in
  {| legacy_signer_addresses := signers; chain_id := chain; feed := feed c; l1_http_url := l1_http_url c;
     l1_ws_url := l1_ws_url c; sequencer_inbox_address := sequencer_inbox_address c; log_scan_step := log_scan_step c;
     max_l1_blocks_to_scan_on_startup := max_l1_blocks_to_scan_on_startup c;
     l1_finalized_poll_interval_ms := l1_finalized_poll_interval_ms c |}.

Definition test_parse_message_with_legacy_message : bool :=
  let tx := {| tx_namespace := 1918988905; payload := from_base64 base64_tx |} in
  let parsed := nitro_parse_hotshot_transactions (K:=decaf_crypto) (J:=table_json [])
                  (signature_hash_v3_9_9 (K:=decaf_crypto)) (nitro_config 1 [sequencer_address]) [ [tx] ] 1 in
  match parsed with
  | [e] =>
      (sequence_number e =! 1678731) &&
      (delayed_messages_read (feed_msg (feed_message e)) =! 13004) &&
      match message (feed_msg (feed_message e)) with
      | Some m =>
          match header m with
          | Some h => (kind h =! 3) && (poster h =! from_hex "0xA4b000000000000000000073657175656e636572") &&
                      (l1_base_fee h =! None) && (request_id h =! None) && (block_number h =! 10314188) &&
                      (timestamp h =! 1771773426)
          | None => false
          end && (l2msg m =! from_base64 l2_msg) && (batch_data_stats m =! None) && (legacy_batch_gas_cost m =! None)
      | None => false
      end
  | _ => false
  end.

Example legacy_test_passes : test_parse_message_with_legacy_message = true.
Proof. vm_compute. reflexivity. Qed.

(** ** The checkpoint in the configuration *)

(** The result of [resolve_config_with_checkpoint] on [config], for the cursor of
    the test. *)
Definition resolved (config : TestCfg) : bool :=
  let result := resolve_config_with_checkpoint config
    {| last_batch_delayed_messages_read := 100; next_batch_start_pos := 200 |} (Some 100) in
  (starting_pos (streamer result) =! 200) &&
  (current_message_count (feed (stack (rollup result))) =! 200) &&
  (chain_id (stack (rollup result)) =! chain_id (stack (rollup config))) &&
  (namespace_id (rollup result) =! namespace_id (rollup config)) &&
  (legacy_signer_addresses (stack (rollup result)) =! legacy_signer_addresses (stack (rollup config))).

Definition test_resolve_config_with_latest_batch_info : bool :=
  match test_config with
  | Ok config =>
      resolved
        {| espresso_client := espresso_client config; streamer := default_StreamerConfig;
           rollup := {| ty := RollupNitro; namespace_id := 0; stack := nitro_config 1 [ZERO_ADDRESS] |};
           da_server := default_DaApiConfig; submitter := default_SubmitterConfig; advanced := default_AdvancedConfig;
           key_manager := key_manager config; is_fresh_deployment := false |}
  | Err _ => false
  end.

(** ** Payloads *)

Definition simple_msg (seq : Z) : BroadcastFeedMessage :=
  make_feed_message {| message := None; delayed_messages_read := 0 |} seq.

(** The serializer of the messages of these tests. *)
Definition simple_json : NitroJson := table_json [(simple_msg 0, 100); (simple_msg 1, 100); (simple_msg 2, 100)].

(** What is parsed back from the payload built of [messages], every signature
    accepted, and what is left of them. *)
Definition build_and_parse (messages : list BroadcastFeedMessage) : bytes * list BroadcastFeedMessage * result (list Z) string :=
  let '(payload, rest) := build_espresso_tx_payload (J:=simple_json) messages in
  (payload, rest, let? parsed := parse_nitro_hotshot_payload (J:=simple_json) payload (λ _, Ok tt) in
                  Ok (msg_sequence_number <$> parsed)).

Definition built_payload (messages : list BroadcastFeedMessage) : bool :=
  let '(payload, rest, _) := build_and_parse messages in negb (is_empty payload) && is_empty rest.

Definition parsed_back (messages : list BroadcastFeedMessage) (seqs : list Z) : bool :=
  match build_and_parse messages with (_, _, Ok parsed) => parsed =! seqs | _ => false end.

Definition test_build_payload_empty_input : bool := built_payload [] && parsed_back [] [].

Definition test_build_payload_roundtrip : bool :=
  let messages := [simple_msg 0; simple_msg 1; simple_msg 2] in
  built_payload messages && parsed_back messages [0; 1; 2].

Definition test_build_payload_nonempty_input_produces_nonempty_output : bool := built_payload [simple_msg 0].

Example payload_tests_pass :
  forallb id [test_resolve_config_with_latest_batch_info; test_build_payload_empty_input; test_build_payload_roundtrip;
              test_build_payload_nonempty_input_produces_nonempty_output] = true.
Proof. vm_compute. reflexivity. Qed.

(** ** Feed signatures *)

Definition upstream_document : Value := JObject [
  ("sequenceNumber"%string, JNumber 12345);
  ("message"%string, JObject [
    ("message"%string, JObject [
      ("header"%string, JObject [
        ("kind"%string, JNumber 0);
        ("sender"%string, JString "0x0000000000000000000000000000000000000000");
        ("blockNumber"%string, JNumber 0);
        ("timestamp"%string, JNumber 0);
        ("requestId"%string, JString "0x0000000000000000000000000000000000000000000000000000000000000000");
        ("baseFeeL1"%string, JNumber 0)]);
      ("l2Msg"%string, JString "3q2+7w==")]);
    ("delayedMessagesRead"%string, JNumber 3333)]);
  ("signatureV2"%string, JNull);
  ("blockMetadata"%string, JString "3q2+rw==")].

Definition read_feed_message (v : Value) : result BroadcastFeedMessage string :=
  de_struct (feed_de (W:=base64_text) (T:=decimal_u256) false) v.

Definition upstream_feed_message : result BroadcastFeedMessage string := read_feed_message upstream_document.

Definition test_signature_hash_matches_nitro_v3_12_1_go_vector : bool :=
  let expected := from_hex "3d79853de5f9e4354e5d6c6d4cad19dcd969f9646f0cab21e5bdfee4902dfa2e" in
  let hash_is msg := match signature_hash (K:=decaf_crypto) msg 0xa4b1 with Ok h => h =! expected | Err _ => false end in
  match upstream_feed_message with
  | Ok msg =>
      hash_is msg &&
      match ser_feed_message (W:=base64_text) (T:=decimal_u256) false msg with
      | Ok serialized =>
          negb (is_none (get serialized "signatureV2")) && is_none (get serialized "signature") &&
          (as_str (index serialized "blockMetadata") =! Some "3q2+rw=="%string) &&
          match read_feed_message serialized with Ok decoded => hash_is decoded | Err _ => false end
      | Err _ => false
      end
  | Err _ => false
  end.

Example go_vector_passes : test_signature_hash_matches_nitro_v3_12_1_go_vector = true.
Proof. vm_compute. reflexivity. Qed.

(** A signer: its signature of [signed] is recovered to its address, and to another
    address from any other hash.  The hash is the identity, so that every byte
    counts. *)
Definition signer_address : Address := replicate 20 x01.

Definition signer_crypto (signed : B256) : Crypto := {|
  keccak256 b := b;
  recover_address_from_prehash _ _ _ h := Some (if decide (h = signed) then signer_address else replicate 20 x02);
|}.

Definition with_block_hash (h : option B256) (m : BroadcastFeedMessage) : BroadcastFeedMessage := {|
  msg_sequence_number := msg_sequence_number m; feed_msg := feed_msg m; signature := signature m;
  block_metadata := block_metadata m; cumulative_sum_msg_size := cumulative_sum_msg_size m; block_hash := h |}.

Definition with_signature (sig : bytes) (m : BroadcastFeedMessage) : BroadcastFeedMessage := {|
  msg_sequence_number := msg_sequence_number m; feed_msg := feed_msg m; signature := sig;
  block_metadata := block_metadata m; cumulative_sum_msg_size := cumulative_sum_msg_size m; block_hash := block_hash m |}.

Definition with_metadata (d : bytes) (m : BroadcastFeedMessage) : BroadcastFeedMessage := {|
  msg_sequence_number := msg_sequence_number m; feed_msg := feed_msg m; signature := signature m;
  block_metadata := d; cumulative_sum_msg_size := cumulative_sum_msg_size m; block_hash := block_hash m |}.

Definition with_sequence_number (n : Z) (m : BroadcastFeedMessage) : BroadcastFeedMessage := {|
  msg_sequence_number := n; feed_msg := feed_msg m; signature := signature m;
  block_metadata := block_metadata m; cumulative_sum_msg_size := cumulative_sum_msg_size m; block_hash := block_hash m |}.

Definition test_feed_signature_rejects_tampering_and_untrusted_signers : bool :=
  match upstream_feed_message with
  | Ok upstream =>
      let unsigned := with_block_hash (Some (replicate 32 x11)) upstream in
      let signed := default [] (ok (signature_hash (K:=signer_crypto []) unsigned 0xa4b1)) in
      let msg := with_signature (replicate 64 x01 ++ [x1b]) unsigned in
      let trusted := [signer_address] in
      let valid chain addresses m :=
        is_ok (verify_broadcast_feed_message_signature (K:=signer_crypto signed)
                 (signature_hash (K:=signer_crypto signed)) chain addresses m) in
      valid 0xa4b1 trusted msg &&
      negb (valid 0xa4b1 [] msg) &&
      negb (valid 0xa4b2 trusted msg) &&
      negb (valid 0xa4b1 trusted (with_metadata [xdf; xad; xbe; xaf] msg)) &&
      negb (valid 0xa4b1 trusted (with_block_hash None msg)) &&
      negb (valid 0xa4b1 trusted (with_sequence_number (msg_sequence_number msg + 1) msg)) &&
      negb (valid 0xa4b1 trusted (with_signature (take 64 (signature msg)) msg))
  | Err _ => false
  end.

(** ** RLP *)

Definition zero_header (id : option B256) (fee : option Z) : L1IncomingMessageHeader := {|
  kind := 0; poster := ZERO_ADDRESS; block_number := 0; timestamp := 0; request_id := id; l1_base_fee := fee |}.

Definition incoming (h : L1IncomingMessageHeader) (content : bytes) : L1IncomingMessage := {|
  header := Some h; l2msg := content; legacy_batch_gas_cost := None; batch_data_stats := None |}.

(** What [m] is decoded to from its encoding is [expected]. *)
Definition rlp_gives (m expected : L1IncomingMessage) : bool :=
  match L1IncomingMessage_decode (L1IncomingMessage_encode m) with Ok (d, _) => d =! expected | Err _ => false end.

Definition test_rlp_roundtrip_message_with_block_hash_and_metadata : bool :=
  rlp_gives (incoming (zero_header (Some (replicate 32 x00)) (Some 0)) [xde; xad; xbe; xef])
    (incoming (zero_header (Some (replicate 32 x00)) None) [xde; xad; xbe; xef]).

(** The message of a feed message without them is the same. *)
Definition test_rlp_roundtrip_message_without_block_hash_and_metadata : bool :=
  test_rlp_roundtrip_message_with_block_hash_and_metadata.

Definition test_rlp_roundtrip_nil_request_id_and_base_fee : bool :=
  let m := incoming (zero_header None None) [] in rlp_gives m m.

Definition test_rlp_roundtrip_nontrivial_values : bool :=
  let m := incoming {| kind := 3; poster := from_hex "0xA4b000000000000000000073657175656e636572"; block_number := 1000;
                       timestamp := 1700000000; request_id := Some (replicate 31 x00 ++ [xa1]);
                       l1_base_fee := Some 1000000000 |} [x01; x02; x03] in
  rlp_gives m m.

Example codec_tests_pass :
  forallb id [test_feed_signature_rejects_tampering_and_untrusted_signers;
              test_rlp_roundtrip_message_with_block_hash_and_metadata;
              test_rlp_roundtrip_message_without_block_hash_and_metadata; test_rlp_roundtrip_nil_request_id_and_base_fee;
              test_rlp_roundtrip_nontrivial_values] = true.
Proof. vm_compute. reflexivity. Qed.

(** ** Batches *)

(** A Brotli that stores its input after a zero byte, and refuses any other stream. *)
Definition test_take (input : bytes) (n : Z) : result bytes string :=
  match input with
  | x00 :: data => Ok (if zlen data <=? n then data else take (Z.to_nat n) data)
  | _ => Err "invalid data"%string
  end.

Lemma test_take_bound input n out : 0 ≤ n → test_take input n = Ok out → zlen out ≤ n.
Proof.
  destruct input as [|b input]; [done|]. destruct b; try done. intros Hn [= <-].
  destruct (Z.leb_spec (zlen input) n); [done|]. unfold zlen. rewrite length_take. lia.
Qed.

#[local] Instance test_brotli : Brotli := {| brotli_take := test_take; brotli_take_bound := test_take_bound |}.

Definition brotli_compress (data : bytes) : bytes := x00 :: data.

Definition rlp_encode (b : bytes) : bytes := encode bytes_codec b.

Definition wrap_brotli (inner : bytes) : bytes := BROTLI_HEADER_BYTE :: brotli_compress inner.

Definition parses_to (batch : bytes) (messages : list BatchMessage) : bool :=
  match parse_batch batch with Ok ms => ms =! messages | Err _ => false end.

Definition parse_error (batch : bytes) (part : string) : bool :=
  match parse_batch batch with Ok _ => false | Err e => contains e part end.

Definition segment (kind : byte) (data : bytes) : bytes := rlp_encode (kind :: data).

Definition empty_payload_errors : bool := parse_error [] "empty".

Definition unsupported_header_byte_errors : bool := parse_error [x42; x00; x00; x00] "unsupported batch header byte".

Definition invalid_brotli_errors : bool := parse_error [BROTLI_HEADER_BYTE; xff; xff; xff; xff] "".

Definition malformed_rlp_errors : bool := parse_error (wrap_brotli [x81; x00]) "error parsing sequencer message segment".

Definition parses_l2_msg_segment : bool :=
  parses_to (wrap_brotli (segment BATCH_SEGMENT_KIND_L2_MESSAGE (text "hello"))) [L2Msg (text "hello")].

Definition parses_delayed_msg_segment : bool :=
  parses_to (wrap_brotli (segment BATCH_SEGMENT_KIND_DELAYED_MESSAGES [])) [DelayedMsg].

Definition parses_brotli_l2_msg_segment : bool :=
  parses_to (wrap_brotli (segment BATCH_SEGMENT_KIND_L2_MESSAGE_BROTLI (brotli_compress (text "compressed payload"))))
    [L2Msg (text "compressed payload")].

Definition corrupt_segment : bytes := segment BATCH_SEGMENT_KIND_L2_MESSAGE_BROTLI [xff; xff; xff].

Definition brotli_l2_msg_undecompressable_errors : bool :=
  parse_error (wrap_brotli corrupt_segment) "would replay as a placeholder".

Definition segment_that_would_become_a_placeholder_does_not_shift_the_stream : bool :=
  parse_error (wrap_brotli (segment BATCH_SEGMENT_KIND_L2_MESSAGE (text "A") ++ corrupt_segment ++
                            segment BATCH_SEGMENT_KIND_L2_MESSAGE (text "B"))) "".

Definition unknown_kind_errors : bool := parse_error (wrap_brotli (segment xff [x01; x02])) "unknown batch segment kind".

Definition advance_segments_consume_no_slot : bool :=
  parses_to (wrap_brotli (segment BATCH_SEGMENT_KIND_ADVANCE_TIMESTAMP [x84] ++
                          segment BATCH_SEGMENT_KIND_ADVANCE_L1_BLOCK_NUMBER [x84] ++
                          segment BATCH_SEGMENT_KIND_L2_MESSAGE (text "hello"))) [L2Msg (text "hello")].

Definition empty_segment_skipped : bool := parses_to (wrap_brotli (rlp_encode [])) [].

Example batch_tests_pass :
  forallb id [empty_payload_errors; unsupported_header_byte_errors; invalid_brotli_errors; malformed_rlp_errors;
              parses_l2_msg_segment; parses_delayed_msg_segment; parses_brotli_l2_msg_segment;
              brotli_l2_msg_undecompressable_errors; segment_that_would_become_a_placeholder_does_not_shift_the_stream;
              unknown_kind_errors; advance_segments_consume_no_slot; empty_segment_skipped] = true.
Proof. vm_compute. reflexivity. Qed.
