(* ===== verification/ConformFeed.v ===== *)
(** * The repository's feed tests

    The tests of [src/src/rollups/nitro/feed/ws_server.rs] and
    [src/src/rollups/nitro/feed/broadcaster.rs] as runs of the feed server: the steps
    of the tasks in the order the test waits for them, and its assertions on what the
    clients were sent and on the backlog. *)

From S2P Require Import Prelude Bytes Slice Config Rollup NitroTypes Feed FeedTheorems FeedLifecycle.
#[local] Open Scope cas_scope.

Definition empty_msg : MessageWithMetadata := {| message := None; delayed_messages_read := 0 |}.

Definition feed_message_of (i : Z) : BroadcastFeedMessage := {|
  msg_sequence_number := i; feed_msg := empty_msg; block_hash := None; signature := []; block_metadata := [];
  cumulative_sum_msg_size := 0 |}.

(** A broadcast from begin to end. *)
Definition broadcast_all (op : broadcast_op) : list feed_action := [BroadcastBegin op; BroadcastAppend; BroadcastSend].

Definition broadcast_single (i : Z) : list feed_action := broadcast_all (FeedMessages [feed_message_of i]).

Definition broadcaster_confirm (i : Z) : list feed_action := broadcast_all (Confirm i).

Definition connect_ws (id : nat) (requested_seq_num : Z) : list feed_action :=
  [ClientSubscribe id requested_seq_num; ClientSnapshot id WriteOk].

(** The next frame of a client's channel. *)
Definition next (id : nat) : feed_action := ClientRecv id WriteOk.

(** The frames client [id] was sent in a run of a new server satisfy [p]. *)
Definition frames_satisfy (acts : list feed_action) (id : nat) (p : list BroadcastMessage → bool) : bool :=
  match feed_exec 100 acts feed_new with
  | Some f => match clients f !! id with Some c => p (out c) | None => false end
  | None => false
  end.

Definition sequence_numbers (bm : BroadcastMessage) : list (option Z) := option_map msg_sequence_number <$> messages bm.

(** One frame with the messages numbered [seqs]. *)
Definition one_frame (seqs : list Z) (frames : list BroadcastMessage) : bool :=
  match frames with
  | [bm] => (version bm =! 1) && (sequence_numbers bm =! (Some <$> seqs))
  | _ => false
  end.

Definition test_client_receives_live_broadcast : bool :=
  frames_satisfy (connect_ws 0 0 ++ broadcast_single 1 ++ [next 0]) 0 (one_frame [1]).

Definition test_client_receives_seq_zero : bool :=
  frames_satisfy (connect_ws 0 0 ++ broadcast_single 0 ++ [next 0]) 0 (one_frame [0]).

Definition test_client_receives_backlog_on_connect : bool :=
  frames_satisfy (broadcast_single 1 ++ broadcast_single 2 ++ broadcast_single 3 ++ connect_ws 0 1) 0 (one_frame [1; 2; 3]).

Definition test_client_receives_partial_backlog : bool :=
  frames_satisfy (mjoin (broadcast_single <$> [1; 2; 3; 4; 5]) ++ connect_ws 0 3) 0 (one_frame [3; 4; 5]).

Definition test_client_receives_confirmation : bool :=
  frames_satisfy (connect_ws 0 0 ++ broadcaster_confirm 10 ++ [next 0]) 0
    (λ frames, match frames with
               | [bm] => (sequence_numbers bm =! []) &&
                         ((confirmed_sequence_number <$> confirmed_sequence_number_message bm) =! Some 10)
               | _ => false
               end).

Definition test_multiple_clients_receive_same_broadcast : bool :=
  let acts := connect_ws 1 0 ++ connect_ws 2 0 ++ broadcast_single 1 ++ [next 1; next 2] in
  frames_satisfy acts 1 (one_frame [1]) && frames_satisfy acts 2 (one_frame [1]).

(** The count of clients after a run, and of messages in the backlog. *)
Definition clients_after (acts : list feed_action) : option Z := client_count <$> feed_exec 100 acts feed_new.

Definition cached_after (acts : list feed_action) : option nat := get_cached_message_count <$> feed_exec 100 acts feed_new.

Definition test_client_count_tracks_connections : bool :=
  (clients_after [] =! Some 0) &&
  (clients_after (connect_ws 1 0) =! Some 1) &&
  (clients_after (connect_ws 1 0 ++ connect_ws 2 0) =! Some 2) &&
  (clients_after (connect_ws 1 0 ++ connect_ws 2 0 ++ [ClientStop 1]) =! Some 1) &&
  (clients_after (connect_ws 1 0 ++ connect_ws 2 0 ++ [ClientStop 1; ClientStop 2]) =! Some 0).

Definition test_broadcaster_lifecycle : bool :=
  let b := server_new in
  let '(b', bound) := server_start (Ok "127.0.0.1:4000"%string) b in
  negb (server_started b) && (server_listener_addr b =! None) &&
  match bound with
  | Ok addr => server_started b' && (server_listener_addr b' =! Some addr)
  | Err _ => false
  end &&
  negb (server_started (server_stop b')).

Definition single (i : Z) : BroadcastMessage := op_message (FeedMessages [feed_message_of i]).

Definition test_backlog_skips_duplicates : bool :=
  let backlog := append [] (single 1) in
  (length backlog =! 1%nat) && (length (append backlog (single 1)) =! 1%nat).

Definition test_confirm_before_append : bool :=
  let backlog := append [] (single 1) in
  (length backlog =! 1%nat) && (length (confirm backlog 1) =! 0%nat).

Definition test_broadcaster_messages_removed_on_confirmation : bool :=
  let up_to n := mjoin (broadcast_single <$> n) in
  let six := up_to [1; 2; 3; 4; 5; 6] in
  let run5 := six ++ broadcaster_confirm 4 ++ broadcaster_confirm 5 in
  let run7 := run5 ++ broadcaster_confirm 4 ++ broadcaster_confirm 5 ++ broadcast_single 7 in
  (cached_after (up_to [1]) =! Some 1%nat) &&
  (cached_after (up_to [1; 2]) =! Some 2%nat) &&
  (cached_after (up_to [1; 2; 3]) =! Some 3%nat) &&
  (cached_after (up_to [1; 2; 3; 4]) =! Some 4%nat) &&
  (cached_after (up_to [1; 2; 3; 4; 5]) =! Some 5%nat) &&
  (cached_after six =! Some 6%nat) &&
  (cached_after (six ++ broadcaster_confirm 4) =! Some 2%nat) &&
  (cached_after run5 =! Some 1%nat) &&
  (cached_after (run5 ++ broadcaster_confirm 4) =! Some 1%nat) &&
  (cached_after run7 =! Some 2%nat) &&
  (cached_after (run7 ++ broadcaster_confirm 8) =! Some 0%nat).

Definition test_broadcast_feed_messages_appended_to_backlog : bool :=
  (cached_after [] =! Some 0%nat) &&
  (cached_after (broadcast_all (FeedMessages (feed_message_of <$> [1; 2; 3]))) =! Some 3%nat).

Example feed_tests_pass :
  forallb id [test_client_receives_live_broadcast; test_client_receives_seq_zero; test_client_receives_backlog_on_connect;
              test_client_receives_partial_backlog; test_client_receives_confirmation;
              test_multiple_clients_receive_same_broadcast; test_client_count_tracks_connections;
              test_broadcaster_lifecycle; test_backlog_skips_duplicates; test_confirm_before_append;
              test_broadcaster_messages_removed_on_confirmation;
              test_broadcast_feed_messages_appended_to_backlog] = true.
Proof. vm_compute. reflexivity. Qed.
