(* ===== verification/ConformWire.v ===== *)
(** * The repository's tests across components

    The tests of [src/src/rollups/nitro/feed/client.rs], [src/src/rollups/nitro/feed/relay.rs]
    and [src/src/submitter/submitter.rs] as programs over the definitions they test: the
    sockets carry JSON text, and the development node takes what it is sent. *)

From S2P Require Import Prelude Bytes Slice Config Json JsonSyntax Rollup MockRollup NitroTypes GoBigInt FeedJson WireText.
From S2P Require Import NitroPayload Feed FeedClient Relay FeedWire Submitter ConformFeed.
From Stdlib Require Import Strings.Byte.
#[local] Open Scope cas_scope.

(** ** The feed client *)

(** Every signature is accepted. *)
Definition accept_all (_ : Z) (_ : list Address) (_ : BroadcastFeedMessage) : result unit string := Ok tt.

Definition read_text (b : bytes) : result BroadcastMessage string :=
  read_frame (W:=base64_text) (T:=decimal_u256) (JT:=json_text) true b.

Definition write_text (bm : BroadcastMessage) : result bytes string :=
  write_frame (W:=base64_text) (T:=decimal_u256) (JT:=json_text) true bm.

Definition make_test_broadcaster_client (sequencer_addresses : list Address) : BroadcasterClient :=
  let c := default_BroadcasterClientConfig (Address:=Address) in
  new_with_verifier
    {| reconnect_initial_backoff := reconnect_initial_backoff c; reconnect_maximum_backoff := reconnect_maximum_backoff c;
       timeout := timeout c; retry_connect_max_backoff := retry_connect_max_backoff c;
       retry_connect_backoff_step := retry_connect_backoff_step c; enable_compression := enable_compression c;
       require_feed_server_version := require_feed_server_version c; require_chain_id := require_chain_id c;
       trusted_sequencer_addresses := sequencer_addresses |} "ws://localhost:8080" 42161 0.

(** A frame as the client takes it from the socket: what reaches the submission
    channel. *)
Definition forwarded (c : BroadcasterClient) (bm : BroadcastMessage)
    : result (BroadcasterClient * list BroadcastFeedMessage) string :=
  let? b := write_text bm in
  match process_message accept_all read_text c None b with
  | (c', sent, Ok _) => Ok (c', sent)
  | (_, _, Err _) => Err "process_message failed"%string
  end.

Fixpoint process_all (c : BroadcasterClient) (bms : list BroadcastMessage) : result (list BroadcastFeedMessage) string :=
  match bms with
  | [] => Ok []
  | bm :: bms' =>
      let? '(c', sent) := forwarded c bm in
      let? rest := process_all c' bms' in
      Ok (sent ++ rest)
  end.

(** One frame of [espresso_e2e/nitro_broadcast_test_data.json]; the kind, the sender
    and the absent fields are those of all of them. *)
Definition data_frame (sequence block_number timestamp delayed : Z) (block_hash metadata : Value) (l2msg : string) : Value :=
  JObject [("version"%string, JNumber 1); ("messages"%string, JArray [JObject [
    ("sequenceNumber"%string, JNumber sequence);
    ("message"%string, JObject [
       ("message"%string, JObject [
          ("header"%string, JObject [
             ("kind"%string, JNumber 3); ("sender"%string, JString "0xa4b000000000000000000073657175656e636572");
             ("blockNumber"%string, JNumber block_number); ("timestamp"%string, JNumber timestamp);
             ("requestId"%string, JNull); ("baseFeeL1"%string, JNull)]);
          ("l2Msg"%string, JString l2msg)]);
       ("delayedMessagesRead"%string, JNumber delayed)]);
    ("blockHash"%string, block_hash); ("signature"%string, JNull); ("blockMetadata"%string, metadata)]])].

Definition test_data : list Value := [
  data_frame 420164828 24669699 1773659746 2380879 (JString "0xe2ca3e765ab5706bb06a8ec0ee2dc87de4f8bbf7e1c87f2788e6823f83a5c12a") (JString "AAA=")
    ("BAL5AU6CpLEBgIQBtzYHgwSbRZRos0ZYM/typw7N9IXg5Me9hmX8RYC45ATkWq8AAAAAAAAAAAAAAACviNBl53yMwiOTJ8Xt" +:+
     "s6QyJo5YMQAAAAAAAAAAAAAAAJimdRw3Igr3DT7bCy6rbidEkGp1AAAAAAAAAAAAAAAAAAAAAAAAAAAAAAAAAAAAAAAAAfQA" +:+
     "AAAAAAAAAAAAAABOK5mdLqth0k3okipeBB4g6+MqZwAAAAAAAAAAAAAAAAAAAAAAAAAAAAAAAAAAAAAKtyjUAAAAAAAAAAAA" +:+
     "AAAAAAAAAAAAAAAAABrbAkGqclEAAAAAAAAAAAAAAAAAAAAAAAAAAAAAAAAAAAAAAAAAAAAAAMCAoDzsXTd+XdIrbibgnrGr" +:+
     "Tmjks6NX7eYP2/ZuL244pgBvoCE9kahWX8mE9FdFL2fxx1QvO0g2gkw2QFJf2AJeJi5d");
  data_frame 420164829 24669699 1773659746 2380879 (JString "0x29461229ec995845320752434f65aa41bdf3a5d2150fde6506c7046e3b5e401f") (JString "AAI=")
    ("BAL4lIKksYMN9fSEAcnDgIQBycOAgwLRbZQnkg6AOdK26T429dX1O5mOLmMacICkskYMSAACCN5kQfa1dMgAAAAAAAAAAJFc" +:+
     "vKqQWmjbukytRtEAwICgMHJ19WlKErA3tL/PBYsSrgsi6DQH1tdnYUCL/tQhzi2gdWBylJqZUQ5EK27oZb3uGfTYWCgnnIcp" +:+
     "hwuSWF2V5a4=");
  data_frame 420164830 24669699 1773659747 2380879 (JString "0xfebf017c1066fee63f3862193fb8e80a52dda81fb86938073be98cec0d5426d8") (JString "AAI=")
    ("AwAAAAAAAACYBAL4lIKksYMN5ASEAcpQH4QBylAfgwLRbZQnkg6AOdK26T429dX1O5mOLmMacICkskYMSAACCND+moUl5hAA" +:+
     "AAAAAAAAAJFcpUKNgs1S1ATjQdUAwICgN2y7+UiaOolUaIb+TcfR7x2Soe1teBIPxGhmvAmA+RGgUdp9YjaeD9MRRJ04p/tM" +:+
     "PrtAk4X7hYPvfyGUOEWDsfIAAAAAAAAAkwQC+I+CpLGCCReAhAJiWgCDAsxolOGM/0wP4a0b0zcbeu4KnQRHOHgegKR06N53" +:+
     "AAAAAAAAAAAAAAAAck3IB7BFVbce1Ipolrb0FZO4xjfAgKAh8B6UD/LYk6G3wzyQ4geafVobqSBWr1XLGc2qamn3iqAUgAim" +:+
     "v1fiY1QizvBN1Ar0edVNwkZ2aTUbZJGwj7JfYAAAAAAAAAKWBAL5ApGCpLGCAW+AhAGNrkCDBK8jlMNkQrSkUi6HE5nNcXq9" +:+
     "2EerEf6IgLkCJKyWUNgAAAAAAAAAAAAAAAAAAAAAAAAAAAAAAAAAAAAAAAAAIAAAAAAAAAAAAAAAAAAAAAAAAAAAAAAAAAAA" +:+
     "AAAAAAACAAAAAAAAAAAAAAAAAAAAAAAAAAAAAAAAAAAAAAAAAEAAAAAAAAAAAAAAAAAAAAAAAAAAAAAAAAAAAAAAAAABIAAA" +:+
     "AAAAAAAAAAAAAAAAAAAAAAAAAAAAAAAAAAAAAACkDEnMvgAAAAAAAAAAAAAAAAAAAAAAAAAAAAAAAAAAAAAAUczFAAAAAAAA" +:+
     "AAAAAAAAAAAAAAAAAAAAAAAAAAAAAAGygrYAAAAAAAAAAAAAAAAAAAAAAAAAAAAAAAAAAAAAAAAAAAAAAAAAAAAAAAAAAAAA" +:+
     "AAAAAAAAAAAAAAAAAAABxCFtAAAAAAAAAAAAAAAAAAAAAAAAAAAAAAAAAAAAAGm37WMAAAAAAAAAAAAAAAAAAAAAAAAAAAAA" +:+
     "AAAAAAAAAAAAAAAAAAAAAAAAAAAAAAAAAAAAAAAAAAAAAAAAAIT8b3hlAAAAAAAAAAAAAAAAAAAAAAAAAAAAAAAAAAAAAABR" +:+
     "zMUAAAAAAAAAAAAAAAD2Rzy2HugnUE12/bafphebsBdsKQAAAAAAAAAAAAAAAAAAAAD/////////////////////AAAAAAAA" +:+
     "AAAAAAAAAAAAAP////////////////////8AAAAAAAAAAAAAAAAAAAAAAAAAAAAAAAAAAAAAwICgYwXRC5oiBydygzixi+ob" +:+
     "wiFvWk3lwoPK0PtAooR+gKGgI+mL8qTNsQ/4nbh1eGFTxgrSiZplwUD4TvkJFtwNGUw=");
  data_frame 420164831 24669699 1773659747 2380879 (JString "0xc21e1bc2fa065b846355eb4f6d68dab689103d741b1c07be1b01048506dfc1a5") (JString "AAA=")
    ("AwAAAAAAAADSBAL4zoKksROAhAFud6CDBVwblEWC9naYhD37ap8ZXA3e4FsKjJc/gLhkcqAj+gAAAAAAAAAAAAAAAL4A89t4" +:+
     "aI2XBLy04KgnrqOpzA1iAAAAAAAAAAAAAAAALF0G9ZHQ2M1DrCMsK2VEdaFCx9oAAAAAAAAAAAAAAAAAAAAAAAAAAAAAAAAA" +:+
     "AAAAAAAACsCAoMNxMosAhQn+dU2fhMPjvpMIyEcBHdSYwyXDWDBBuyJvoC8NpccVdGq+e9BtzMt1fUog3UUGrpW/TaVlUQUL" +:+
     "a6UpAAAAAAAABJUE+QSRgwFez4QBycOAhAX19BeUhr52oPor0+y2kzDLtP0fYsSPQ+OAuQQksdxlpAABC+29vx/DXwQYb2mp" +:+
     "XRpiPdFafsfGXNxDncOfrQvEAAAAAAAAAAAAAAAAAAAAAAAAAAAAAAAAAAAAAAO3cAMWVJBuAF+RXAI8IWSbsfVb6yI9xaSn" +:+
     "Jjd6BdoDHwLaKQAAAAAAAAAAAAAAAAAAAAAAAAAAAAAAAAAAAAAAAADgAAAAAAAAAAAAAAAAAAAAAAAAAAAAAAAAAAAAAAAA" +:+
     "AmAAAAAAAAAAAAAAAAAAAAAAAAAAAAAAAAAAAAAAAAADQAEAAQEBAAAAAAAAAAAAAAAAAAAAAAAAAAAAAAAAAAAAAAAAAAAA" +:+
     "AAAAAAAAAAAAAAAAAAAAAAAAAAAAAAAAAWAAAAAAAAAAAAAAAAAAAAAAAAAAAAAAAAAAAAAAAAAAIAAAAAAAAAAAAAAAAAAA" +:+
     "AAAAAAAAAAAAAAAAAAAAAACAAAAAAAAAAAAAAAAAAAAAAAAAAAAAAAAAAAAAAAAAAAAAAAAAAAAAAAAAAAAAAAAAAAAAAAAA" +:+
     "AAAAAAAAAAAAAAAAAAAAAAAAAAAAAAAAAAAAAAAAAAAAAAAAAAAAAAAAAAAAAAAAAAAAAAAAAAAAAAAAAAAAAAAAAAAAAAAA" +:+
     "AEAAAAAAAAAAAAAAAAAAAAAAAAAAAAAAAAAAAAAAAAAAYAAAAAAAAAAAAAAAAAAAAAAAAAAAAAAAAAAAAAAAAAAAAAAAAAAA" +:+
     "AAAAAAAAAAAAAAAAAAAAAAAAAAAAAAAAAAEAAAAAAAAAAAAAAAAAAAAAAAAAAAAAAAAz00P3eGPKuAAAAAAAAAAAAAAAAAAA" +:+
     "ySwtJQAAAAAAAAAAAAAU9AiPAAAAAAAAAAAAAAAAAAAAAAAAAAAAAAAAAAAAAAAAAAaY+tr2CuFHa4/xRe8ARbakPmVq+VKg" +:+
     "7sXweJ+uB15tX0BC9BCVJcfR/GvF1LuirA+2QRq55q07sXp+/uuE3X6VEyLTaFtdji09bZjW4cibH1GKPoov+7spNEp4UXTZ" +:+
     "6Hd/z5MOo2gx8z+6kdOSJ0Ad/taI6EPEsCcf5idyzyzejPZFlFMwRMbVjERTazcXk87n2mTZlVy7w5hYZFPhuh9277Oob1Xu" +:+
     "Z8dOqBK86eiwg18tHRqte1qX1Vj8SIWq3bYAAAAAAAAAAAAAAAAAAAAAAAAAAAAAAAAAAAAAAAAABjncv4xpmhRpxrtsydkE" +:+
     "ZfBS93mC7E7xn+urxhxXS+OgKXFKalg5J7gL7auZZCqmt+hLH4yv/0+QgMsPtPHAJMIzyVdjgvGF7tK7yqEAPw7j2+f/iY3O" +:+
     "Cf+MUg6Mxl/Pn0GZ4XWaezTOXGabFezWllru18+OJSOf88wCrUMiV/N8ZlTWIVLLNl2YyS1pzP0FgxZIxmPN/zlUSCG+PLqo" +:+
     "gIseETldjlI6SHIQI6qMm+Z7VtnZxDI1T7D6+oSvbPa4zIMBSYWgAbopfcMMqH4BXInh67Nw7aaX7Xhd7zGJYRUpG9p9VESg" +:+
     "H5Cor+sPNwLAlmHgvpEm8bzzZYhVRWjqCRjevGQrxHIAAAAAAAAAkgQC+I6CpLGCDlCAhAHJw4CC6mCUaB6Qi4q1fEnHTXcP" +:+
     "NpdUzMPhrgmApGm39HNensaYAB1ensqxACmGsq7yAB+GsuABACkAAZz2W/IBAMABoF5Z1yz56njzSvzPkTTPEf+R8Z5AGwuz" +:+
     "+GzwozClMyz1oC73XzpwzvKaryQr7+L3XekfrkRvdW245wyXSDXDJ2xJAAAAAAAAARkEAvkBFIKksYIq2YQF9eEAhAhY9oCD" +:+
     "AodElMNkQrSkUi6HE5nNcXq92EerEf6IgLikDEnMvgAAAAAAAAAAAAAAAAAAAAAAAAAAAAAAAAAAAAAAUe0nAAAAAAAAAAAA" +:+
     "AAAAAAAAAAAAAAAAAAAAABOfzVrRQ3EAAAAAAAAAAAAAAAAAAAAAAAAAAAAAAAAAAAAAAAAAAAAAAAAAAAAAAAAAAAAAAAAA" +:+
     "AAAAAAAAAAAAAAAAAAAAAAAAAAAAAAAAAAAAAAAAAAAAAAAAAAAAAAAAAGm36LrAgKDt+zQVVkLmqcUF58dnTqviTu7mlX7y" +:+
     "gN0TmZ69xqGfdKBNn5/eJM7RMjwqXE5BZnin0D//CD9U3/lXgowSVhttBw==");
  data_frame 420164828 24669699 1773659746 2380879 JNull JNull
    ("BAL5AU6CpLEBgIQBtzYHgwSbRZRos0ZYM/typw7N9IXg5Me9hmX8RYC45ATkWq8AAAAAAAAAAAAAAACviNBl53yMwiOTJ8Xt" +:+
     "s6QyJo5YMQAAAAAAAAAAAAAAAJimdRw3Igr3DT7bCy6rbidEkGp1AAAAAAAAAAAAAAAAAAAAAAAAAAAAAAAAAAAAAAAAAfQA" +:+
     "AAAAAAAAAAAAAABOK5mdLqth0k3okipeBB4g6+MqZwAAAAAAAAAAAAAAAAAAAAAAAAAAAAAAAAAAAAAKtyjUAAAAAAAAAAAA" +:+
     "AAAAAAAAAAAAAAAAABrbAkGqclEAAAAAAAAAAAAAAAAAAAAAAAAAAAAAAAAAAAAAAAAAAAAAAMCAoDzsXTd+XdIrbibgnrGr" +:+
     "Tmjks6NX7eYP2/ZuL244pgBvoCE9kahWX8mE9FdFL2fxx1QvO0g2gkw2QFJf2AJeJi5d")].

Definition load_test_data : list BroadcastMessage :=
  omap (λ v, ok (de_struct (broadcast_de (W:=base64_text) (T:=decimal_u256) true) v)) test_data.

Definition test_process_messages : bool :=
  let original := mjoin (flat <$> load_test_data) in
  (length load_test_data =! 5%nat) &&
  match process_all (make_test_broadcaster_client []) load_test_data with
  | Ok queue => (length queue =! length original) &&
      forallb (λ m, (feed_msg <$> last (filter (λ o, msg_sequence_number o = msg_sequence_number m) original)) =! Some (feed_msg m))
        queue
  | Err _ => false
  end.

(** ** The relay *)

(** The mock streamer: the message comes back with another delayed count. *)
Definition enriched (m : BroadcastFeedMessage) : BroadcastFeedMessage := {|
  msg_sequence_number := msg_sequence_number m;
  feed_msg := {| message := message (feed_msg m); delayed_messages_read := 42 |};
  block_hash := block_hash m; signature := signature m; block_metadata := block_metadata m;
  cumulative_sum_msg_size := cumulative_sum_msg_size m |}.

Definition sent_to_client (acts : list feed_action) (id : nat) : list BroadcastMessage :=
  match feed_exec 100 acts feed_new with
  | Some f => match clients f !! id with Some c => out c | None => [] end
  | None => []
  end.

Definition test_relay_broadcasts_espresso_finalized_messages : bool :=
  let upstream := sent_to_client (connect_ws 0 0 ++ broadcast_single 1 ++ [next 0]) 0 in
  match process_all (new_with_verifier default_BroadcasterClientConfig "ws://upstream/feed" 99999 0) upstream with
  | Ok submission =>
      let '(ops, returned) := relay_run (Ok tt) ((λ m, EspressoRecv (enriched m) []) <$> submission) in
      let downstream := sent_to_client (connect_ws 0 0 ++ mjoin (broadcast_all <$> ops) ++ [next 0]) 0 in
      let received := omap (λ bm, ok (let? b := write_text bm in read_text b)) downstream in
      match returned with None => true | Some _ => false end &&
      match head (mjoin (flat <$> received)) with
      | Some msg => (msg_sequence_number msg =! 1) && (delayed_messages_read (feed_msg msg) =! 42)
      | None => false
      end
  | Err _ => false
  end.

Example feed_path_tests_pass :
  forallb id [test_process_messages; test_relay_broadcasts_espresso_finalized_messages] = true.
Proof. vm_compute. reflexivity. Qed.

(** ** The submitter under load *)

Definition load_test_config : SubmitterConfig := {|
  max_in_flight := 2; finalization_wait_ms := 10000; sub_initial_backoff_ms := 100; sub_max_backoff_ms := 1000;
  max_finalization_poll_retries := 5 |}.

(** A task's transaction is accepted, and found at the second poll. *)
Definition task_completes (id : nat) : list (submitter_action (M:=Transaction)) := TaskAnswer id <$> [true; false; true].

(** Message [i] is taken while two tasks run; the permit comes when the older one
    has completed. *)
Definition load_round (i : nat) : list (submitter_action (M:=Transaction)) :=
  [Enqueue (make_mock_espresso_transaction (Z.of_nat i)); LoopTurn] ++
  (if (2 <=? i)%nat then task_completes (i - 2) else []) ++ [AcquirePermit].

Definition run_load (acts : list (submitter_action (M:=Transaction))) :=
  submitter_exec load_test_config id acts (submitter_new (Tx:=Transaction) load_test_config).

Definition test_submitter_handles_load_with_limited_concurrency : bool :=
  let rounds := mjoin (load_round <$> List.seq 0 21) in
  match run_load (rounds ++ [CloseChannel; LoopTurn] ++ task_completes 19 ++ task_completes 20) with
  | Some s =>
      match main s with Returned => true | _ => false end && (permits s =! 2%nat) &&
      let found_seqs := (λ tx, from_be_bytes (drop (length (payload tx) - 8) (payload tx))) <$> spawned s in
      forallb (λ expected_seq, existsb (Z.eqb expected_seq) found_seqs) (seqZ 0 21)
  | None => false
  end.

(** While two tasks hold the permits the third transaction waits. *)
Definition third_transaction_waits : bool :=
  match run_load (load_round 0 ++ load_round 1 ++ [Enqueue (make_mock_espresso_transaction 2); LoopTurn; AcquirePermit]) with
  | Some _ => false
  | None => true
  end.

Example submitter_tests_pass :
  forallb id [test_submitter_handles_load_with_limited_concurrency; third_transaction_waits] = true.
Proof. vm_compute. reflexivity. Qed.
