(* ===== verification/Service.v ===== *)
(** * The service from its configuration to the streamer's index

    [build_reader] of [src/src/main.rs], and what [main] and [run] guarantee about
    the messages the streamer works with: configuration, L1 checkpoint, reader,
    poller and streamer together. *)

From S2P Require Import Prelude Bytes Slice Config Rollup NitroTypes Rlp RlpInstance Batch NitroPayload.
From S2P Require Import MockRollup Streamer StreamerProofs StreamerRun StreamerTheorems Poller.
From S2P Require Import Nitro NitroTheorems L1Monitor EspressoClient Startup.

(** The features the binary is built with, and the variable an [e2e] build reads. *)
Record build_features := {
  feature_e2e : bool;
  feature_unverified_reader : bool;
  CAS_E2E_UNVERIFIED_READER : bool;
}.

(** An [Arc<dyn EspressoReader>]. *)
Inductive dyn_reader (LightClient : Type) :=
| DynLightClient (inner : LightClient)
| DynUnverified (client : EspressoClientConfig).

Arguments DynLightClient {LightClient} inner.
Arguments DynUnverified {LightClient} client.

Section reader.
Context {Body Commitment TransactionQueryData : Type} {Net : QueryNet Body Commitment TransactionQueryData}.
Context {Genesis Storage Server LightClient : Type} {LCC : LightClientCrate Genesis Storage Server LightClient}.
Open Scope cas_scope.

(** The reader at an instant. *)
Definition read_at (r : dyn_reader LightClient) (t : nat) : EspressoReader :=
  match r with
  | DynLightClient inner => LightClientEspressoReader inner t
  | DynUnverified client => UnverifiedEspressoReader client t
  end.

Definition build_reader (features : build_features) (espresso : EspressoConfig Genesis)
    : result (dyn_reader LightClient) LightClientError :=
  if feature_e2e features && CAS_E2E_UNVERIFIED_READER features then Ok (DynUnverified (ec_client espresso))
  else if feature_unverified_reader features then Ok (DynUnverified (ec_client espresso))
  else
    let query_urls := base_url (ec_client espresso) :: fallback_query_urls (light_client espresso) in
    let? inner :=
      LightClientEspressoReader_new (genesis (light_client espresso)) query_urls
        (db_path (light_client espresso)) (num_stake_tables_in_memory (light_client espresso))
        (from_millis (fallback_delay_ms (light_client espresso))) in
    Ok (DynLightClient inner).
End reader.

(** The Espresso network whose older epoch roots lack the stake-table commitment, by
    the [chain_id] of the genesis. *)
Definition DECAF_CHAIN_ID : Z := 0xdecaf.

(** What [docs/light-client-catchup.md] says of the [light-client] crate: a range it
    returns was verified against the consensus rooted in the genesis, one vector per
    height; heights are [u64]s.  On Decaf the client trusts the server's stake-table
    events for the roots that lack the commitment, so nothing is said of a Decaf
    genesis. *)
Class LightClientLaws {Genesis Storage Server LightClient : Type}
    (LCC : LightClientCrate Genesis Storage Server LightClient) (genesis_chain_id : Genesis → Z)
    (certified : Genesis → Z → Z → list Transaction) : Prop := {
  lc_range_verified storage server g n t a b ns txns :
    genesis_chain_id g ≠ DECAF_CHAIN_ID → 0 ≤ a < b →
    fetch_namespaces_in_range (from_genesis_with_options storage server g n) t a b ns = Ok txns →
    txns = chain_blocks (certified g ns) a b;
  lc_height_u64 lc t h : lc_block_height lc t = Ok h → is_u64 h;
}.

(** What [spec_add] collects. *)
Section index.
Context {R : Rollup}.
Implicit Types (es : list Entry) (e : Entry).

Lemma index_source start es k h :
  foldl (spec_add start) ∅ es !! k = Some h →
  start ≤ k ∧ ∃ e, e ∈ es ∧ sequence_number e = k ∧ hotshot_height e = h.
Proof.
  induction es as [|e es IH] using rev_ind; [by simpl; rewrite lookup_empty|].
  assert (Hleft : foldl (spec_add start) ∅ es !! k = Some h →
    start ≤ k ∧ ∃ e0, e0 ∈ es ++ [e] ∧ sequence_number e0 = k ∧ hotshot_height e0 = h).
  { intros (Hs & e0 & He0 & Eqs)%IH. split; [done|]. exists e0. split; [|done].
    apply elem_of_app. by left. }
  rewrite foldl_app. simpl. unfold spec_add at 1. destruct (_ || _) eqn:Ec; [exact Hleft|].
  rewrite lookup_insert_Some. intros [[Ek Eh]|[_ Hk] ]; [|by apply Hleft].
  apply orb_false_iff in Ec as [Hs%Z.ltb_ge _]. split; [lia|]. exists e. split; [|done].
  apply elem_of_app. right. by apply list_elem_of_singleton.
Qed.
End index.

Section service.
Context {A : AlloyRlp} {B : Brotli} {J : NitroJson} {JL : NitroJsonLaws J} {K : Crypto}.
Context (hash : BroadcastFeedMessage → Z → result B256 string).
Context {Body Commitment TransactionQueryData : Type} {Net : QueryNet Body Commitment TransactionQueryData}.
Context {Genesis Storage Server LightClient : Type} {LCC : LightClientCrate Genesis Storage Server LightClient}.
Context (genesis_chain_id : Genesis → Z) (certified : Genesis → Z → Z → list Transaction).
Context {LCL : LightClientLaws LCC genesis_chain_id certified}.
Context (stake_table_is_empty : Genesis → bool) (url_parse : string → result string string).
Context (overrides_from_str : string → result SecretOverrides string).
Context (wrapper_from_str : string → result string string).
Context {C : Type} {SD : Sender C BroadcastFeedMessage} {SL : SenderLaws SD}.

(** The reader of a build that verifies answers from the chain of its genesis,
    whichever query nodes it asks. *)
Lemma built_reader_answers features espresso r t ns :
  genesis_chain_id (genesis (light_client espresso)) ≠ DECAF_CHAIN_ID →
  feature_e2e features = false → feature_unverified_reader features = false →
  build_reader features espresso = Ok r →
  sane_height (read_at r t) ∧ answers (read_at r t) ns (certified (genesis (light_client espresso)) ns).
Proof.
  intros Hg He Hu. unfold build_reader, LightClientEspressoReader_new. rewrite He, Hu. simpl. intros H.
  destruct (storage_connect _) as [storage|]; [|done]. simpl in H.
  destruct (fallback_build _ _) as [server|]; [|done]. simpl in H. apply Ok_inj in H as <-. split.
  - intros h Hh. simpl in Hh. destruct (lc_block_height _ t) eqn:E; [|done]. simpl in Hh.
    apply Ok_inj in Hh as ->. by apply (lc_height_u64 (LightClientLaws:=LCL)) in E.
  - intros a b txns Hab Hr. simpl in Hr. unfold usize_try_from in Hr.
    destruct (a <? u64_modulus), (b <? u64_modulus); try done.
    destruct (fetch_namespaces_in_range _ t a b ns) eqn:E; [|done]. simpl in Hr. apply Ok_inj in Hr as ->.
    by apply (lc_range_verified (LightClientLaws:=LCL)) in E.
Qed.

(** The signatures that count depend on the anchors only. *)
Lemma signed_anchors (cfg cfg' : ServiceConfig Genesis Address (NitroConfig Address)) m p :
  anchors cfg' = anchors cfg →
  sequencer_signed hash (stack (rollup cfg')) m ∨ legacy_signed (stack (rollup cfg')) p →
  sequencer_signed hash (stack (rollup cfg)) m ∨ legacy_signed (stack (rollup cfg)) p.
Proof. intros Ha. unfold sequencer_signed, legacy_signed. injection Ha as _ _ Hc Hq Hl _ _. by rewrite Hc, Hq, Hl. Qed.

(** An entry of a range of the chain is in a signed transaction at its height. *)
Lemma indexed_entry_signed (cfg file : ServiceConfig Genesis Address (NitroConfig Address)) chain a b seq h e :
  is_u64 a → is_u64 b → a ≤ b → anchors cfg = anchors file →
  e ∈ nitro_parse_hotshot_transactions hash (stack (rollup cfg)) (chain_blocks chain a b) a →
  sequence_number e = seq → entry_hotshot_height e = h →
  a ≤ h < b ∧
  ∃ tx e, tx ∈ chain h ∧ e ∈ parse_transaction hash (stack (rollup cfg)) h tx ∧ sequence_number e = seq ∧
    (sequencer_signed hash (stack (rollup file)) (feed_message e) ∨
     legacy_signed (stack (rollup file)) (payload tx)).
Proof.
  intros Ha Hb Hle Hanch He Eseq Eh. destruct (decide (a = b)) as [-> |Hne].
  { unfold chain_blocks in He. rewrite Z.sub_diag in He. by apply elem_of_nil in He. }
  apply (elem_of_chain_range (R:=Nitro hash) chain) in He as [Hr [_ Hon]]; [|done|lia|done].
  simpl in Hr, Hon. rewrite Eh in Hr, Hon. split; [done|]. rewrite app_nil_r in Hon.
  apply parse_block_spec in Hon as (tx & Htx & Hon). exists tx, e. split_and!; [done..|].
  apply (signed_anchors file cfg); [done|]. by apply parse_transaction_spec in Hon as (? & _).
Qed.

(** C29. The whole read path of a verifying build on a network other than Decaf (whose
    older stake tables the light client takes from the server unchecked): take the
    configuration file, any environment and secret it starts with, the L1 checkpoint,
    any query nodes, and any run of the poller.  Once the streamer has taken the
    ranges, what it knows is the first-seen index of the blocks certified under the
    file's genesis, from the resolved start to the poller's cursor; and each message it
    knows of is at its height in a transaction of that chain, signed by a sequencer or
    a legacy signer that the file trusts. *)
Theorem verified_service_index env file cfg1 key checkpoint fresh_cursor cfg features r node instants c0 :
  genesis_chain_id (ta_genesis (anchors file)) ≠ DECAF_CHAIN_ID →
  load_config stake_table_is_empty url_parse overrides_from_str wrapper_from_str
    (feature_unverified_reader features) env file = Ok (cfg1, key) →
  resolve_start cfg1 checkpoint fresh_cursor = Ok cfg →
  feature_e2e features = false → feature_unverified_reader features = false →
  build_reader features (espresso_client cfg) = Ok r →
  let start := starting_hotshot_height (streamer cfg) in
  let chain := certified (ta_genesis (anchors file)) (ta_namespace (anchors file)) in
  is_u64 start →
  let out := poll_hotshot_blocks (streamer cfg) (namespace_id (rollup cfg))
    ((λ i : nat * Z * bool, {| poll_reader := read_at r i.1.1; poll_now := i.1.2; channel_open := i.2 |}) <$> instants)
    (poller_init (streamer cfg) start) in
  let known := view (streamer_of (run_events (R:=Nitro hash)
    (run_init (R:=Nitro hash) (streamer cfg) (rollup cfg) 0 c0) (poller_events (R:=Nitro hash) node out.2))) in
  known = foldl (spec_add (R:=Nitro hash) (starting_pos (streamer cfg))) ∅
    (nitro_parse_hotshot_transactions hash (stack (rollup cfg)) (chain_blocks chain start (from_block out.1)) start) ∧
  ∀ seq h, known !! seq = Some h →
    starting_pos (streamer cfg) ≤ seq ∧ start ≤ h < from_block out.1 ∧
    ∃ tx e, tx ∈ chain h ∧ e ∈ parse_transaction hash (stack (rollup cfg)) h tx ∧ sequence_number e = seq ∧
      (sequencer_signed hash (stack (rollup file)) (feed_message e) ∨
       legacy_signed (stack (rollup file)) (payload tx)).
Proof.
  intros Hg (_ & _ & _ & _ & _ & Ha1)%load_config_ok Ha2%resolve_start_anchors He Hu Hr start chain Hs.
  assert (Ha : anchors cfg = anchors file) by congruence.
  assert (Hchain : chain = certified (genesis (light_client (espresso_client cfg))) (namespace_id (rollup cfg)))
    by (unfold chain; by rewrite <- Ha).
  assert (Hg' : genesis_chain_id (genesis (light_client (espresso_client cfg))) ≠ DECAF_CHAIN_ID)
    by (rewrite <- Ha in Hg; exact Hg).
  set (inputs := _ <$> instants).
  assert (Hin : Forall (λ i, sane_height (poll_reader i) ∧
                  answers (poll_reader i) (namespace_id (rollup cfg)) chain) inputs).
  { apply Forall_fmap, Forall_true. intros [[t now] open]. rewrite Hchain.
    by apply (built_reader_answers features). }
  pose proof (poll_tiles (streamer cfg) _ chain inputs (poller_init (streamer cfg) start) Hs Hin) as Ht.
  pose proof (pipeline_indexes_chain (R:=Nitro hash) (streamer cfg) (rollup cfg) c0 node chain inputs Hs Hin) as Hp.
  cbv zeta in Hp. fold start in Hp. destruct (poll_hotshot_blocks _ _ _ _) as [p sent]. simpl in Ht. cbv zeta. cbn [fst snd].
  destruct Ht as (Hle & Hu64 & _). split; [exact Hp|]. intros seq h Hk.
  rewrite Hp in Hk. apply index_source in Hk as (Hpos & e & Hein & Eseq & Eh). split; [done|].
  by apply (indexed_entry_signed cfg file chain start (from_block p) seq h e).
Qed.
End service.

(** ** A concrete start *)

(** A light client that is its genesis, of Mainnet or of Decaf; block 901 of every
    namespace holds the transaction with messages 5 to 7.  On Decaf the server can
    make it believe that the blocks are empty. *)
Definition toy_chain_id (g : bool) : Z := if g then 1 else DECAF_CHAIN_ID.

Definition toy_certified (g : bool) (ns h : Z) : list Transaction := if h =? 901 then [small_tx] else [].

Definition toy_served (g : bool) (ns h : Z) : list Transaction := if g then toy_certified g ns h else [].

Definition toy_light_client : LightClientCrate bool unit (list string) bool := {|
  storage_connect _ := Ok tt;
  fallback_build urls _ := match urls with [] => Err "no clients"%string | _ => Ok urls end;
  from_genesis_with_options _ _ g _ := g;
  lc_block_height _ t := if Nat.eqb t 0 then Err NotFound else Ok 903;
  fetch_namespaces_in_range g _ a b ns := Ok (chain_blocks (toy_served g ns) a b);
|}.

Lemma toy_light_client_laws : LightClientLaws toy_light_client toy_chain_id toy_certified.
Proof.
  split.
  - intros storage server [] n t a b ns txns Hg _ [= <-]; [done|]. by destruct Hg.
  - intros lc t h Hh. simpl in Hh. destruct (Nat.eqb t 0); [done|]. apply Ok_inj in Hh as <-.
    split; by vm_compute.
Qed.

Definition service_file : ServiceConfig bool Address (NitroConfig Address) := {|
  espresso_client := espresso_client toy_file_config; streamer := small_cfg;
  rollup := {| ty := RollupNitro; namespace_id := 1; stack := small_config |};
  da_server := da_server toy_file_config; submitter := submitter toy_file_config;
  advanced := advanced toy_file_config; key_manager := key_manager toy_file_config;
  is_fresh_deployment := false |}.

Definition release_build : build_features :=
  {| feature_e2e := false; feature_unverified_reader := false; CAS_E2E_UNVERIFIED_READER := true |}.

Definition service_loaded : result (ServiceConfig bool Address (NitroConfig Address) * string) string :=
  load_config negb toy_url_parse toy_overrides_from_str (λ _, Ok "overrides"%string)
    (feature_unverified_reader release_build) toy_env service_file.

Definition service_cfg1 : ServiceConfig bool Address (NitroConfig Address) :=
  match service_loaded with Ok (c, _) => c | Err _ => service_file end.

Definition service_cfg : ServiceConfig bool Address (NitroConfig Address) :=
  resolve_config_with_checkpoint service_cfg1 small_cursor None.

Definition service_instants : list (nat * Z * bool) := [(0%nat, 0, true); (1%nat, 7, true); (2%nat, 9, true)].

Definition service_inputs : list poll_input :=
  (λ i : nat * Z * bool, {| poll_reader := read_at (Net:=toy_net mock_chain) (LCC:=toy_light_client)
                                             (DynLightClient true) i.1.1;
                            poll_now := i.1.2; channel_open := i.2 |}) <$> service_instants.

Definition service_known : gmap Z Z :=
  view (streamer_of (run_events (R:=SmallNitro) (SD:=small_sender)
    (run_init (R:=SmallNitro) (streamer service_cfg) (rollup service_cfg) 0 small_chan)
    (poller_events (R:=SmallNitro) failing_reader
       (poll_hotshot_blocks (streamer service_cfg) 1 service_inputs (poller_init (streamer service_cfg) 900)).2))).

Lemma verified_service_index_witness :
  service_known !! 6 = Some 901 ∧
  ∃ tx e, tx ∈ toy_certified true 1 901 ∧ sequence_number e = 6 ∧
    (sequencer_signed feed_hash small_config (feed_message e) ∨ legacy_signed small_config (payload tx)).
Proof.
  split; [by vm_compute|].
  pose proof (verified_service_index (A:=concrete_rlp) (B:=stored_brotli) (JL:=small_json_laws) feed_hash
    (Net:=toy_net mock_chain) toy_chain_id toy_certified (LCL:=toy_light_client_laws)
    negb toy_url_parse toy_overrides_from_str (λ _, Ok "overrides"%string)
    (SD:=small_sender) (SL:=bounded_sender_laws)
    toy_env service_file service_cfg1 "0x01" (Err BlockNotFound) (Ok small_cursor) service_cfg release_build
    (DynLightClient true) failing_reader service_instants small_chan) as H.
  destruct H as [_ H]; [done|by vm_compute..|done|done|by vm_compute|split; by vm_compute|].
  destruct (H 6 901) as (_ & _ & tx & e & Htx & _ & Hseq & Hs); [by vm_compute|]. by exists tx, e.
Defined.
