(* ===== verification/WritePath.v ===== *)
(** * The write path, joined to the read path

    [run] of [src/src/main.rs] hands the submitter a closure that turns messages
    into transactions.  Here the closure is put into the submitter, and what the
    submitter spawned is followed through the chain, the poller and the parser
    into the streamer. *)

From S2P Require Import Prelude Bytes Slice Config Rollup MockRollup Streamer StreamerProofs StreamerRun StreamerTheorems Poller.
From S2P Require Import NitroTypes NitroVerify Rlp RlpInstance Batch FeedJson NitroPayload Nitro NitroTheorems Submitter EspressoClient Startup Service.
From Stdlib Require Import Strings.Byte.

(** What [spec_add] keeps. *)
Lemma index_complete {R : Rollup} start es (e : Entry) :
  e ∈ es → start ≤ sequence_number e → is_Some (foldl (spec_add start) ∅ es !! sequence_number e).
Proof.
  intros He Hs. induction es as [|e' es IH] using rev_ind; [by apply elem_of_nil in He|].
  rewrite foldl_app. simpl. unfold spec_add at 1.
  apply elem_of_app in He as [He| ->%list_elem_of_singleton].
  - destruct (_ || _); [by apply IH|]. apply lookup_insert_is_Some'. right. by apply IH.
  - destruct (_ || _) eqn:Ec; [|apply lookup_insert_is_Some'; by left].
    apply orb_true_iff in Ec as [Hlt%Z.ltb_lt|Hk%bool_decide_eq_true]; [lia|done].
Qed.

Section write_path.
Context {A : AlloyRlp} {B : Brotli} {J : NitroJson} {JL : NitroJsonLaws J} {K : Crypto}.
Context (hash : BroadcastFeedMessage → Z → result B256 string).
Context {C : Type} {SD : Sender C BroadcastFeedMessage} {SL : SenderLaws SD}.

(** The closure, one round per message: enough when every message fits, and
    otherwise it does not return ([oversized_message_never_drained]). *)
Definition tx_ctor (namespace_id : Z) (msgs : list BroadcastFeedMessage) : list Transaction :=
  default [] (build_tx_fn (length msgs) namespace_id msgs).

(** The check the parser makes of a message. *)
Definition feed_verify (config : NitroConfig Address) : BroadcastFeedMessage → result unit string :=
  verify_broadcast_feed_message_signature hash (chain_id config) (trusted_sequencer_addresses (client (feed config))).

(** A transaction that carries these messages, at whatever height it is read. *)
Definition carries (config : NitroConfig Address) (tx : Transaction) (ms : list BroadcastFeedMessage) : Prop :=
  ∀ h, parse_transaction hash config h tx =
    (λ m, {| feed_message := m; entry_hotshot_height := h |}) <$> ms.

(** A message that can be read back and fits a payload. *)
Definition submittable (m : BroadcastFeedMessage) : Prop := wire_message m ∧ fits m.

Lemma tx_ctor_spec config ns msgs :
  Forall submittable msgs →
  Forall (λ tx, tx_namespace tx = ns ∧ zlen (payload tx) ≤ HOTSHOT_TX_PAYLOAD_MAX_SIZE) (tx_ctor ns msgs) ∧
  ∃ parsed, Forall2 (carries config) (tx_ctor ns msgs) parsed ∧ concat parsed = kept (feed_verify config) msgs.
Proof.
  intros [Hw Hf]%Forall_and. unfold tx_ctor.
  destruct (build_tx_fn_spec (feed_verify config) ns (length msgs) msgs) as (txes & -> & Hall & parsed & H2 & Hc); [done..|].
  split; [done|]. exists parsed. split; [|done]. eapply Forall2_impl; [exact H2|].
  intros tx ms Hp h. unfold parse_transaction. unfold feed_verify in Hp. by rewrite Hp.
Qed.

Lemma tx_ctor_batches config ns (bs : list (list BroadcastFeedMessage)) :
  Forall submittable (mjoin bs) →
  Forall (λ tx, tx_namespace tx = ns ∧ zlen (payload tx) ≤ HOTSHOT_TX_PAYLOAD_MAX_SIZE) (mjoin (tx_ctor ns <$> bs)) ∧
  ∃ parsed, Forall2 (carries config) (mjoin (tx_ctor ns <$> bs)) parsed ∧
    concat parsed = kept (feed_verify config) (mjoin bs).
Proof.
  induction bs as [|b bs IH]; intros Hf; csimpl.
  { split; [done|]. by exists []. }
  csimpl in Hf. apply Forall_app in Hf as [Hb Hbs].
  destruct (tx_ctor_spec config ns b Hb) as (H1 & p1 & F1 & C1).
  destruct (IH Hbs) as (H2 & p2 & F2 & C2). split; [by apply Forall_app|].
  exists (p1 ++ p2). split; [by apply Forall2_app|]. by rewrite concat_app, kept_app, C1, C2.
Qed.

Lemma carried_message config txs parsed m :
  Forall2 (carries config) txs parsed → m ∈ concat parsed → ∃ tx ms, tx ∈ txs ∧ carries config tx ms ∧ m ∈ ms.
Proof.
  induction 1 as [|tx ms txs parsed Hc HF IH]; simpl; [by intros ?%elem_of_nil|].
  intros [Hm|(tx' & ms' & ? & ? & ?)%IH]%elem_of_app; [exists tx, ms|exists tx', ms'];
    split_and!; try done; apply elem_of_cons; auto.
Qed.

(** A message of a transaction of the chain is parsed at its height. *)
Lemma included_message config chain a b tx ms m h :
  is_u64 a → is_u64 b → a ≤ h < b → tx ∈ chain h → carries config tx ms → m ∈ ms →
  {| feed_message := m; entry_hotshot_height := h |} ∈
    nitro_parse_hotshot_transactions hash config (chain_blocks chain a b) a.
Proof.
  intros Ha Hb Hh Htx Hc Hm.
  apply (elem_of_chain_range (R:=Nitro hash) chain config a b); [done|lia|done|].
  split; [done|]. split; [unfold is_u64 in *; simpl; lia|]. simpl. rewrite app_nil_r.
  apply list_elem_of_In, in_concat. exists (parse_transaction hash config h tx). split.
  - apply list_elem_of_In, list_elem_of_fmap. by exists tx.
  - rewrite (Hc h). apply list_elem_of_In, list_elem_of_fmap. by exists m.
Qed.

(** C30. From the submitter back to the streamer.  In every reachable state of the
    submitter, if the messages that arrived each fit a payload and the JSON (base
    fees of 64 bits), the transactions
    spawned, waiting and queued carry, in order and within the size limit, exactly
    the verified messages of the batches, and nothing of what arrived is missing.
    Once all is spawned and the transactions are in blocks the poller has passed,
    in whatever order, the streamer knows every such message from the start
    position on, at a height it was read from. *)
Theorem submitted_messages_indexed scfg s cfg rcfg c0 node chain inputs :
  submitter_reachable scfg (tx_ctor (namespace_id rcfg)) s → Forall submittable (enqueued s) →
  is_u64 (starting_hotshot_height cfg) →
  Forall (λ i, sane_height (poll_reader i) ∧ answers (poll_reader i) (namespace_id rcfg) chain) inputs →
  let start := starting_hotshot_height cfg in
  let out := poll_hotshot_blocks cfg (namespace_id rcfg) inputs (poller_init cfg start) in
  let known := view (streamer_of (run_events (R:=Nitro hash)
    (run_init (R:=Nitro hash) cfg rcfg 0 c0) (poller_events (R:=Nitro hash) node out.2))) in
  let txs := spawned s ++ acquiring (main s) ++ unsubmitted_txs s in
  Forall (λ tx, tx_namespace tx = namespace_id rcfg ∧ zlen (payload tx) ≤ HOTSHOT_TX_PAYLOAD_MAX_SIZE) txs ∧
  (∃ parsed, Forall2 (carries (stack rcfg)) txs parsed ∧
     concat parsed ++ kept (feed_verify (stack rcfg)) (unsubmitted_msgs s) = kept (feed_verify (stack rcfg)) (enqueued s)) ∧
  (txs = spawned s → unsubmitted_msgs s = [] →
   (∀ tx, tx ∈ spawned s → ∃ h, start ≤ h < from_block out.1 ∧ tx ∈ chain h) →
   ∀ m, m ∈ kept (feed_verify (stack rcfg)) (enqueued s) → starting_pos cfg ≤ msg_sequence_number m →
   ∃ h, known !! msg_sequence_number m = Some h ∧ start ≤ h < from_block out.1).
Proof.
  intros Hr Hf Hs Hin start out known txs.
  destruct (submitter_inv_reachable _ _ _ Hr) as [_ _ Htxs Hmsgs _].
  rewrite Hmsgs in Hf. apply Forall_app in Hf as [Hf _].
  destruct (tx_ctor_batches (stack rcfg) (namespace_id rcfg) (batches s) Hf) as (Hall & parsed & HF & Hc).
  rewrite Htxs in Hall, HF. fold txs in Hall, HF. split; [done|]. split.
  { exists parsed. split; [done|]. by rewrite Hc, Hmsgs, kept_app. }
  intros Hidle Hempty Hincl m Hm Hpos.
  rewrite Hmsgs, Hempty, app_nil_r, <- Hc in Hm. rewrite Hidle in HF.
  destruct (carried_message _ _ _ m HF Hm) as (tx & ms & Htx & Hcar & Hms).
  destruct (Hincl tx Htx) as (h & Hh & Hchain).
  pose proof (poll_tiles cfg _ chain inputs (poller_init cfg start) Hs Hin) as Ht.
  pose proof (pipeline_indexes_chain (R:=Nitro hash) cfg rcfg c0 node chain inputs Hs Hin) as Hp.
  cbv zeta in Hp. fold start in Hp. unfold known. clear known. subst out.
  destruct (poll_hotshot_blocks _ _ _ _) as [p sent]. simpl in Ht, Hh |- *. destruct Ht as (Hle & Hu64 & _).
  rewrite Hp.
  pose proof (included_message (stack rcfg) chain start (from_block p) tx ms m h Hs Hu64 Hh Hchain Hcar Hms) as He.
  destruct (index_complete (R:=Nitro hash) (starting_pos cfg) _ _ He Hpos) as [h' Hk]. exists h'. split; [exact Hk|].
  apply index_source in Hk as (_ & e & Hein & _ & Eh).
  apply (elem_of_chain_range (R:=Nitro hash) chain) in Hein as [Hr' _]; [|done|lia|done].
  by rewrite Eh in Hr'.
Qed.
End write_path.

(** ** A concrete run: two batches, whose transactions land in swapped order *)

Definition path_config : SubmitterConfig := {|
  max_in_flight := 2; finalization_wait_ms := 5000; sub_initial_backoff_ms := 100;
  sub_max_backoff_ms := 10000; max_finalization_poll_retries := 5 |}.

Definition path_actions : list (submitter_action (M:=BroadcastFeedMessage)) :=
  [Enqueue (signed_message 5); Enqueue (signed_message 6); LoopTurn; AcquirePermit;
   Enqueue (signed_message 7); LoopTurn; AcquirePermit; TaskAnswer 1 true].

Definition path_submitter : submitter_state (M:=BroadcastFeedMessage) (Tx:=Transaction) :=
  default (submitter_new path_config)
    (submitter_exec path_config (tx_ctor (J:=small_json) 1) path_actions (submitter_new path_config)).

Definition path_tx (msgs : list BroadcastFeedMessage) : Transaction :=
  {| tx_namespace := 1; payload := (build_espresso_tx_payload (J:=small_json) msgs).1 |}.

Definition path_tx1 : Transaction := path_tx [signed_message 5; signed_message 6].

Definition path_tx2 : Transaction := path_tx [signed_message 7].

Definition path_chain (h : Z) : list Transaction :=
  if h =? 901 then [path_tx2] else if h =? 902 then [path_tx1] else [].

Lemma path_spawned : spawned path_submitter = [path_tx1; path_tx2].
Proof. by vm_compute. Qed.

Definition path_inputs : list poll_input := mock_input <$> [failing_reader; chain_reader path_chain 904].

Definition path_known : gmap Z Z :=
  view (streamer_of (run_events (R:=SmallNitro) (SD:=small_sender)
    (run_init (R:=SmallNitro) (streamer service_cfg) (rollup service_cfg) 0 small_chan)
    (poller_events (R:=SmallNitro) failing_reader
       (poll_hotshot_blocks (streamer service_cfg) 1 path_inputs (poller_init (streamer service_cfg) 900)).2))).

Lemma submitted_messages_indexed_witness :
  length (spawned path_submitter) = 2%nat ∧
  ∃ h, path_known !! 6 = Some h ∧ 900 ≤ h < 904.
Proof.
  split; [by vm_compute|].
  destruct (submitted_messages_indexed (A:=concrete_rlp) (B:=stored_brotli) (JL:=small_json_laws) feed_hash
    (SD:=small_sender) (SL:=bounded_sender_laws)
    path_config path_submitter (streamer service_cfg) (rollup service_cfg) small_chan failing_reader
    path_chain path_inputs) as (_ & _ & H).
  - apply (submitter_exec_reachable path_config _ path_actions (submitter_new path_config)); [constructor|].
    by vm_compute.
  - repeat (apply Forall_cons; split; [split; [apply signed_message_wire; split; by vm_compute|intros b [= <-]; by vm_compute]|]).
    by apply Forall_nil.
  - split; by vm_compute.
  - apply Forall_cons. split; [split; by intros ?|]. apply Forall_cons. split; [|by apply Forall_nil].
    apply chain_reader_answers. split; by vm_compute.
  - destruct (H eq_refl eq_refl) with (m := signed_message 6) as (h & Hk & Hh).
    + intros tx. rewrite path_spawned. intros [->|[->|[]%elem_of_nil]%elem_of_cons]%elem_of_cons;
        [exists 902|exists 901]; (split; [by vm_compute|]); apply elem_of_cons; by left.
    + vm_compute. apply elem_of_cons. right. apply elem_of_cons. by left.
    + by vm_compute.
    + exists h. split; [exact Hk|]. by vm_compute in Hh.
Defined.
