(* ===== verification/KeyManager.v ===== *)
(** * The key manager

    [src/src/key_manager/key_manager.rs]: construction, registration of the
    ephemeral key with the TEE verifier contract, and the EIP-712 signature.
    The contract, the attestation device and the proving service are parameters
    that answer each call; the call trace records what was asked. *)

From S2P Require Import Prelude Bytes Config NitroTypes NitroPayload.

Inductive KmTeeType := KmNitro | KmTest.

#[export] Instance KmTeeType_eq_dec : EqDecision KmTeeType.
Proof. solve_decision. Defined.

(** [From<TeeType> for KmTeeType] *)
Definition km_tee_type (t : TeeType) : KmTeeType :=
  match t with TeeNitro => KmNitro | TeeTest => KmTest end.

(** The discriminant, [as u8]. *)
Definition tee_type_u8 (t : KmTeeType) : Z := match t with KmNitro => 0 | KmTest => 1 end.

Inductive KeyManagerError :=
| InvalidConfig (msg : string)
| EmptyAttestation (t : KmTeeType)
| EmptyJournal (t : KmTeeType)
| EmptyProof (t : KmTeeType)
| AttestationRetrievalFailed (msg : string)
| ZkProofGenerationFailed (msg : string)
| OnChainVerificationFailed (msg : string)
| PreparationExhausted (attempts : Z) (signer_addr : Address)
| RegistrationExhausted (attempts : Z) (signer_addr : Address)
| SigningFailed (msg : string).

(** [PrivateKeySigner] and what is asked of it, and the EIP-712 hash of the typed
    data with domain name and version fixed. *)
Class Signer := {
  PrivateKeySigner : Type;
  signer_address : PrivateKeySigner → Address;
  public_key_uncompressed : PrivateKeySigner → bytes;
  sign_hash_sync : PrivateKeySigner → B256 → result bytes string;
  eip712_signing_hash : B256 → Z → Address → B256;
  Signature : Type;
  Signature_try_from : bytes → result Signature string;
  recover_from_prehash : Signature → B256 → result Address string;
}.

(** A signature is 65 bytes and recovers to the signer's address. *)
Class SignerLaws (S : Signer) : Prop := {
  sign_recovers k h sig :
    sign_hash_sync k h = Ok sig →
    length sig = 65%nat ∧
    ∃ s, Signature_try_from sig = Ok s ∧ recover_from_prehash s h = Ok (signer_address k);
}.

(** The answers of the outside world, by call number. *)
Record tee_world := {
  get_attestation : nat → bytes → result bytes string;
  generate_zk_proof : nat → bytes → result (bytes * bytes) string;
  register_service : nat → bytes → bytes → Z → result unit string;
  registered_services : nat → Address → KmTeeType → result bool string;
  encode_mock_verifier_journal : bytes → bytes;
}.

Section key_manager.
Context {S : Signer} {K : Crypto}.
Open Scope cas_scope.

Record KeyManager := {
  max_register_attempts : Z;
  tee_type : KmTeeType;
  signer : PrivateKeySigner;
  parent_chain_id : Z;
  tee_verifier_address : Address;
}.

Definition new_with_attestation_provider (max_register_attempts : Z) (tee_type : KmTeeType)
    (parent_chain_id : Z) (tee_verifier_address : Address) (signer : PrivateKeySigner)
    : result KeyManager KeyManagerError :=
  if max_register_attempts =? 0 then
    Err (InvalidConfig "max_register_attempts must be greater than 0")
  else if 10 <? max_register_attempts then
    Err (InvalidConfig "max_register_attempts must be less than or equal to 10 to prevent excessive retries")
  else Ok {| max_register_attempts := max_register_attempts; tee_type := tee_type; signer := signer;
             parent_chain_id := parent_chain_id; tee_verifier_address := tee_verifier_address |}.

Definition on_chain_tee_type (km : KeyManager) : KmTeeType :=
  match tee_type km with KmTest => KmNitro | other => other end.

(** *** Signing *)

Definition compute_cas_signing_hash (message : bytes) (parent_chain_id : Z) (verifier_address : Address) : B256 :=
  eip712_signing_hash (keccak256 message) parent_chain_id verifier_address.

Definition sign_typed_message (message : bytes) (signer : PrivateKeySigner) (parent_chain_id : Z)
    (verifier_address : Address) : result bytes KeyManagerError :=
  map_err SigningFailed
    (sign_hash_sync signer (compute_cas_signing_hash message parent_chain_id verifier_address)).

Definition sign_message (km : KeyManager) (message : bytes) : result bytes KeyManagerError :=
  sign_typed_message message (signer km) (parent_chain_id km) (tee_verifier_address km).

(** *** Registration *)

Context (w : tee_world).

(** The calls made, in order; a question to the contract is recorded with the
    address and the type asked about and the answer given. *)
Inductive km_call :=
| CallRegistered (addr : Address) (tee : KmTeeType) (answer : result bool string)
| CallPrepare
| CallRegister (journal proof : bytes) (tee : Z).

Definition verify_registration_on_chain (km : KeyManager) (n : nat) : result bool KeyManagerError * km_call :=
  let addr := signer_address (signer km) in
  let answer := registered_services w n addr (on_chain_tee_type km) in
  (map_err OnChainVerificationFailed answer, CallRegistered addr (on_chain_tee_type km) answer).

(** The [n]-th preparation. *)
Definition prepare_register_service (km : KeyManager) (n : nat) : result (bytes * bytes) KeyManagerError :=
  let pub_key_bytes := public_key_uncompressed (signer km) in
  if decide (tee_type km = KmTest) then Ok (encode_mock_verifier_journal w pub_key_bytes, [])
  else
    let? attestation := map_err AttestationRetrievalFailed (get_attestation w n pub_key_bytes) in
    if decide (attestation = []) then Err (EmptyAttestation (tee_type km))
    else
      let? '(journal_bytes, proof_bytes) :=
        map_err ZkProofGenerationFailed (generate_zk_proof w n attestation) in
      if decide (journal_bytes = []) then Err (EmptyJournal (tee_type km))
      else if decide (proof_bytes = []) then Err (EmptyProof (tee_type km))
      else Ok (journal_bytes, proof_bytes).

(** The first loop: up to [left] preparations, the first that succeeds. *)
Fixpoint prepare_loop (km : KeyManager) (left n : nat) : option (bytes * bytes) * list km_call :=
  match left with
  | O => (None, [])
  | Datatypes.S left' =>
      match prepare_register_service km n with
      | Ok data => (Some data, [CallPrepare])
      | Err _ => let '(r, calls) := prepare_loop km left' (Datatypes.S n) in (r, CallPrepare :: calls)
      end
  end.

(** The second loop: up to [left] registrations, each checked on chain; [Ok false]
    is the end of the loop. *)
Fixpoint register_loop (km : KeyManager) (journal proof : bytes) (left n : nat)
    : result bool KeyManagerError * list km_call :=
  match left with
  | O => (Ok false, [])
  | Datatypes.S left' =>
      let call := CallRegister journal proof (tee_type_u8 (on_chain_tee_type km)) in
      let continue_ calls :=
        let '(r, cs) := register_loop km journal proof left' (Datatypes.S n) in (r, calls ++ cs) in
      match register_service w n journal proof (tee_type_u8 (on_chain_tee_type km)) with
      | Err _ => continue_ [call]
      | Ok _ =>
          let '(registered, asked) := verify_registration_on_chain km n in
          match registered with
          | Err e => (Err e, [call; asked])
          | Ok true => (Ok true, [call; asked])
          | Ok false => continue_ [call; asked]
          end
      end
  end.

Definition initialize (km : KeyManager) : result unit KeyManagerError * list km_call :=
  let attempts := Z.to_nat (max_register_attempts km) in
  let '(registered, asked) := verify_registration_on_chain km 0 in
  match registered with
  | Err e => (Err e, [asked])
  | Ok true => (Ok tt, [asked])
  | Ok false =>
      let '(data, prep) := prepare_loop km attempts 1 in
      match data with
      | None => (Err (PreparationExhausted (max_register_attempts km) (signer_address (signer km))),
                 asked :: prep)
      | Some (journal, proof) =>
          let '(r, reg) := register_loop km journal proof attempts 1 in
          (match r with
           | Err e => Err e
           | Ok true => Ok tt
           | Ok false => Err (RegistrationExhausted (max_register_attempts km) (signer_address (signer km)))
           end, asked :: prep ++ reg)
      end
  end.

End key_manager.

(** ** Properties *)

Section properties.
Context {S : Signer} {K : Crypto} (w : tee_world).
Implicit Types (km : KeyManager).

(** The contract says that the address of this key manager's key is registered. *)
Definition confirmed (km : KeyManager) : km_call :=
  CallRegistered (signer_address (signer km)) (on_chain_tee_type km) (Ok true).

Definition is_register (c : km_call) : bool := match c with CallRegister _ _ _ => true | _ => false end.
Definition is_prepare (c : km_call) : bool := match c with CallPrepare => true | _ => false end.

Definition registers (calls : list km_call) : nat := length (filter is_register calls).
Definition prepares (calls : list km_call) : nat := length (filter is_prepare calls).

Lemma registers_app a b : registers (a ++ b) = (registers a + registers b)%nat.
Proof. unfold registers. by rewrite filter_app, length_app. Qed.

Lemma prepares_app a b : prepares (a ++ b) = (prepares a + prepares b)%nat.
Proof. unfold prepares. by rewrite filter_app, length_app. Qed.

Lemma prepare_loop_spec km left n :
  let '(r, calls) := prepare_loop w km left n in
  registers calls = 0%nat ∧ (prepares calls ≤ left)%nat ∧ length calls = prepares calls ∧
  (r = None ↔ ∀ i, (i < left)%nat → ∃ e, prepare_register_service w km (n + i) = Err e).
Proof.
  revert n. induction left as [|left IH]; intros n; simpl.
  { split_and!; try done. split; [|done]. intros _ i Hi. lia. }
  destruct (prepare_register_service w km n) as [data|e] eqn:E.
  - split_and!; try done; [unfold prepares; simpl; lia|]. split; [done|]. intros H.
    destruct (H 0%nat) as [e He]; [lia|]. rewrite Nat.add_0_r in He. congruence.
  - specialize (IH (Datatypes.S n)). destruct (prepare_loop w km left (Datatypes.S n)) as [r calls].
    destruct IH as (H1 & H2 & H3 & H4).
    change (CallPrepare :: calls) with ([CallPrepare] ++ calls).
    rewrite registers_app, prepares_app, length_app, H1, H3. unfold registers at 1, prepares at 1 3. simpl.
    split_and!; [done|lia|done|]. rewrite H4. split.
    + intros H [|i] Hi; [rewrite Nat.add_0_r; eauto|].
      rewrite Nat.add_succ_r. apply (H i). lia.
    + intros H i Hi. replace (Datatypes.S n + i)%nat with (n + Datatypes.S i)%nat by lia. apply H. lia.
Qed.

Lemma prepare_loop_Some km left n data calls :
  prepare_loop w km left n = (Some data, calls) → ∃ n', prepare_register_service w km n' = Ok data.
Proof.
  revert n calls. induction left as [|left IH]; intros n calls; simpl; [done|].
  destruct (prepare_register_service w km n) as [data'|e] eqn:E; [intros [= <- _]; eauto|].
  destruct (prepare_loop w km left (Datatypes.S n)) as [r cs] eqn:El. intros [= -> _]. by eapply IH.
Qed.

Lemma register_loop_spec km journal proof left n :
  let '(r, calls) := register_loop w km journal proof left n in
  (registers calls ≤ left)%nat ∧ prepares calls = 0%nat ∧
  (r = Ok true → last calls = Some (confirmed km) ∧
                 CallRegister journal proof (tee_type_u8 (on_chain_tee_type km)) ∈ calls).
Proof.
  revert n. induction left as [|left IH]; intros n; simpl; [done|].
  specialize (IH (Datatypes.S n)).
  destruct (register_loop w km journal proof left (Datatypes.S n)) as [r' calls'].
  destruct IH as (H1 & H2 & H3).
  assert (Hcont : ∀ pre, registers pre = 1%nat → prepares pre = 0%nat →
    (registers (pre ++ calls') ≤ Datatypes.S left)%nat ∧ prepares (pre ++ calls') = 0%nat ∧
    (r' = Ok true → last (pre ++ calls') = Some (confirmed km) ∧
       CallRegister journal proof (tee_type_u8 (on_chain_tee_type km)) ∈ pre ++ calls')).
  { intros pre Hr Hp. rewrite registers_app, prepares_app, Hr, Hp. split_and!; [lia|done|].
    intros [E Hin]%H3. rewrite last_app, E. split; [done|]. apply elem_of_app. by right. }
  destruct (register_service _ _ _ _ _) as [[]|e]; [|by apply (Hcont [_])].
  unfold verify_registration_on_chain.
  destruct (registered_services _ _ _ _) as [[]|e]; simpl.
  - split_and!; [unfold registers; simpl; lia|done|]. intros _. split; [done|]. set_solver.
  - by apply (Hcont [_; _]).
  - split_and!; [unfold registers; simpl; lia|done|done].
Qed.

Lemma register_loop_error km journal proof left n e :
  (register_loop w km journal proof left n).1 = Err e → ∃ m, e = OnChainVerificationFailed m.
Proof.
  revert n. induction left as [|left IH]; intros n; simpl; [done|]. specialize (IH (Datatypes.S n)).
  destruct (register_loop w km journal proof left (Datatypes.S n)) as [r calls]. simpl in IH.
  destruct (register_service _ _ _ _ _); [|exact IH].
  unfold verify_registration_on_chain. destruct (registered_services _ _ _ _) as [[]|m]; simpl; [done|exact IH|].
  intros [= <-]. eauto.
Qed.

(** A successful [initialize] ends with the contract's confirmation. *)
Lemma initialize_last km :
  (initialize w km).1 = Ok tt → last (initialize w km).2 = Some (confirmed km).
Proof.
  unfold initialize, verify_registration_on_chain.
  destruct (registered_services w 0 _ _) as [[]|e] eqn:E0; simpl; [done| |done].
  destruct (prepare_loop w km _ 1) as [[[journal proof]|] prep]; [|done].
  pose proof (register_loop_spec km journal proof (Z.to_nat (max_register_attempts km)) 1) as Hreg.
  destruct (register_loop w km journal proof _ 1) as [[[]|] reg]; simpl; [|done|done].
  destruct Hreg as (_ & _ & [Hl _]); [done|]. intros _. by rewrite last_cons, last_app, Hl.
Qed.

(** The service starts only with a confirmed key: if [initialize] succeeds,
    the last thing that happened is the contract answering that the signer is
    registered; if it was registered from the start nothing is registered again,
    otherwise a registration with the prepared journal and proof was sent. *)
Theorem initialize_confirmed km calls :
  initialize w km = (Ok tt, calls) →
  last calls = Some (confirmed km) ∧
  (registered_services w 0 (signer_address (signer km)) (on_chain_tee_type km) = Ok true ∧ registers calls = 0%nat ∨
   ∃ n journal proof, prepare_register_service w km n = Ok (journal, proof) ∧
     CallRegister journal proof (tee_type_u8 (on_chain_tee_type km)) ∈ calls).
Proof.
  unfold initialize, verify_registration_on_chain.
  destruct (registered_services w 0 _ _) as [[]|e] eqn:E0; simpl; [| |done].
  { intros [= <-]. split; [done|]. by left. }
  pose proof (prepare_loop_spec km (Z.to_nat (max_register_attempts km)) 1) as Hprep.
  destruct (prepare_loop w km _ 1) as [[[journal proof]|] prep] eqn:Ep; [|done].
  pose proof (register_loop_spec km journal proof (Z.to_nat (max_register_attempts km)) 1) as Hreg.
  destruct (register_loop w km journal proof _ 1) as [[[]|] reg]; simpl; [|done|done].
  intros [= <-]. destruct Hreg as (_ & _ & [Hl Hin]); [done|]. split.
  - rewrite last_cons, last_app, Hl. done.
  - right. apply prepare_loop_Some in Ep as [n Hn]. exists n, journal, proof. split; [done|]. set_solver.
Qed.

(** Registration is bounded and exhaustive: at most [max_register_attempts]
    preparations and as many registrations, which is at most ten of each for a
    key manager that was constructed, and preparation is given up only when every
    attempt failed. *)
Theorem initialize_bounded attempts tee chain verifier key km :
  new_with_attestation_provider attempts tee chain verifier key = Ok km → is_u64 attempts →
  (prepares (initialize w km).2 ≤ Z.to_nat attempts ≤ 10)%nat ∧
  (registers (initialize w km).2 ≤ Z.to_nat attempts)%nat ∧
  ∀ a s, (initialize w km).1 = Err (PreparationExhausted a s) →
    ∀ i, (1 ≤ i ≤ Z.to_nat attempts)%nat → ∃ e, prepare_register_service w km i = Err e.
Proof.
  unfold new_with_attestation_provider. intros Hnew Hu.
  destruct (Z.eqb_spec attempts 0); [done|]. destruct (Z.ltb_spec 10 attempts); [done|].
  injection Hnew as <-. unfold is_u64 in Hu.
  match goal with |- context [initialize w ?k] => set (km := k) end.
  assert (Ha : max_register_attempts km = attempts) by done.
  unfold initialize, verify_registration_on_chain. rewrite Ha.
  destruct (registered_services w 0 _ _) as [[]|e]; simpl;
    [split_and!; try done; unfold prepares, registers; simpl; lia| |
     split_and!; try done; unfold prepares, registers; simpl; lia].
  pose proof (prepare_loop_spec km (Z.to_nat attempts) 1) as Hprep.
  destruct (prepare_loop w km _ 1) as [[[journal proof]|] prep]; destruct Hprep as (Hr & Hp & _ & Hnone).
  - pose proof (register_loop_spec km journal proof (Z.to_nat attempts) 1) as Hreg.
    destruct (register_loop w km journal proof _ 1) as [r reg] eqn:Ereg. destruct Hreg as (H1 & H2 & _). simpl.
    match goal with |- context [?c :: prep ++ reg] => change (c :: prep ++ reg) with ([c] ++ prep ++ reg) end.
    rewrite !prepares_app, !registers_app, H2, Hr. unfold prepares at 1, registers at 1. simpl.
    split_and!; [lia|lia|lia|]. intros a s Herr. destruct r as [[]|e']; [done|done|]. 
    injection Herr as ->. by destruct (register_loop_error km journal proof (Z.to_nat attempts) 1
      (PreparationExhausted a s)) as [m ?]; [rewrite Ereg|].
  - simpl. match goal with |- context [?c :: prep] => change (c :: prep) with ([c] ++ prep) end.
    rewrite !prepares_app, !registers_app, Hr. unfold prepares at 1, registers at 1. simpl.
    split_and!; [lia|lia|lia|]. intros a s _ i Hi. destruct (proj1 Hnone eq_refl (i - 1)%nat) as [e He]; [lia|].
    replace (1 + (i - 1))%nat with i in He by lia. eauto.
Qed.
End properties.

(** ** Concrete parameters: a key is a byte, a signature carries it and the hash. *)

Definition pad32 (h : bytes) : bytes := take 32 (h ++ replicate 32 Byte.x00).

#[export] Instance toy_signer : Signer := {|
  PrivateKeySigner := u8;
  signer_address k := replicate 20 k;
  public_key_uncompressed k := replicate 65 k;
  sign_hash_sync k h := Ok (k :: pad32 h ++ replicate 32 Byte.x00);
  eip712_signing_hash c chain a := pad32 (take 16 c ++ to_be_bytes 8 chain ++ take 8 a);
  Signature := bytes;
  Signature_try_from b := if (length b =? 65)%nat then Ok b else Err "length";
  recover_from_prehash s h :=
    match s with
    | k :: rest => if bytes_eqb (take 32 rest) (pad32 h) then Ok (replicate 20 k) else Err "no key"
    | [] => Err "empty"
    end;
|}.

Lemma length_pad32 h : length (pad32 h) = 32%nat.
Proof. unfold pad32. rewrite length_take, length_app, length_replicate. lia. Qed.

#[export] Instance toy_signer_laws : SignerLaws toy_signer.
Proof.
  split. intros k h sig Hs. set (z := replicate 32 Byte.x00).
  assert (sig = k :: pad32 h ++ z) as ->.
  { change (@Ok bytes string (k :: pad32 h ++ z) = Ok sig) in Hs. by inversion Hs. }
  assert (Hl : length (pad32 h ++ z) = 64%nat).
  { rewrite length_app, length_pad32. unfold z. by rewrite length_replicate. }
  split; [by rewrite length_cons, Hl|]. exists (k :: pad32 h ++ z).
  unfold Signature_try_from, recover_from_prehash, toy_signer. rewrite length_cons, Hl. split; [done|].
  rewrite (take_app_length' (pad32 h) z 32) by (by rewrite length_pad32).
  unfold bytes_eqb. by rewrite bool_decide_eq_true_2.
Qed.

(** A contract that knows the key from the second registration on, with one
    failed preparation before. *)
Definition toy_world : tee_world := {|
  get_attestation n _ := if (n =? 1)%nat then Err "device busy" else Ok [Byte.x01];
  generate_zk_proof _ _ := Ok ([Byte.x02], [Byte.x03]);
  register_service n _ _ _ := if (n =? 1)%nat then Err "nonce" else Ok tt;
  registered_services n _ _ := Ok (1 <? n)%nat;
  encode_mock_verifier_journal b := b;
|}.

Definition toy_km : KeyManager :=
  {| max_register_attempts := 3; tee_type := KmNitro; signer := Byte.x2a; parent_chain_id := 1;
     tee_verifier_address := replicate 20 Byte.x07 |}.

Lemma initialize_confirmed_witness :
  let calls := (initialize toy_world toy_km).2 in
  registers calls = 2%nat ∧
  last calls = Some (CallRegistered (replicate 20 Byte.x2a) KmNitro (Ok true)) ∧
  (registered_services toy_world 0 (replicate 20 Byte.x2a) KmNitro = Ok true ∧ registers calls = 0%nat ∨
   ∃ n journal proof, prepare_register_service toy_world toy_km n = Ok (journal, proof) ∧
     CallRegister journal proof 0 ∈ calls).
Proof.
  intros calls. split; [by vm_compute|].
  apply (initialize_confirmed (S:=toy_signer) toy_world toy_km calls). by vm_compute.
Defined.

Lemma initialize_bounded_witness :
  (prepares (initialize toy_world toy_km).2 ≤ 3 ≤ 10)%nat ∧ (registers (initialize toy_world toy_km).2 ≤ 3)%nat.
Proof.
  destruct (initialize_bounded (S:=toy_signer) toy_world 3 KmNitro 1 (replicate 20 Byte.x07) Byte.x2a toy_km) as (H1 & H2 & _).
  - done.
  - split; by vm_compute.
  - split; [exact H1|exact H2].
Defined.
