(* ===== verification/Attestation.v ===== *)
(** * Attestation and the TEE verifier contract

    [src/src/key_manager/attestation_client.rs], [tee_verifier.rs],
    [test_utils.rs] and the attestation device of [key_manager.rs]: the three
    services behind a key manager, and how [main] puts them together.  The device,
    the proving service and the contract answer by call number. *)

From S2P Require Import Prelude Bytes Config NitroTypes NitroPayload FeedClient EspressoClient KeyManager.

(** ** What is outside *)

(** [nsm_api::Response]; any other response is kept as its text. *)
Inductive NsmResponse :=
| RespAttestation (document : bytes)
| RespError (err : string)
| RespOther (text : string).

Record OnchainProofResponse := {
  raw_proof_journal : string;
  onchain_proof : string;
}.

(** [mock_journal::VerifierJournal]; the certificate hashes and PCRs are byte
    strings. *)
Record VerifierJournal := {
  vj_result : Z;
  trustedCertsPrefixLen : Z;
  vj_timestamp : Z;
  vj_certs : list bytes;
  userData : bytes;
  nonce : bytes;
  publicKey : bytes;
  vj_pcrs : list (Z * bytes);
  moduleId : string;
}.

(** The device, [reqwest], [serde_json], [hex], [alloy]'s ABI encoding and
    contract calls.  Reading the body of an answer may fail on its own. *)
Class Outside (S : Signer) := {
  nsm_init : nat → Z;
  nsm_process_request : nat → Z → bytes → NsmResponse;
  client_build : Z → result unit string;
  join_url : string → string → result string string;
  post_octets : nat → string → bytes → result (Z * result bytes string) string;
  utf8_lossy : bytes → string;
  proof_from_slice : bytes → result OnchainProofResponse string;
  hex_decode : string → result bytes string;
  abi_encode_journal : VerifierJournal → bytes;
  PendingTransaction : Type;
  send_registerService :
    nat → string → Address → PrivateKeySigner → bytes → bytes → Z → result PendingTransaction string;
  watch : PendingTransaction → result unit string;
  call_isSignerValid : nat → string → Address → Address → Z → result bool string;
}.

(** [str::strip_prefix]. *)
Fixpoint strip_prefix (prefix s : string) : option string :=
  match prefix, s with
  | EmptyString, _ => Some s
  | String.String a prefix', String.String b s' => if Ascii.eqb a b then strip_prefix prefix' s' else None
  | _, _ => None
  end.

Definition strip_hex_prefix (s : string) : string :=
  match strip_prefix "0x" s with
  | Some s' => s'
  | None => match strip_prefix "0X" s with Some s' => s' | None => s end
  end.

Section services.
Context {S : Signer} {O : Outside S}.
Open Scope cas_scope.

(** ** The three interfaces *)

Record EspressoTEEVerifier := {
  tv_register_service : nat → bytes → bytes → Z → result unit string;
  tv_registered_services : nat → Address → KmTeeType → result bool string;
}.

Definition AttestationVerifierClient : Type := nat → bytes → result (bytes * bytes) string.

Definition AttestationProvider : Type := nat → bytes → result bytes string.

(** [NsmAttestationProvider::get_attestation]: the device is closed whatever it
    answers. *)
Definition NsmAttestationProvider : AttestationProvider := λ n pub_key,
  let fd := nsm_init n in
  if fd <? 0 then Err "failed to open NSM session"%string
  else
    match nsm_process_request n fd pub_key with
    | RespAttestation document =>
        if decide (document = []) then Err "no attestation document returned"%string else Ok document
    | RespError err => Err ("NSM returned error: " +:+ err)
    | RespOther other => Err ("unexpected NSM response: " +:+ other)
    end.

Definition NoOpAttestationProvider : AttestationProvider := λ _ pub_key, Ok pub_key.

Definition NoOpAttestationClient : AttestationVerifierClient := λ _ _, Ok ([], []).

Definition NoOpTeeVerifier : EspressoTEEVerifier := {|
  tv_register_service _ _ _ _ := Ok tt;
  tv_registered_services _ _ _ := Ok true;
|}.

(** *** The proving service *)

Record HttpAttestationVerifierClient := { prover_base_url : string; }.

Definition HttpAttestationVerifierClient_new (base_url : string) (timeout_secs : Z)
    : result HttpAttestationVerifierClient string :=
  let? _ := client_build timeout_secs in Ok {| prover_base_url := base_url |}.

Definition http_generate_zk_proof (c : HttpAttestationVerifierClient) : AttestationVerifierClient := λ n attestation,
  let? url := map_err (λ e, "failed to construct generate_proof URL: " +:+ e)
                (join_url (prover_base_url c) "generate_proof") in
  let? '(status, body) := post_octets n url attestation in
  let? response_data := body in
  if negb (is_success status) then
    Err ("attestation service returned status " +:+ u64_to_string status +:+ ": " +:+ utf8_lossy response_data)
  else
    let? zk_proof := proof_from_slice response_data in
    let? journal_bytes := map_err (λ e, "failed to decode journal hex string: " +:+ e)
                            (hex_decode (strip_hex_prefix (raw_proof_journal zk_proof))) in
    let? onchain_proof_bytes := map_err (λ e, "failed to decode onchain proof hex string: " +:+ e)
                                  (hex_decode (strip_hex_prefix (onchain_proof zk_proof))) in
    Ok (journal_bytes, onchain_proof_bytes).

(** *** The contract *)

Record TEEVerifier := {
  rpc_url : string;
  contract_address : Address;
  operator_signer : PrivateKeySigner;
}.

Definition TEEVerifier_register_service (v : TEEVerifier) (n : nat) (verification_data data : bytes) (tee_type : Z)
    : result unit string :=
  let? pending := send_registerService n (rpc_url v) (contract_address v) (operator_signer v)
                    verification_data data tee_type in
  let? _ := watch pending in Ok tt.

Definition TEEVerifier_registered_services (v : TEEVerifier) (n : nat) (addr : Address) (t : KmTeeType)
    : result bool string :=
  call_isSignerValid n (rpc_url v) (contract_address v) addr (tee_type_u8 t).

Definition TEEVerifier_dyn (v : TEEVerifier) : EspressoTEEVerifier := {|
  tv_register_service := TEEVerifier_register_service v;
  tv_registered_services := TEEVerifier_registered_services v;
|}.

(** *** The key manager's constructors *)

Definition mock_verifier_journal (pub_key : bytes) : VerifierJournal := {|
  vj_result := 0; trustedCertsPrefixLen := 0; vj_timestamp := 0; vj_certs := []; userData := []; nonce := [];
  publicKey := pub_key; vj_pcrs := []; moduleId := EmptyString |}.

(** The services a key manager holds, as the world its registration runs in. *)
Definition services (tv : EspressoTEEVerifier) (client : AttestationVerifierClient) (provider : AttestationProvider)
    : tee_world := {|
  get_attestation := provider;
  generate_zk_proof := client;
  register_service := tv_register_service tv;
  registered_services := tv_registered_services tv;
  encode_mock_verifier_journal pub_key := abi_encode_journal (mock_verifier_journal pub_key);
|}.

Definition KeyManager_new (tv : EspressoTEEVerifier) (client : AttestationVerifierClient) (max_attempts : Z)
    (tee : KmTeeType) (chain : Z) (verifier : Address) (key : PrivateKeySigner)
    : result (KeyManager * tee_world) KeyManagerError :=
  let? km := new_with_attestation_provider max_attempts tee chain verifier key in
  Ok (km, services tv client NsmAttestationProvider).

(** [new_for_test]; [key] is the random key it draws. *)
Definition KeyManager_new_for_test (tv : EspressoTEEVerifier) (max_attempts chain : Z) (verifier : Address)
    (key : PrivateKeySigner) : result (KeyManager * tee_world) KeyManagerError :=
  let? km := new_with_attestation_provider max_attempts KmTest chain verifier key in
  Ok (km, services tv NoOpAttestationClient NoOpAttestationProvider).

(** The two errors [main] may stop with here. *)
Inductive StartError :=
| StartClient (msg : string)
| StartKeyManager (e : KeyManagerError).

(** [main]: the key manager of the service, with the operator's key for
    transactions and a fresh key to be attested. *)
Definition build_key_manager (config : KeyManagerConfig Address) (l1_http_url : string) (operator key : PrivateKeySigner)
    (parent_chain : Z) : result (KeyManager * tee_world) StartError :=
  let tee_verifier := TEEVerifier_dyn {| rpc_url := l1_http_url; contract_address := tee_verifier_address_cfg config;
                                         operator_signer := operator |} in
  if decide (tee_type_cfg config = TeeTest) then
    map_err StartKeyManager
      (KeyManager_new_for_test tee_verifier (max_register_attempts_cfg config) parent_chain
         (tee_verifier_address_cfg config) key)
  else
    let? client := map_err StartClient
      (HttpAttestationVerifierClient_new (attestation_verifier_url config) (attestation_client_timeout_secs config)) in
    map_err StartKeyManager
      (KeyManager_new tee_verifier (http_generate_zk_proof client) (max_register_attempts_cfg config)
         (km_tee_type (tee_type_cfg config)) parent_chain (tee_verifier_address_cfg config) key).
End services.

(** ** Properties *)

(** A prefix is stripped once. *)
Lemma strip_prefix_append p s : strip_prefix p (p +:+ s) = Some s.
Proof. induction p as [|c p IH]; [done|]. simpl. by rewrite Ascii.eqb_refl. Qed.

Lemma strip_hex_prefix_0x s : strip_hex_prefix ("0x" +:+ s) = s ∧ strip_hex_prefix ("0X" +:+ s) = s.
Proof. done. Qed.

Section chain_of_custody.
Context {S : Signer} {K : Crypto} {O : Outside S}.

(** A journal and a proof come from the proving service's answer to an attestation
    document of the device for the public key of [key]. *)
Definition attested (base_url : string) (key : PrivateKeySigner) (journal proof : bytes) : Prop :=
  ∃ n document url status body response,
    nsm_process_request n (nsm_init n) (public_key_uncompressed key) = RespAttestation document ∧
    0 ≤ nsm_init n ∧ document ≠ [] ∧
    join_url base_url "generate_proof" = Ok url ∧ post_octets n url document = Ok (status, Ok body) ∧
    is_success status = true ∧ proof_from_slice body = Ok response ∧
    hex_decode (strip_hex_prefix (raw_proof_journal response)) = Ok journal ∧
    hex_decode (strip_hex_prefix (onchain_proof response)) = Ok proof ∧ journal ≠ [] ∧ proof ≠ [].

Lemma http_generate_zk_proof_ok c n attestation journal proof :
  http_generate_zk_proof c n attestation = Ok (journal, proof) →
  ∃ url status body response,
    join_url (prover_base_url c) "generate_proof" = Ok url ∧ post_octets n url attestation = Ok (status, Ok body) ∧
    is_success status = true ∧ proof_from_slice body = Ok response ∧
    hex_decode (strip_hex_prefix (raw_proof_journal response)) = Ok journal ∧
    hex_decode (strip_hex_prefix (onchain_proof response)) = Ok proof.
Proof.
  unfold http_generate_zk_proof. intros H.
  destruct (join_url _ _) as [url|]; [|done]. simpl in H.
  destruct (post_octets n url attestation) as [[status [body|]]|] eqn:Ep; [|done|done]. simpl in H.
  destruct (is_success status) eqn:Es; [|done]. simpl in H.
  destruct (proof_from_slice body) as [response|] eqn:Er; [|done].
  destruct (hex_decode (strip_hex_prefix (raw_proof_journal response))) as [j|] eqn:Ej; [|done]. simpl in H.
  destruct (hex_decode (strip_hex_prefix (onchain_proof response))) as [p|] eqn:Epr; [|done]. simpl in H.
  simplify_eq. eauto 15.
Qed.

Lemma nsm_attestation_ok n pub_key document :
  NsmAttestationProvider n pub_key = Ok document →
  nsm_process_request n (nsm_init n) pub_key = RespAttestation document ∧ 0 ≤ nsm_init n ∧ document ≠ [].
Proof.
  unfold NsmAttestationProvider. destruct (Z.ltb_spec (nsm_init n) 0); [done|].
  destruct (nsm_process_request _ _ _); [|done|done]. case_decide; [done|]. intros [= ->]. done.
Qed.

Lemma prepare_attested tv c km n journal proof :
  tee_type km = KmNitro →
  prepare_register_service (services tv (http_generate_zk_proof c) NsmAttestationProvider) km n =
    Ok (journal, proof) →
  attested (prover_base_url c) (signer km) journal proof.
Proof.
  intros Ht. unfold prepare_register_service. rewrite decide_False by (by rewrite Ht). simpl. intros H.
  destruct (NsmAttestationProvider n _) as [document|] eqn:Ed; [|done]. simpl in H.
  apply nsm_attestation_ok in Ed as (Hd & Hi & Hne). rewrite decide_False in H by done.
  destruct (http_generate_zk_proof c n document) as [[j p]|] eqn:Eg; [|done]. simpl in H.
  apply http_generate_zk_proof_ok in Eg as (url & status & body & response & ?).
  repeat (case_decide; [done|]). simplify_eq. destruct_and!.
  exists n, document, url, status, body, response. by split_and!.
Qed.

(** Every answer in the trace was given by the contract, and every registration
    carries one prepared pair. *)
Lemma register_loop_calls w km journal proof left n call :
  call ∈ (register_loop w km journal proof left n).2 →
  match call with
  | CallRegistered addr tee a => addr = signer_address (signer km) ∧ tee = on_chain_tee_type km ∧
      ∃ i, registered_services w i addr tee = a
  | CallRegister j p t => j = journal ∧ p = proof ∧ t = tee_type_u8 (on_chain_tee_type km)
  | CallPrepare => False
  end.
Proof.
  revert n. induction left as [|left IH]; intros n; simpl; [by intros ?%elem_of_nil|].
  specialize (IH (Datatypes.S n)).
  destruct (register_loop w km journal proof left (Datatypes.S n)) as [r' calls']. simpl in IH.
  unfold verify_registration_on_chain.
  destruct (register_service w n journal proof _); [destruct (registered_services w n _ _) as [[]|] eqn:E|]; simpl.
  all: intros Hin; repeat (apply elem_of_cons in Hin as [-> |Hin]; [by eauto|]).
  all: first [by apply elem_of_nil in Hin|by apply IH].
Qed.

Lemma initialize_calls w km call :
  call ∈ (initialize w km).2 →
  match call with
  | CallRegistered addr tee a => addr = signer_address (signer km) ∧ tee = on_chain_tee_type km ∧
      ∃ i, registered_services w i addr tee = a
  | CallRegister j p t => (∃ n, prepare_register_service w km n = Ok (j, p)) ∧ t = tee_type_u8 (on_chain_tee_type km)
  | CallPrepare => True
  end.
Proof.
  unfold initialize, verify_registration_on_chain.
  destruct (registered_services w 0 _ _) as [[]|e] eqn:E0; simpl;
    [intros ->%list_elem_of_singleton; by eauto| |intros ->%list_elem_of_singleton; by eauto].
  assert (Hprep : ∀ left n, Forall (λ c, c = CallPrepare) (prepare_loop w km left n).2).
  { induction left as [|left IH]; intros n; simpl; [done|].
    destruct (prepare_register_service w km n); simpl; [by apply Forall_singleton|].
    specialize (IH (Datatypes.S n)). destruct (prepare_loop w km left _). by apply Forall_cons. }
  specialize (Hprep (Z.to_nat (max_register_attempts km)) 1%nat). rewrite Forall_forall in Hprep.
  destruct (prepare_loop w km _ 1) as [[[journal proof]|] prep] eqn:Ep; simpl in *.
  - pose proof (register_loop_calls w km journal proof (Z.to_nat (max_register_attempts km)) 1 call) as Hreg.
    apply prepare_loop_Some in Ep. destruct (register_loop w km journal proof _ 1) as [r reg]. simpl in *.
    rewrite elem_of_cons, elem_of_app. intros [-> |[->%Hprep|Hin%Hreg] ]; [by eauto|done|].
    destruct call; [done|done|]. destruct Hin as (-> & -> & ->). done.
  - rewrite elem_of_cons. intros [-> | ->%Hprep]; [by eauto|done].
Qed.

(** The key manager [main] builds, in every TEE type. *)
Lemma build_key_manager_spec config url operator key chain km w :
  build_key_manager config url operator key chain = Ok (km, w) →
  signer km = key ∧ parent_chain_id km = chain ∧ tee_verifier_address km = tee_verifier_address_cfg config ∧
  ∀ n addr t, registered_services w n addr t =
    call_isSignerValid n url (tee_verifier_address_cfg config) addr (tee_type_u8 t).
Proof.
  unfold build_key_manager, KeyManager_new, KeyManager_new_for_test, HttpAttestationVerifierClient_new,
    new_with_attestation_provider.
  intros H. repeat case_match; simplify_eq/=; done.
Qed.

(** A key manager that [main] builds and that initializes is confirmed by the
    contract of its configuration. *)
Lemma initialize_valid config url operator key chain km w calls :
  build_key_manager config url operator key chain = Ok (km, w) → initialize w km = (Ok tt, calls) →
  ∃ n, call_isSignerValid n url (tee_verifier_address_cfg config) (signer_address key)
         (tee_type_u8 (on_chain_tee_type km)) = Ok true.
Proof.
  intros (<- & _ & _ & Hw)%build_key_manager_spec Hi.
  assert (Hin : confirmed km ∈ (initialize w km).2).
  { apply last_Some_elem_of, initialize_last. by rewrite Hi. }
  apply initialize_calls in Hin as (_ & _ & n & Hn). exists n. by rewrite <- Hw.
Qed.

(** C32. Custody of the enclave's key: when a Nitro key manager, put together as
    [main] does, initializes, the contract of the configuration has answered that
    the address of the fresh key is valid for the Nitro type; every registration
    that was sent carries the journal and proof that the proving service derived
    from an attestation document the device issued for this very public key; and
    the signatures the service makes are under that key, chain and contract. *)
Theorem enclave_key_custody config url operator key chain km w calls :
  build_key_manager config url operator key chain = Ok (km, w) →
  tee_type_cfg config = TeeNitro →
  initialize w km = (Ok tt, calls) →
  signer km = key ∧ parent_chain_id km = chain ∧ tee_verifier_address km = tee_verifier_address_cfg config ∧
  (∃ n, call_isSignerValid n url (tee_verifier_address_cfg config) (signer_address key) 0 = Ok true) ∧
  ∀ journal proof t, CallRegister journal proof t ∈ calls →
    t = 0 ∧ attested (attestation_verifier_url config) key journal proof.
Proof.
  unfold build_key_manager, KeyManager_new, HttpAttestationVerifierClient_new. intros Hb Ht Hi.
  rewrite decide_False in Hb by (by rewrite Ht). rewrite Ht in Hb.
  destruct (client_build _); [|done]. simpl in Hb.
  destruct (new_with_attestation_provider _ _ _ _ _) as [km'|] eqn:En; [|done]. simpl in Hb.
  apply Ok_inj in Hb. injection Hb as <- <-. unfold new_with_attestation_provider in En.
  destruct (_ =? 0); [done|]. destruct (10 <? _); [done|]. apply Ok_inj in En as <-.
  set (km := {| max_register_attempts := _ |}) in *. set (w := services _ _ _) in *.
  split_and!; [done..| |].
  - assert (Hin : confirmed km ∈ (initialize w km).2).
    { apply last_Some_elem_of, initialize_last. by rewrite Hi. }
    apply initialize_calls in Hin as (_ & _ & n & Hn). by exists n.
  - intros journal proof t Hin. assert (Hin' : CallRegister journal proof t ∈ (initialize w km).2) by (by rewrite Hi).
    apply initialize_calls in Hin' as [[n Hn] ->]. split; [done|].
    apply prepare_attested in Hn; [exact Hn|done].
Qed.
End chain_of_custody.

(** ** A concrete enclave *)

Definition toy_hex (s : string) : result bytes string :=
  if decide (s = "0a"%string) then Ok [Byte.x0a] else if decide (s = "0b"%string) then Ok [Byte.x0b] else Err "odd"%string.

(** The device is busy at first; the contract knows the key once a registration
    went through. *)
Definition toy_outside : Outside toy_signer := {|
  nsm_init n := if Nat.eqb n 1 then -1 else 3;
  nsm_process_request _ _ pk := RespAttestation (Byte.x01 :: pk);
  client_build _ := Ok tt;
  join_url base path := Ok (base +:+ path);
  post_octets _ _ _ := Ok (200, Ok [Byte.x02]);
  utf8_lossy _ := EmptyString;
  proof_from_slice _ := Ok {| raw_proof_journal := "0x0a"; onchain_proof := "0X0b" |};
  hex_decode := toy_hex;
  abi_encode_journal := publicKey;
  PendingTransaction := unit;
  send_registerService _ _ _ _ _ _ _ := Ok tt;
  watch _ := Ok tt;
  call_isSignerValid n _ _ _ _ := Ok (Nat.ltb 0 n);
|}.

Definition toy_km_config : KeyManagerConfig Address := {|
  tee_verifier_address_cfg := replicate 20 Byte.x07; attestation_verifier_url := "http://prover/";
  max_register_attempts_cfg := 3; attestation_client_timeout_secs := 300; tee_type_cfg := TeeNitro |}.

Definition toy_built : KeyManager (S:=toy_signer) * tee_world :=
  match build_key_manager (O:=toy_outside) toy_km_config "http://l1" Byte.x11 Byte.x2a 1 with
  | Ok r => r
  | Err _ => (toy_km, toy_world)
  end.

Lemma enclave_key_custody_witness :
  CallRegister [Byte.x0a] [Byte.x0b] 0 ∈ (initialize toy_built.2 toy_built.1).2 ∧
  attested (O:=toy_outside) "http://prover/" Byte.x2a [Byte.x0a] [Byte.x0b].
Proof.
  assert (Hin : CallRegister [Byte.x0a] [Byte.x0b] 0 ∈ (initialize toy_built.2 toy_built.1).2).
  { apply (list_elem_of_lookup_2 _ 3). by vm_compute. }
  split; [exact Hin|].
  destruct (enclave_key_custody (O:=toy_outside) toy_km_config "http://l1" Byte.x11 Byte.x2a 1
              toy_built.1 toy_built.2 (initialize toy_built.2 toy_built.1).2) as (_ & _ & _ & _ & H).
  - by vm_compute.
  - by vm_compute.
  - by vm_compute.
  - by destruct (H [Byte.x0a] [Byte.x0b] 0 Hin).
Defined.
