(* ===== verification/Certificate.v ===== *)
(** * CAS certificates

    [src/src/da_api/nitro/certificate/mod.rs], its encoder and decoder
    ([certificate/utils.rs]) and the extraction of the downstream certificate
    from a sequencer message ([src/src/da_api/nitro/utils.rs]). *)

From S2P Require Import Prelude Bytes Config NitroTypes NitroPayload DaError KeyManager.
From Stdlib Require Import Strings.Byte.

Definition MESSAGE_POS_SIZE : nat := 8.
Definition HOTSHOT_BLOCK_SIZE : nat := 8.
Definition AFTER_DELAYED_SIZE : nat := 8.
Definition CAS_SIG_SIZE : nat := 65.
Definition CERT_HEADER_SIZE_V0 : nat := 32.

Definition CONTEXT_FIELDS_SIZE : nat :=
  MESSAGE_POS_SIZE + MESSAGE_POS_SIZE + HOTSHOT_BLOCK_SIZE + AFTER_DELAYED_SIZE + HOTSHOT_BLOCK_SIZE.

Definition ESPRESSO_CERT_SIZE : nat := CERT_HEADER_SIZE_V0 + CONTEXT_FIELDS_SIZE + CAS_SIG_SIZE.

Inductive CASCertificateVersion := CertV0.

Definition version_u8 (v : CASCertificateVersion) : u8 := match v with CertV0 => x70 end.

(** [TryFrom<u8> for CASCertificateVersion] *)
Definition version_try_from (value : u8) : result CASCertificateVersion DaApiError :=
  if decide (value = x70) then Ok CertV0 else Err (Serialization "unknown version").

Definition is_header_byte (b : u8) : bool := is_ok (version_try_from b).

Definition header_size (v : CASCertificateVersion) : nat := match v with CertV0 => CERT_HEADER_SIZE_V0 end.

Record CasCertificate := {
  cert_header : bytes;
  start_message_pos : Z;
  end_message_pos : Z;
  start_hotshot_block : Z;
  cert_after_delayed_messages_read : Z;
  min_hotshot_block_still_in_streamer_queue : Z;
  cas_signature : bytes;
  downstream_certificate : bytes;
}.

#[export] Instance CasCertificate_eq_dec : EqDecision CasCertificate.
Proof. solve_decision. Defined.

(** ** The decoder: a position in the data *)

Record Decoder := {
  dec_data : bytes;
  position : nat;
}.

Definition Decoder_new (data : bytes) : Decoder := {| dec_data := data; position := 0 |}.

Definition remaining (d : Decoder) : nat := length (dec_data d) - position d.

Definition read_bytes (d : Decoder) (len : nat) : result (bytes * Decoder) DaApiError :=
  if (remaining d <? len)%nat then Err (InvalidCertificateLength (length (dec_data d)))
  else Ok (slice (dec_data d) (position d) (position d + len),
           {| dec_data := dec_data d; position := position d + len |}).

Section decoder.
Open Scope cas_scope.

Definition read_u64 (d : Decoder) : result (Z * Decoder) DaApiError :=
  let? '(b, d') := read_bytes d 8 in
  if (length b =? 8)%nat then Ok (from_be_bytes b, d') else Err (DecoderError "Invalid u64").

Definition read_fixed (d : Decoder) (n : nat) : result (bytes * Decoder) DaApiError :=
  let? '(b, d') := read_bytes d n in
  if (length b =? n)%nat then Ok (b, d') else Err (DecoderError "Invalid fixed").

Definition read_rest (d : Decoder) : bytes * Decoder :=
  (drop (position d) (dec_data d), {| dec_data := dec_data d; position := length (dec_data d) |}).

Definition certificate_minimum_size (header_size : nat) : nat := header_size + HOTSHOT_BLOCK_SIZE + CAS_SIG_SIZE.

Definition da_header_start_position (header_size : nat) : nat := header_size + HOTSHOT_BLOCK_SIZE + CAS_SIG_SIZE.

(** ** Wire format *)

Definition to_bytes (c : CasCertificate) : result bytes DaApiError :=
  match cert_header c with
  | [] => Err (CertificateSerializationFailed "empty header")
  | cas_version :: _ =>
      if decide (cas_version = version_u8 CertV0) then
        if (length (cert_header c) =? CERT_HEADER_SIZE_V0)%nat then
          Ok (cert_header c ++ to_be_bytes 8 (start_message_pos c) ++ to_be_bytes 8 (end_message_pos c) ++
              to_be_bytes 8 (start_hotshot_block c) ++ to_be_bytes 8 (cert_after_delayed_messages_read c) ++
              to_be_bytes 8 (min_hotshot_block_still_in_streamer_queue c) ++
              cas_signature c ++ downstream_certificate c)
        else Err (CertificateSerializationFailed "invalid header length")
      else Err (CertificateSerializationFailed "invalid header version")
  end.

Definition from_bytes (data : bytes) : result CasCertificate DaApiError :=
  match data with
  | [] => Err (InvalidCertificateLength 0)
  | b0 :: _ =>
      let? version := version_try_from b0 in
      let hs := header_size version in
      if (length data <? certificate_minimum_size hs)%nat then Err (InvalidCertificateLength (length data))
      else
        let dec := Decoder_new data in
        let? '(header, dec) := read_bytes dec hs in
        let? '(start_pos, dec) := read_u64 dec in
        let? '(end_pos, dec) := read_u64 dec in
        let? '(start_block, dec) := read_u64 dec in
        let? '(delayed, dec) := read_u64 dec in
        let? '(min_block, dec) := read_u64 dec in
        let? '(sig, dec) := read_fixed dec CAS_SIG_SIZE in
        let '(rest, _) := read_rest dec in
        Ok {| cert_header := header; start_message_pos := start_pos; end_message_pos := end_pos;
              start_hotshot_block := start_block; cert_after_delayed_messages_read := delayed;
              min_hotshot_block_still_in_streamer_queue := min_block; cas_signature := sig;
              downstream_certificate := rest |}
  end.

(** [CasCertificate::len] and [is_empty]. *)
Definition cert_len (c : CasCertificate) : result nat DaApiError := let? b := to_bytes c in Ok (length b).

Definition cert_is_empty (c : CasCertificate) : bool :=
  bool_decide (cert_header c = []) && (start_message_pos c =? 0) && (end_message_pos c =? 0) &&
  (start_hotshot_block c =? 0) && (cert_after_delayed_messages_read c =? 0) &&
  (min_hotshot_block_still_in_streamer_queue c =? 0) && bool_decide (cas_signature c = replicate 65 x00) &&
  bool_decide (downstream_certificate c = []).

(** ** Building and validating *)

Definition build_payload (start_message_pos end_message_pos start_hotshot_block after_delayed_messages_read
    min_hotshot_block_still_in_streamer_queue : Z) (downstream_cert : bytes) : bytes :=
  let prev_message_count := start_message_pos in
  let new_message_count := u64_add end_message_pos 1 in
  to_be_bytes 8 prev_message_count ++ to_be_bytes 8 new_message_count ++
  to_be_bytes 8 start_hotshot_block ++ to_be_bytes 8 after_delayed_messages_read ++
  to_be_bytes 8 min_hotshot_block_still_in_streamer_queue ++ downstream_cert.

Context {S : Signer} {K : Crypto}.

Definition sign_payload (payload : bytes) (km : KeyManager) : result bytes DaApiError :=
  map_err (λ _, Signing "signing failed") (sign_message km payload).

Definition build_espresso_certificate (km : KeyManager) (start_pos end_pos start_block delayed min_block : Z)
    (downstream_cert : bytes) : result CasCertificate DaApiError :=
  if (length downstream_cert <? 2)%nat then Err (InvalidCertificateLength (length downstream_cert))
  else
    let header := version_u8 CertV0 :: replicate 31 x00 in
    let payload := build_payload start_pos end_pos start_block delayed min_block downstream_cert in
    let? sig := sign_payload payload km in
    Ok {| cert_header := header; start_message_pos := start_pos; end_message_pos := end_pos;
          start_hotshot_block := start_block; cert_after_delayed_messages_read := delayed;
          min_hotshot_block_still_in_streamer_queue := min_block; cas_signature := sig;
          downstream_certificate := downstream_cert |}.

Definition validate_structure (c : CasCertificate) : result unit DaApiError :=
  match cert_header c with
  | [] => Err (CertificateValidation "empty header")
  | version_byte :: _ =>
      let? version := map_err (λ _, InvalidHeaderByte version_byte) (version_try_from version_byte) in
      if negb (length (cert_header c) =? header_size version)%nat then
        Err (CertificateValidation "invalid header length")
      else if (length (downstream_certificate c) <? 2)%nat then
        Err (InvalidCertificateLength (length (downstream_certificate c)))
      else Ok tt
  end.

(** The payload a certificate's signature is over. *)
Definition cert_payload (c : CasCertificate) : bytes :=
  build_payload (start_message_pos c) (end_message_pos c) (start_hotshot_block c)
    (cert_after_delayed_messages_read c) (min_hotshot_block_still_in_streamer_queue c)
    (downstream_certificate c).

Definition validate (c : CasCertificate) (expected_signer : Address) (parent_chain_id : Z)
    (tee_verifier_address : Address) : result unit DaApiError :=
  let? _ := validate_structure c in
  let signing_hash := compute_cas_signing_hash (cert_payload c) parent_chain_id tee_verifier_address in
  let? sig := map_err (λ e, CertificateValidation ("invalid CAS signature: " +:+ e))
                (Signature_try_from (cas_signature c)) in
  let? recovered := map_err (λ _, InvalidCasSignature) (recover_from_prehash sig signing_hash) in
  if bool_decide (recovered = expected_signer) then Ok tt else Err InvalidCasSignature.

(** ** Sequencer messages *)

Definition SEQUENCER_HEADER_LEN : nat := 40.

Definition try_extract_da_sequencer_msg_from_espresso_da_cert (sequencer_msg : bytes)
    (expected_signer : Address) (parent_chain_id : Z) (tee_verifier_address : Address)
    : result bytes DaApiError :=
  if (length sequencer_msg <=? SEQUENCER_HEADER_LEN)%nat then
    Err (InvalidSequencerMessageLength SEQUENCER_HEADER_LEN (length sequencer_msg))
  else
    let? cas_cert := from_bytes (drop SEQUENCER_HEADER_LEN sequencer_msg) in
    let? _ := validate cas_cert expected_signer parent_chain_id tee_verifier_address in
    Ok (slice sequencer_msg 0 SEQUENCER_HEADER_LEN ++ downstream_certificate cas_cert).

End decoder.

(** ** Lemmas *)

Lemma u64_succ_inj a b : is_u64 a → is_u64 b → u64_add a 1 = u64_add b 1 → a = b.
Proof.
  assert (H : ∀ z, is_u64 z → u64_add z 1 = if decide (z = u64_modulus - 1) then 0 else z + 1).
  { intros z Hz. unfold u64_add, wrap64, is_u64 in *. case_decide as E; [by rewrite E|].
    apply Z.mod_small. lia. }
  intros Ha Hb. rewrite !H by done. unfold is_u64 in *. do 2 case_decide; lia.
Qed.

Lemma slice_drop {A} (l : list A) a b : (a ≤ b)%nat → slice l a b ++ drop b l = drop a l.
Proof.
  intros Hab. unfold slice. rewrite <- (take_drop (b - a) (drop a l)) at 2.
  rewrite drop_drop. by replace (a + (b - a))%nat with b by lia.
Qed.

(** A certificate whose fields have the ranges of their types and whose header is
    that of version 0. *)
Record wf_cert (c : CasCertificate) : Prop := {
  wf_cert_header : ∃ r, cert_header c = x70 :: r ∧ length r = 31%nat;
  wf_start_pos : is_u64 (start_message_pos c);
  wf_end_pos : is_u64 (end_message_pos c);
  wf_start_block : is_u64 (start_hotshot_block c);
  wf_delayed : is_u64 (cert_after_delayed_messages_read c);
  wf_min_block : is_u64 (min_hotshot_block_still_in_streamer_queue c);
  wf_sig : length (cas_signature c) = CAS_SIG_SIZE;
}.

(** The certificate that the slices of [data] spell. *)
Definition cert_of (data : bytes) : CasCertificate := {|
  cert_header := slice data 0 32;
  start_message_pos := from_be_bytes (slice data 32 40);
  end_message_pos := from_be_bytes (slice data 40 48);
  start_hotshot_block := from_be_bytes (slice data 48 56);
  cert_after_delayed_messages_read := from_be_bytes (slice data 56 64);
  min_hotshot_block_still_in_streamer_queue := from_be_bytes (slice data 64 72);
  cas_signature := slice data 72 137;
  downstream_certificate := drop 137 data;
|}.

Lemma read_bytes_ok data p n :
  (p + n ≤ length data)%nat →
  read_bytes {| dec_data := data; position := p |} n =
    Ok (slice data p (p + n), {| dec_data := data; position := p + n |}).
Proof.
  intros H. unfold read_bytes, remaining. simpl.
  by rewrite (proj2 (Nat.ltb_ge _ _)) by lia.
Qed.

Lemma read_bytes_short data p n :
  (length data < p + n)%nat → (p ≤ length data)%nat →
  read_bytes {| dec_data := data; position := p |} n = Err (InvalidCertificateLength (length data)).
Proof.
  intros H H'. unfold read_bytes, remaining. simpl.
  by rewrite (proj2 (Nat.ltb_lt _ _)) by lia.
Qed.

Lemma read_u64_ok data p :
  (p + 8 ≤ length data)%nat →
  read_u64 {| dec_data := data; position := p |} =
    Ok (from_be_bytes (slice data p (p + 8)), {| dec_data := data; position := p + 8 |}).
Proof.
  intros H. unfold read_u64. rewrite read_bytes_ok by done.
  rewrite length_slice by lia. by replace (p + 8 - p)%nat with 8%nat by lia.
Qed.

Lemma read_fixed_ok data p n :
  (p + n ≤ length data)%nat →
  read_fixed {| dec_data := data; position := p |} n =
    Ok (slice data p (p + n), {| dec_data := data; position := p + n |}).
Proof.
  intros H. unfold read_fixed. rewrite read_bytes_ok by done.
  rewrite length_slice by lia. by rewrite (proj2 (Nat.eqb_eq _ _)) by lia.
Qed.

(** The decoder on every input. *)
Lemma from_bytes_spec data :
  from_bytes data =
    match data with
    | [] => Err (InvalidCertificateLength 0)
    | b0 :: _ =>
        if decide (b0 = x70) then
          if (length data <? ESPRESSO_CERT_SIZE)%nat then Err (InvalidCertificateLength (length data))
          else Ok (cert_of data)
        else Err (Serialization "unknown version")
    end.
Proof.
  unfold from_bytes. destruct data as [|b0 rest]; [done|].
  unfold version_try_from. destruct (decide (b0 = x70)); [|done]. cbn [header_size].
  set (data := b0 :: rest).
  change (certificate_minimum_size CERT_HEADER_SIZE_V0) with 105%nat.
  change ESPRESSO_CERT_SIZE with 137%nat. unfold Decoder_new, CERT_HEADER_SIZE_V0, CAS_SIG_SIZE.
  destruct (Nat.ltb_spec (length data) 105) as [H105|H105].
  { by rewrite (proj2 (Nat.ltb_lt _ 137)) by lia. }
  rewrite read_bytes_ok by lia. rewrite !read_u64_ok by lia. cbn [Nat.add].
  destruct (Nat.ltb_spec (length data) 137) as [H137|H137].
  - unfold read_fixed. by rewrite read_bytes_short by lia.
  - rewrite read_fixed_ok by lia. done.
Qed.

Lemma cert_of_wf data :
  (ESPRESSO_CERT_SIZE ≤ length data)%nat → head data = Some x70 → wf_cert (cert_of data).
Proof.
  change ESPRESSO_CERT_SIZE with 137%nat. intros Hl Hh.
  destruct data as [|b0 rest]; [done|]. injection Hh as ->.
  split; unfold cert_of; cbn [cert_header start_message_pos end_message_pos start_hotshot_block
    cert_after_delayed_messages_read min_hotshot_block_still_in_streamer_queue cas_signature].
  1: { exists (slice rest 0 31). split; [done|]. apply length_slice. simpl in Hl. lia. }
  all: try (apply from_be_bytes_u64; by rewrite length_slice by lia).
  by rewrite length_slice by lia.
Qed.

Lemma to_bytes_wf c :
  wf_cert c →
  to_bytes c = Ok (cert_header c ++ to_be_bytes 8 (start_message_pos c) ++ to_be_bytes 8 (end_message_pos c) ++
              to_be_bytes 8 (start_hotshot_block c) ++ to_be_bytes 8 (cert_after_delayed_messages_read c) ++
              to_be_bytes 8 (min_hotshot_block_still_in_streamer_queue c) ++
              cas_signature c ++ downstream_certificate c).
Proof.
  intros [(r & E & Hr) _ _ _ _ _ _]. unfold to_bytes. rewrite E. simpl length. rewrite Hr. done.
Qed.

(** Encoding what was decoded gives the data back. *)
Lemma to_bytes_cert_of data :
  (ESPRESSO_CERT_SIZE ≤ length data)%nat → head data = Some x70 → to_bytes (cert_of data) = Ok data.
Proof.
  intros Hl Hh. rewrite to_bytes_wf by (by apply cert_of_wf).
  change ESPRESSO_CERT_SIZE with 137%nat in Hl. f_equal. unfold cert_of.
  cbn [cert_header start_message_pos end_message_pos start_hotshot_block cert_after_delayed_messages_read
    min_hotshot_block_still_in_streamer_queue cas_signature downstream_certificate].
  assert (Hbe : ∀ a b, b = (a + 8)%nat → (b ≤ length data)%nat →
    to_be_bytes 8 (from_be_bytes (slice data a b)) = slice data a b).
  { intros a b -> Ha. rewrite <- (to_from_be_bytes (slice data a (a + 8))) at 2.
    rewrite length_slice by lia. by replace (a + 8 - a)%nat with 8%nat by lia. }
  rewrite (Hbe 32%nat 40%nat), (Hbe 40%nat 48%nat), (Hbe 48%nat 56%nat), (Hbe 56%nat 64%nat),
    (Hbe 64%nat 72%nat) by lia.
  rewrite !slice_drop by lia. done.
Qed.

Lemma length_to_bytes c data :
  wf_cert c → to_bytes c = Ok data →
  length data = (ESPRESSO_CERT_SIZE + length (downstream_certificate c))%nat ∧ head data = Some x70.
Proof.
  intros Hw. rewrite to_bytes_wf by done. destruct Hw as [(r & E & Hr) _ _ _ _ _ Hs].
  intros Hd. apply Ok_inj in Hd as <-. rewrite !length_app, !length_to_be_bytes, Hs, E. split; [|done].
  simpl. rewrite Hr. change ESPRESSO_CERT_SIZE with 137%nat. unfold CAS_SIG_SIZE. lia.
Qed.

(** The wire format determines the certificate. *)
(** The length of a well-formed certificate, which is not empty; an empty one has
    no encoding. *)
Lemma cert_len_wf c : wf_cert c → cert_len c = Ok (ESPRESSO_CERT_SIZE + length (downstream_certificate c))%nat ∧ cert_is_empty c = false.
Proof.
  intros Hw. pose proof (to_bytes_wf c Hw) as Ht. unfold cert_len. rewrite Ht.
  destruct (length_to_bytes c _ Hw Ht) as [-> _]. split; [done|].
  destruct Hw as [(r & E & _) _ _ _ _ _ _]. unfold cert_is_empty. by rewrite E.
Qed.

Lemma cert_empty_unencodable c : cert_is_empty c = true → cert_len c = Err (CertificateSerializationFailed "empty header").
Proof.
  unfold cert_is_empty. rewrite !andb_true_iff, !bool_decide_eq_true. intros (((((((E & _) & _) & _) & _) & _) & _) & _).
  unfold cert_len, to_bytes. by rewrite E.
Qed.

Lemma to_bytes_inj c c' data : wf_cert c → wf_cert c' → to_bytes c = Ok data → to_bytes c' = Ok data → c = c'.
Proof.
  intros Hw Hw'. rewrite !to_bytes_wf by done. intros E1 E2.
  apply Ok_inj in E1 as <-. apply Ok_inj in E2 as E. symmetry in E.
  destruct Hw as [(r & H1 & Hr) ? ? ? ? ? Hs], Hw' as [(r' & H1' & Hr') ? ? ? ? ? Hs'].
  apply app_inj_1 in E as [Eh E]; [|rewrite H1, H1'; simpl; lia].
  do 5 (let Ef := fresh "Ef" in
        apply app_inj_1 in E as [Ef E]; [|by rewrite !length_to_be_bytes];
        apply to_be_bytes_u64_inj in Ef; [|done|done]).
  apply app_inj_1 in E as [Es Ed]; [|by rewrite Hs, Hs'].
  destruct c, c'; simpl in *. congruence.
Qed.

Section cert_lemmas.
Context {S : Signer} {SL : SignerLaws S} {K : Crypto}.

Lemma from_bytes_iff data c :
  from_bytes data = Ok c ↔ wf_cert c ∧ to_bytes c = Ok data.
Proof.
  rewrite from_bytes_spec. split.
  - destruct data as [|b0 rest]; [done|]. destruct (decide (b0 = x70)) as [->|]; [|done].
    destruct (Nat.ltb_spec (length (x70 :: rest)) ESPRESSO_CERT_SIZE) as [|H]; [done|].
    intros Hc. apply Ok_inj in Hc as <-. split; [by apply cert_of_wf|by apply to_bytes_cert_of].
  - intros [Hw Hb]. destruct (length_to_bytes c data Hw Hb) as [Hl Hh].
    destruct data as [|b0 rest]; [done|]. injection Hh as ->. rewrite decide_True by done.
    rewrite (proj2 (Nat.ltb_ge _ _)) by lia. f_equal.
    apply (to_bytes_inj _ _ (x70 :: rest)); [apply cert_of_wf; [lia|done]|done|apply to_bytes_cert_of; [lia|done]|done].
Qed.

Lemma build_spec_cert km sp ep sb d mb ds c :
  build_espresso_certificate km sp ep sb d mb ds = Ok c →
  (2 ≤ length ds)%nat ∧ downstream_certificate c = ds ∧
  cert_payload c = build_payload sp ep sb d mb ds ∧
  cert_header c = x70 :: replicate 31 x00 ∧ length (cas_signature c) = CAS_SIG_SIZE ∧
  validate c (signer_address (signer km)) (parent_chain_id km) (tee_verifier_address km) = Ok tt ∧
  (start_message_pos c, end_message_pos c, start_hotshot_block c, cert_after_delayed_messages_read c,
   min_hotshot_block_still_in_streamer_queue c) = (sp, ep, sb, d, mb).
Proof.
  unfold build_espresso_certificate. destruct (Nat.ltb_spec (length ds) 2) as [|H2]; [done|].
  unfold sign_payload, sign_message, sign_typed_message.
  destruct (sign_hash_sync _ _) as [sig|e] eqn:Es; cbn [map_err]; [|done]. intros Hc. apply Ok_inj in Hc as <-.
  apply sign_recovers in Es as (Hl & s & Hs & Hr).
  split_and!; try done. unfold validate, validate_structure.
  cbn [cert_header downstream_certificate cas_signature]. rewrite (proj2 (Nat.ltb_ge _ _) H2).
  change (negb (length (version_u8 CertV0 :: replicate 31 x00) =? header_size CertV0)%nat) with false.
  change (version_try_from (version_u8 CertV0)) with (Ok (E:=DaApiError) CertV0). cbn [map_err].
  rewrite Hs. cbn [map_err]. unfold cert_payload. cbn. unfold compute_cas_signing_hash in *.
  rewrite Hr. cbn [map_err]. by rewrite bool_decide_eq_true_2.
Qed.

Lemma build_wf km sp ep sb d mb ds c :
  is_u64 sp → is_u64 ep → is_u64 sb → is_u64 d → is_u64 mb →
  build_espresso_certificate km sp ep sb d mb ds = Ok c → wf_cert c.
Proof.
  intros ????? (_ & _ & _ & Hh & Hs & _ & E)%build_spec_cert. injection E as E1 E2 E3 E4 E5.
  split; try congruence. exists (replicate 31 x00). done.
Qed.
End cert_lemmas.

(** ** Properties *)

Section cert_properties.
Context {S : Signer} {SL : SignerLaws S} {K : Crypto}.

(** C16. The wire format is a bijection: decoding accepts exactly the byte strings
    of at least 137 bytes that start with 0x70, encoding gives the same bytes
    back, and every certificate with fields in range is decoded from its own
    encoding.  No other bytes decode. *)
Theorem certificate_roundtrip data c :
  (from_bytes data = Ok c ↔ wf_cert c ∧ to_bytes c = Ok data) ∧
  (is_ok (from_bytes data) = true ↔ (ESPRESSO_CERT_SIZE ≤ length data)%nat ∧ head data = Some x70).
Proof.
  split; [apply from_bytes_iff|]. rewrite from_bytes_spec. destruct data as [|b0 rest]; [split; [done|by intros [_ ?]]|].
  destruct (decide (b0 = x70)) as [->|Hne].
  - destruct (Nat.ltb_spec (length (x70 :: rest)) ESPRESSO_CERT_SIZE);
      cbn [is_ok]; [split; [done|intros [? _]; lia]|].
    split; [split; [lia|done]|done].
  - split; [done|]. intros [_ [= ->]]. done.
Qed.

(** A certificate built by the key manager validates against its address,
    chain and verifier contract, and survives the wire. *)
Theorem certificate_build_validates km sp ep sb d mb ds c :
  is_u64 sp → is_u64 ep → is_u64 sb → is_u64 d → is_u64 mb →
  build_espresso_certificate km sp ep sb d mb ds = Ok c →
  validate c (signer_address (signer km)) (parent_chain_id km) (tee_verifier_address km) = Ok tt ∧
  ∃ data, to_bytes c = Ok data ∧ length data = (ESPRESSO_CERT_SIZE + length ds)%nat ∧ from_bytes data = Ok c.
Proof.
  intros H1 H2 H3 H4 H5 Hb. pose proof (build_wf km sp ep sb d mb ds c H1 H2 H3 H4 H5 Hb) as Hw.
  apply build_spec_cert in Hb as (_ & Hds & _ & _ & _ & Hv & _). split; [done|].
  eexists. split; [by apply to_bytes_wf|]. pose proof (to_bytes_wf c Hw) as Ht. split.
  - destruct (length_to_bytes c _ Hw Ht) as [-> _]. by rewrite Hds.
  - by apply from_bytes_iff.
Qed.

(** C17. The signed payload determines every field it covers: two certificates
    with the same payload have the same positions, blocks, delayed count and
    downstream certificate, so a signature cannot be moved to another claim. *)
Theorem signed_payload_binds c c' :
  wf_cert c → wf_cert c' → cert_payload c = cert_payload c' →
  start_message_pos c = start_message_pos c' ∧ end_message_pos c = end_message_pos c' ∧
  start_hotshot_block c = start_hotshot_block c' ∧
  cert_after_delayed_messages_read c = cert_after_delayed_messages_read c' ∧
  min_hotshot_block_still_in_streamer_queue c = min_hotshot_block_still_in_streamer_queue c' ∧
  downstream_certificate c = downstream_certificate c'.
Proof.
  intros [_ ? Hend ? ? ? _] [_ ? Hend' ? ? ? _]. unfold cert_payload, build_payload. intros E.
  assert (Hu : ∀ z, is_u64 (u64_add z 1)).
  { intros z. unfold is_u64, u64_add, wrap64. apply Z.mod_pos_bound. done. }
  do 5 (let Ef := fresh "Ef" in
        apply app_inj_1 in E as [Ef E]; [|by rewrite !length_to_be_bytes];
        apply to_be_bytes_u64_inj in Ef; [|done|done]).
  split_and!; try done. by apply u64_succ_inj.
Qed.

(** The sequencer message a CAS certificate was put in gives the downstream
    message back: extracting from header and certificate returns header and
    downstream certificate. *)
Theorem extract_inverts_build km seq_header sp ep sb d mb ds c data :
  is_u64 sp → is_u64 ep → is_u64 sb → is_u64 d → is_u64 mb → length seq_header = SEQUENCER_HEADER_LEN →
  build_espresso_certificate km sp ep sb d mb ds = Ok c → to_bytes c = Ok data →
  try_extract_da_sequencer_msg_from_espresso_da_cert (seq_header ++ data)
    (signer_address (signer km)) (parent_chain_id km) (tee_verifier_address km) = Ok (seq_header ++ ds).
Proof.
  intros H1 H2 H3 H4 H5 Hh Hb Hd. pose proof (build_wf km sp ep sb d mb ds c H1 H2 H3 H4 H5 Hb) as Hw.
  apply build_spec_cert in Hb as (_ & Hds & _ & _ & _ & Hv & _).
  destruct (length_to_bytes c data Hw Hd) as [Hl _].
  unfold try_extract_da_sequencer_msg_from_espresso_da_cert.
  rewrite (proj2 (Nat.leb_gt _ _)).
  2: { rewrite length_app, Hh, Hl. unfold ESPRESSO_CERT_SIZE, CERT_HEADER_SIZE_V0. lia. }
  rewrite <- Hh at 1. rewrite drop_app_length. assert (from_bytes data = Ok c) as -> by (by apply from_bytes_iff).
  rewrite Hv, Hds. unfold slice. rewrite Nat.sub_0_r, drop_0, <- Hh, take_app_length. done.
Qed.

(** Extraction never lets an unsigned wrapper through: if it succeeds, the
    bytes after the sequencer header are a well-formed certificate whose signature
    recovers to the expected signer over exactly its payload, and what is returned
    is the header with the signed downstream certificate. *)
Theorem extract_is_authentic msg expected chain verifier out :
  try_extract_da_sequencer_msg_from_espresso_da_cert msg expected chain verifier = Ok out →
  ∃ c s, to_bytes c = Ok (drop SEQUENCER_HEADER_LEN msg) ∧ wf_cert c ∧
    Signature_try_from (cas_signature c) = Ok s ∧
    recover_from_prehash s (compute_cas_signing_hash (cert_payload c) chain verifier) = Ok expected ∧
    out = take SEQUENCER_HEADER_LEN msg ++ downstream_certificate c.
Proof.
  unfold try_extract_da_sequencer_msg_from_espresso_da_cert.
  destruct (_ <=? _)%nat; [done|].
  destruct (from_bytes _) as [c|] eqn:Ec; [|done]. apply from_bytes_iff in Ec as [Hw Hb].
  destruct (validate c _ _ _) as [[]|] eqn:Ev; [|done]. intros Ho. apply Ok_inj in Ho as <-.
  unfold validate in Ev. destruct (validate_structure c) as [u|]; [|done].
  destruct (Signature_try_from (cas_signature c)) as [s|] eqn:Es; cbn [map_err] in Ev; [|done].
  destruct (recover_from_prehash s _) as [a|] eqn:Er; cbn [map_err] in Ev; [|done].
  case_bool_decide as Ha; [|done]. subst a. exists c, s. split_and!; done.
Qed.

(** The downstream certificate starts at byte 137 of the wire format;
    [da_header_start_position], documented as that position, is 105. *)
Theorem downstream_position data c :
  from_bytes data = Ok c →
  downstream_certificate c = drop ESPRESSO_CERT_SIZE data ∧
  da_header_start_position CERT_HEADER_SIZE_V0 = 105%nat ∧ ESPRESSO_CERT_SIZE = 137%nat.
Proof.
  rewrite from_bytes_spec. destruct data as [|b0 rest]; [done|]. case_decide; [|done].
  destruct (_ <? _)%nat; [done|]. intros Hc. apply Ok_inj in Hc as <-. done.
Qed.
End cert_properties.

(** ** Concrete certificates *)

Definition toy_downstream : bytes := [x00; x2a; x2b].

Definition toy_cert : CasCertificate :=
  match build_espresso_certificate toy_km 5 7 31 2 34 toy_downstream with
  | Ok c => c
  | Err _ => cert_of []
  end.

Lemma toy_cert_built : build_espresso_certificate toy_km 5 7 31 2 34 toy_downstream = Ok toy_cert.
Proof. by vm_compute. Qed.

Definition toy_cert_bytes : bytes := match to_bytes toy_cert with Ok b => b | Err _ => [] end.

Lemma certificate_roundtrip_witness :
  is_ok (from_bytes toy_cert_bytes) = true ∧ length toy_cert_bytes = 140%nat.
Proof.
  split; [|by vm_compute].
  apply (certificate_roundtrip toy_cert_bytes toy_cert). split; [apply Nat.leb_le; by vm_compute|by vm_compute].
Defined.

Lemma certificate_build_validates_witness :
  validate toy_cert (replicate 20 x2a) 1 (replicate 20 x07) = Ok tt ∧
  ∃ data, to_bytes toy_cert = Ok data ∧ length data = 140%nat ∧ from_bytes data = Ok toy_cert.
Proof.
  apply (certificate_build_validates (S:=toy_signer) toy_km 5 7 31 2 34 toy_downstream toy_cert);
    [split; by vm_compute..|exact toy_cert_built].
Defined.

Lemma toy_cert_wf : wf_cert toy_cert.
Proof. apply (build_wf (S:=toy_signer) toy_km 5 7 31 2 34 toy_downstream); [split; by vm_compute..|exact toy_cert_built]. Qed.

Lemma signed_payload_binds_witness : end_message_pos toy_cert = end_message_pos (cert_of toy_cert_bytes).
Proof.
  destruct (signed_payload_binds toy_cert (cert_of toy_cert_bytes)) as (_ & H & _).
  - exact toy_cert_wf.
  - apply cert_of_wf; [apply Nat.leb_le; by vm_compute|by vm_compute].
  - by vm_compute.
  - exact H.
Defined.

Lemma extract_inverts_build_witness :
  try_extract_da_sequencer_msg_from_espresso_da_cert (replicate 40 x09 ++ toy_cert_bytes)
    (replicate 20 x2a) 1 (replicate 20 x07) = Ok (replicate 40 x09 ++ toy_downstream).
Proof.
  apply (extract_inverts_build (S:=toy_signer) toy_km (replicate 40 x09) 5 7 31 2 34 toy_downstream toy_cert);
    [split; by vm_compute..|done|exact toy_cert_built|by vm_compute].
Defined.

Lemma extract_is_authentic_witness :
  ∃ c s, to_bytes c = Ok toy_cert_bytes ∧ wf_cert c ∧ Signature_try_from (cas_signature c) = Ok s ∧
    recover_from_prehash s (compute_cas_signing_hash (cert_payload c) 1 (replicate 20 x07)) =
      Ok (replicate 20 x2a) ∧
    replicate 40 x09 ++ toy_downstream = replicate 40 x09 ++ downstream_certificate c.
Proof.
  apply (extract_is_authentic (S:=toy_signer) (replicate 40 x09 ++ toy_cert_bytes)). by vm_compute.
Defined.

Lemma downstream_position_witness :
  downstream_certificate toy_cert = drop ESPRESSO_CERT_SIZE toy_cert_bytes ∧
  da_header_start_position CERT_HEADER_SIZE_V0 = 105%nat ∧ ESPRESSO_CERT_SIZE = 137%nat.
Proof. apply (downstream_position toy_cert_bytes toy_cert). by vm_compute. Defined.
