(* ===== verification/DaServer.v ===== *)
(** * The DA API server

    [src/src/da_api/nitro/server.rs], [src/src/da_api/nitro/store_fallback.rs],
    [src/src/da_api/nitro/types.rs] and [src/src/da_api/mod.rs]: the JSON-RPC
    handlers between the batch poster and the downstream DA providers.  JSON text,
    hex and HTTP are parameters; the JSON value tree is [serde_json::Value]. *)

From S2P Require Import Prelude Bytes Config Json Rollup NitroTypes NitroPayload DaError KeyManager Certificate.
From Stdlib Require Import Strings.Byte.
#[global] Open Scope Z_scope.

(** [serde_json] and the serde forms of the [alloy] types. *)
Class JsonCodec := {
  json_from_slice : bytes → result Value string;
  json_to_vec : Value → result bytes string;
  bytes_from_value : Value → result bytes string;
  bytes_to_value : bytes → Value;
  u64_from_value : Value → result Z string;
  u64_to_value : Z → Value;
  b256_from_value : Value → result B256 string;
  b256_to_value : B256 → Value;
  hex_encode : bytes → string;
  hex_decode : string → result bytes string;
}.

Class JsonCodecLaws (J : JsonCodec) : Prop := {
  json_roundtrip v b : json_to_vec v = Ok b → json_from_slice b = Ok v;
  bytes_value b : bytes_from_value (bytes_to_value b) = Ok b;
  u64_value z : is_u64 z → u64_from_value (u64_to_value z) = Ok z;
  b256_value h : length h = 32%nat → b256_from_value (b256_to_value h) = Ok h;
}.

#[export] Instance byte_countable : Countable byte.
Proof. refine (inj_countable Byte.to_N Byte.of_N _). apply Byte.of_to_N. Defined.

(** A slice of bytes, as serde writes it. *)
Definition byte_array_to_value (b : bytes) : Value := JArray (JNumber ∘ u8_to_Z <$> b).

(** [DAStoreResponse] as JSON. *)
Definition store_response_to_value `{JsonCodec} (cert : bytes) : Value :=
  JObject [("serialized-da-cert"%string, bytes_to_value cert)].

Definition store_response_from_value `{JsonCodec} (v : Value) : result bytes string :=
  let? r := collect ["serialized-da-cert"] v in
  field bytes_from_value r 0.

(** [JsonRpcError] *)
Definition jsonrpc_error_from_value (v : Value) : result JsonRpcError string :=
  let? r := collect ["code"; "message"] v in
  let? code := field de_i32 r 0 in
  let? message := field de_string r 1 in
  Ok {| code := code; rpc_message := message |}.

(** The results a client reads: [RecoverPayloadResult], [MaxMessageSizeResult],
    [SupportedHeaderBytesResult] and [PreImagesResult]. *)
Definition recover_payload_from_value (v : Value) : result string string :=
  let? r := collect ["Payload"] v in
  field de_string r 0.

Definition max_size_from_value `{JsonCodec} (v : Value) : result Z string :=
  let? r := collect ["maxSize"] v in
  field u64_from_value r 0.

Definition header_bytes_from_value `{JsonCodec} (v : Value) : result bytes string :=
  let? r := collect ["headerBytes"] v in
  field bytes_from_value r 0.

(** A [HashMap]: the last of the entries with a key. *)
Definition de_hash_map {K A} `{Countable K} (de_key : string → result K string) (de : Value → result A string) (v : Value)
    : result (gmap K A) string :=
  match v with
  | JObject fields =>
      foldl (λ acc f, let? m := acc in let? k := de_key f.1 in let? x := de f.2 in Ok (<[k:=x]> m)) (Ok ∅) fields
  | _ => Err "invalid type"%string
  end.

Definition preimages_from_value `{JsonCodec} (v : Value) : result (gmap string (gmap B256 bytes)) string :=
  let? r := collect ["Preimages"] v in
  field (de_hash_map Ok (de_hash_map (λ k, b256_from_value (JString k)) bytes_from_value)) r 0.

(** [DAStoreResponse::try_from(CasCertificate)] and back. *)
Definition DAStoreResponse_try_from (c : CasCertificate) : result bytes DaApiError := to_bytes c.

Definition CasCertificate_try_from (serialized_da_certificate : bytes) : result CasCertificate DaApiError :=
  from_bytes serialized_da_certificate.

(** ** HTTP *)

Record Response := {
  status : Z;
  body : bytes;
}.

Inductive http_result :=
| HttpResponse (r : Response)
| SendError (msg : string)
| BodyError (msg : string).

Definition is_success (s : Z) : bool := (200 <=? s) && (s <? 300).

(** ** Server state *)

Section server.
Context {J : JsonCodec} {S : Signer} {K : Crypto}.
(** The downstream providers' answers: the call's number within the handler, the
    endpoint and the body. *)
Context (post : nat → string → bytes → http_result).
(** The streamer's reply to a verification request, or a closed channel. *)
Context (verification_channel : bytes → result VerificationResult string).
Open Scope cas_scope.

Record ServerState := {
  da_config : DaProviderConfig;
  key_manager_of : KeyManager;
  max_message_size : option Z;
  calldata_max_size_of : Z;
}.

Definition ServerState_new (da_config : DaProviderConfig) (km : KeyManager) (calldata_max_size : Z) : ServerState :=
  {| da_config := da_config; key_manager_of := km; max_message_size := None;
     calldata_max_size_of := calldata_max_size |}.

Definition current_endpoint (state : ServerState) : string := endpoint_url (da_config state).

Definition post_json (n : nat) (endpoint : string) (v : Value) : http_result :=
  match json_to_vec v with
  | Ok b => post n endpoint b
  | Err e => SendError e
  end.

(** The response of a call, with the handlers' error conversions. *)
Definition response_of (r : http_result) : result Response DaApiError :=
  match r with
  | HttpResponse resp => Ok resp
  | SendError e => Err (DownstreamDa e)
  | BodyError e => Err (ParsingError e)
  end.

(** ** [store_fallback.rs] *)

Inductive StoreOutcome :=
| StoreCert (cert : bytes)
| StoreFallback (reason : string)
| StoreForward (response : Response).

Inductive DownstreamCertOutcome :=
| DownstreamCert (cert : bytes)
| DownstreamForward (response : Response).

Definition store_request (data : bytes) (timeout : Z) (body_id : Value) : Value :=
  JObject [("jsonrpc"%string, JString "2.0"); ("method"%string, JString "daprovider_store");
           ("params"%string, JArray [bytes_to_value data; u64_to_value timeout]); ("id"%string, body_id)].

Definition store_via (n : nat) (endpoint : string) (data : bytes) (timeout : Z) (body_id : Value)
    : result StoreOutcome DaApiError :=
  let? resp := response_of (post_json n endpoint (store_request data timeout body_id)) in
  if negb (is_success (status resp)) then Ok (StoreForward resp)
  else
    let? downstream_json := map_err ParsingError (json_from_slice (body resp)) in
    match get downstream_json "error" with
    | Some err_val =>
        let da_err := match jsonrpc_error_from_value err_val with
                      | Ok e => from_jsonrpc_error e
                      | Err e => DownstreamDa e
                      end in
        match da_err with
        | FallbackRequested msg => Ok (StoreFallback msg)
        | _ => Ok (StoreForward {| status := OK; body := body resp |})
        end
    | None =>
        let? cert := map_err ParsingError (store_response_from_value (index downstream_json "result")) in
        Ok (StoreCert cert)
    end.

(** The calldata fallback, with its size check. *)
Definition calldata_fallback (state : ServerState) (data : bytes) : result DownstreamCertOutcome DaApiError :=
  if calldata_max_size_of state <? Z.of_nat ESPRESSO_CERT_SIZE + zlen data then Err DynamicBatchingResize
  else Ok (DownstreamCert data).

(** [anytrust_fallback_url.as_deref().filter(|s| !s.is_empty())] *)
Definition anytrust_url (state : ServerState) : option string :=
  match anytrust_fallback_url (da_config state) with
  | Some u => if decide (u = EmptyString) then None else Some u
  | None => None
  end.

Definition resolve_downstream_cert (state : ServerState) (data : bytes) (timeout : Z) (body_id : Value)
    : result DownstreamCertOutcome DaApiError :=
  let endpoint := current_endpoint state in
  if decide (endpoint = EmptyString) then Ok (DownstreamCert data)
  else
    let? outcome := store_via 0 endpoint data timeout body_id in
    match outcome with
    | StoreCert cert => Ok (DownstreamCert cert)
    | StoreForward resp => Ok (DownstreamForward resp)
    | StoreFallback _ =>
        match anytrust_url state with
        | Some url =>
            let? outcome' := store_via 1 url data timeout body_id in
            match outcome' with
            | StoreCert cert => Ok (DownstreamCert cert)
            | StoreForward resp => Ok (DownstreamForward resp)
            | StoreFallback _ => calldata_fallback state data
            end
        | None => calldata_fallback state data
        end
    end.

(** ** [handle_store] *)

Definition store_reply (id : Value) (cert : bytes) : Value :=
  JObject [("jsonrpc"%string, JString "2.0"); ("id"%string, id); ("result"%string, store_response_to_value cert)].

(** [params], with at least two elements, and the typed arguments. *)
Definition store_params (request : Value) : result (bytes * Z) DaApiError :=
  match as_array (index request "params") with
  | Some (p0 :: p1 :: _) =>
      let? data := map_err (λ e, InvalidParams ("bad message: " +:+ e)) (bytes_from_value p0) in
      let? timeout := map_err (λ e, InvalidParams ("bad timeout: " +:+ e)) (u64_from_value p1) in
      Ok (data, timeout)
  | _ => Err (InvalidParams "expected 2 params")
  end.

Definition handle_store (state : ServerState) (request : Value) : result Response DaApiError :=
  let? '(data, timeout) := store_params request in
  if match max_message_size state with Some max_size => max_size <? zlen data | None => false end
  then Err DynamicBatchingResize
  else
    let? r := map_err ChannelError (verification_channel data) in
    if negb (success r) then Err (CertificateValidation "CAS verification failed")
    else
      let? outcome := resolve_downstream_cert state data timeout (index request "id") in
      match outcome with
      | DownstreamForward response => Ok response
      | DownstreamCert downstream_cert =>
          let? final_cert :=
            build_espresso_certificate (key_manager_of state) (start_message_position r)
              (end_message_position r) (start_espresso_block r) (after_delayed_messages_read r)
              (min_espresso_block_still_in_queue r) downstream_cert in
          let? resp := DAStoreResponse_try_from final_cert in
          let? b := map_err ParsingError (json_to_vec (store_reply (index request "id") resp)) in
          Ok {| status := OK; body := b |}
      end.

(** ** [handle_recover_inner] *)

Definition ESPRESSO_HEADER_BYTE : u8 := x70.
Definition ANYTRUST_DAS_HEADER_BYTE : u8 := x80.
Definition ANYTRUST_DAS_TREE_HEADER_BYTE : u8 := x88.
Definition CALLDATA_HEADER_BYTE : u8 := x00.

Definition is_anytrust_header (byte : u8) : bool :=
  bool_decide (byte ∈ [ANYTRUST_DAS_HEADER_BYTE; ANYTRUST_DAS_TREE_HEADER_BYTE]).

Definition recover_params (request : Value) : result (Z * B256 * bytes) DaApiError :=
  match as_array (index request "params") with
  | Some [p0; p1; p2] =>
      let? batch_num := map_err (λ e, InvalidParams ("bad batch_num: " +:+ e)) (u64_from_value p0) in
      let? hash := map_err (λ e, InvalidParams ("bad batch_block_hash: " +:+ e)) (b256_from_value p1) in
      let? msg := map_err (λ e, InvalidParams ("bad sequencer_msg: " +:+ e)) (bytes_from_value p2) in
      Ok (batch_num, hash, msg)
  | _ => Err (InvalidParams "expected 3 params")
  end.

Definition payload_reply (id : Value) (payload : bytes) : Value :=
  JObject [("jsonrpc"%string, JString "2.0"); ("id"%string, id);
           ("result"%string, JObject [("Payload"%string, byte_array_to_value payload)])].

Definition recover_request (method : string) (batch_num : Z) (hash : B256) (da_certificate : bytes) (id : Value)
    : Value :=
  JObject [("jsonrpc"%string, JString "2.0"); ("method"%string, JString method);
           ("params"%string, JArray [u64_to_value batch_num; b256_to_value hash; bytes_to_value da_certificate]);
           ("id"%string, id)].

(** The sequencer message without the espresso wrapper, if it has one. *)
Definition unwrap_message (state : ServerState) (sequencer_msg : bytes) : result bytes DaApiError :=
  if bool_decide (sequencer_msg !! SEQUENCER_HEADER_LEN = Some ESPRESSO_HEADER_BYTE) then
    try_extract_da_sequencer_msg_from_espresso_da_cert sequencer_msg
      (signer_address (signer (key_manager_of state))) (parent_chain_id (key_manager_of state))
      (tee_verifier_address (key_manager_of state))
  else Ok sequencer_msg.

(** Where a recover request goes. *)
Definition recover_endpoint (state : ServerState) (inner_header : option u8) : string :=
  match anytrust_fallback_url (da_config state), inner_header with
  | Some url, Some h =>
      if negb (bool_decide (url = EmptyString)) && is_anytrust_header h then url else current_endpoint state
  | _, _ => current_endpoint state
  end.

Definition handle_recover_inner (state : ServerState) (request : Value) (downstream_method : string)
    : result Response DaApiError :=
  let? '(batch_num, batch_block_hash, sequencer_msg) := recover_params request in
  if (length sequencer_msg <=? SEQUENCER_HEADER_LEN)%nat then
    Err (InvalidSequencerMessageLength SEQUENCER_HEADER_LEN (length sequencer_msg))
  else
    let? da_certificate := unwrap_message state sequencer_msg in
    let inner_header := da_certificate !! SEQUENCER_HEADER_LEN in
    if bool_decide (name (da_config state) = "calldata"%string) ||
       bool_decide (inner_header = Some CALLDATA_HEADER_BYTE) then
      match json_to_vec (payload_reply (index request "id") (drop SEQUENCER_HEADER_LEN da_certificate)) with
      | Ok b => Ok {| status := OK; body := b |}
      | Err _ => Err (InvalidParams "failed to to_vec")
      end
    else
      response_of (post_json 0 (recover_endpoint state inner_header)
                     (recover_request downstream_method batch_num batch_block_hash da_certificate
                        (index request "id"))).

(** ** The other methods *)

Definition respond_header_bytes (id : Value) (b : bytes) : result Response DaApiError :=
  let? body := map_err ParsingError
    (json_to_vec (JObject [("id"%string, id); ("jsonrpc"%string, JString "2.0");
       ("result"%string, JObject [("headerBytes"%string, JString ("0x" +:+ hex_encode b))])])) in
  Ok {| status := OK; body := body |}.

Definition strip_0x (s : string) : string :=
  if String.prefix "0x" s then String.substring 2 (String.length s - 2) s else s.

Definition handle_supported_header_bytes_forwarded (state : ServerState) (request : Value)
    : result Response DaApiError :=
  let? resp := response_of (post_json 0 (current_endpoint state) request) in
  if negb (is_success (status resp)) then Ok resp
  else
    let? parsed := map_err ParsingError (json_from_slice (body resp)) in
    match get parsed "error" with
    | Some _ => Ok resp
    | None =>
        let? hex_str := ok_or (as_str (index (index parsed "result") "headerBytes"))
                          (ParsingError "missing headerBytes in response") in
        let? downstream_bytes := map_err (λ e, ParsingError ("bad headerBytes hex: " +:+ e))
                                   (hex_decode (strip_0x hex_str)) in
        respond_header_bytes (index request "id") (ESPRESSO_HEADER_BYTE :: downstream_bytes)
    end.

Definition forward_raw (state : ServerState) (raw : bytes) : result Response DaApiError :=
  response_of (post 0 (current_endpoint state) raw).

Definition max_size_reply (id : Value) (max_size : Z) : Value :=
  JObject [("id"%string, id); ("jsonrpc"%string, JString "2.0");
           ("result"%string, JObject [("maxSize"%string, JNumber max_size)])].

(** The dispatch, built with the default feature [nitro-v3_9_9]. *)
Definition handle_rpc (state : ServerState) (raw : bytes) : result Response DaApiError :=
  let? parsed := map_err InvalidParams (json_from_slice raw) in
  let? method := ok_or (as_str (index parsed "method")) (InvalidRequest "missing method") in
  if decide (method = "daprovider_store"%string) then handle_store state parsed
  else if decide (method = "daprovider_recoverPayload"%string) then
    handle_recover_inner state parsed "daprovider_recoverPayload"
  else if decide (method = "daprovider_collectPreimages"%string) then
    handle_recover_inner state parsed "daprovider_collectPreimages"
  else if decide (method = "daprovider_recoverPayloadAndPreimages"%string) then
    handle_recover_inner state parsed "daprovider_recoverPayloadAndPreimages"
  else if decide (method = "daprovider_getSupportedHeaderBytes"%string) then
    if decide (name (da_config state) = "calldata"%string) then
      respond_header_bytes (index parsed "id") [ESPRESSO_HEADER_BYTE]
    else if is_anytrust (da_config state) then
      respond_header_bytes (index parsed "id")
        [ESPRESSO_HEADER_BYTE; ANYTRUST_DAS_HEADER_BYTE; ANYTRUST_DAS_TREE_HEADER_BYTE]
    else handle_supported_header_bytes_forwarded state parsed
  else if decide (method = "daprovider_getMaxMessageSize"%string) then
    match max_message_size state with
    | Some max_size =>
        let? b := map_err ParsingError (json_to_vec (max_size_reply (index parsed "id") max_size)) in
        Ok {| status := OK; body := b |}
    | None => forward_raw state raw
    end
  else forward_raw state raw.

(** ** [build_app]: the routes, in order, with the state mounted at each *)

Definition misconfigured (p : DaProviderConfig) : bool :=
  bool_decide (endpoint_url p = EmptyString) && bool_decide (is_Some (anytrust_fallback_url p)).

Definition provider_state (km : KeyManager) (calldata_max_size : Z) (p : DaProviderConfig) : ServerState :=
  let s := ServerState_new p km calldata_max_size in
  if decide (name p = "calldata"%string) then
    {| da_config := da_config s; key_manager_of := key_manager_of s;
       max_message_size := Some calldata_max_size; calldata_max_size_of := calldata_max_size_of s |}
  else s.

Definition build_app (providers : list DaProviderConfig) (rollup_prefix : string) (km : KeyManager)
    (calldata_max_size : Z) : result (list (string * ServerState)) DaApiError :=
  if existsb misconfigured providers then
    Err (Configuration "anytrust_fallback_url set but endpoint_url is empty")
  else
    Ok ((λ p, ("/" +:+ rollup_prefix +:+ "/" +:+ name p, provider_state km calldata_max_size p))
          <$> (providers ++ [calldata_provider])).

End server.
