(* ===== verification/DaCodec.v ===== *)
(** * The JSON of the DA server

    The instance of the server's codec on JSON text: hexadecimal byte strings and
    hashes, numbers within 64 bits. *)

From S2P Require Import Prelude Bytes Config Json JsonSyntax Rollup NitroTypes FeedJson WireText NitroPayload.
From S2P Require Import DaError KeyManager Certificate DaServer.
From Stdlib Require Import Strings.Byte.

Definition hex_value (b : bytes) : Value := JString (String.string_of_list_byte (x30 :: x78 :: WireText.hex_encode b)).

Definition bytes_of_hex (v : Value) : result bytes string :=
  match v with
  | JString s => ok_or (hex_decode_text (String.list_byte_of_string s)) "invalid hex"%string
  | _ => Err "invalid type"%string
  end.

Definition serde_codec : JsonCodec := {|
  json_from_slice := json_parse (JsonText:=json_text);
  json_to_vec := json_print (JsonText:=json_text);
  bytes_from_value := bytes_of_hex;
  bytes_to_value := hex_value;
  u64_from_value := de_uint u64_modulus;
  u64_to_value := JNumber;
  b256_from_value v := let? b := bytes_of_hex v in if (length b =? 32)%nat then Ok b else Err "invalid length"%string;
  b256_to_value := hex_value;
  hex_encode b := String.string_of_list_byte (WireText.hex_encode b);
  DaServer.hex_decode s := ok_or (hex_decode_digits (String.list_byte_of_string s)) "invalid hex"%string;
|}.

Lemma bytes_of_hex_value b : bytes_of_hex (hex_value b) = Ok b.
Proof.
  unfold bytes_of_hex, hex_value. rewrite String.list_byte_of_string_of_list_byte. cbn [hex_decode_text].
  by rewrite hex_roundtrip.
Qed.

#[export] Instance serde_codec_laws : JsonCodecLaws serde_codec.
Proof.
  split; cbn [json_to_vec json_from_slice bytes_from_value bytes_to_value u64_from_value u64_to_value b256_from_value
    b256_to_value serde_codec].
  - apply print_parse.
  - apply bytes_of_hex_value.
  - intros z Hz. by apply de_uint_ok.
  - intros h Hh. rewrite bytes_of_hex_value, Hh. done.
Qed.
