(* ===== verification/DaServerTheorems.v ===== *)
(** * Theorems of the DA API server *)

From S2P Require Import Prelude Bytes Config Json Rollup NitroTypes NitroPayload DaError KeyManager Certificate DaServer DaCodec.
From Stdlib Require Import Strings.Byte.
#[global] Open Scope Z_scope.

(** The numbers of a reply are [u64]s, as in the Rust type. *)
Record result_u64 (r : VerificationResult) : Prop := {
  ru_start : is_u64 (start_message_position r);
  ru_end : is_u64 (end_message_position r);
  ru_block : is_u64 (start_espresso_block r);
  ru_delayed : is_u64 (after_delayed_messages_read r);
  ru_min : is_u64 (min_espresso_block_still_in_queue r);
}.

Section server_lemmas.
Context {J : JsonCodec} {JL : JsonCodecLaws J} {S : Signer} {SL : SignerLaws S} {K : Crypto}.
Context (post : nat → string → bytes → http_result).
Context (verification_channel : bytes → result VerificationResult string).
Context (channel_u64 : ∀ data r, verification_channel data = Ok r → result_u64 r).
Implicit Types (state : ServerState).

(** The claim a certificate makes is the one the verification returned. *)
Definition certifies (r : VerificationResult) (downstream : bytes) (c : CasCertificate) : Prop :=
  (start_message_pos c, end_message_pos c, start_hotshot_block c, cert_after_delayed_messages_read c,
   min_hotshot_block_still_in_streamer_queue c) =
  (start_message_position r, end_message_position r, start_espresso_block r, after_delayed_messages_read r,
   min_espresso_block_still_in_queue r) ∧ downstream_certificate c = downstream.

(** What a successful [handle_store] went through. *)
Lemma handle_store_inv state request resp :
  handle_store post verification_channel state request = Ok resp →
  ∃ data timeout r, store_params request = Ok (data, timeout) ∧
    verification_channel data = Ok r ∧ success r = true ∧
    (∀ max_size, max_message_size state = Some max_size → zlen data ≤ max_size) ∧
    (resolve_downstream_cert post state data timeout (index request "id") = Ok (DownstreamForward resp) ∨
     ∃ ds c b, resolve_downstream_cert post state data timeout (index request "id") = Ok (DownstreamCert ds) ∧
       build_espresso_certificate (key_manager_of state) (start_message_position r)
         (end_message_position r) (start_espresso_block r) (after_delayed_messages_read r)
         (min_espresso_block_still_in_queue r) ds = Ok c ∧
       to_bytes c = Ok b ∧ status resp = OK ∧
       json_to_vec (store_reply (index request "id") b) = Ok (body resp)).
Proof.
  unfold handle_store. destruct (store_params request) as [[data timeout]|]; [|done].
  destruct (match max_message_size state with Some _ => _ | None => _ end) eqn:Em; [done|].
  destruct (verification_channel data) as [r|] eqn:Ev; cbn [map_err]; [|done].
  destruct (success r) eqn:Es; cbn [negb]; [|done].
  assert (Hmax : ∀ max_size, max_message_size state = Some max_size → zlen data ≤ max_size).
  { intros max_size E. rewrite E in Em. by apply Z.ltb_ge in Em. }
  destruct (resolve_downstream_cert _ _ _ _ _) as [[ds|fwd]|] eqn:Er; [| |done].
  - destruct (build_espresso_certificate _ _ _ _ _ _ _) as [c|] eqn:Eb; [|done].
    unfold DAStoreResponse_try_from. destruct (to_bytes c) as [b|] eqn:Et; [|done].
    destruct (json_to_vec _) as [out|] eqn:Ej; cbn [map_err]; [|done].
    intros H. apply Ok_inj in H as <-. exists data, timeout, r.
    do 4 (split; [done|]). right. exists ds, c, b. done.
  - intros H. apply Ok_inj in H as <-. exists data, timeout, r.
    do 4 (split; [done|]). by left.
Qed.

(** Recovering the calldata wrapped by a certificate. *)
Lemma recover_unwraps state km hdr sp ep sb d mb ds c b :
  key_manager_of state = km → length hdr = SEQUENCER_HEADER_LEN →
  build_espresso_certificate km sp ep sb d mb ds = Ok c → wf_cert c → to_bytes c = Ok b →
  (SEQUENCER_HEADER_LEN < length (hdr ++ b))%nat ∧ unwrap_message state (hdr ++ b) = Ok (hdr ++ ds).
Proof.
  intros Hk Hh Hb Hw Ht. destruct (length_to_bytes c b Hw Ht) as [Hl Hhd].
  assert (Hlen : (SEQUENCER_HEADER_LEN < length (hdr ++ b))%nat).
  { rewrite length_app, Hh, Hl. unfold ESPRESSO_CERT_SIZE, CERT_HEADER_SIZE_V0. lia. }
  split; [done|]. unfold unwrap_message.
  rewrite bool_decide_eq_true_2.
  2: { rewrite <- Hh, lookup_app_r, Nat.sub_diag by lia. by destruct b. }
  rewrite Hk. unfold try_extract_da_sequencer_msg_from_espresso_da_cert.
  rewrite (proj2 (Nat.leb_gt _ _)) by done.
  apply build_spec_cert in Hb as (_ & Hds & _ & _ & _ & Hv & _).
  rewrite <- Hh at 1. rewrite drop_app_length. assert (from_bytes b = Ok c) as -> by (by apply from_bytes_iff).
  rewrite Hv, Hds. unfold slice. rewrite Nat.sub_0_r, drop_0, <- Hh, take_app_length. done.
Qed.
End server_lemmas.

Section server_properties.
Context {J : JsonCodec} {JL : JsonCodecLaws J} {S : Signer} {SL : SignerLaws S} {K : Crypto}.
Context (post : nat → string → bytes → http_result).
Context (verification_channel : bytes → result VerificationResult string).
Implicit Types (state : ServerState).

(** What a successful store request amounts to. *)
Lemma store_certificate state request resp :
  (∀ data r, verification_channel data = Ok r → result_u64 r) →
  handle_store post verification_channel state request = Ok resp →
  ∃ data timeout r, store_params request = Ok (data, timeout) ∧
    verification_channel data = Ok r ∧ success r = true ∧
    (∀ max_size, max_message_size state = Some max_size → zlen data ≤ max_size) ∧
    (resolve_downstream_cert post state data timeout (index request "id") = Ok (DownstreamForward resp) ∨
     ∃ ds c b, resolve_downstream_cert post state data timeout (index request "id") = Ok (DownstreamCert ds) ∧
       certifies r ds c ∧ from_bytes b = Ok c ∧
       validate c (signer_address (signer (key_manager_of state))) (parent_chain_id (key_manager_of state))
         (tee_verifier_address (key_manager_of state)) = Ok tt ∧
       status resp = OK ∧ json_from_slice (body resp) = Ok (store_reply (index request "id") b)).
Proof.
  intros Hu (data & timeout & r & Hp & Hv & Hs & Hm & Hor)%handle_store_inv.
  exists data, timeout, r. do 4 (split; [done|]). destruct Hor as [?|(ds & c & b & Hr & Hb & Ht & Hst & Hj)]; [by left|].
  right. destruct (Hu data r Hv) as [H1 H2 H3 H4 H5].
  pose proof (build_wf _ _ _ _ _ _ _ _ H1 H2 H3 H4 H5 Hb) as Hw.
  apply build_spec_cert in Hb as (_ & Hds & _ & _ & _ & Hval & Hc).
  exists ds, c, b. split_and!; try done; [by apply from_bytes_iff|]. by apply json_roundtrip.
Qed.

(** No certificate without verification: when a store request is answered
    with a certificate, the streamer verified exactly the stored bytes, the
    message was within the provider's limit, and the reply carries a certificate
    that validates against the service's key, claims the verified positions and
    blocks and wraps the certificate the DA layer returned; the only other
    successful answer is the downstream response passed through. *)
Theorem store_certifies_verified state request resp :
  (∀ data r, verification_channel data = Ok r → result_u64 r) →
  handle_store post verification_channel state request = Ok resp →
  ∃ data timeout r, store_params request = Ok (data, timeout) ∧
    verification_channel data = Ok r ∧ success r = true ∧
    (∀ max_size, max_message_size state = Some max_size → zlen data ≤ max_size) ∧
    (resolve_downstream_cert post state data timeout (index request "id") = Ok (DownstreamForward resp) ∨
     ∃ ds c b, resolve_downstream_cert post state data timeout (index request "id") = Ok (DownstreamCert ds) ∧
       certifies r ds c ∧ from_bytes b = Ok c ∧
       validate c (signer_address (signer (key_manager_of state))) (parent_chain_id (key_manager_of state))
         (tee_verifier_address (key_manager_of state)) = Ok tt ∧
       status resp = OK ∧ json_from_slice (body resp) = Ok (store_reply (index request "id") b)).
Proof. apply store_certificate. Qed.

(** C18. Store then recover is the identity on calldata: for the built-in calldata
    provider, putting the stored certificate behind any sequencer header and
    asking to recover it answers with the stored bytes. *)
Theorem calldata_store_recover km max_size request resp :
  (∀ data r, verification_channel data = Ok r → result_u64 r) →
  let state := provider_state km max_size calldata_provider in
  handle_store post verification_channel state request = Ok resp →
  ∃ data timeout cert, store_params request = Ok (data, timeout) ∧ zlen data ≤ max_size ∧
    json_from_slice (body resp) = Ok (store_reply (index request "id") cert) ∧
    ∀ hdr recover method num hash, length hdr = SEQUENCER_HEADER_LEN →
      recover_params recover = Ok (num, hash, hdr ++ cert) →
      handle_recover_inner post state recover method =
        match json_to_vec (payload_reply (index recover "id") data) with
        | Ok b => Ok {| status := OK; body := b |}
        | Err _ => Err (InvalidParams "failed to to_vec")
        end.
Proof.
  intros Hu state (data & timeout & r & Hp & Hv & Hs & Hm & Hor)%handle_store_inv.
  exists data, timeout. destruct Hor as [Hf|(ds & c & b & Hr & Hb & Ht & Hst & Hj)].
  { unfold resolve_downstream_cert in Hf. rewrite decide_True in Hf by done. done. }
  exists b. split_and!; [done|by apply Hm|by apply json_roundtrip|].
  unfold resolve_downstream_cert in Hr. rewrite decide_True in Hr by done.
  apply Ok_inj in Hr. injection Hr as <-.
  destruct (Hu data r Hv) as [H1 H2 H3 H4 H5].
  pose proof (build_wf _ _ _ _ _ _ _ _ H1 H2 H3 H4 H5 Hb) as Hw.
  intros hdr recover method num hash Hh Hrp. unfold handle_recover_inner. rewrite Hrp.
  destruct (recover_unwraps state km hdr _ _ _ _ _ data c b eq_refl Hh Hb Hw Ht) as [Hlen ->].
  rewrite (proj2 (Nat.leb_gt _ _)) by done. rewrite bool_decide_eq_true_2 by done. cbn [orb].
  by rewrite <- Hh, drop_app_length.
Qed.

(** C19. Where the downstream certificate comes from: the raw batch when there is
    no endpoint, the primary's certificate, the AnyTrust sidecar's only after the
    primary asked for fallback, and the batch itself as calldata only when every
    configured writer asked for fallback and the wrapped size is within the
    limit. *)
Theorem downstream_cert_sources state data timeout id cert :
  resolve_downstream_cert post state data timeout id = Ok (DownstreamCert cert) →
  (current_endpoint state = EmptyString ∧ cert = data) ∨
  store_via post 0 (current_endpoint state) data timeout id = Ok (StoreCert cert) ∨
  (∃ reason, store_via post 0 (current_endpoint state) data timeout id = Ok (StoreFallback reason) ∧
     ((∃ url, anytrust_url state = Some url ∧ store_via post 1 url data timeout id = Ok (StoreCert cert)) ∨
      (cert = data ∧ Z.of_nat ESPRESSO_CERT_SIZE + zlen data ≤ calldata_max_size_of state ∧
       (anytrust_url state = None ∨
        ∃ url reason', anytrust_url state = Some url ∧
          store_via post 1 url data timeout id = Ok (StoreFallback reason'))))).
Proof.
  unfold resolve_downstream_cert. case_decide as He; [intros [= ->]; by left|].
  assert (Hc : calldata_fallback state data = Ok (DownstreamCert cert) →
               cert = data ∧ Z.of_nat ESPRESSO_CERT_SIZE + zlen data ≤ calldata_max_size_of state).
  { unfold calldata_fallback. destruct (Z.ltb_spec (calldata_max_size_of state) (Z.of_nat ESPRESSO_CERT_SIZE + zlen data));
      [done|]. intros Hx. apply Ok_inj in Hx. by injection Hx as ->. }
  destruct (store_via post 0 _ _ _ _) as [[c|reason|resp]|]; [intros [= ->]; auto| |done|done].
  intros H. right. right. exists reason. split; [done|].
  destruct (anytrust_url state) as [url|]; [|right; apply Hc in H as [-> ?]; auto].
  destruct (store_via post 1 _ _ _ _) as [[c|reason'|resp]|] eqn:E1; [injection H as ->; eauto| |done|done].
  right. apply Hc in H as [-> ?]. eauto 10.
Qed.

(** A message that claims to carry an Espresso certificate is never forwarded
    or answered unless the certificate is authentic: any failure of the extraction
    is the handler's error. *)
Theorem recover_rejects_forged state request method num hash msg err :
  recover_params request = Ok (num, hash, msg) → (SEQUENCER_HEADER_LEN < length msg)%nat →
  msg !! SEQUENCER_HEADER_LEN = Some ESPRESSO_HEADER_BYTE →
  try_extract_da_sequencer_msg_from_espresso_da_cert msg
    (signer_address (signer (key_manager_of state))) (parent_chain_id (key_manager_of state))
    (tee_verifier_address (key_manager_of state)) = Err err →
  handle_recover_inner post state request method = Err err.
Proof.
  intros Hp Hl Hb Hx. unfold handle_recover_inner. rewrite Hp, (proj2 (Nat.leb_gt _ _)) by done.
  unfold unwrap_message. by rewrite bool_decide_eq_true_2, Hx by done.
Qed.
End server_properties.

(** A refusal for size keeps its identity over JSON-RPC: whatever text a
    server puts around Nitro's message, the error is read as the request to
    rebuild a smaller batch, before any fallback request in the same text; the
    message of this service's own refusal is one of these texts. *)
Theorem resize_survives_rpc c before after :
  from_jsonrpc_error {| code := c; rpc_message := before +:+ NITRO_ERR_MESSAGE_TOO_LARGE +:+ after |} =
    DynamicBatchingResize ∧
  error_status DynamicBatchingResize = BAD_REQUEST ∧ jsonrpc_code DynamicBatchingResize = -32603.
Proof. unfold from_jsonrpc_error. cbn [rpc_message]. by rewrite contains_middle. Qed.

(** The answers the service writes itself, read as the result types it declares: a
    size limit is read back, and so are the header bytes, but no payload of the
    calldata provider is, which goes out as an array of numbers and is declared a
    string. *)
Theorem own_results_as_declared id limit header payload :
  is_u64 limit →
  max_size_from_value (H:=serde_codec) (index (max_size_reply id limit) "result") = Ok limit ∧
  header_bytes_from_value (H:=serde_codec) (JObject [("headerBytes"%string, JString ("0x" +:+ hex_encode (JsonCodec:=serde_codec) header))]) = Ok header ∧
  recover_payload_from_value (index (payload_reply id payload) "result") = Err "invalid type"%string.
Proof.
  intros Hl. split_and!; [|apply bytes_of_hex_value|done].
  change (de_uint u64_modulus (JNumber limit) = Ok limit). by apply de_uint_ok.
Qed.

(** The mounted routes: a configuration with a provider that has a fallback
    but no endpoint is refused; otherwise there is one route per provider and the
    calldata route, whose state answers the size question itself. *)
Theorem build_app_routes {S : Signer} providers prefix km max_size :
  match build_app providers prefix km max_size with
  | Err _ => ∃ p, p ∈ providers ∧ endpoint_url p = EmptyString ∧ is_Some (anytrust_fallback_url p)
  | Ok routes =>
      (∀ p, p ∈ providers → endpoint_url p = EmptyString → anytrust_fallback_url p = None) ∧
      length routes = (length providers + 1)%nat ∧
      ∃ state, ("/" +:+ prefix +:+ "/calldata", state) ∈ routes ∧
        max_message_size state = Some max_size ∧ current_endpoint state = EmptyString
  end.
Proof.
  unfold build_app. destruct (existsb misconfigured providers) eqn:E.
  - apply existsb_exists in E as (p & Hp%list_elem_of_In & Hm). exists p. split; [done|].
    unfold misconfigured in Hm. apply andb_true_iff in Hm as [H1 H2].
    by apply bool_decide_eq_true in H1, H2.
  - split_and!.
    + intros p Hp He. destruct (anytrust_fallback_url p) eqn:Ea; [|done]. exfalso.
      assert (existsb misconfigured providers = true); [|congruence].
      apply existsb_exists. exists p. split; [by apply list_elem_of_In|].
      unfold misconfigured. rewrite Ea, !bool_decide_eq_true_2; [done|eauto|done].
    + by rewrite length_fmap, length_app.
    + exists (provider_state km max_size calldata_provider). split; [|done].
      apply list_elem_of_fmap. exists calldata_provider. split; [done|set_solver].
Qed.

(** ** Concrete parameters *)

Definition toy_result : VerificationResult := VerificationResult_success 5 7 31 2 34.

Definition toy_channel (_ : bytes) : result VerificationResult string := Ok toy_result.

Lemma toy_channel_u64 data r : toy_channel data = Ok r → result_u64 r.
Proof. intros H. apply Ok_inj in H as <-. split; split; by vm_compute. Qed.

Definition toy_request : Value :=
  JObject [("params"%string, JArray [hex_value toy_downstream; JNumber 0])].

Definition toy_reply : Value := store_reply (J:=serde_codec) JNull toy_cert_bytes.

(** The downstream's answers: a fallback request, and a certificate. *)
Definition fallback_reply : Value :=
  JObject [("error"%string, JObject [("code"%string, JNumber (-32000));
                                     ("message"%string, JString NITRO_ERR_FALLBACK_REQUESTED)])].

(** The text of a document. *)
Definition text_of (v : Value) : bytes := default [] (ok (json_to_vec (JsonCodec:=serde_codec) v)).

Definition no_post (_ : nat) (_ : string) (_ : bytes) : http_result := SendError "no network".

(** A primary that asks for fallback. *)
Definition fallback_post (_ : nat) (_ : string) (_ : bytes) : http_result :=
  HttpResponse {| status := 200; body := text_of fallback_reply |}.

Definition toy_state : ServerState := provider_state toy_km 1000000 calldata_provider.

Definition celestia_state : ServerState :=
  provider_state toy_km 1000000
    {| name := "celestia"; endpoint_url := "http://celestia"; is_anytrust := false; anytrust_fallback_url := None |}.

Definition toy_response : Response := {| status := OK; body := text_of toy_reply |}.

Lemma toy_store : handle_store (J:=serde_codec) no_post toy_channel toy_state toy_request = Ok toy_response.
Proof. by vm_compute. Qed.

Lemma store_certifies_verified_witness :
  ∃ data timeout r, store_params (J:=serde_codec) toy_request = Ok (data, timeout) ∧
    toy_channel data = Ok r ∧ success r = true.
Proof.
  destruct (store_certifies_verified (J:=serde_codec) (JL:=serde_codec_laws) no_post toy_channel toy_state
              toy_request toy_response) as (data & timeout & r & H1 & H2 & H3 & _).
  - apply toy_channel_u64.
  - exact toy_store.
  - eauto 6.
Defined.

Lemma calldata_store_recover_witness :
  ∃ data timeout cert, store_params (J:=serde_codec) toy_request = Ok (data, timeout) ∧ zlen data ≤ 1000000 ∧
    json_from_slice (JsonCodec:=serde_codec) (body toy_response) = Ok (store_reply (J:=serde_codec) JNull cert).
Proof.
  destruct (calldata_store_recover (J:=serde_codec) (JL:=serde_codec_laws) no_post toy_channel toy_km 1000000
              toy_request toy_response) as (data & timeout & cert & H1 & H2 & H3 & _).
  - apply toy_channel_u64.
  - exact toy_store.
  - exists data, timeout, cert. split_and!; [exact H1|exact H2|exact H3].
Defined.

Lemma downstream_cert_sources_witness :
  ∃ reason, store_via (J:=serde_codec) fallback_post 0 "http://celestia" toy_downstream 0 JNull =
              Ok (StoreFallback reason) ∧ 137 + zlen toy_downstream ≤ 1000000.
Proof.
  destruct (downstream_cert_sources (J:=serde_codec) fallback_post celestia_state toy_downstream 0 JNull toy_downstream)
    as [[H _]|[H|(reason & H & H')] ].
  - by vm_compute.
  - done.
  - by vm_compute in H.
  - exists reason. split; [exact H|]. by vm_compute.
Defined.

(** A wrapper with one flipped bit in the signature. *)
Definition forged_msg : bytes := replicate 40 x09 ++ <[100%nat := xff]> toy_cert_bytes.

Lemma recover_rejects_forged_witness :
  let request := JObject [("params"%string, JArray [JNumber 1; hex_value (replicate 32 x00); hex_value forged_msg])] in
  handle_recover_inner (J:=serde_codec) no_post toy_state request "daprovider_recoverPayload" = Err InvalidCasSignature.
Proof.
  intros request.
  apply (recover_rejects_forged (J:=serde_codec) no_post toy_state request "daprovider_recoverPayload" 1
           (replicate 32 x00) forged_msg InvalidCasSignature).
  - by vm_compute.
  - apply Nat.leb_le. by vm_compute.
  - by vm_compute.
  - by vm_compute.
Defined.
