(* ===== verification/Certification.v ===== *)
(** * From the queue to the certificate

    The DA server asks the streamer about a batch over a channel and certifies what
    it answers.  Here the server's handler ([src/src/da_api/nitro/server.rs]) runs
    on the streamer of [src/src/streamer/streamer.rs] with the Nitro stack: first
    that every number the streamer answers with is a [u64], then what a
    certificate says about the queue. *)

From S2P Require Import Prelude Bytes Slice Config Rollup MockRollup Streamer StreamerProofs StreamerRun StreamerTheorems.
From S2P Require Import NitroTypes NitroVerify Rlp RlpInstance Batch NitroPayload Nitro NitroTheorems.
From S2P Require Import Json DaError KeyManager Certificate DaServer DaCodec DaServerTheorems.
From Stdlib Require Import Strings.Byte.

(** ** Heights *)

Section heights.
Context {R : Rollup} {L : RollupLaws R}.
Context {C : Type} {SD : Sender C FeedMessage} {SL : SenderLaws SD}.

(** The events a 64-bit program sees: a range is sent with the height it starts at. *)
Definition typed_event (ev : event R) : Prop :=
  match ev with
  | EvTransactions _ height => is_u64 height
  | EvFinalized _ | EvVerify _ _ | EvRetry => True
  end.

(** Every entry parsed from a range has a 64-bit height. *)
Class HeightLaw : Prop := {
  parsed_height_u64 cfg blocks h e :
    is_u64 h → e ∈ parse_hotshot_transactions cfg blocks h → is_u64 (hotshot_height e);
}.

Definition heights_u64 (m : gmap Z Z) : Prop := ∀ k h, m !! k = Some h → is_u64 h.

Lemma spec_add_heights start es m :
  heights_u64 m → (∀ e, e ∈ es → is_u64 (hotshot_height e)) → heights_u64 (foldl (spec_add start) m es).
Proof.
  revert m. induction es as [|e es IH]; intros m Hm Hes; [done|]. simpl. apply IH.
  - unfold spec_add. destruct (_ || _); [done|]. intros k h [[_ <-]|[_ Hk] ]%lookup_insert_Some; [|by eapply Hm].
    apply Hes, elem_of_cons. by left.
  - intros e' He'. apply Hes, elem_of_cons. by right.
Qed.

Lemma spec_event_heights {HL : HeightLaw} start cfg a ev :
  typed_event ev → heights_u64 a.1 → heights_u64 (spec_event start cfg a ev).1.
Proof.
  destruct ev as [idx|d c|txs h|]; simpl; intros Hev Ha; [|done| |done].
  - destruct (idx <=? a.2); [done|]. intros k h [Hk _]%map_lookup_filter_Some. by eapply Ha.
  - apply spec_add_heights; [done|]. intros e He. by eapply parsed_height_u64.
Qed.

Lemma spec_events_heights {HL : HeightLaw} start cfg evs a :
  Forall typed_event evs → heights_u64 a.1 → heights_u64 (foldl (spec_event start cfg) a evs).1.
Proof.
  intros Hevs. revert a. induction Hevs as [|ev evs Hev Hevs IH]; intros a Ha; [done|]. simpl.
  by apply IH, spec_event_heights.
Qed.

Lemma queue_index_entry q (e : Entry) :
  ssorted sequence_number q → e ∈ q → queue_index q !! sequence_number e = Some (hotshot_height e).
Proof.
  intros Hs (q1 & q2 & ->)%list_elem_of_split.
  rewrite queue_index_middle; [by rewrite lookup_insert_eq|].
  apply queue_index_None. intros e' He' Heq. apply ssorted_app in Hs as (_ & _ & Hlt).
  specialize (Hlt e' e He' ltac:(set_solver)). lia.
Qed.

(** The heights of the queue, whatever the events and the answers of the node. *)
Lemma queue_heights {HL : HeightLaw} cfg rcfg idx c0 evs e :
  is_u64 idx → Forall typed_event evs.*2 →
  e ∈ queue (streamer_of (run_events (run_init cfg rcfg idx c0) evs)) → is_u64 (hotshot_height e).
Proof.
  intros Hidx Hevs He.
  destruct (run_events_simulates evs (run_init cfg rcfg idx c0)) as [Hinv Hsim].
  { by apply (li_streamer cfg rcfg c0), run_init_inv. }
  assert (Hh : heights_u64 (view (streamer_of (run_events (run_init cfg rcfg idx c0) evs)))).
  { apply (f_equal fst) in Hsim. simpl in Hsim. rewrite Hsim. apply spec_events_heights; [done|].
    intros k h Hk. unfold abstraction in Hk. cbn [fst] in Hk. change (view _) with ((∅ : gmap Z Z) ∪ ∅) in Hk. by rewrite (left_id_L ∅), lookup_empty in Hk. }
  apply (Hh (sequence_number e)). unfold view. apply lookup_union_Some_l.
  apply queue_index_entry; [apply (inv_sorted _ Hinv)|done].
Qed.
End heights.

(** ** The Nitro stack *)

Section nitro.
Context {A : AlloyRlp} {B : Brotli} {J : NitroJson} {JL : NitroJsonLaws J} {K : Crypto}.
Context (hash : BroadcastFeedMessage → Z → result B256 string).
Context {C : Type} {SD : Sender C BroadcastFeedMessage} {SL : SenderLaws SD}.

#[export] Instance NitroHeights : HeightLaw (R:=Nitro hash).
Proof.
  split. intros cfg blocks. simpl. induction blocks as [|b blocks IH]; intros h e Hh; simpl; [by intros ?%elem_of_nil|].
  intros [(tx & _ & (_ & -> & _)%parse_transaction_spec)%parse_block_spec|He]%elem_of_app; [done|].
  apply (IH (u64_add h 1)); [|done]. unfold is_u64, u64_add, wrap64. by apply Z.mod_pos_bound.
Qed.

(** The cursor of a request: the fetched one, or the default. *)
Definition context_of (cursor : option (result BatchCursor string)) : BatchCursor :=
  match cursor with Some (Ok c) => c | _ => default_BatchCursor end.

Definition cursor_u64 (cursor : option (result BatchCursor string)) : Prop :=
  is_u64 (next_batch_start_pos (context_of cursor)) ∧ is_u64 (last_batch_delayed_messages_read (context_of cursor)).

Lemma verify_request_eq (s : Streamer (Nitro hash)) data cursor batch :
  parse_batch data = Ok batch →
  verify_request (R:=Nitro hash) s data cursor = nitro_verify_batch_messages batch (queue s) (context_of cursor).
Proof. intros Hb. unfold verify_request. simpl. rewrite Hb. by destruct cursor as [[c|]|]. Qed.

Lemma min_or_zero_u64 l : Forall is_u64 l → is_u64 (min_or_zero l).
Proof.
  intros Hl. destruct l as [|x l]; [split; by vm_compute|].
  destruct (min_or_zero_spec (x :: l)) as [Hin _]; [done|]. rewrite Forall_forall in Hl. by apply Hl.
Qed.

Lemma verified_u64 batch q ctx :
  is_u64 (next_batch_start_pos ctx) → is_u64 (last_batch_delayed_messages_read ctx) →
  (∀ e, e ∈ q → is_u64 (hotshot_height e)) → result_u64 (verified batch q ctx).
Proof.
  intros Hn Hd Hq.
  assert (Hm : ∀ l, (∀ e, e ∈ l → e ∈ q) → is_u64 (min_or_zero (hotshot_height <$> l))).
  { intros l Hl. apply min_or_zero_u64, Forall_fmap, Forall_forall. intros e He. by apply Hq, Hl. }
  split; simpl; [done|by apply Z.mod_pos_bound| |by apply Z.mod_pos_bound|];
    apply Hm; intros e He; rewrite <- (take_drop (length batch) q); apply elem_of_app; auto.
Qed.

(** What a verified batch reports of the stretch of the queue it covers. *)
Lemma verified_covers batch q ctx :
  batch ≠ [] → is_u64 (next_batch_start_pos ctx) →
  batch_matches (last_batch_delayed_messages_read ctx) batch q →
  let covered := take (length batch) q in
  let r := verified batch q ctx in
  length covered = length batch ∧ batch_matches (last_batch_delayed_messages_read ctx) batch covered ∧
  (next_batch_start_pos ctx + zlen batch ≤ u64_modulus →
   end_message_position r = next_batch_start_pos ctx + zlen batch - 1) ∧
  (∃ e, last covered = Some e ∧ after_delayed_messages_read r = delayed_messages_read (feed_msg (feed_message e))) ∧
  (∃ e, e ∈ covered ∧ start_espresso_block r = hotshot_height e) ∧
  (∀ e, e ∈ covered → start_espresso_block r ≤ hotshot_height e).
Proof.
  intros Hne Hn Hm covered r.
  assert (Hl : length covered = length batch).
  { unfold covered. rewrite length_take. pose proof (batch_matches_length _ _ _ Hm). lia. }
  assert (Hpos : (0 < length batch)%nat) by (destruct batch; [done|simpl; lia]).
  assert (Hc : batch_matches (last_batch_delayed_messages_read ctx) batch covered).
  { intros i msg Hi. destruct (Hm i msg Hi) as (e & He & Hmatch). exists e. split; [|done].
    unfold covered. rewrite lookup_take_lt; [done|]. by apply lookup_lt_Some in Hi. }
  destruct (min_or_zero_spec (hotshot_height <$> covered)) as [Hin Hmin].
  { intros E%(f_equal length). rewrite length_fmap in E. simpl in E. lia. }
  split_and!; [done|done| | | |].
  - intros Hmax. unfold r, verified. simpl. unfold is_u64, zlen, u64_sub, u64_add, wrap64 in *.
    rewrite Zminus_mod_idemp_l. apply Z.mod_small. lia.
  - destruct (lookup_lt_is_Some_2 batch (pred (length batch))) as [msg Hmsg]; [lia|].
    destruct (Hc _ _ Hmsg) as (e & He & _ & Hd). exists e. rewrite last_lookup, Hl. split; [done|].
    rewrite Hd. unfold r, verified. simpl. by rewrite Nat.succ_pred by lia.
  - apply list_elem_of_fmap in Hin as (e & E & Hin). exists e. split; [done|]. exact E.
  - intros e He. apply Hmin. by apply list_elem_of_fmap_2.
Qed.

(** The state after a run, and what a request finds there. *)
Section after_a_run.
Context (cfg : StreamerConfig) (rcfg : RollupConfig (NitroConfig Address)) (idx : Z) (c0 : C).
Context (evs : list (EspressoReader * event (Nitro hash))).
Context (Hidx : is_u64 idx) (Hevs : Forall (typed_event (R:=Nitro hash)) evs.*2).

Definition served : Streamer (Nitro hash) :=
  streamer_of (run_events (R:=Nitro hash) (run_init (R:=Nitro hash) cfg rcfg idx c0) evs).

Lemma served_reply data cursor :
  cursor_u64 cursor →
  let r := verify_request (R:=Nitro hash) served data cursor in
  let ctx := context_of cursor in
  result_u64 r ∧
  (success r = true →
   ∃ batch q1 e q2, parse_batch data = Ok batch ∧ batch ≠ [] ∧
     queue served = q1 ++ e :: q2 ∧ sequence_number e = next_batch_start_pos ctx ∧
     batch_matches (last_batch_delayed_messages_read ctx) batch (e :: q2) ∧ r = verified batch (e :: q2) ctx).
Proof.
  intros [Hn Hd] r ctx. unfold r. clear r.
  destruct (run_events_simulates (R:=Nitro hash) evs (run_init (R:=Nitro hash) cfg rcfg idx c0)) as [Hinv _].
  { by apply (li_streamer (R:=Nitro hash) cfg rcfg c0), run_init_inv. }
  destruct (parse_batch data) as [batch|err] eqn:Eb.
  2: { unfold verify_request. simpl. rewrite Eb. split; [|done]. by split. }
  rewrite (verify_request_eq _ _ _ batch Eb). fold ctx.
  destruct (verify_cases batch (queue served) ctx) as [(q1 & e & q2 & Eq & He & Hb & Hm & ->)|[-> _]];
    [apply (inv_sorted _ Hinv)|done| |split; [by split|done]].
  split; [|intros _; by exists batch, q1, e, q2].
  apply verified_u64; [done..|]. intros e' He'. apply (queue_heights (R:=Nitro hash) cfg rcfg idx c0 evs); [done..|].
  fold served. rewrite Eq. apply elem_of_app. by right.
Qed.
End after_a_run.

(** ** The server on the streamer *)

Section server.
Context {JC : JsonCodec} {JCL : JsonCodecLaws JC} {S : Signer} {SGL : SignerLaws S}.
Context (post : nat → string → bytes → http_result).

(** C3. What a certificate of the running service stands for.  After any run of the
    streamer, when a store request is answered, the stored bytes parse to a batch
    that agrees, message by message and in its delayed counts, with a stretch of
    the queue that begins at the cursor.  Unless the downstream answer was passed
    through, the reply carries a certificate that decodes, validates against the
    key of the enclave and wraps the downstream certificate; its range begins at
    the cursor and has one position per message, its delayed count is that of the
    last message of the stretch, and its block is the least height in it. *)
Theorem certificate_stands_for_queue cfg rcfg idx c0 evs cursor state request resp :
  is_u64 idx → Forall (typed_event (R:=Nitro hash)) evs.*2 → cursor_u64 cursor →
  let s := served cfg rcfg idx c0 evs in
  let ctx := context_of cursor in
  handle_store post (λ data, Ok (verify_request (R:=Nitro hash) s data cursor)) state request = Ok resp →
  ∃ data timeout batch q1 covered rest,
    store_params request = Ok (data, timeout) ∧ parse_batch data = Ok batch ∧
    queue s = q1 ++ covered ++ rest ∧ length covered = length batch ∧
    sequence_number <$> head covered = Some (next_batch_start_pos ctx) ∧
    batch_matches (last_batch_delayed_messages_read ctx) batch covered ∧
    (resolve_downstream_cert post state data timeout (index request "id") = Ok (DownstreamForward resp) ∨
     ∃ ds c b, resolve_downstream_cert post state data timeout (index request "id") = Ok (DownstreamCert ds) ∧
       json_from_slice (body resp) = Ok (store_reply (index request "id") b) ∧ from_bytes b = Ok c ∧
       validate c (signer_address (signer (key_manager_of state))) (parent_chain_id (key_manager_of state))
         (tee_verifier_address (key_manager_of state)) = Ok tt ∧
       downstream_certificate c = ds ∧ start_message_pos c = next_batch_start_pos ctx ∧
       (next_batch_start_pos ctx + zlen batch ≤ u64_modulus →
        end_message_pos c = next_batch_start_pos ctx + zlen batch - 1) ∧
       (∃ e, last covered = Some e ∧
          cert_after_delayed_messages_read c = delayed_messages_read (feed_msg (feed_message e))) ∧
       (∃ e, e ∈ covered ∧ start_hotshot_block c = hotshot_height e) ∧
       (∀ e, e ∈ covered → start_hotshot_block c ≤ hotshot_height e)).
Proof.
  intros Hidx Hevs Hcur s ctx Hst.
  assert (Hu : ∀ data r, Ok (E:=string) (verify_request (R:=Nitro hash) s data cursor) = Ok r → result_u64 r).
  { intros data r Hr. apply Ok_inj in Hr as <-. by apply served_reply. }
  apply store_certificate in Hst as (data & timeout & r & Hp & Hr & Hok & _ & Hor); [|exact Hu].
  apply Ok_inj in Hr. destruct (served_reply cfg rcfg idx c0 evs Hidx Hevs data cursor Hcur) as [_ Hrep].
  fold s in Hrep. rewrite Hr in Hrep.
  destruct (Hrep Hok) as (batch & q1 & e & q2 & Hb & Hne & Hq & He & Hm & ->). fold ctx in He, Hm |- *.
  exists data, timeout, batch, q1, (take (length batch) (e :: q2)), (drop (length batch) (e :: q2)).
  destruct (verified_covers batch (e :: q2) ctx) as (Hl & Hmc & Hend & Hdel & Hmin); [done|apply Hcur|done|].
  split_and!; [done|done|by rewrite take_drop|done| |done|].
  { destruct batch as [|m batch]; [done|]. exact (f_equal Some He). }
  destruct Hor as [?|(ds & c & b & Hres & [Hc Hds] & Hfrom & Hval & _ & Hj)]; [by left|right].
  injection Hc as H1 H2 H3 H4 _. destruct Hmin as [Hin Hmin]. exists ds, c, b. rewrite H1, H2, H3, H4.
  split_and!; done.
Qed.
End server.
End nitro.

(** ** A concrete store: the batch with messages 5 and 6, against a queue with 5 to 7 *)

Definition small_events : list (EspressoReader * event SmallNitro) :=
  [(failing_reader, EvTransactions (R:=SmallNitro) [[]; [small_tx]] 9);
   (failing_reader, EvFinalized (R:=SmallNitro) 4)].

Definition small_served : Streamer SmallNitro :=
  served (A:=concrete_rlp) (B:=stored_brotli) (J:=small_json) feed_hash (SD:=small_sender)
    small_cfg small_rollup_config 3 small_chan small_events.

Definition small_channel (data : bytes) : result VerificationResult string :=
  Ok (verify_request (R:=SmallNitro) small_served data (Some (Ok small_cursor))).

Definition small_request : Value :=
  JObject [("params"%string, JArray [hex_value small_batch; JNumber 0])].

Definition small_cert_bytes : bytes :=
  match build_espresso_certificate toy_km 5 6 10 1 10 small_batch with
  | Ok c => match to_bytes c with Ok b => b | Err _ => [] end
  | Err _ => []
  end.

Definition small_response : Response := 
  {| status := OK; body := text_of (store_reply (J:=serde_codec) JNull small_cert_bytes) |}.

Lemma small_events_typed : Forall (typed_event (R:=SmallNitro)) small_events.*2.
Proof. repeat (apply Forall_cons; split; [try done; split; by vm_compute|]). by apply Forall_nil. Qed.

Lemma small_cursor_u64 : cursor_u64 (Some (Ok small_cursor)).
Proof. split; split; by vm_compute. Qed.

Lemma certificate_stands_for_queue_witness :
  ∃ data timeout batch covered,
    store_params (J:=serde_codec) small_request = Ok (data, timeout) ∧ parse_batch data = Ok batch ∧
    length covered = length batch ∧ batch_matches 1 batch covered.
Proof.
  destruct (certificate_stands_for_queue (JL:=small_json_laws) feed_hash (SD:=small_sender) (SL:=bounded_sender_laws)
    (JC:=serde_codec) (JCL:=serde_codec_laws) no_post
    small_cfg small_rollup_config 3 small_chan small_events (Some (Ok small_cursor)) toy_state small_request small_response)
    as (data & timeout & batch & q1 & covered & rest & H1 & H2 & _ & H4 & _ & H6 & _).
  - split; by vm_compute.
  - exact small_events_typed.
  - exact small_cursor_u64.
  - by vm_compute.
  - exists data, timeout, batch, covered. split_and!; [exact H1|exact H2|exact H4|exact H6].
Defined.
