(* ===== verification/DaReply.v ===== *)
(** * Replies and routes of the DA API

    The text of an error and the HTTP reply it becomes ([src/src/da_api/error.rs]),
    what a client reads back from it, and [run] of [src/src/da_api/mod.rs]. *)

From S2P Require Import Prelude Bytes Config Json Rollup NitroTypes NitroPayload FeedClient DaError KeyManager Certificate DaServer DaCodec DaServerTheorems.
From Stdlib Require Import Strings.Byte.

(** ** Error texts *)

Definition hex_char (n : Z) : Ascii.ascii :=
  Ascii.ascii_of_nat (Z.to_nat (if n <? 10 then 48 + n else 87 + n)).

Definition hex2 (b : u8) : string :=
  let z := u8_to_Z b in String (hex_char (z / 16)) (String (hex_char (z `mod` 16)) EmptyString).

(** [{:#x}] of a byte: no padding. *)
Definition hex_min (b : u8) : string :=
  let z := u8_to_Z b in
  if z <? 16 then "0x" +:+ String (hex_char z) EmptyString else "0x" +:+ hex2 b.

(** [{:#x}] of [Bytes]. *)
Definition hex_bytes (bs : bytes) : string := "0x" +:+ String.concat EmptyString (hex2 <$> bs).

(** [Display for DaApiError]. *)
Definition error_display (e : DaApiError) : string :=
  match e with
  | CertificateSerializationFailed m => "certificate serialization failed: " +:+ m
  | InvalidParams m => "invalid params: " +:+ m
  | CertificateValidation m => "certificate validation failed: " +:+ m
  | InvalidRequest m => "invalid request: " +:+ m
  | InvalidHeaderByte b => "certificate validation failed: invalid header byte " +:+ hex_min b
  | InvalidCertificateLength n => "certificate validation failed: invalid certificate length " +:+ u64_to_string (Z.of_nat n)
  | InvalidSequencerMessageLength expected got =>
      "certificate validation failed: invalid sequencer message length, expected minimum " +:+
      u64_to_string (Z.of_nat expected) +:+ ", got " +:+ u64_to_string (Z.of_nat got)
  | ChannelError m => "DA provider channel error: " +:+ m
  | InvalidCasSignature => "certificate validation failed: invalid CAS signature"
  | UnsupportedDaType b => "certificate validation failed: unsupported DA type " +:+ hex_bytes b
  | DecoderError m => "failed to decode input data: " +:+ m
  | DownstreamDa m => "downstream DA error: " +:+ m
  | ZkCircuit m => "ZK circuit error: " +:+ m
  | Signing m => "signing error: " +:+ m
  | Serialization m => "serialization error: " +:+ m
  | Configuration m => "configuration error: " +:+ m
  | StorageUnavailable m => "storage unavailable: " +:+ m
  | Rpc m => "RPC error: " +:+ m
  | HexDecode m => "hex decode error: " +:+ m
  | Io m => "IO error: " +:+ m
  | Json m => "JSON error: " +:+ m
  | ParsingError m => "parsing error: " +:+ m
  | DynamicBatchingResize => "message too large for current DA backend"
  | FallbackRequested m => "fallback to next writer requested by DA provider: " +:+ m
  end.

(** [From<DaApiError> for ErrorObjectOwned]. *)
Definition error_object (e : DaApiError) : JsonRpcError :=
  {| code := jsonrpc_code e;
     rpc_message :=
       match e with
       | InvalidHeaderByte b => "Invalid header byte: 0x" +:+ hex2 b
       | InvalidSequencerMessageLength expected got =>
           "Invalid sequencer message length: expected:" +:+ u64_to_string (Z.of_nat expected) +:+
           ", got:" +:+ u64_to_string (Z.of_nat got)
       | _ => error_display e
       end |}.

Section replies.
Context {J : JsonCodec} {S : Signer} {K : Crypto}.
Open Scope cas_scope.

Definition error_value (e : DaApiError) : Value :=
  JObject [("jsonrpc"%string, JString "2.0");
           ("error"%string, JObject [("code"%string, JNumber (jsonrpc_code e));
                                     ("message"%string, JString (error_display e)); ("id"%string, JNull)])].

(** [IntoResponse for DaApiError]; [None] is the panic of the [expect]. *)
Definition into_response (e : DaApiError) : option Response :=
  match json_to_vec (error_value e) with
  | Ok bytes => Some {| status := error_status e; body := bytes |}
  | Err _ => None
  end.

(** What the HTTP client of a route receives. *)
Definition respond (post : nat → string → bytes → http_result)
    (verification_channel : bytes → result VerificationResult string) (state : ServerState) (raw : bytes)
    : option Response :=
  match handle_rpc post verification_channel state raw with
  | Ok response => Some response
  | Err e => into_response e
  end.

(** ** [run] *)

Definition ARBITRUM_NITRO : string := "arb".

Inductive da_outcome :=
| DaFailed (e : DaApiError)
| DaPanic
| DaServing (routes : list (string * ServerState)).

(** [axum] panics when a path is mounted twice; [bound] is the answer of the
    listener. *)
Definition da_run (config : DaApiConfig) (km : KeyManager) (bound : result unit string) : da_outcome :=
  match build_app (da_providers config) ARBITRUM_NITRO km (resolve_calldata_max_size (calldata_max_size config)) with
  | Err e => DaFailed e
  | Ok inner =>
      if decide (NoDup inner.*1) then
        match bound with
        | Err e => DaFailed (Io e)
        | Ok _ => DaServing (prod_map (String.append "/cas") id <$> inner)
        end
      else DaPanic
  end.
End replies.

Section reply_properties.
Context {J : JsonCodec} {JL : JsonCodecLaws J} {S : Signer} {K : Crypto}.

Lemma jsonrpc_code_range e : -2 ^ 31 ≤ jsonrpc_code e < 2 ^ 31.
Proof. destruct e; simpl; lia. Qed.

Lemma jsonrpc_error_fields c m :
  -2 ^ 31 ≤ c < 2 ^ 31 →
  jsonrpc_error_from_value (JObject [("code"%string, JNumber c); ("message"%string, JString m)]) = Ok {| code := c; rpc_message := m |}.
Proof. intros Hc. unfold jsonrpc_error_from_value. reads. by rewrite de_i32_ok. Qed.

Lemma contains_self_middle m before : contains m before = true → contains ("fallback to next writer requested by DA provider: " +:+ m) before = true.
Proof.
  intros H. assert (Hs : ∀ p s, contains s before = true → contains (p +:+ s) before = true).
  { intros p s Hc. induction p as [|c p IH]; [done|].
    change (String c p +:+ s) with (String c (p +:+ s)). cbn [contains]. by rewrite IH, orb_true_r. }
  by apply Hs.
Qed.

(** C40. What a client of the API sees of an error: a status that is no success,
    and a JSON body whose error object is read back as the code and the text of
    the error; so a client that looks for Nitro's phrases recognises the request
    for a smaller batch as what it is, and the request for a fallback as well
    whenever it came from one. *)
Theorem error_reply_faithful e resp :
  into_response e = Some resp →
  is_success (status resp) = false ∧
  ∃ v err, json_from_slice (body resp) = Ok v ∧ jsonrpc_error_from_value (index v "error") = Ok err ∧
    code err = jsonrpc_code e ∧ rpc_message err = error_display e ∧
    (e = DynamicBatchingResize → from_jsonrpc_error err = DynamicBatchingResize) ∧
    (∀ m, e = FallbackRequested m → contains m NITRO_ERR_FALLBACK_REQUESTED = true →
       contains (error_display e) NITRO_ERR_MESSAGE_TOO_LARGE = false →
       from_jsonrpc_error err = FallbackRequested (error_display e)).
Proof.
  unfold into_response. destruct (json_to_vec (error_value e)) as [b|] eqn:Eb; [|done]. intros [= <-].
  split; [by destruct e|]. apply json_roundtrip in Eb.
  exists (error_value e), {| code := jsonrpc_code e; rpc_message := error_display e |}.
  split_and!; [done| |done|done| |].
  - unfold index, error_value. simpl. by apply jsonrpc_error_fields, jsonrpc_code_range.
  - intros ->. by vm_compute.
  - intros m -> Hm Hno. unfold from_jsonrpc_error. cbn [rpc_message]. rewrite Hno.
    cbn [error_display]. by rewrite contains_self_middle.
Qed.

(** The routes that are served: every provider under its own name and the calldata
    provider, provided the names are distinct and none of them is [calldata]. *)
Lemma da_run_routes config km routes :
  da_run config km (Ok tt) = DaServing routes →
  routes.*1 = (λ p, "/cas/arb/" +:+ name p)%string <$> (da_providers config ++ [calldata_provider]) ∧
  NoDup ((name <$> da_providers config) ++ ["calldata"%string]).
Proof.
  unfold da_run, build_app. destruct (existsb misconfigured _); [done|]. case_decide as Hd; [|done].
  intros [= <-]. split.
  - rewrite <- !list_fmap_compose. by apply list_fmap_ext.
  - rewrite <- list_fmap_compose in Hd.
    assert (Hn : (name <$> da_providers config) ++ ["calldata"%string] = name <$> (da_providers config ++ [calldata_provider]))
      by (by rewrite fmap_app).
    rewrite Hn. apply (NoDup_fmap_1 (λ n, "/" +:+ ARBITRUM_NITRO +:+ "/" +:+ n)%string).
    by rewrite <- list_fmap_compose.
Qed.

(** A provider that the configuration names [calldata] too takes the service down
    at start-up. *)
Lemma calldata_name_panics config km bound p :
  p ∈ da_providers config → name p = "calldata"%string → existsb misconfigured (da_providers config) = false →
  da_run config km bound = DaPanic.
Proof.
  intros Hp Hn Hm. unfold da_run, build_app. rewrite Hm, decide_False; [done|].
  rewrite <- list_fmap_compose, fmap_app, NoDup_app. intros (_ & Hdis & _).
  apply (Hdis ("/" +:+ ARBITRUM_NITRO +:+ "/calldata")%string).
  - apply list_elem_of_fmap. exists p. simpl. by rewrite Hn.
  - simpl. by left.
Qed.
End reply_properties.

(** A downstream answer that carries both a certificate and a null error is taken
    for an error and forwarded as it is: the poster receives the downstream
    certificate without the Espresso one around it. *)
Lemma null_error_forwards {J : JsonCodec} post n endpoint data timeout id resp v :
  post_json post n endpoint (store_request data timeout id) = HttpResponse resp →
  is_success (status resp) = true → json_from_slice (body resp) = Ok v → get v "error" = Some JNull →
  store_via post n endpoint data timeout id = Ok (StoreForward {| status := OK; body := body resp |}).
Proof.
  intros Hp Hs Hj Hg. unfold store_via. rewrite Hp. simpl. rewrite Hs. simpl. rewrite Hj. simpl. by rewrite Hg.
Qed.

(** ** A concrete reply *)

Lemma error_reply_faithful_witness :
  ∃ resp, into_response (J:=serde_codec) DynamicBatchingResize = Some resp ∧ status resp = 400 ∧
    ∃ v err, json_from_slice (JsonCodec:=serde_codec) (body resp) = Ok v ∧
      jsonrpc_error_from_value (index v "error") = Ok err ∧
      from_jsonrpc_error err = DynamicBatchingResize.
Proof.
  eexists. split; [vm_compute; reflexivity|]. split; [vm_compute; reflexivity|].
  destruct (error_reply_faithful (JL:=serde_codec_laws) DynamicBatchingResize
    {| status := 400; body := text_of (error_value DynamicBatchingResize) |}) as (_ & v & err & Hv & He & _ & _ & Hr & _).
  - vm_compute. reflexivity.
  - exists v, err. split; [exact Hv|]. split; [exact He|]. by apply Hr.
Defined.
