(* ===== verification/ConformDa.v ===== *)
(** * The repository's tests of the DA server and its certificates

    The tests of [src/src/da_api/nitro/certificate/mod.rs],
    [src/src/da_api/nitro/utils.rs], [src/src/da_api/nitro/server_tests.rs] and
    [src/src/key_manager/key_manager.rs] as programs over the definitions they test.
    A mock provider of the tests is a function from the request it is sent to its
    answer. *)

From S2P Require Import Prelude Bytes Slice Config Json Rollup NitroTypes GoBigInt NitroVerify Rlp RlpInstance FeedJson WireText.
From S2P Require Import NitroPayload DaError KeyManager Certificate DaServer DaCodec DaServerTheorems DaReply.
From Stdlib Require Import Strings.Byte.
#[local] Open Scope cas_scope.

(** ** Certificates *)

(** A signer whose signatures end in the recovery byte 27. *)
#[local] Instance test_signer : Signer := {|
  PrivateKeySigner := u8;
  signer_address k := replicate 20 k;
  public_key_uncompressed k := x04 :: replicate 64 k;
  sign_hash_sync k h := Ok (k :: pad32 h ++ replicate 31 x00 ++ [x1b]);
  eip712_signing_hash c chain a := pad32 (take 16 c ++ to_be_bytes 8 chain ++ take 8 a);
  Signature := bytes;
  Signature_try_from b := if (length b =? 65)%nat then Ok b else Err "length"%string;
  recover_from_prehash s h :=
    match s with
    | k :: rest => if bytes_eqb (take 32 rest) (pad32 h) then Ok (replicate 20 k) else Err "no key"%string
    | [] => Err "empty"%string
    end;
|}.

Definition zero_address : Address := replicate 20 x00.

Definition test_key_manager : KeyManager :=
  {| max_register_attempts := 1; tee_type := KmTest; signer := x2a; parent_chain_id := 0;
     tee_verifier_address := zero_address |}.

Definition create_mock_cert : CasCertificate := {|
  cert_header := version_u8 CertV0 :: replicate 31 x00; start_message_pos := 1; end_message_pos := 2;
  start_hotshot_block := 3; cert_after_delayed_messages_read := 4; min_hotshot_block_still_in_streamer_queue := 5;
  cas_signature := replicate 65 xcc; downstream_certificate := replicate 10 xdd |}.

(** The value of a result satisfies [p]. *)
Definition ok_and {A E} (r : result A E) (p : A → bool) : bool := match r with Ok a => p a | Err _ => false end.

Definition err_and {A E} (r : result A E) (p : E → bool) : bool := match r with Ok _ => false | Err e => p e end.

Definition test_round_trip_serialization : bool :=
  ok_and (to_bytes create_mock_cert) (λ b, ok_and (from_bytes b) (λ c, c =! create_mock_cert)).

(** The message of a sequencer around a certificate. *)
Definition sequencer_message (b : bytes) : bytes := replicate SEQUENCER_HEADER_LEN x00 ++ b.

Definition reference_da_cert : bytes := default [] (hex_decode_text (String.list_byte_of_string
  ("0x01ffa2f5868a6c1f36e948ade0eaf093983af330a1ec8183a61955e4fd8d67313fbd1cb94dcff2136dfab4d1d4506cc5" +:+
   "160a3b58c9481a87513c71882526ae8ac6e30e3f4a9d56da07893bf5245fd0ff0c50e2a66b52067d8e8b23beb3c8e4f8230743"))).

Definition test_reference_da_cert : bool :=
  (length reference_da_cert =! 99%nat) &&
  ok_and (build_espresso_certificate test_key_manager 0 0 0 0 0 reference_da_cert) (λ cert,
    ok_and (to_bytes cert) (λ b,
      (length (sequencer_message b) =! (SEQUENCER_HEADER_LEN + length b)%nat) &&
      (length (sequencer_message b) =! (ESPRESSO_CERT_SIZE + length reference_da_cert + SEQUENCER_HEADER_LEN)%nat))).

Definition test_build_espresso_certificate : bool :=
  let downstream := replicate 20 x01 in
  let valid c := is_ok (validate c (signer_address (signer test_key_manager)) 0 zero_address) in
  ok_and (build_espresso_certificate test_key_manager 10 20 5 7 3 downstream) (λ cert,
    negb (cas_signature cert =! replicate 65 x00) &&
    ((nth 64 (cas_signature cert) x00 =! x1b) || (nth 64 (cas_signature cert) x00 =! x1c)) &&
    (downstream_certificate cert =! downstream) && (start_message_pos cert =! 10) && (end_message_pos cert =! 20) &&
    (start_hotshot_block cert =! 5) && (cert_after_delayed_messages_read cert =! 7) &&
    (min_hotshot_block_still_in_streamer_queue cert =! 3) && valid cert &&
    ok_and (to_bytes cert) (λ b, ok_and (from_bytes b) (λ recovered,
      valid recovered && (cas_signature recovered =! cas_signature cert)))).

(** What is left of a message with a certificate around [downstream]. *)
Definition extracted_from (downstream : bytes) : result bytes DaApiError :=
  let? cert := build_espresso_certificate test_key_manager 0 0 0 0 0 downstream in
  let? b := to_bytes cert in
  try_extract_da_sequencer_msg_from_espresso_da_cert (sequencer_message b)
    (signer_address (signer test_key_manager)) (parent_chain_id test_key_manager) (tee_verifier_address test_key_manager).

Definition test_remove_espresso_metadata : bool :=
  ok_and (extracted_from (replicate 20 x09)) (λ extracted,
    (length extracted =! (SEQUENCER_HEADER_LEN + 20)%nat) && (extracted =! sequencer_message (replicate 20 x09))).

Definition test_extract_espresso_metadata_from_da_certificate : bool :=
  ok_and (extracted_from (replicate 99 xab)) (λ extracted, length extracted =! (SEQUENCER_HEADER_LEN + 99)%nat).

Example certificate_tests_pass :
  forallb id [test_round_trip_serialization; test_reference_da_cert; test_build_espresso_certificate;
              test_remove_espresso_metadata; test_extract_espresso_metadata_from_da_certificate] = true.
Proof. vm_compute. reflexivity. Qed.

(** ** The key manager *)

(** [MockAttestationClient::generate_zk_proof], with the ABI encoding of a byte
    string left out: its journal is what the verifier decodes. *)
Definition MockAttestationClient (attestation : bytes) : result (bytes * bytes) string :=
  match attestation with
  | [] => Err "Received empty attestation in MockAttestationClient"%string
  | _ => Ok (attestation, String.list_byte_of_string "mock_proof")
  end.

(** The mocks of the tests, by the number of the call: the attestation provider
    fails [attestation_failures] times, the verifier [register_failures] times, and
    it knows the address of the journal's key from the next call on. *)
Definition mock_world (attestation_failures register_failures : nat) (always_registered : bool) : tee_world := {|
  get_attestation n pub_key := if (n <=? attestation_failures)%nat then Err "mock attestation failure"%string else Ok pub_key;
  generate_zk_proof _ := MockAttestationClient;
  register_service n _ _ _ := if (n <=? register_failures)%nat then Err "mock registration failure"%string else Ok tt;
  registered_services n addr _ :=
    Ok (always_registered || ((register_failures <? n)%nat && (addr =! signer_address x2a)));
  encode_mock_verifier_journal b := b;
|}.

Definition make_test_key_manager (max_attempts : Z) : result KeyManager KeyManagerError :=
  new_with_attestation_provider max_attempts KmNitro 1 zero_address x2a.

Definition initialized (w : tee_world) (p : result unit KeyManagerError → list km_call → bool) : bool :=
  ok_and (make_test_key_manager 3) (λ km, let '(r, calls) := initialize w km in p r calls).

(** The key is registered at the end of the calls. *)
Definition ends_registered (r : result unit KeyManagerError) (calls : list km_call) : bool :=
  is_ok r && match last calls with
             | Some (CallRegistered addr KmNitro (Ok true)) => bool_decide (addr = signer_address x2a)
             | _ => false
             end.

Definition test_initialize : bool := initialized (mock_world 0 0 false) ends_registered.

Definition test_initialize_already_registered : bool := initialized (mock_world 0 0 true) (λ r _, is_ok r).

Definition test_initialize_preparation_attempts : bool :=
  initialized (mock_world 2 0 false) ends_registered &&
  initialized (mock_world 3 0 false)
    (λ r _, err_and r (λ e, match e with PreparationExhausted attempts _ => attempts =! 3 | _ => false end)).

Definition test_initialize_registration_attempts : bool :=
  initialized (mock_world 0 2 false) ends_registered &&
  initialized (mock_world 0 3 false)
    (λ r _, err_and r (λ e, match e with RegistrationExhausted attempts _ => attempts =! 3 | _ => false end)).

Definition test_sign_typed_message_recovers_ : bool :=
  let verifier_addr := replicate 20 xab in
  let message := String.list_byte_of_string "commitment payload" in
  ok_and (sign_typed_message message x2a 42161 verifier_addr) (λ sig_bytes,
    ((nth 64 sig_bytes x00 =! x1b) || (nth 64 sig_bytes x00 =! x1c)) &&
    ok_and (Signature_try_from sig_bytes) (λ sig,
      ok_and (recover_from_prehash sig (eip712_signing_hash (keccak256 message) 42161 verifier_addr))
        (λ recovered, recovered =! signer_address x2a))).

Example key_manager_tests_pass :
  forallb id [test_initialize; test_initialize_already_registered; test_initialize_preparation_attempts;
              test_initialize_registration_attempts; test_sign_typed_message_recovers_] = true.
Proof. vm_compute. reflexivity. Qed.

(** ** The server *)

Definition request (method : string) (params : list Value) : Value :=
  JObject [("jsonrpc"%string, JString "2.0"); ("method"%string, JString method); ("params"%string, JArray params);
           ("id"%string, JNumber 1)].

Definition reply (result : Value) : Value :=
  JObject [("jsonrpc"%string, JString "2.0"); ("id"%string, JNumber 1); ("result"%string, result)].

Definition error_reply (code : Z) (message : string) : Value :=
  JObject [("jsonrpc"%string, JString "2.0"); ("id"%string, JNumber 1);
           ("error"%string, JObject [("code"%string, JNumber code); ("message"%string, JString message)])].

Definition provider (name : string) (is_anytrust : bool) : DaProviderConfig :=
  {| Config.name := name; endpoint_url := "http://" +:+ name; is_anytrust := is_anytrust; anytrust_fallback_url := None |}.

Definition TEST_CALLDATA_MAX_SIZE : Z := 1000000.

(** The answer of the verification task of the tests. *)
Definition test_verification (_ : bytes) : result VerificationResult string := Ok (VerificationResult_success 0 0 0 0 0).

(** A request at the route of a provider; [mock] answers for the providers, with the
    status and the body. *)
Section server_tests.
Context (providers : list DaProviderConfig) (calldata_max_size : Z).
Context (mock : string → Value → Z * bytes).

Definition mock_post (_ : nat) (endpoint : string) (b : bytes) : http_result :=
  match json_from_slice (JsonCodec:=serde_codec) b with
  | Ok v => let '(st, answer) := mock endpoint v in HttpResponse {| status := st; body := answer |}
  | Err e => SendError e
  end.

Definition ask (path : string) (req : Value) : result (Z * Value) DaApiError :=
  let? routes := build_app providers "arb" test_key_manager calldata_max_size in
  let? state := ok_or (snd <$> list_find (λ r, r.1 = path) routes) (Configuration "no route") in
  let? resp := handle_rpc (J:=serde_codec) mock_post test_verification state.2 (text_of req) in
  let? v := map_err ParsingError (json_from_slice (JsonCodec:=serde_codec) (body resp)) in
  Ok (status resp, v).
End server_tests.

(** A mock that always gives the same answer, and one that gives back the request. *)
Definition answers (st : Z) (answer : Value) (_ : string) (_ : Value) : Z * bytes := (st, text_of answer).

Definition echoes (_ : string) (v : Value) : Z * bytes := (200, text_of v).

Definition header_bytes_reply (s : string) : Value := reply (JObject [("headerBytes"%string, JString s)]).

Definition header_bytes_request : Value := request "daprovider_getSupportedHeaderBytes" [].

(** The header bytes announced at a route. *)
Definition announced (r : result (Z * Value) DaApiError) : option string :=
  match r with Ok (_, v) => as_str (index (index v "result") "headerBytes") | Err _ => None end.

Definition test_namespace_endpoints : bool :=
  let mock endpoint _ :=
    (200, text_of (header_bytes_reply (if decide (endpoint = "http://celestia"%string) then "0x63" else "0x80"))) in
  let ask := ask [provider "celestia" false; provider "anytrust" false] TEST_CALLDATA_MAX_SIZE mock in
  (announced (ask "/arb/celestia"%string header_bytes_request) =! Some "0x7063"%string) &&
  (announced (ask "/arb/anytrust"%string header_bytes_request) =! Some "0x7080"%string).

Definition test_anytrust_header_bytes_returned_locally : bool :=
  announced (ask [provider "anytrust" true] TEST_CALLDATA_MAX_SIZE (answers 500 JNull)
               "/arb/anytrust" header_bytes_request) =! Some "0x708088"%string.

Definition zero_hash : B256 := replicate 32 x00.

Definition recover (method : string) (msg : bytes) : Value :=
  request method [JNumber 1; hex_value zero_hash; hex_value msg].

Definition raw_msg : bytes := replicate SEQUENCER_HEADER_LEN x00 ++ xff :: replicate 9 x00.

(** The certificate of a recover request. *)
Definition sent_certificate (v : Value) : result bytes string :=
  match as_array (index v "params") with
  | Some [_; _; cert] => bytes_of_hex cert
  | _ => Err "no params"%string
  end.

(** The provider has the payload of the raw message only. *)
Definition test_recover_payload_forwards_raw_msg_when_cas_cert_invalid : bool :=
  let mock _ v :=
    if (as_str (index v "method") =! Some "daprovider_recoverPayload"%string) && ok_and (sent_certificate v) (λ b, b =! raw_msg)
    then (200, text_of (reply (JObject [("Payload"%string, JString "0xdeadbeef")]))) else (404, []) in
  let req := recover "daprovider_recoverPayload" raw_msg in
  ok_and (ask [provider "anytrust" false] TEST_CALLDATA_MAX_SIZE mock "/arb/anytrust" req)
    (λ r, is_ok (recover_payload_from_value (index r.2 "result"))).

(** An error the service answers with itself, nothing having been asked downstream. *)
Definition refused_locally (e : DaApiError) : bool := match e with DownstreamDa _ => false | _ => true end.

Definition test_recover_payload_rejects_invalid_cas_cert_when_header_byte_present : bool :=
  let req := recover "daprovider_recoverPayload" (replicate SEQUENCER_HEADER_LEN x00 ++ x70 :: replicate 200 x00) in
  err_and (ask [provider "anytrust" false] TEST_CALLDATA_MAX_SIZE echoes "/arb/anytrust" req) refused_locally.

Definition test_recover_payload_rejects_short_sequencer_msg : bool :=
  let req := recover "daprovider_recoverPayload" (replicate 10 x00) in
  err_and (ask [provider "anytrust" false] TEST_CALLDATA_MAX_SIZE echoes "/arb/anytrust" req) refused_locally.

(** *** Store *)

Definition valid_message : bytes := replicate 128 x00.

Definition mock_downstream_cert : bytes := x01 :: x05 :: replicate 10 x00.

Definition store_call : Value := request "daprovider_store" [hex_value valid_message; JNumber 5000].

(** The certificate of a store reply. *)
Definition certificate_of (v : Value) : result CasCertificate DaApiError :=
  let? b := map_err ParsingError (store_response_from_value (H:=serde_codec) (index v "result")) in
  CasCertificate_try_from b.

(** The outcome of a store whose provider answers [answer]. *)
Definition stored (st : Z) (answer : Value) : result (Z * Value) DaApiError :=
  ask [provider "anytrust" false] TEST_CALLDATA_MAX_SIZE (answers st answer) "/arb/anytrust" store_call.

(** The store is certified around [downstream]. *)
Definition gives_certificate (r : result (Z * Value) DaApiError) (downstream : bytes) : bool :=
  ok_and r (λ r, ok_and (certificate_of r.2) (λ cert,
    (min_hotshot_block_still_in_streamer_queue cert =! 0) && (downstream_certificate cert =! downstream))).

Definition test_store_success_returns_cas_certificate : bool :=
  gives_certificate (stored 200 (reply (JObject [("serialized-da-cert"%string, hex_value mock_downstream_cert)])))
    mock_downstream_cert.

Definition store_error (st : Z) (answer : Value) (part : string) : bool :=
  err_and (stored st answer) (λ e, contains (error_display e) part).

(** The provider's answer is not JSON. *)
Definition test_store_malformed_response_returns_parsing_error : bool :=
  let mock _ _ := (200, String.list_byte_of_string "this is not json") in
  err_and (ask [provider "anytrust" false] TEST_CALLDATA_MAX_SIZE mock "/arb/anytrust" store_call)
    (λ e, contains (error_display e) "parsing error").

Definition test_store_fallback_to_calldata_on_fallback_error : bool :=
  gives_certificate (stored 200 (error_reply (-32000) "DA provider requests fallback to next writer")) valid_message.

Definition test_store_wrong_field_name_in_response_fails_parsing : bool :=
  store_error 200 (reply (JObject [("serializedDaCertificate"%string, hex_value mock_downstream_cert)])) "".

Definition max_size_request : Value := request "daprovider_getMaxMessageSize" [].

Definition test_calldata_max_size_is_configurable : bool :=
  let CUSTOM_MAX_SIZE := 123456 in
  ok_and (ask [] CUSTOM_MAX_SIZE (answers 500 JNull)
            "/arb/calldata" max_size_request)
    (λ r, value_eqb (index (index r.2 "result") "maxSize") (JNumber CUSTOM_MAX_SIZE)).

(** The provider's error reaches the poster with its message. *)
Definition error_propagates (message : string) : bool :=
  ok_and (stored 200 (error_reply (-32000) message))
    (λ r, as_str (index (index r.2 "error") "message") =! Some message).

Definition test_store_da_provider_generic_error_propagates : bool := error_propagates "storage backend unavailable".

Definition test_store_message_too_large_error_propagates : bool := error_propagates "message too large for current DA backend".

(** Status and body are the provider's. *)
Definition forwarded_unchanged (r : result (Z * Value) DaApiError) (st : Z) (answer : Value) : bool :=
  ok_and r (λ r, (r.1 =! st) && value_eqb r.2 answer).

Definition test_store_error_response_is_forwarded_unchanged : bool :=
  let rejected := JObject [("jsonrpc"%string, JString "2.0"); ("id"%string, JNumber 1);
    ("error"%string, JObject [("code"%string, JNumber (-32042)); ("message"%string, JString "external DA provider rejected batch");
      ("data"%string, JObject [("provider"%string, JString "anytrust"); ("retryable"%string, JBool false)])])] in
  let unavailable := error_reply (-32050) "external DA provider unavailable" in
  forwarded_unchanged (stored 200 rejected) 200 rejected && forwarded_unchanged (stored 503 unavailable) 503 unavailable.

Definition test_non_store_da_api_error_responses_are_forwarded_unchanged : bool :=
  let forwarded req st code message :=
    let answer := error_reply code message in
    forwarded_unchanged (ask [provider "anytrust" false] TEST_CALLDATA_MAX_SIZE (answers st answer)
                           "/arb/anytrust" req) st answer in
  forwarded max_size_request 503 (-32060) "max size backend unavailable"%string &&
  forwarded header_bytes_request 502 (-32061) "header bytes backend unavailable"%string &&
  forwarded (recover "daprovider_recoverPayload" raw_msg) 200 (-32062) "recover payload failed"%string &&
  forwarded (recover "daprovider_collectPreimages" raw_msg) 503 (-32063) "collect preimages failed"%string &&
  forwarded (recover "daprovider_recoverPayloadAndPreimages" raw_msg) 502 (-32064) "recover payload and preimages failed"%string.

(** *** All methods *)

Definition payload_hex : string :=
  "0x3e5aa08200000000000000000000000000000000000000000000000000000000001249c4000000000000000000000000000000000000000000000000000000000024370b000000000000000000000000e64a54e2533fd126c2e452c5fab544d80e2e4eb50000000000000000000000000000000000000000000000000000000018eab6750000000000000000000000000000000000000000000000000000000018eab845".

Definition preimage_hash : string := "0xa63ab36162a4f4ee6622ccd787b0a048c26b93acfc05c6b1843659b253c3c00b".

(** The provider of the test: the result for each method, and nothing for another. *)
Definition all_methods_mock (_ : string) (v : Value) : Z * bytes :=
  let answer result := (200, text_of (reply result)) in
  if as_str (index v "method") =! Some "daprovider_getMaxMessageSize"%string then
    answer (JObject [("max_size"%string, JNumber 1048576)])
  else if as_str (index v "method") =! Some "daprovider_getSupportedHeaderBytes"%string then
    answer (JObject [("headerBytes"%string, JString "0xdeadbeef")])
  else if as_str (index v "method") =! Some "daprovider_store"%string then
    answer (JObject [("serialized-da-cert"%string, hex_value mock_downstream_cert)])
  else if as_str (index v "method") =! Some "daprovider_recoverPayload"%string then
    answer (JObject [("Payload"%string, JString payload_hex)])
  else if as_str (index v "method") =! Some "daprovider_collectPreimages"%string then
    answer (JObject [("Preimages"%string, JObject [("3"%string, JObject [(preimage_hash, JString payload_hex)])])])
  else (404, []).

Definition test_all_da_api_methods : bool :=
  let ask := ask [provider "anytrust" false] TEST_CALLDATA_MAX_SIZE all_methods_mock "/arb/anytrust" in
  let result r := index r.2 "result" in
  ok_and (ask max_size_request) (λ r, value_eqb (index (result r) "max_size") (JNumber 1048576)) &&
  ok_and (ask header_bytes_request) (λ r, value_eqb (index (result r) "headerBytes") (JString "0x70deadbeef")) &&
  ok_and (ask store_call) (λ r, ok_and (certificate_of r.2) (λ cas_cert,
    (min_hotshot_block_still_in_streamer_queue cas_cert =! 0) && negb (is_empty (downstream_certificate cas_cert)) &&
    ok_and (to_bytes cas_cert) (λ b,
      let params := [JNumber 80; JString "0x3e5aa082000000000000000000000000000000000000000000000000001249c4";
                     hex_value (sequencer_message b)] in
      ok_and (ask (request "daprovider_recoverPayload" params))
        (λ r, ok_and (recover_payload_from_value (result r)) (λ payload, payload =! payload_hex)) &&
      ok_and (ask (request "daprovider_collectPreimages" params))
        (λ r, ok_and (preimages_from_value (H:=serde_codec) (result r)) (λ preimages,
          match preimages !! "3"%string, bytes_of_hex (JString preimage_hash) with
          | Some m, Ok h => (m !! h) =! ok (bytes_of_hex (JString payload_hex))
          | _, _ => false
          end))))).

Example server_tests_pass :
  forallb id [test_namespace_endpoints; test_anytrust_header_bytes_returned_locally; test_all_da_api_methods;
              test_recover_payload_forwards_raw_msg_when_cas_cert_invalid;
              test_recover_payload_rejects_invalid_cas_cert_when_header_byte_present;
              test_recover_payload_rejects_short_sequencer_msg; test_store_success_returns_cas_certificate;
              test_store_malformed_response_returns_parsing_error; test_store_fallback_to_calldata_on_fallback_error;
              test_store_wrong_field_name_in_response_fails_parsing; test_calldata_max_size_is_configurable;
              test_store_da_provider_generic_error_propagates; test_store_message_too_large_error_propagates;
              test_store_error_response_is_forwarded_unchanged;
              test_non_store_da_api_error_responses_are_forwarded_unchanged] = true.
Proof. vm_compute. reflexivity. Qed.
