(* ===== verification/ConformLarge.v ===== *)
(** * The repository's tests with large inputs

    The tests of [src/src/rollups/nitro/batch_parsing.rs] and
    [src/src/da_api/nitro/server_tests.rs] at the limits of the program.  The smallest
    is evaluated; the others hold by the lemmas on the limits. *)

From S2P Require Import Prelude Bytes Slice Config Json JsonSyntax Rollup NitroTypes GoBigInt NitroVerify Rlp RlpInstance Batch.
From S2P Require Import FeedJson WireText NitroPayload DaError KeyManager Certificate DaServer DaCodec DaServerTheorems DaReply.
From S2P Require Import ConformNitro ConformDa.
From Stdlib Require Import Strings.Byte.
#[local] Open Scope cas_scope.

(** ** Batches *)

Definition brotli_l2_msg_oversize_errors : bool :=
  let huge := replicate (Z.to_nat (MAX_L2_MESSAGE_SIZE + 1)) x00 in
  parse_error (wrap_brotli (segment BATCH_SEGMENT_KIND_L2_MESSAGE_BROTLI (brotli_compress huge) ++
                            segment BATCH_SEGMENT_KIND_DELAYED_MESSAGES [])) "would replay as a placeholder".

Definition max_segments_enforced : bool :=
  parse_error (wrap_brotli (concat (replicate (S MAX_SEGMENTS) (segment BATCH_SEGMENT_KIND_DELAYED_MESSAGES []))))
    "too many segments".

Definition decompressed_oversize_errors : bool :=
  parse_error (wrap_brotli (replicate (Z.to_nat (MAX_DECOMPRESSED_LEN + 1)) x00)) "too large".

Lemma zlen_concat_replicate {X} n (l : list X) : zlen (concat (replicate n l)) = Z.of_nat n * zlen l.
Proof. unfold zlen. induction n as [|n IH]; [done|]. cbn [replicate concat]. rewrite length_app. lia. Qed.

Example brotli_l2_msg_oversize_errors_holds : brotli_l2_msg_oversize_errors = true.
Proof. vm_compute. reflexivity. Qed.

(** What a stored stream decompresses to. *)
Lemma stored_decompress data n :
  decompress (B:=test_brotli) (brotli_compress data) n =
  if decide (zlen data ≤ n) then Ok data else Err "decompression result too large"%string.
Proof.
  rewrite decompress_cases. cbn [brotli_take test_brotli test_take brotli_compress].
  destruct (Z.leb_spec (zlen data) (n + 1)) as [H|H]; [done|].
  unfold zlen in *. rewrite !decide_False; [done|lia|]. rewrite length_take. lia.
Qed.

Lemma max_segments_enforced_holds : max_segments_enforced = true.
Proof.
  set (s := [BATCH_SEGMENT_KIND_DELAYED_MESSAGES]).
  assert (Hlen : zlen (encode bytes_codec s) = 1) by by vm_compute.
  assert (E : parse_batch (B:=test_brotli) (wrap_brotli (concat (replicate (S MAX_SEGMENTS) (encode bytes_codec s)))) =
              Err "too many segments in sequence batch"%string).
  { apply (parse_batch_too_many (B:=test_brotli) _ (replicate (S MAX_SEGMENTS) s)).
    - rewrite fmap_replicate, stored_decompress, decide_True; [done|].
      rewrite zlen_concat_replicate, Hlen. unfold MAX_SEGMENTS. rewrite Nat2Z.inj_succ, Z2Nat.id by done. by vm_compute.
    - apply Forall_forall. intros x [-> _]%elem_of_replicate. by vm_compute.
    - rewrite length_replicate. lia. }
  unfold max_segments_enforced, parse_error, segment, rlp_encode. fold s. rewrite E. by vm_compute.
Qed.

Lemma decompressed_oversize_errors_holds : decompressed_oversize_errors = true.
Proof.
  assert (E : parse_batch (B:=test_brotli) (wrap_brotli (replicate (Z.to_nat (MAX_DECOMPRESSED_LEN + 1)) x00)) =
              Err "decompression result too large"%string).
  { unfold parse_batch, wrap_brotli. rewrite decide_True by done. rewrite stored_decompress, decide_False; [done|].
    unfold zlen. rewrite length_replicate, Z2Nat.id by done. lia. }
  unfold decompressed_oversize_errors, parse_error. rewrite E. by vm_compute.
Qed.

(** ** The DA server *)

(** The answer of the calldata route to a request to store [oversized], its text being
    the JSON of the request. *)
Definition oversized_response (oversized : bytes) : option Response :=
  let req := request "daprovider_store" [hex_value oversized; JNumber 5000] in
  respond (J:=serde_codec) (S:=test_signer) (λ _ _ _, SendError "no provider"%string) test_verification
    (provider_state test_key_manager TEST_CALLDATA_MAX_SIZE calldata_provider) (text_of req).

(** The reply has the status and the message of Nitro's [ErrMessageTooLarge]. *)
Definition rejected_as_too_large (r : option Response) : bool :=
  match r with
  | Some resp =>
      (status resp =! BAD_REQUEST) &&
      ok_and (json_from_slice (JsonCodec:=serde_codec) (body resp)) (λ v,
        match as_str (index (index v "error") "message") with
        | Some err_msg => contains err_msg "message too large for current DA backend"
        | None => false
        end)
  | None => false
  end.

Definition test_store_rejects_oversized_calldata_batch : bool :=
  rejected_as_too_large (oversized_response (replicate (Z.to_nat (TEST_CALLDATA_MAX_SIZE + 1)) x00)).

(** The text of a document is read back. *)
Lemma text_of_reads v : is_Some (print_value v) → json_from_slice (JsonCodec:=serde_codec) (text_of v) = Ok v.
Proof.
  intros [b Hb]. assert (Hv : json_to_vec (JsonCodec:=serde_codec) v = Ok b).
  { cbn [json_to_vec serde_codec json_print json_text]. by rewrite Hb. }
  unfold text_of. rewrite Hv. by apply (json_roundtrip (J:=serde_codec)).
Qed.

Lemma oversized_rejected data :
  TEST_CALLDATA_MAX_SIZE < zlen data → rejected_as_too_large (oversized_response data) = true.
Proof.
  intros Hd. unfold oversized_response, respond. set (req := request _ _).
  assert (Hp : store_params (J:=serde_codec) req = Ok (data, 5000)).
  { unfold store_params. cbn [as_array index]. change (as_array (index req "params")) with (Some [hex_value data; JNumber 5000]).
    cbn [bytes_from_value serde_codec u64_from_value]. by rewrite bytes_of_hex_value. }
  assert (Hr : json_from_slice (JsonCodec:=serde_codec) (text_of req) = Ok req) by (apply text_of_reads; by eexists).
  unfold handle_rpc. rewrite Hr. cbn [map_err].
  change (as_str (index req "method")) with (Some "daprovider_store"%string). cbn [ok_or]. rewrite decide_True by done.
  unfold handle_store. rewrite Hp. change (max_message_size (provider_state _ _ _)) with (Some TEST_CALLDATA_MAX_SIZE).
  cbv beta iota. rewrite (proj2 (Z.ltb_lt _ _)) by done. by vm_compute.
Qed.

Lemma test_store_rejects_oversized_calldata_batch_holds : test_store_rejects_oversized_calldata_batch = true.
Proof. apply oversized_rejected. unfold zlen. rewrite length_replicate, Z2Nat.id by done. lia. Qed.
