(* ===== verification/Supervisor.v ===== *)
(** * The tasks of the service and how it ends

    The feed relay as it is put together ([src/src/rollups/nitro/feed/relay.rs],
    [feed/broadcaster.rs], [feed/client.rs], [nitro.rs]), how each task of [run]
    ([src/src/main.rs]) can end, and what [run] returns. *)

From S2P Require Import Prelude Bytes Slice Config Rollup MockRollup Streamer Poller.
From S2P Require Import NitroTypes Rlp Batch NitroPayload Nitro NitroTheorems Feed FeedClient FeedLifecycle Relay Submitter WritePath.
From S2P Require Import DaError KeyManager Certificate DaServer DaServerTheorems DaReply EspressoClient Startup Service.
From Stdlib Require Import Strings.Byte.

(** ** The feed relay *)

Section relay.
Context {J : NitroJson} {K : Crypto}.
Context (hash : BroadcastFeedMessage → Z → result B256 string).
Context (broadcast_from_slice : bytes → result BroadcastMessage string).

Definition FeedMessageVerifier : Type := Z → list Address → BroadcastFeedMessage → result unit string.

Record Broadcaster := {
  ws_config : WsBroadcastServerConfig;
  server_chain_id : Z;
  channel_capacity : nat;
  server_of : FeedLifecycle.ws_server;
}.

Definition Broadcaster_new (config : BroadcasterConfig) (chain_id : Z) : Broadcaster := {|
  ws_config := Config.ws_server config; server_chain_id := chain_id;
  channel_capacity := broadcast_channel_capacity config; server_of := server_new |}.

(** [bound] is the answer of the listener. *)
Definition Broadcaster_start (bound : result string string) (b : Broadcaster) : Broadcaster * result string string :=
  let '(s, r) := server_start bound (server_of b) in
  ({| ws_config := ws_config b; server_chain_id := server_chain_id b; channel_capacity := channel_capacity b;
      server_of := s |}, r).

(** The client with the verification it was built with. *)
Definition BroadcasterClient_new (config : BroadcasterClientConfig Address) (websocket_url : string)
    (chain_id current_message_count : Z) : BroadcasterClient * FeedMessageVerifier :=
  (new_with_verifier config websocket_url chain_id current_message_count, verify_broadcast_feed_message_signature hash).

Record FeedRelay := {
  relay_broadcaster : Broadcaster;
  relay_client : BroadcasterClient * FeedMessageVerifier;
}.

Definition FeedRelay_new (chain_id : Z) (config : FeedConfig Address) : FeedRelay := {|
  relay_broadcaster := Broadcaster_new (server config) chain_id;
  relay_client := BroadcasterClient_new (client config) (web_socket_url config) chain_id (current_message_count config) |}.

Definition FeedRelay_new_with_verifier (chain_id : Z) (config : FeedConfig Address) (verify : FeedMessageVerifier)
    : FeedRelay := {|
  relay_broadcaster := Broadcaster_new (server config) chain_id;
  relay_client :=
    (new_with_verifier (client config) (web_socket_url config) chain_id (current_message_count config), verify) |}.

(** How the client's task ends, if it does: [run_read_loop] has no exit, since
    [retry_connect] returns with a connection only. *)
Definition client_exit (relay : FeedRelay) (attempts : list attempt) (evs : list read_event)
    : option (result unit BroadcasterClientError) :=
  match run_feed_client (relay_client relay).2 broadcast_from_slice (relay_client relay).1 attempts evs with
  | Some (Err e) => Some (Err e)
  | Some (Ok _) | None => None
  end.

Definition start_feed_relay (config : NitroConfig Address) (bound : result string string) (evs : list relay_event)
    : list broadcast_op * option (result unit FeedRelayError) :=
  let relay := FeedRelay_new (chain_id config) (feed config) in
  let '(_, started) := Broadcaster_start bound (relay_broadcaster relay) in
  relay_run (match started with Ok _ => Ok tt | Err e => Err e end) evs.

(** What the relay's loop can see in the service.  The senders of both channels
    belong to tasks that [run] polls beside the relay, so neither channel closes
    while the relay runs. *)
Definition relay_sees (config : NitroConfig Address) (ev : relay_event) : Prop :=
  match ev with
  | L1SenderDropped | EspressoClosed => False
  | ClientExited r => ∃ attempts evs, client_exit (FeedRelay_new (chain_id config) (feed config)) attempts evs = Some r
  | L1Changed _ | ClientJoinError | EspressoRecv _ _ => True
  end.
End relay.

(** ** The tasks of [run] *)

Inductive SubmitterError := ChannelClosed | FailedToAcquirePermit.

(** What the streamer's loop makes of the end of its poller. *)
Inductive poller_end := PollerReturned | PollerFailed (e : string) | PollerPanicked (e : string).

Definition streamer_exit (p : poller_end) : result unit string :=
  match p with
  | PollerReturned => Err "hotshot poller exited unexpectedly"
  | PollerFailed e => Err ("hotshot poller failed: " +:+ e)
  | PollerPanicked e => Err ("hotshot poller task panicked: " +:+ e)
  end.

Inductive task_exit :=
| SubmitterTask (r : result unit SubmitterError)
| FeedTask (r : result unit FeedRelayError)
| StreamerTask (r : result unit string)
| DaTask (r : result unit DaApiError)
| L1MonitorTask.

(** [anyhow::Error]: what failed. *)
Inductive run_error :=
| RunSubmitter (e : SubmitterError)
| RunFeed (e : FeedRelayError)
| RunStreamer (e : string)
| RunDa (e : DaApiError).

(** The [select!] at the end of [run]. *)
Definition run_exit (ex : task_exit) : result unit run_error :=
  match ex with
  | SubmitterTask r => map_err RunSubmitter r
  | FeedTask r => map_err RunFeed r
  | StreamerTask r => map_err RunStreamer r
  | DaTask r => map_err RunDa r
  | L1MonitorTask => Ok tt
  end.

Section tasks.
Context {J : NitroJson} {K : Crypto} {S : Signer} {Genesis : Type}.
Context (hash : BroadcastFeedMessage → Z → result B256 string).
Context (broadcast_from_slice : bytes → result BroadcastMessage string).
Context (config : ServiceConfig Genesis Address (NitroConfig Address)) (km : KeyManager).

(** How a task of the [select!] of [run] can end first.  [submit_transactions] of
    [submitter.rs] leaves its loop only when its channel is closed and drained, with
    [ChannelClosed], since its semaphore is never closed; [start_feed_relay] and
    [da_api::run] end as their definitions say, [served] being the answer of
    [axum::serve]; [Streamer::run] ends with its poller; the loop of
    [NitroL1Monitor::start] in [l1_monitor.rs] has no exit, so there is no case for it. *)
Inductive exits : task_exit → Prop :=
| submitter_exits s :
    submitter_reachable (submitter config) (tx_ctor (namespace_id (rollup config))) s → main s = Returned →
    exits (SubmitterTask (Err ChannelClosed))
| feed_exits bound evs r :
    Forall (relay_sees hash broadcast_from_slice (stack (rollup config))) evs →
    (start_feed_relay hash (stack (rollup config)) bound evs).2 = Some r →
    exits (FeedTask r)
| streamer_exits p : exits (StreamerTask (streamer_exit p))
| da_exits bound e : da_run (da_server config) km bound = DaFailed e → exits (DaTask (Err e))
| da_serve_exits bound routes served :
    da_run (da_server config) km bound = DaServing routes → exits (DaTask (map_err Io served)).

(** A client's task ends with a fatal error only. *)
Lemma start_connect_fatal c backoff attempts e :
  start_connect c backoff attempts = Some (Err e) → is_fatal e = true.
Proof.
  revert backoff. induction attempts as [|a attempts IH]; intros backoff H; simpl in H; [done|].
  destruct (connect c a); [done|]. destruct (is_fatal e0) eqn:Ef; [|by apply IH in H]. by simplify_eq.
Qed.

Lemma client_exit_fatal relay attempts evs r :
  client_exit broadcast_from_slice relay attempts evs = Some r → ∃ e, r = Err e ∧ is_fatal e = true.
Proof.
  unfold client_exit, run_feed_client.
  destruct (start_connect _ _ attempts) as [[[c' attempts']|e]|] eqn:E; simpl; [|intros [= <-]|done].
  - by destruct (run_read_loop _ _ _ evs).
  - apply start_connect_fatal in E. eauto.
Qed.

Lemma relay_loop_exit evs r :
  Forall (relay_sees hash broadcast_from_slice (stack (rollup config))) evs → (relay_loop evs).2 = Some r →
  r = Err RelayJoin ∨ ∃ e, r = Err (RelayClient e) ∧ is_fatal e = true.
Proof.
  induction 1 as [|ev evs Hev Hevs IH]; simpl; [done|].
  destruct ev as [idx| |r'| |m l|]; simpl in *; try done.
  - destruct (relay_loop evs); simpl in *. done.
  - destruct Hev as (attempts & evs' & (e & -> & Hf)%client_exit_fatal). intros [= <-]. right. by exists e.
  - intros [= <-]. by left.
  - destruct (relay_loop evs); simpl in *. done.
Qed.

(** C37. The service is fail-stop: whichever task ends first, [run] returns an
    error, unless the HTTP server itself ended well; and a feed client that stops
    the service does so for a fatal error of configuration or protocol, never for
    a lost connection. *)
Theorem service_fails_stop ex :
  exits ex →
  (run_exit ex = Ok tt ↔ ex = DaTask (Ok tt)) ∧
  (∀ e, run_exit ex = Err (RunFeed (RelayClient e)) → is_fatal e = true).
Proof.
  assert (Hfeed : ∀ bound evs r, Forall (relay_sees hash broadcast_from_slice (stack (rollup config))) evs →
    (start_feed_relay hash (stack (rollup config)) bound evs).2 = Some r →
    ∃ e, r = Err e ∧ ∀ e', e = RelayClient e' → is_fatal e' = true).
  { intros bound evs r Hevs. unfold start_feed_relay, Broadcaster_start.
    destruct (server_start _ _) as [s [a|e]]; simpl; [|intros [= <-]; by exists (RelayBroadcaster e)].
    intros [-> |(e & -> & Hf)]%relay_loop_exit; [by exists RelayJoin| |done].
    exists (RelayClient e). split; [done|]. by intros e' [= <-]. }
  intros [s _ _|bound evs r Hevs Hr|p|bound e He|bound routes served Hd]; simpl.
  - by split; [split|].
  - destruct (Hfeed _ _ _ Hevs Hr) as (e & -> & Hf). simpl. split; [by split|]. intros e' [= ->]. by apply Hf.
  - destruct p; by split; [split|].
  - by split; [split|].
  - destruct served as [ []|]; by split; [split|].
Qed.

(** What [run] builds before it polls the tasks; [sender] is the channel to the
    relay and [bound] the answer of the DA server's listener.  The watched
    finalized index starts at 0. *)
Record run_tasks {A : AlloyRlp} {B : Brotli} (C : Type) := {
  submitter_task : submitter_state (M:=BroadcastFeedMessage) (Tx:=Transaction);
  feed_task : FeedRelay;
  streamer_task : loop_state (Nitro hash) C;
  da_task : da_outcome;
}.

Definition start_tasks {A : AlloyRlp} {B : Brotli} {C : Type} (sender : C) (bound : result unit string)
    : run_tasks C := {|
  submitter_task := submitter_new (submitter config);
  feed_task := FeedRelay_new hash (chain_id (stack (rollup config))) (feed (stack (rollup config)));
  streamer_task := run_init (R:=Nitro hash) (streamer config) (rollup config) 0 sender;
  da_task := da_run (da_server config) km bound |}.

(** The tasks of a service whose configuration was resolved against L1 agree: the
    feed client and the streamer start at one position, client and server speak of
    one chain, and the client verifies with the function the parser verifies with. *)
Lemma tasks_aligned {A : AlloyRlp} {B : Brotli} {C : Type} (sender : C) bound cfg0 checkpoint fresh_cursor :
  resolve_start cfg0 checkpoint fresh_cursor = Ok config →
  let tasks := start_tasks sender bound in
  let client := (relay_client (feed_task _ tasks)).1 in
  next_seq_num client = starting_pos (Streamer.config (streamer_of (streamer_task _ tasks))) ∧
  bc_chain_id client = server_chain_id (relay_broadcaster (feed_task _ tasks)) ∧
  feed_task _ tasks = FeedRelay_new_with_verifier (chain_id (stack (rollup config))) (feed (stack (rollup config)))
                        (verify_broadcast_feed_message_signature hash).
Proof.
  intros H. split_and!; [|done|done]. simpl. unfold resolve_start in H.
  destruct (is_fresh_deployment cfg0); simpl in H; split_ok; done.
Qed.
End tasks.

(** ** A feed client with no URL *)

Definition no_attempt : attempt := {|
  at_url := Err "relative URL without a base"%string; at_set_scheme := false; at_http_client := Ok tt;
  at_preflight := Err ""%string; at_connect := None |}.

Definition no_url : BroadcasterClientError := FeedClient.InvalidConfig "relative URL without a base".

Definition no_feed_exit : task_exit := FeedTask (Err (RelayClient no_url)).

Lemma no_feed_exits :
  exits (J:=small_json) (S:=toy_signer) feed_hash (λ _, Err ""%string) service_file toy_km no_feed_exit.
Proof.
  apply (feed_exits _ _ _ _ (Ok ""%string) [L1Changed 4; ClientExited (Err no_url)]); [|done].
  apply Forall_cons. split; [done|]. apply Forall_cons. split; [|by apply Forall_nil].
  by exists [no_attempt], [].
Qed.

Lemma service_fails_stop_witness :
  run_exit no_feed_exit ≠ Ok tt ∧ run_exit no_feed_exit = Err (RunFeed (RelayClient no_url)) ∧ is_fatal no_url = true.
Proof.
  destruct (service_fails_stop (J:=small_json) (S:=toy_signer) feed_hash (λ _, Err ""%string) service_file toy_km
    no_feed_exit no_feed_exits) as [Hok Hf].
  split; [by intros H%Hok|]. split; [done|]. by apply Hf.
Defined.
