(* ===== verification/Logging.v ===== *)
(** * The log filter

    [src/src/lib.rs]: the filter the service logs with, from [RUST_LOG] and then
    from the secret.  A filter is the text of its directives; [LevelFilter] and
    [EnvFilter] of [tracing_subscriber] are parameters. *)

From S2P Require Import Prelude.
From Stdlib Require Import Ascii.

(** [str::split] on a character: always at least one piece. *)
Fixpoint split_char (sep : ascii) (s : string) : list string :=
  match s with
  | EmptyString => [EmptyString]
  | String c s' =>
      if Ascii.eqb c sep then EmptyString :: split_char sep s'
      else match split_char sep s' with
           | [] => [String c EmptyString]
           | p :: ps => String c p :: ps
           end
  end.

(** [str::trim], for ASCII: white space is tab to carriage return and space. *)
Definition is_whitespace (c : ascii) : bool :=
  let n := nat_of_ascii c in (Nat.leb 9 n && Nat.leb n 13) || Nat.eqb n 32.

Fixpoint trim_start (s : string) : string :=
  match s with
  | String c s' => if is_whitespace c then trim_start s' else s
  | EmptyString => EmptyString
  end.

Fixpoint trim_end (s : string) : string :=
  match s with
  | EmptyString => EmptyString
  | String c s' =>
      match trim_end s' with
      | EmptyString => if is_whitespace c then EmptyString else String c EmptyString
      | t => String c t
      end
  end.

Definition trim (s : string) : string := trim_end (trim_start s).

Section logging.
Context {EnvFilter : Type}.
(** [str::parse::<LevelFilter>], [EnvFilter::try_new] and the lenient
    [EnvFilter::new], which drops directives that do not parse. *)
Context (level_parses : string → bool) (try_new : string → result EnvFilter string) (env_filter_new : string → EnvFilter).

Definition sets_level (filter : string) : bool :=
  existsb (λ directive, level_parses (trim directive)) (split_char "," filter).

Definition parse_override (filter : string) : result EnvFilter string :=
  if sets_level filter then try_new filter else try_new ("info," +:+ filter).

(** The reload handle: the active filter, and whether the subscriber is gone. *)
Record LogFilter := {
  active_filter : EnvFilter;
  subscriber_gone : bool;
}.

Definition apply_override (filter : string) (l : LogFilter) : LogFilter :=
  if bool_decide (trim filter = EmptyString) then l
  else
    match parse_override filter with
    | Err _ => l
    | Ok new_filter =>
        if subscriber_gone l then l
        else {| active_filter := new_filter; subscriber_gone := false |}
    end.

(** [rust_log] is the environment variable; [installed] whether this logger could
    be installed as the global one, in which case its filter can be reloaded. *)
Definition init_logging (rust_log : option string) (installed : bool) : LogFilter :=
  {| active_filter := env_filter_new (default "info"%string rust_log); subscriber_gone := negb installed |}.

(** What an override can do, whatever its text: nothing, when it is blank or does
    not parse, or switch to a filter that has a level of its own or the baseline
    [info].  It never fails. *)
Lemma apply_override_spec filter l :
  apply_override filter l = l ∨
  ∃ text f, try_new text = Ok f ∧ active_filter (apply_override filter l) = f ∧ trim filter ≠ EmptyString ∧
    (text = filter ∧ sets_level filter = true ∨ text = "info," +:+ filter ∧ sets_level filter = false).
Proof.
  unfold apply_override. case_bool_decide as Ht; [by left|]. unfold parse_override.
  destruct (sets_level filter) eqn:Es.
  - destruct (try_new filter) as [f|] eqn:En; [|by left]. destruct (subscriber_gone l); [by left|].
    right. exists filter, f. split_and!; auto.
  - destruct (try_new ("info," +:+ filter)) as [f|] eqn:En; [|by left]. destruct (subscriber_gone l); [by left|].
    right. exists ("info," +:+ filter), f. split_and!; auto.
Qed.

(** The text handed to the filter always sets a level, if [info] is one. *)
Lemma override_has_level filter :
  level_parses "info" = true →
  sets_level (if sets_level filter then filter else "info," +:+ filter) = true.
Proof.
  intros Hi. destruct (sets_level filter) eqn:Es; [done|].
  unfold sets_level. simpl. change (trim "info") with "info"%string. by rewrite Hi.
Qed.
End logging.

(** A misspelt level is read as a module name, and the baseline is kept. *)
Example misspelt_level :
  let level_parses s := bool_decide (s ∈ ["info"; "debug"; "warn"]%string) in
  apply_override level_parses (λ s, Ok s) "debgu" (init_logging id (Some "warn"%string) true) =
    {| active_filter := "info,debgu"%string; subscriber_gone := false |} ∧
  apply_override level_parses (λ s, Ok s) "light_client=warn, debug" (init_logging id None true) =
    {| active_filter := "light_client=warn, debug"%string; subscriber_gone := false |} ∧
  apply_override level_parses (λ s, Ok s) "  " (init_logging id None true) = init_logging id None true.
Proof. by vm_compute. Qed.
