(* ===== verification/Main.v ===== *)
(** * The service from its first line

    [main] and the start of [run] ([src/src/main.rs]) as one definition: each step
    in its place, the first error ends the process, and what the process does to the
    outside is recorded in order.  The tasks themselves are [System]'s. *)

From S2P Require Import Prelude Bytes Slice Config Rollup NitroTypes Rlp RlpInstance Batch NitroPayload.
From S2P Require Import MockRollup Streamer StreamerProofs StreamerRun StreamerTheorems Poller.
From S2P Require Import Nitro NitroTheorems L1Monitor L1Provider EspressoClient Startup Json ConfigJson Service Logging KeyManager Attestation.

(** What the process does to the outside. *)
Inductive main_effect :=
| ReadConfigFile (path : string)
| FetchSecrets
| GetChainId (url : string)
| UseKeyManager (calls : list km_call)
| ConnectL1 (url : string)
| ReadStartPosition
| BuildReader.

Inductive main_error :=
| MainFile (e : string)
| MainConfig (e : string)
| MainSecrets (e : string)
| MainSigner (e : string)
| MainUrl (e : string)
| MainRpc (e : string)
| MainKeyManager (e : StartError)
| MainInitialize (e : KeyManagerError)
| MainL1 (e : L1MonitorError)
| MainReader (e : LightClientError)
| MainPanic (e : string).

(** ** Steps that record what they did

    [None] is a step that does not return. *)
Definition M (X : Type) : Type := list main_effect * option (result X main_error).

Definition ret {X} (x : X) : M X := ([], Some (Ok x)).
Definition lift {X E} (f : E → main_error) (r : result X E) : M X := ([], Some (map_err f r)).
Definition did {X E} (eff : main_effect) (f : E → main_error) (r : result X E) : M X := ([eff], Some (map_err f r)).

Definition bindM {X Y} (m : M X) (k : X → M Y) : M Y :=
  match m.2 with
  | Some (Ok x) => (m.1 ++ (k x).1, (k x).2)
  | Some (Err e) => (m.1, Some (Err e))
  | None => (m.1, None)
  end.

Notation "'do' x ← m ; k" := (bindM m (λ x, k))
  (at level 100, x name, m at level 99, k at level 200, right associativity) : cas_scope.

Lemma bindM_Ok {X Y} (m : M X) (k : X → M Y) t y :
  bindM m k = (t, Some (Ok y)) → ∃ t1 x t2, m = (t1, Some (Ok x)) ∧ k x = (t2, Some (Ok y)) ∧ t = t1 ++ t2.
Proof.
  unfold bindM. destruct m as [t1 [ [x|e]|] ]; simpl; [|by intros [=]..].
  destruct (k x) as [t2 r] eqn:E. intros [= <- ->]. by eexists t1, x, t2.
Qed.

Lemma did_Ok {X E} eff (f : E → main_error) (r : result X E) t x :
  did eff f r = (t, Some (Ok x)) → t = [eff] ∧ r = Ok x.
Proof. unfold did. destruct r; simpl; intros [= <- <-]. done. Qed.

Lemma lift_Ok {X E} (f : E → main_error) (r : result X E) t x : lift f r = (t, Some (Ok x)) → t = [] ∧ r = Ok x.
Proof. unfold lift. destruct r; simpl; intros [= <- <-]. done. Qed.

Section main.
Context {S : Signer} {K : Crypto} {O : Outside S}.
Context {Log : Type} {Rpc : L1Rpc Log} (decode_log : Log → result EspressoCertificateVerified string).
Context {Genesis Storage Server LightClient : Type} {LCC : LightClientCrate Genesis Storage Server LightClient}.
Context (stake_table_is_empty : Genesis → bool) (url_parse : string → result string string).
Context (zero_address : Address) (address_de : Value → result Address string) (genesis_de : Value → result Genesis string).
Context {EnvFilter : Type} (level_parses : string → bool) (try_new : string → result EnvFilter string)
  (env_filter_new : string → EnvFilter).

#[local] Abbreviation Cfg := (ServiceConfig Genesis Address (NitroConfig Address)).

(** The process: its arguments, files and environment, the parsers of a JSON text
    and of a key, the L1 node over HTTP, the key drawn at random, and
    the instants at which the L1 node is asked for the start position. *)
Record process := {
  cli_config : string;
  read_to_string : string → result string string;
  from_str : string → result Value string;
  process_env : environment;
  rust_log : option string;
  logger_installed : bool;
  signer_from_str : string → result PrivateKeySigner string;
  get_chain_id : string → result Z string;
  random_signer : PrivateKeySigner;
  build : build_features;
  monitor_instant : nat;
  count_instant : nat;
  delayed_instant : nat;
}.

(** What the tasks are started with. *)
Record service := {
  sv_config : Cfg;
  sv_key_manager : KeyManager;
  sv_tee : tee_world;
  sv_client : EspressoClientConfig;
  sv_monitor : NitroL1Monitor;
  sv_cursor_fetcher : NitroBatchCursorFetcher;
  sv_reader : dyn_reader LightClient;
  sv_log_filter : LogFilter (EnvFilter:=EnvFilter);
}.

(** [serde_json::from_str::<ServiceConfig<C>>]. *)
Definition config_from_str {C} (p : process) (de_stack : Value → result C string) (contents : string)
    : result (ServiceConfig Genesis Address C) string :=
  let? v := from_str p contents in
  de_ServiceConfig address_de genesis_de url_parse de_stack v.

Abbreviation nitro_config := (λ p, config_from_str p (de_NitroConfig zero_address address_de)).

(** What [tokio]'s channels and semaphores take: [Semaphore::MAX_PERMITS] is
    [usize::MAX >> 3]. *)
Definition MAX_PERMITS : Z := 2 ^ 61 - 1.

Definition channel (capacity : nat) : result unit string :=
  if (capacity =? 0)%nat then Err "mpsc bounded channel requires buffer > 0"%string
  else if MAX_PERMITS <? Z.of_nat capacity then Err "a semaphore may not have more than MAX_PERMITS permits"%string
  else Ok tt.

Definition semaphore (permits : nat) : result unit string :=
  if MAX_PERMITS <? Z.of_nat permits then Err "a semaphore may not have more than MAX_PERMITS permits"%string else Ok tt.

(** [EspressoClient::from_config]. *)
Definition from_config (config : EspressoClientConfig) : result EspressoClientConfig string :=
  let? _ := client_build (client_timeout_secs config) in Ok config.

(** [run] up to the tasks. *)
Definition run_start (p : process) (config : Cfg) (km : KeyManager) (tee : tee_world) (l1_monitor : NitroL1Monitor)
    (filter : LogFilter) : M service :=
  do config' ←
    (if is_fresh_deployment config then
       did ReadStartPosition MainL1
         (resolve_start config (Err BlockNotFound)
            (fetch_latest_batch_cursor_on_fresh_deployment l1_monitor (count_instant p) (delayed_instant p)))
     else
       match fetch_latest_checkpoint_on_startup decode_log l1_monitor (count_instant p) with
       | None => ([ReadStartPosition], None)
       | Some checkpoint => did ReadStartPosition MainL1 (resolve_start config checkpoint (Err BlockNotFound))
       end);
  do client ← lift MainPanic (from_config (ec_client (espresso_client config')));
  do _ ← lift MainPanic (channel (submitter_input_channel_capacity (advanced config')));
  do _ ← lift MainPanic (semaphore (max_in_flight (submitter config')));
  do _ ← lift MainPanic (channel (espresso_finalized_message_channel_capacity (advanced config')));
  do reader ← did BuildReader MainReader (build_reader (build p) (espresso_client config'));
  do _ ← lift MainPanic (channel (verification_channel_capacity (advanced config')));
  ret {| sv_config := config'; sv_key_manager := km; sv_tee := tee; sv_client := client; sv_monitor := l1_monitor;
         sv_cursor_fetcher := create_cursor_fetcher l1_monitor; sv_reader := reader; sv_log_filter := filter |}.

Definition main (p : process) : M service :=
  let log_filter0 := init_logging env_filter_new (rust_log p) (logger_installed p) in
  do config_contents ← did (ReadConfigFile (cli_config p)) MainFile (read_to_string p (cli_config p));
  do untyped ← lift MainConfig (config_from_str p Ok config_contents);
  let 'RollupNitro := ty (rollup untyped) in
  do config ← lift MainConfig (nitro_config p config_contents);
  do overrides ← did FetchSecrets MainSecrets
    (fetch_secret_overrides (overrides_from_str url_parse (from_str p)) (wrapper_from_str (from_str p)) (process_env p)
       (tee_type_cfg (Config.key_manager config)));
  let filter := match overrides ≫= log_filter with
                | Some f => apply_override level_parses try_new f log_filter0
                | None => log_filter0
                end in
  do config ← lift MainSecrets
    match overrides with Some o => apply_overrides_nitro url_parse config o | None => Ok config end;
  do _ ← lift MainSecrets
    (assert_no_placeholders_nitro stake_table_is_empty url_parse (feature_unverified_reader (build p)) config);
  do operator_private_key ← lift MainSecrets (resolve_operator_private_key (process_env p) overrides);
  do operator_signer ← lift MainSigner (signer_from_str p operator_private_key);
  do l1_http_url ← lift MainUrl (url_parse (l1_http_url (stack (rollup config))));
  do parent_chain_id ← did (GetChainId l1_http_url) MainRpc (get_chain_id p l1_http_url);
  do built ← lift MainKeyManager
    (build_key_manager (Config.key_manager config) l1_http_url operator_signer (random_signer p) parent_chain_id);
  let '(km, tee) := built in
  do _ ← did (UseKeyManager (initialize tee km).2) MainInitialize (initialize tee km).1;
  do l1_monitor ← did (ConnectL1 (l1_ws_url (stack (rollup config)))) MainL1
    (create_l1_monitor (monitor_instant p) (stack (rollup config)));
  run_start p config km tee l1_monitor filter.

(** ** What a start guarantees *)

Lemma channel_ok n : channel n = Ok tt → 0 < Z.of_nat n ≤ MAX_PERMITS.
Proof. unfold channel. intros H. case_bool; try done. lia. Qed.

(** The three channels that [run] creates itself can be created.  (The capacity of
    the streamer's HotShot channel and that of the feed server's broadcast channel are
    met later, inside the tasks.) *)
Definition channels_fit (a : AdvancedConfig) : Prop :=
  Forall (λ n, 0 < Z.of_nat n ≤ MAX_PERMITS)
    [submitter_input_channel_capacity a; espresso_finalized_message_channel_capacity a; verification_channel_capacity a].

Lemma resolve_start_placeholders unverified (cfg : Cfg) checkpoint fresh_cursor (cfg' : Cfg) :
  resolve_start cfg checkpoint fresh_cursor = Ok cfg' →
  assert_no_placeholders_nitro stake_table_is_empty url_parse unverified cfg' =
  assert_no_placeholders_nitro stake_table_is_empty url_parse unverified cfg ∧
  starting_pos (streamer cfg') = current_message_count (feed (stack (rollup cfg'))) ∧
  l1_ws_url (stack (rollup cfg')) = l1_ws_url (stack (rollup cfg)) ∧
  l1_http_url (stack (rollup cfg')) = l1_http_url (stack (rollup cfg)).
Proof. unfold resolve_start. intros H. destruct (is_fresh_deployment cfg); simpl in H; by split_ok. Qed.

Lemma fresh_cursor_typed m t1 t2 b :
  fetch_latest_batch_cursor_on_fresh_deployment m t1 t2 = Ok b → is_u64 (next_batch_start_pos b).
Proof.
  unfold fetch_latest_batch_cursor_on_fresh_deployment, monitor_message_count, fetch_message_count. intros H. split_ok.
  match goal with E : U256_to_u64 _ = Ok _ |- is_u64 ?x => destruct (U256_to_u64_ok _ _ E) as [-> ?] end. done.
Qed.

Lemma scan_loop_typed fuel scanner step max_blocks earliest to c :
  (scan_loop decode_log fuel scanner step max_blocks earliest to).1 = Some (Ok c) →
  is_u64 (next_batch_start_pos (batch_cursor c)) ∧ is_u64 (checkpoint_hotshot_height c).
Proof.
  revert to. induction fuel as [|fuel IH]; intros to; simpl; [done|].
  destruct (get_logs _ _ _) as [logs|]; [|done]. destruct (last logs) as [log|].
  - simpl. intros [= H]. unfold checkpoint_of in H. split_ok. repeat match goal with
    E : U256_to_u64 _ = Ok _ |- _ => apply U256_to_u64_ok in E as [-> ?] end. done.
  - destruct (_ =? earliest); [destruct (0 <? max_blocks); [done|by intros [= <-]]|].
    destruct (scan_loop _ fuel _ _ _ _ _) as [r rs] eqn:E. simpl. intros ->. eapply IH. by rewrite E.
Qed.

Lemma checkpoint_typed m t c :
  fetch_latest_checkpoint_on_startup decode_log m t = Some (Ok c) →
  is_u64 (next_batch_start_pos (batch_cursor c)) ∧ is_u64 (checkpoint_hotshot_height c).
Proof.
  unfold fetch_latest_checkpoint_on_startup, scan_for_latest_checkpoint. destruct (L1Monitor.get_block_number _); [|done].
  apply scan_loop_typed.
Qed.

Lemma run_start_ok p config km tee m filter t sv :
  run_start p config km tee m filter = (t, Some (Ok sv)) →
  t = [ReadStartPosition; BuildReader] ∧ sv_key_manager sv = km ∧ sv_monitor sv = m ∧
  sv_cursor_fetcher sv = create_cursor_fetcher m ∧
  (∃ checkpoint fresh_cursor, resolve_start config checkpoint fresh_cursor = Ok (sv_config sv)) ∧
  (typed_config config → typed_config (sv_config sv)) ∧
  sv_client sv = ec_client (espresso_client (sv_config sv)) ∧ channels_fit (advanced (sv_config sv)) ∧
  build_reader (build p) (espresso_client (sv_config sv)) = Ok (sv_reader sv).
Proof.
  unfold run_start. intros (t1 & cfg' & t2 & H1 & H2 & ->)%bindM_Ok.
  apply bindM_Ok in H2 as (? & c & ? & [-> Hc]%lift_Ok & H2 & ->). apply bindM_Ok in H2 as (? & [] & ? & [-> Hs1]%lift_Ok & H2 & ->).
  apply bindM_Ok in H2 as (? & [] & ? & [-> _]%lift_Ok & H2 & ->). apply bindM_Ok in H2 as (? & [] & ? & [-> Hs2]%lift_Ok & H2 & ->).
  apply bindM_Ok in H2 as (? & r & ? & [-> Hr]%did_Ok & H2 & ->). apply bindM_Ok in H2 as (? & [] & ? & [-> Hs3]%lift_Ok & H2 & ->).
  unfold ret in H2. injection H2 as <- <-. simpl. apply channel_ok in Hs1, Hs2, Hs3.
  unfold from_config in Hc. destruct (client_build _) as [ [] |]; [|done]. injection Hc as <-.
  assert (t1 = [ReadStartPosition] ∧ (∃ checkpoint fresh_cursor, resolve_start config checkpoint fresh_cursor = Ok cfg') ∧
    (typed_config config → typed_config cfg')) as (-> & Hs & Ht).
  { destruct (is_fresh_deployment config).
    - apply did_Ok in H1 as [-> H1]. split_and!; [done|eauto|]. intros Hc. eapply resolve_start_typed; [exact Hc| | |exact H1]; [done|].
      intros b. apply fresh_cursor_typed.
    - destruct (fetch_latest_checkpoint_on_startup _ _ _) as [cp|] eqn:Ecp; [|done]. apply did_Ok in H1 as [-> H1].
      split_and!; [done|eauto|]. intros Hc. eapply resolve_start_typed; [exact Hc| | |exact H1]; [|done].
      intros c' ->. by eapply checkpoint_typed. }
  split_and!; try done. by repeat (apply Forall_cons; split).
Qed.

(** C9. What a service that starts has gone through, in this order: the file was read
    and the secrets fetched, the contract named in the configuration the service runs
    with answered, as the last call of the key manager, that the address of the key
    drawn in this process is registered, the L1 monitor was connected, the start
    position was read from L1 and the reader was built.  The configuration has no
    placeholder left and the trust anchors of the file; feed client and streamer start
    at one position; the reader is the one the build and the configuration select; the
    three channels that [run] creates (to the submitter, to the feed relay, to the
    verifier) have capacities that [tokio] takes; and every number of the configuration
    is in the range of its type. *)
Theorem service_starts_sound p t sv :
  main p = (t, Some (Ok sv)) →
  ∃ contents file url calls,
    read_to_string p (cli_config p) = Ok contents ∧ nitro_config p contents = Ok file ∧
    t = [ReadConfigFile (cli_config p); FetchSecrets; GetChainId url; UseKeyManager calls;
         ConnectL1 (l1_ws_url (stack (rollup (sv_config sv)))); ReadStartPosition; BuildReader] ∧
    url_parse (l1_http_url (stack (rollup (sv_config sv)))) = Ok url ∧
    signer (sv_key_manager sv) = random_signer p ∧
    (∃ tee, last calls = Some (CallRegistered (signer_address (random_signer p)) tee (Ok true)) ∧
       ∃ n, call_isSignerValid n url (tee_verifier_address_cfg (Config.key_manager (sv_config sv)))
              (signer_address (random_signer p)) (tee_type_u8 tee) = Ok true) ∧
    assert_no_placeholders_nitro stake_table_is_empty url_parse (feature_unverified_reader (build p)) (sv_config sv) = Ok tt ∧
    anchors (sv_config sv) = anchors file ∧
    starting_pos (streamer (sv_config sv)) = current_message_count (feed (stack (rollup (sv_config sv)))) ∧
    typed_config (sv_config sv) ∧ channels_fit (advanced (sv_config sv)) ∧
    sv_client sv = ec_client (espresso_client (sv_config sv)) ∧
    build_reader (build p) (espresso_client (sv_config sv)) = Ok (sv_reader sv).
Proof.
  unfold main. intros (? & contents & ? & [-> Hc]%did_Ok & H & ->)%bindM_Ok.
  apply bindM_Ok in H as (? & untyped & ? & [-> _]%lift_Ok & H & ->). destruct (ty (rollup untyped)).
  apply bindM_Ok in H as (? & file & ? & [-> Hfile]%lift_Ok & H & ->).
  apply bindM_Ok in H as (? & o & ? & [-> Ho]%did_Ok & H & ->). cbv zeta in H.
  apply bindM_Ok in H as (? & cfg & ? & [-> Hcfg]%lift_Ok & H & ->).
  apply bindM_Ok in H as (? & [] & ? & [-> Hp]%lift_Ok & H & ->).
  apply bindM_Ok in H as (? & opk & ? & [-> _]%lift_Ok & H & ->).
  apply bindM_Ok in H as (? & op & ? & [-> _]%lift_Ok & H & ->).
  apply bindM_Ok in H as (? & url & ? & [-> Hurl]%lift_Ok & H & ->).
  apply bindM_Ok in H as (? & chain & ? & [-> _]%did_Ok & H & ->).
  apply bindM_Ok in H as (? & [km tee] & ? & [-> Hkm]%lift_Ok & H & ->).
  apply bindM_Ok in H as (? & [] & ? & [-> Hinit]%did_Ok & H & ->).
  apply bindM_Ok in H as (? & mon & ? & [-> Hmon]%did_Ok & H & ->).
  apply run_start_ok in H as (-> & <- & _ & _ & (cp & fc & Hres) & Htyped & Hclient & Hchan & Hreader).
  destruct (resolve_start_placeholders (feature_unverified_reader (build p)) _ _ _ _ Hres) as (Hph & Hpos & -> & ->).
  pose proof (resolve_start_anchors _ _ _ _ Hres) as Han.
  assert (Ha : anchors cfg = anchors file).
  { destruct o as [o|]; [|by simplify_eq]. by apply apply_overrides_spec in Hcfg as (? & _). }
  exists contents, file, url, (initialize tee (sv_key_manager sv)).2.
  assert (Ht : typed_config file).
  { unfold config_from_str in Hfile. destruct (from_str p contents); [|done]. by eapply de_config_typed. }
  assert (Ht' : typed_config cfg).
  { destruct o as [o|]; [|by simplify_eq]. eapply apply_overrides_typed; [done| |done]. by eapply fetched_typed. }
  pose proof (build_key_manager_spec _ _ _ _ _ _ _ Hkm) as (Hsig & _).
  pose proof (initialize_last _ _ Hinit) as Hlast. unfold confirmed in Hlast. rewrite Hsig in Hlast.
  destruct (initialize_valid _ _ _ _ _ _ _ (initialize tee (sv_key_manager sv)).2 Hkm) as [n Hn].
  { by destruct (initialize tee (sv_key_manager sv)) as [r ?]; simpl in Hinit; subst. }
  assert (Hkey : Config.key_manager (sv_config sv) = Config.key_manager cfg) by exact (f_equal ta_key_manager Han).
  split_and!; try done; [|congruence|congruence|by apply Htyped].
  exists (on_chain_tee_type (sv_key_manager sv)). split; [exact Hlast|]. exists n. by rewrite Hkey.
Qed.

(** ** Every outcome *)

Ltac low :=
  cbn [app]; intros e He; repeat (apply elem_of_cons in He as [->|He]; [simpl; lia|]); by apply elem_of_nil in He.

(** The place of an effect. *)
Definition effect_rank (e : main_effect) : nat :=
  match e with
  | ReadConfigFile _ => 0 | FetchSecrets => 1 | GetChainId _ => 2 | UseKeyManager _ => 3
  | ConnectL1 _ => 4 | ReadStartPosition => 5 | BuildReader => 6
  end.

Lemma did_trace {X E Y} (P : list main_effect → Prop) pre eff (f : E → main_error) (r : result X E) (k : X → M Y) :
  P (pre ++ [eff]) → (∀ x, r = Ok x → P ((pre ++ [eff]) ++ (k x).1)) → P (pre ++ (bindM (did eff f r) k).1).
Proof.
  intros H1 H2. destruct r as [x|]; simpl; [|done]. specialize (H2 x eq_refl). by rewrite <- (assoc_L (++)) in H2.
Qed.

Lemma lift_trace {X E Y} (P : list main_effect → Prop) pre (f : E → main_error) (r : result X E) (k : X → M Y) :
  P pre → (∀ x, r = Ok x → P (pre ++ (k x).1)) → P (pre ++ (bindM (lift f r) k).1).
Proof. intros H1 H2. destruct r as [x|]; simpl; [by apply H2|by rewrite app_nil_r]. Qed.

(** [cfg] is the configuration of the process: the file's, with the overrides of the
    secret where there is one. *)
Definition configured (p : process) (cfg : Cfg) : Prop :=
  ∃ contents file overrides,
    read_to_string p (cli_config p) = Ok contents ∧ nitro_config p contents = Ok file ∧
    fetch_secret_overrides (overrides_from_str url_parse (from_str p)) (wrapper_from_str (from_str p)) (process_env p)
      (tee_type_cfg (Config.key_manager file)) = Ok overrides ∧
    match overrides with Some o => apply_overrides_nitro url_parse file o = Ok cfg | None => cfg = file end.

(** The trace [t] is in order; L1 is asked, and the key manager is used, at the URL and
    with the settings of a configuration that passed the check, and L1 is connected
    only once the contract has confirmed the fresh key. *)
Record in_order (p : process) (t : list main_effect) : Prop := {
  io_ranks : effect_rank <$> t = seq 0 (length t);
  io_config calls : UseKeyManager calls ∈ t → ∃ cfg url operator chain km tee,
    configured p cfg ∧
    assert_no_placeholders_nitro stake_table_is_empty url_parse (feature_unverified_reader (build p)) cfg = Ok tt ∧
    url_parse (l1_http_url (stack (rollup cfg))) = Ok url ∧ get_chain_id p url = Ok chain ∧
    build_key_manager (Config.key_manager cfg) url operator (random_signer p) chain = Ok (km, tee) ∧
    calls = (initialize tee km).2;
  io_registered url : ConnectL1 url ∈ t → ∃ cfg calls tee n http,
    configured p cfg ∧ url = l1_ws_url (stack (rollup cfg)) ∧
    url_parse (l1_http_url (stack (rollup cfg))) = Ok http ∧
    UseKeyManager calls ∈ t ∧
    last calls = Some (CallRegistered (signer_address (random_signer p)) tee (Ok true)) ∧
    call_isSignerValid n http (tee_verifier_address_cfg (Config.key_manager cfg))
      (signer_address (random_signer p)) (tee_type_u8 tee) = Ok true;
}.

(** The trace up to the use of the key manager. *)
Definition base_trace (p : process) (url : string) (calls : list km_call) : list main_effect :=
  [ReadConfigFile (cli_config p); FetchSecrets; GetChainId url; UseKeyManager calls].

Section base_trace.
Context (p : process) (cfg : Cfg) (url : string) (op : PrivateKeySigner) (chain : Z) (km : KeyManager) (tee : tee_world).
Context (Hconf : configured p cfg)
  (Hp : assert_no_placeholders_nitro stake_table_is_empty url_parse (feature_unverified_reader (build p)) cfg = Ok tt)
  (Hurl : url_parse (l1_http_url (stack (rollup cfg))) = Ok url) (Hchain : get_chain_id p url = Ok chain)
  (Hkm : build_key_manager (Config.key_manager cfg) url op (random_signer p) chain = Ok (km, tee)).

Lemma in_order_base l :
  effect_rank <$> l = seq 4 (length l) →
  (∀ u, ConnectL1 u ∈ l → u = l1_ws_url (stack (rollup cfg)) ∧ (initialize tee km).1 = Ok tt) →
  in_order p (base_trace p url (initialize tee km).2 ++ l).
Proof.
  intros Hl Hcon. unfold base_trace. split.
  - cbn [app fmap list_fmap length seq effect_rank]. by rewrite Hl.
  - intros calls Hin. apply elem_of_app in Hin as [Hin|Hin].
    + repeat (apply elem_of_cons in Hin as [Hin|Hin]; [simplify_eq|]); [|by apply elem_of_nil in Hin].
      exists cfg, url, op, chain, km, tee. by split_and!.
    + apply (list_elem_of_fmap_2 effect_rank) in Hin. rewrite Hl in Hin. apply elem_of_seq in Hin. simpl in Hin. lia.
  - intros u Hin. apply elem_of_app in Hin as [Hin|Hin].
    { repeat (apply elem_of_cons in Hin as [Hin|Hin]; [done|]). by apply elem_of_nil in Hin. }
    destruct (Hcon u Hin) as [-> Hinit].
    destruct (build_key_manager_spec _ _ _ _ _ _ _ Hkm) as (Hsig & _).
    destruct (initialize_valid _ _ _ _ _ _ _ (initialize tee km).2 Hkm) as [n Hn].
    { by destruct (initialize tee km) as [r ?]; simpl in Hinit; subst. }
    pose proof (initialize_last _ _ Hinit) as Hlast. unfold confirmed in Hlast. rewrite Hsig in Hlast.
    exists cfg, (initialize tee km).2, (on_chain_tee_type km), n, url.
    split_and!; try done. apply elem_of_app. left. set_solver.
Qed.

Lemma in_order_after (Hinit : (initialize tee km).1 = Ok tt) l :
  effect_rank <$> l = seq 5 (length l) →
  in_order p (base_trace p url (initialize tee km).2 ++ ConnectL1 (l1_ws_url (stack (rollup cfg))) :: l).
Proof.
  intros Hl. apply in_order_base; [cbn [fmap list_fmap length seq effect_rank]; by rewrite Hl|].
  intros u [ [= ->]|Hin]%elem_of_cons; [done|].
  apply (list_elem_of_fmap_2 effect_rank) in Hin. rewrite Hl in Hin. apply elem_of_seq in Hin. simpl in Hin. lia.
Qed.
End base_trace.

(** C38. Whatever fails, and wherever, the steps before it were taken in their order
    and none after it.  The key manager attests and registers only as built from the
    configuration of the process, the file with the secret's overrides applied, and
    only when this very configuration has no placeholder left; and L1 is connected, at
    the URL of that configuration, only after the contract it names has confirmed the
    address of the key drawn in this process. *)
Theorem main_stops_in_order p : in_order p (main p).1.
Proof.
  assert (Hnil : ∀ t, effect_rank <$> t = seq 0 (length t) → (∀ e, e ∈ t → effect_rank e < 3)%nat → in_order p t).
  { intros t Ht Hlt. split; [done|..]; intros x Hx; apply Hlt in Hx; simpl in Hx; lia. }
  unfold main. cbv zeta. match goal with |- in_order p ?x => change (in_order p ([] ++ x)) end.
  apply did_trace; [apply Hnil; [done|low]|]. intros contents Hc.
  apply lift_trace; [apply Hnil; [done|low]|]. intros untyped _. destruct (ty (rollup untyped)).
  apply lift_trace; [apply Hnil; [done|low]|]. intros file Hfile.
  apply did_trace; [apply Hnil; [done|low]|]. intros o Ho.
  apply lift_trace; [apply Hnil; [done|low]|]. intros cfg Hcfg.
  apply lift_trace; [apply Hnil; [done|low]|]. intros [] Hp.
  apply lift_trace; [apply Hnil; [done|low]|]. intros opk _.
  apply lift_trace; [apply Hnil; [done|low]|]. intros op _.
  apply lift_trace; [apply Hnil; [done|low]|]. intros url Hurl.
  apply did_trace; [apply Hnil; [done|low]|]. intros chain Hchain.
  apply lift_trace; [apply Hnil; [done|low]|]. intros [km tee] Hkm.
  assert (Hconf : configured p cfg).
  { exists contents, file, o. split_and!; try done. destruct o as [o|]; [done|]. by simplify_eq. }
  apply did_trace.
  { apply (in_order_base p cfg url op chain km tee Hconf Hp Hurl Hchain Hkm []); [done|by intros u ?%elem_of_nil]. }
  intros [] Hinit.
  pose proof (in_order_after p cfg url op chain km tee Hconf Hp Hurl Hchain Hkm Hinit) as Hafter.
  apply did_trace; [by apply (Hafter [])|]. intros mon _. unfold run_start.
  destruct (is_fresh_deployment cfg); [|destruct (fetch_latest_checkpoint_on_startup _ _ _)].
  3: by apply (Hafter [_]).
  all: apply did_trace; [by apply (Hafter [_])|]; intros cfg' _.
  all: do 4 (apply lift_trace; [by apply (Hafter [_])|]; intros ? _).
  all: apply did_trace; [by apply (Hafter [_; _])|]; intros ? _.
  all: apply lift_trace; [by apply (Hafter [_; _])|]; intros ? _.
  all: by apply (Hafter [_; _]).
Qed.
End main.

(** ** A concrete start *)

Definition start_document : Value :=
  JObject [("key_manager"%string, JObject [("tee_verifier_address"%string, JString "0x00");
             ("attestation_verifier_url"%string, JString "http://prover/")]);
           ("espresso_client"%string, JObject [("base_url"%string, JString PLACEHOLDER_URL);
             ("light_client"%string, JObject [("genesis"%string, JBool true)])]);
           ("rollup"%string, JObject [("type"%string, JString "nitro"); ("namespace_id"%string, JNumber 1);
             ("stack"%string, JObject [("chain_id"%string, JNumber 412346); ("l1_ws_url"%string, JString PLACEHOLDER_STR)])]);
           ("comment"%string, JNull)].

Definition start_process : process (S:=toy_signer) := {|
  cli_config := "/etc/cas.json"; read_to_string _ := Ok "config"%string;
  from_str s := if decide (s = "config"%string) then Ok start_document else toy_from_str s;
  process_env := toy_env;
  rust_log := None; logger_installed := true; signer_from_str _ := Ok Byte.x11; get_chain_id _ := Ok 1;
  random_signer := Byte.x2a; build := release_build; monitor_instant := 0; count_instant := 3; delayed_instant := 3 |}.

Definition start_main :=
  main (S:=toy_signer) (O:=toy_outside) (Rpc:=toy_rpc) (LCC:=toy_light_client) (λ _ : Z, Err "log"%string) negb toy_url_parse
    [] toy_address toy_genesis (λ _, true) (λ s, Ok s) (λ s, s) start_process.

Definition start_service :=
  match start_main.2 with Some (Ok sv) => Some sv | _ => None end.

Lemma start_main_ok : bool_decide (is_Some start_service) = true.
Proof. by vm_compute. Qed.

Lemma service_starts_sound_witness :
  ∃ t sv, start_main = (t, Some (Ok sv)) ∧ length t = 7%nat ∧
    starting_pos (streamer (sv_config sv)) = current_message_count (feed (stack (rollup (sv_config sv)))).
Proof.
  pose proof start_main_ok as Hok. unfold start_service in Hok.
  destruct start_main as [t [ [sv|]|] ] eqn:E; [|done..]. exists t, sv. split; [done|].
  destruct (service_starts_sound (S:=toy_signer) (O:=toy_outside) (Rpc:=toy_rpc) (LCC:=toy_light_client) (λ _ : Z, Err "log"%string)
    negb toy_url_parse [] toy_address toy_genesis (λ _, true) (λ s, Ok s) (λ s, s)
    start_process t sv E) as (contents & file & url & calls & _ & _ & -> & _ & _ & _ & _ & _ & Hp & _).
  split; [done|exact Hp].
Defined.

Lemma start_main_connects :
  existsb (λ e, match e with ConnectL1 _ => true | _ => false end) start_main.1 = true.
Proof. by vm_compute. Qed.

Lemma main_stops_in_order_witness :
  (∃ u, ConnectL1 u ∈ start_main.1) ∧
  ∃ calls tee, UseKeyManager calls ∈ start_main.1 ∧
    last calls = Some (CallRegistered (replicate 20 Byte.x2a) tee (Ok true)).
Proof.
  pose proof (main_stops_in_order (S:=toy_signer) (O:=toy_outside) (Rpc:=toy_rpc) (LCC:=toy_light_client)
    (λ _ : Z, Err "log"%string) negb toy_url_parse [] toy_address toy_genesis (λ _, true) (λ s, Ok s) (λ s, s)
    start_process) as Hord.
  assert (Hin : ∃ u, ConnectL1 u ∈ start_main.1).
  { pose proof start_main_connects as Hc. apply existsb_exists in Hc as (e & He%list_elem_of_In & Hk).
    destruct e; try done. by eexists. }
  split; [exact Hin|]. destruct Hin as [u Hin].
  destruct (io_registered _ _ _ _ _ _ _ Hord u Hin) as (cfg & calls & tee & n & http & _ & _ & _ & Hc & Hl & _).
  exists calls, tee. split; [exact Hc|exact Hl].
Defined.
